(* ===== verification/_CoqProject ===== *)
-Q . S2P
Prelude.v
Status.v
Frame.v
MethodHash.v
Transport.v
Mpsc.v
MpscWeak.v
Session.v
SessionSpec.v
Server.v
Proto.v
Generator.v
Channel.v
ChannelCallbacks.v
ChannelCore.v
ChannelConnection.v
ChannelRequests.v
ChannelReceive.v
ChannelTypes.v
ChannelProperties.v
ChannelFutures.v
Ends.v
ServerThreads.v
SessionEnd.v
ServerSpec.v
ChannelEnd.v
RpcSafety.v
EndToEnd.v
Push.v
Goroutines.v
GoFrame.v
GoWire.v
GoMessages.v
GoGenerator.v
ExampleProtos.v
GoChannel.v
GoChannelInvariants.v
GoChannelProperties.v
GoServer.v
GoServerInvariants.v
GoServerRequests.v
GoServerProperties.v
GoServices.v
GoShutdown.v
GoCompat.v
GoProto.v
GoChannelEnd.v
GoServerEnd.v
GoSafety.v
GoInterop.v
