(* ===== verification/Prelude.v ===== *)
(** * protocomm: a verification development

    protocomm is an RPC library.  A service is described in a protobuf file;
    a protoc plugin generates a client stub and a server skeleton; a method is
    routed by the 32-bit hash of its full name; requests, responses and server
    pushes travel as frames (a 16-byte header and a payload) over one TCP
    connection that opens with a fixed handshake.  There are two
    implementations, C++ (src/c++) and Go (src/go), which are meant to be able
    to talk to each other.  Paths of C++ files are relative to src/c++ below,
    those of Go files to src.

    ** The files, in order

    Prelude.  Fixed-width integers, bytes, runs of event machines, lists of
    call ids, occurrence counts, tactics and hints; no code of the library.

    C++, shared by both ends:
    - Status: include/protocomm/status.h, the codes with their casts.
    - Frame: src/frame.h, [Serialize] and [Deserialize] of a header.
    - MethodHash: include/protocomm/method_hash.h, [Fnv1a32].
    - Transport: src/transport.cc, handshakes and frames on a socket.
      Boost.Asio is the class [Asio]; what its documentation promises is
      [AsioStream] (a composed operation transfers everything or fails),
      [AsioReliable] and, for clients, [AsioClient] and [AsioClientStream].
      [pipe_asio] is a concrete instance, used by the witnesses.
    - Mpsc: src/mpsc_queue.h, one step per atomic access.  The interface
      [Fifo] is what the channel needs of it; [mpsc_fifo] discharges it.
    - MpscWeak: the same queue with the memory orders it names, over a memory
      of messages with release/acquire views, as the machine [weak_step].

    C++ server:
    - Session: src/session.cc, [Run], [WritePump] and the closures of the
      strand as the machine [session_step].
    - SessionSpec: a session as a sequential service, and its frames' types.
    - Server: src/server_impl.h, src/server.cc, src/server_builder.cc as the
      machine [server_step] over a heap of shared sessions.
    - ServerThreads: the io threads of src/server_impl.h and the loops of
      [Wait] and [Shutdown] that join them, as the machine [pool_step].
    - ServerSpec: the sessions of a server as one sequential service.

    C++ code generation:
    - Proto: include/protocomm/protobuf.h and async_call.h, and what the code
      emitted for a method does ([Stub_call], [Stub_async],
      [Stub_async_callback], [service_handler]).  The protobuf library is the
      class [Protobuf] with [ProtobufLaws].
    - Generator: protoc/generator.cpp, generator_utils.cpp, plugin.cpp as text
      generation, with the collision scan and the exit code.

    C++ client:
    - Channel: src/channel.cc as the machine [channel_step]: callers, strand,
      connection attempt, reader, write pump, [RunCallbacks], [Shutdown].
    - ChannelCallbacks, ChannelCore, ChannelConnection, ChannelRequests,
      ChannelReceive, ChannelTypes: its invariants by subject, one file each.
    - ChannelProperties: what it promises, and when it waits for ever.
    - ChannelFutures: the future and the blocking form of a call.

    C++, both ends together:
    - Ends: what a client end and a server end of a connection promise each
      other ([client_end], [server_end]), in terms of bytes only, and their
      composition [ends_safe].
    - SessionEnd, ChannelEnd: a session is a server end, a channel a client
      end.
    - RpcSafety: channels and sessions, or a whole server, that read what the
      other transmits, under every interleaving.
    - EndToEnd: one call from generated stub to generated service and back.
    - Push: the generated [PeerWriter] and [Broadcaster], to [on_push].

    Go:
    - Goroutines: lists of threads, for the machines of the Go code.
    - GoFrame: go/frame.go, hash.go, status.go and the collision scan of
      go/protoc-gen-protocomm-go/main.go, against their C++ counterparts.
    - GoWire, GoMessages: go/internal/testpb, the protobuf codec of the tests.
    - GoGenerator: the rest of go/protoc-gen-protocomm-go/main.go, as text.
    - ExampleProtos: the files of src/proto, and the stubs under go/proto that
      were generated from them.
    - GoChannel, GoChannelInvariants, GoChannelProperties: go/channel.go as
      the machine [Go_channel_step].
    - GoServer, GoServerInvariants, GoServerRequests, GoServerProperties:
      go/server.go as the machine [Go_server_step].
    - GoServices: the greeter, calculator and chat of go/integration_test.go
      as handlers of that server.
    - GoShutdown: a Go server that shuts down comes to rest.
    - GoCompat: the frames of both languages are the same.
    - GoProto: what the code generated for Go does, and go/prototrace.  The Go
      protobuf library is the class [GoProtobuf]; [WireFormat] says that both
      protobuf libraries read what either of them writes.
    - GoChannelEnd, GoServerEnd: each connection of a Go channel is a client
      end, each connection of a Go server a server end, in the sense of Ends.
    - GoSafety: Go channel with C++ server, C++ channel with Go server, Go
      channel with Go server, under every interleaving.
    - GoInterop: calls of a Go client to a C++ service and of a C++ client to
      a Go service, end to end.

    ** How concurrency is modelled

    Every concurrent component is a partial function [step : event -> state ->
    option state].  An event names who moves: a coroutine goes from one
    [co_await] to the next, a closure of the strand runs to its end, a thread
    or goroutine goes from one access of shared state to the next.  A run is a
    list of events ([run_events]), so that a theorem about all runs is about
    all interleavings; invariants are proved by [run_events_invariant].  User
    callbacks are identities, and calling one is recorded in the state; what a
    callback does on the library is an event of its own, later in the run.
    Handlers are functions on an application state, and in C++ may throw.

    ** What the theorems show

    - Calls: [system_safety] (a server and all its channels, in any
      interleaving: there is one sequential order of executing the requests of
      all sessions, calls are executed at most once, and a callback gets the
      outcome of its own call or an error without payload), with [rpc_safety]
      for one channel and one session; [go_client_safety],
      [cpp_client_safety] and [go_go_safety] for the other pairs of
      languages.  [rpc_end_to_end]: the outcome does arrive, through the
      generated code; the same between the languages in
      [go_client_cpp_service] and [cpp_client_go_service]; [push_end_to_end]
      for pushes.
    - Wire format: [frames_roundtrip], [session_wire], [channel_wire],
      [session_frames_typed], [channel_frames_typed].
    - Server: [session_refines_sequential], [server_linearizable],
      [session_serves_requests], [server_sessions_exact],
      [serial_shutdown_joins].
    - Client: [callbacks_called_once], [response_reaches_its_call],
      [call_ids_unique], [callbacks_dispatch], [blocked_caller_progress],
      [shutdown_completes], [unary_call_future].
    - Queue: [weak_fifo] (the order, and that a popped node is the consumer's
      alone, under release/acquire memory) and [weak_pop_progress] (accesses
      of a pop are bounded, and a consumer that has joined its producers
      drains the queue); for interleavings of the accesses alone
      [mpsc_fifo_order], [mpsc_refines_fifo], [mpsc_popped_node_free] and
      [pop_wait_free].
    - Plugins: [plugin_collisions], [generated_headers_balanced],
      [accepted_methods_dispatch]; [go_plugin_output] (the Go plugin refuses
      what the C++ plugin refuses, and what it generates, read back, uses the
      identifiers of C++); [example_stubs_stale] (the stubs kept in the
      repository are its output without the tracing code).
    - Go: [go_callbacks_once], [go_response_reaches_its_call],
      [go_channel_wire], [go_teardown_own], [go_close_completes] of the
      channel; [go_server_refines_sequential], [go_requests_answered_once],
      [go_server_wire], [go_concurrency_bounded], [go_server_lifecycle],
      [go_shutdown_completes] of the server; [go_wire_compatible], [go_method_ids_compatible],
      [go_calls_compatible] relate the two languages.
    - Go services: [messages_roundtrip] of the codec, [unmarshal_short_total]
      and [unmarshal_hostile] on what it does with other bytes;
      [services_linearizable], the three services on the concurrent server.
    - Limits of the code, as theorems: [deaf_channel_hangs] (a channel whose
      reader ended never reconnects), [manual_owner_deadlock],
      [push_before_handshake], [wait_shutdown_race], [go_server_races].

    ** Bounds and fuel

    [drain_all] empties the completion queue with fuel one more than its
    length; [RunCallbacks] takes its own bound; a [pop] takes at most seven
    accesses ([pop_wait_free], [weak_pop_progress]); the rounds of a Go decoder
    are fuel, [messages_roundtrip] holds for all above the length of the buffer,
    and one that never ends is [Running] for all; [go_close_completes] bounds the steps to rest
    by [distance_to_rest], [go_shutdown_completes] by [remaining] and
    [serial_shutdown_joins] by [work].  Integers keep their width: call ids wrap at
    [2 ^ 32], so that theorems about ids ask for at most [2 ^ 32] calls, and
    the Go generation and connection counters wrap at [2 ^ 64]; a payload size
    and a status code are cut to 32 and 16 bits as in the code, so that
    theorems about frames ask for payloads below 4 GiB.

    ** Not modelled

    - Load buffering in the memory of [MpscWeak]: a load reads a message that
      was written before.  The atomics of the channel are sequentially
      consistent, as written.  Reuse of the address of a deleted node.
    - Allocation failure; exceptions of user callbacks other than handlers;
      panics of Go handlers; nil Go callbacks.
    - Time: the durations handed to interceptors.
    - Bytes of two asynchronous writes under way on one socket: a C++ write
      takes effect at once.  In Go, header and payload are separate steps.
    - Boost.Asio, protobuf, net, sync and the protoc protocol are parameters
      or their documented behaviour: resolver, connect, accept and dial
      outcomes are events; that a server cannot bind is not an event.
    - The names protogen gives to Go services, methods and messages, and the
      import block it adds to a generated file: the first are part of the
      description of a file, [QualifiedGoIdent] is a parameter.
    - Test drivers, the demonstration program, build files, and the output of
      protoc-gen-go under go/proto. *)

From Stdlib Require Export ZArith Lia.
From Stdlib Require Export ssreflect.
From stdpp Require Export base gmap list strings fin_maps relations.
From Stdlib Require Strings.Byte.

#[global] Set Default Goal Selector "!".
#[global] Open Scope general_if_scope.

(** ** Fixed-width integers

    The C++ integer types are [Z] with the wrap-around of each conversion
    written out. *)

Declare Scope protocomm_scope.
Delimit Scope protocomm_scope with pc.

Definition u8 (z : Z) : Z := (z mod 2 ^ 8)%Z.
Definition u16 (z : Z) : Z := (z mod 2 ^ 16)%Z.
Definition u32 (z : Z) : Z := (z mod 2 ^ 32)%Z.
Definition u64 (z : Z) : Z := (z mod 2 ^ 64)%Z.

(** [static_cast<int>] of a wider integer on a 32-bit [int]. *)
Definition i32 (z : Z) : Z := ((z + 2 ^ 31) mod 2 ^ 32 - 2 ^ 31)%Z.

Definition is_u8 (z : Z) : Prop := (0 <= z < 2 ^ 8)%Z.
Definition is_u16 (z : Z) : Prop := (0 <= z < 2 ^ 16)%Z.
Definition is_u32 (z : Z) : Prop := (0 <= z < 2 ^ 32)%Z.
Definition is_u64 (z : Z) : Prop := (0 <= z < 2 ^ 64)%Z.

(** ** Bytes

    A [std::string] that carries wire data, and every [uint8_t] buffer, is a
    list of bytes. *)

Abbreviation bytes := (list Byte.byte).

Definition byte_val (b : Byte.byte) : Z := Z.of_N (Byte.to_N b).

(** [static_cast<uint8_t>]. *)
Definition byte_of (z : Z) : Byte.byte :=
  match Byte.of_N (Z.to_N (u8 z)) with
  | Some b => b
  | None => Byte.x00
  end.

Definition bytes_of_string (s : string) : bytes := String.list_byte_of_string s.

(** [payload.size()] as a [size_t]. *)
Definition size_of {A} (l : list A) : Z := Z.of_nat (length l).

(** [buf(n, '\0')] and [resize] of a [std::string]. *)
Definition zeros (n : nat) : bytes := replicate n Byte.x00.
Definition resize_bytes (n : nat) (s : bytes) : bytes :=
  take n s ++ zeros (n - length s).

#[global] Instance byte_eq_decision : EqDecision Byte.byte := Byte.byte_eq_dec.

Notation "'b8' s" := (bytes_of_string s%string) (at level 9, s at level 0) : protocomm_scope.

(** ** Iteration over an [unordered_map]

    The C++ standard leaves the order in which a range-for visits an
    [unordered_map] open: the order is an argument of the definitions that
    iterate, and what is known of it is that every entry is visited once. *)

Class UnorderedIter (V : Type) := {
  iter_entries : gmap Z V -> list (Z * V);
  iter_entries_perm : forall m, iter_entries m ≡ₚ map_to_list m
}.

#[export] Instance default_iter (V : Type) : UnorderedIter V := {
  iter_entries := map_to_list;
  iter_entries_perm := fun m => reflexivity _
}.

(** ** Labelled machines

    Components with several threads of control are machines: a partial step
    function on an event.  An event that the code's guards do not enable has
    no successor. *)

Section Machine.
Context {St Ev : Type} (step : Ev -> St -> option St).

Fixpoint run_events (es : list Ev) (s : St) : option St :=
  match es with
  | [] => Some s
  | e :: es' => match step e s with
                | Some s' => run_events es' s'
                | None => None
                end
  end.

(** Rule form of [run_events], used for induction over executions. *)
Inductive reaches (s : St) : list Ev -> St -> Prop :=
| reaches_nil : reaches s [] s
| reaches_snoc es e s1 s2 :
    reaches s es s1 -> step e s1 = Some s2 -> reaches s (es ++ [e]) s2.

Lemma run_events_app es1 es2 s :
  run_events (es1 ++ es2) s =
  match run_events es1 s with Some s' => run_events es2 s' | None => None end.
Proof.
  revert s; induction es1 as [|e es1 IH]; intros s; simpl; [done|].
  destruct (step e s); [apply IH|done].
Qed.

Lemma run_events_step e es s s' r :
  step e s = Some s' -> run_events es s' = r -> run_events (e :: es) s = r.
Proof. intros E. simpl. by rw E. Qed.

Lemma run_events_reaches es s s' :
  run_events es s = Some s' <-> reaches s es s'.
Proof.
  split.
  - revert s'. induction es as [|e es IH] using rev_ind; intros s' H.
    + simplify_eq/=. constructor.
    + rw run_events_app in H.
      destruct (run_events es s) as [s1|] eqn:E; [|done]. simpl in H.
      destruct (step e s1) eqn:E2; simplify_eq. econstructor; eauto.
  - induction 1 as [|es e s1 s2 _ IH Hs]; [done|].
    rw run_events_app IH /= Hs //.
Qed.

(** The invariant rule. *)
Lemma run_events_invariant (I : St -> Prop) :
  (forall e s s', I s -> step e s = Some s' -> I s') ->
  forall es s s', I s -> run_events es s = Some s' -> I s'.
Proof.
  intros Hstep es s s' Hi Hr. apply run_events_reaches in Hr.
  induction Hr; eauto.
Qed.

(** The same rule with a ghost trace: the invariant may relate the state to
    the events that led to it. *)
Lemma run_events_trace_invariant (s0 : St) (I : list Ev -> St -> Prop) :
  I [] s0 ->
  (forall es e s s', I es s -> step e s = Some s' -> I (es ++ [e]) s') ->
  forall es s', run_events es s0 = Some s' -> I es s'.
Proof.
  intros H0 Hstep es s' Hr. apply run_events_reaches in Hr.
  induction Hr; eauto.
Qed.
End Machine.

(** ** Tactics and hint databases *)

Create HintDb protocomm.
Create Rewrite HintDb protocomm.

(** Case analysis on the scrutinee of an [if] or a [match]. *)
Ltac case_step :=
  match goal with
  | H : context [match ?x with _ => _ end] |- _ => destruct x eqn:?; simplify_eq/=
  | |- context [match ?x with _ => _ end] => destruct x eqn:?; simplify_eq/=
  end.

(** Turns the boolean tests of the code in the context into propositions. *)
Ltac breflect :=
  repeat match goal with
  | H : (_ =? _)%Z = true |- _ => apply Z.eqb_eq in H
  | H : (_ =? _)%Z = false |- _ => apply Z.eqb_neq in H
  | H : (_ <? _)%Z = true |- _ => apply Z.ltb_lt in H
  | H : (_ <? _)%Z = false |- _ => apply Z.ltb_ge in H
  | H : (_ =? _)%nat = true |- _ => apply Nat.eqb_eq in H
  | H : (_ =? _)%nat = false |- _ => apply Nat.eqb_neq in H
  | H : bool_decide _ = true |- _ => apply bool_decide_eq_true in H
  | H : bool_decide _ = false |- _ => apply bool_decide_eq_false in H
  | H : negb _ = true |- _ => apply negb_true_iff in H
  | H : negb _ = false |- _ => apply negb_false_iff in H
  | H : _ && _ = true |- _ => apply andb_true_iff in H; destruct H
  | H : _ || _ = false |- _ => apply orb_false_iff in H; destruct H
  end.

(** Closed decidable goals, by evaluation of their decision procedure. *)
Ltac by_decision := apply (bool_decide_unpack _); vm_compute; exact I.

(** Range goals on fixed-width integers. *)
Ltac solve_range :=
  unfold is_u8, is_u16, is_u32, is_u64, u8, u16, u32, u64, i32 in *;
  try (match goal with |- context [(?a mod ?m)%Z] =>
         pose proof (Z.mod_pos_bound a m ltac:(lia)) end); lia.

(** ** Lemmas on integers *)

Lemma u8_range z : is_u8 (u8 z).
Proof. solve_range. Qed.
Lemma u16_range z : is_u16 (u16 z).
Proof. solve_range. Qed.
Lemma u32_range z : is_u32 (u32 z).
Proof. solve_range. Qed.
Lemma u64_range z : is_u64 (u64 z).
Proof. solve_range. Qed.

Lemma u8_small z : is_u8 z -> u8 z = z.
Proof. intros; by apply Z.mod_small. Qed.
Lemma u16_small z : is_u16 z -> u16 z = z.
Proof. intros; by apply Z.mod_small. Qed.
Lemma u32_small z : is_u32 z -> u32 z = z.
Proof. intros; by apply Z.mod_small. Qed.
Lemma u64_small z : is_u64 z -> u64 z = z.
Proof. intros; by apply Z.mod_small. Qed.

Lemma i32_small z : (0 <= z < 2 ^ 31)%Z -> i32 z = z.
Proof. intros H. unfold i32. rw Z.mod_small; lia. Qed.

#[export] Hint Resolve u8_range u16_range u32_range u64_range : protocomm.
#[export] Hint Rewrite u8_small u16_small u32_small u64_small using done : protocomm.

Lemma size_of_nonneg {A} (l : list A) : (0 <= size_of l)%Z.
Proof. unfold size_of; lia. Qed.

(** ** Lemmas on bytes *)

Lemma byte_val_range b : is_u8 (byte_val b).
Proof.
  unfold is_u8, byte_val. pose proof (Byte.to_N_bounded b). lia.
Qed.

Lemma byte_of_val b : byte_of (byte_val b) = b.
Proof.
  unfold byte_of. rw u8_small; [apply byte_val_range|].
  unfold byte_val. rw N2Z.id Byte.of_to_N //.
Qed.

Lemma byte_val_of z : byte_val (byte_of z) = u8 z.
Proof.
  unfold byte_of. destruct (Byte.of_N (Z.to_N (u8 z))) as [b|] eqn:E.
  - apply Byte.to_of_N in E. unfold byte_val. rw E.
    rw Z2N.id //. apply u8_range.
  - apply Byte.of_N_None_iff in E. pose proof (u8_range z) as H.
    unfold is_u8 in H. lia.
Qed.

Lemma byte_val_inj b1 b2 : byte_val b1 = byte_val b2 -> b1 = b2.
Proof. intros H. rw -(byte_of_val b1) H byte_of_val //. Qed.

Lemma byte_of_u8 z : byte_of (u8 z) = byte_of z.
Proof. apply byte_val_inj. rw !byte_val_of u8_small //. apply u8_range. Qed.

#[export] Hint Resolve byte_val_range : protocomm.
#[export] Hint Rewrite byte_of_val byte_val_of byte_of_u8 : protocomm.

Lemma length_zeros n : length (zeros n) = n.
Proof. apply length_replicate. Qed.

Lemma length_resize_bytes n s : length (resize_bytes n s) = n.
Proof.
  unfold resize_bytes. rw length_app length_take length_zeros. lia.
Qed.

#[export] Hint Rewrite length_zeros length_resize_bytes : protocomm.

(** ** Lemmas on lists *)

Lemma app_eq_length_inv {A} (a b c d : list A) :
  length a = length c -> a ++ b = c ++ d -> a = c /\ b = d.
Proof.
  intros Hl He. apply app_inj_1; done.
Qed.

Lemma iter_entries_elem {V} `{UnorderedIter V} (m : gmap Z V) k v :
  (k, v) ∈ iter_entries m <-> m !! k = Some v.
Proof. rw iter_entries_perm. apply elem_of_map_to_list. Qed.

(** Disjoint bit ranges: [|] is [+]. *)
Lemma lor_mul_add (x b k : Z) :
  (0 <= k)%Z -> (0 <= b < 2 ^ k)%Z -> Z.lor (x * 2 ^ k) b = (x * 2 ^ k + b)%Z.
Proof.
  intros Hk Hb. assert (Z.land (x * 2 ^ k) b = 0)%Z as E.
  - apply Z.bits_inj'. intros i Hi. rw Z.land_spec Z.bits_0.
    destruct (Z.lt_ge_cases i k).
    + by rw Z.mul_pow2_bits_low.
    + rw -(Z.mod_small b (2 ^ k)) //. rw Z.mod_pow2_bits_high; [lia|].
      apply andb_false_r.
  - by rw Z.add_nocarry_lxor // Z.lxor_lor.
Qed.

Lemma NoDup_snoc {A} (l : list A) x : NoDup l -> x ∉ l -> NoDup (l ++ [x]).
Proof.
  intros Hl Hx. apply NoDup_app. split; [done|]. split; [|apply NoDup_singleton].
  intros y Hy ->%list_elem_of_singleton. done.
Qed.

(** A list of pairs with different keys is a function. *)
Lemma NoDup_fst_inj {A B} (l : list (A * B)) k x y :
  NoDup l.*1 -> (k, x) ∈ l -> (k, y) ∈ l -> x = y.
Proof.
  intros Hn [i Hi]%list_elem_of_lookup [j Hj]%list_elem_of_lookup.
  assert (i = j) as ->; [|congruence].
  eapply (NoDup_lookup l.*1 i j k Hn); rw list_lookup_fmap ?Hi ?Hj //.
Qed.

(** A counter that starts at 1 and wraps at [2 ^ k] does not repeat itself in
    its first [2 ^ k] values. *)
Lemma counter_inj (k : Z) (i j : nat) :
  (0 <= k)%Z -> (Z.of_nat i < 2 ^ k)%Z -> (Z.of_nat j < 2 ^ k)%Z ->
  ((Z.of_nat i + 1) mod 2 ^ k = (Z.of_nat j + 1) mod 2 ^ k)%Z -> i = j.
Proof.
  intros Hk Hi Hj E.
  destruct (decide (Z.of_nat i = 2 ^ k - 1)%Z) as [Ei|Ei],
    (decide (Z.of_nat j = 2 ^ k - 1)%Z) as [Ej|Ej]; [lia|..].
  - rw Ei Z.sub_add Z_mod_same_full Z.mod_small in E; lia.
  - rw Ej Z.sub_add Z_mod_same_full Z.mod_small in E; lia.
  - rw !Z.mod_small in E; lia.
Qed.

(** The identifier of the [i]-th call of a client: a 32-bit counter from 1. *)
Definition nth_call_id (i : nat) : Z := u32 (Z.of_nat i + 1).

Lemma nth_call_id_inj i j :
  (Z.of_nat i < 2 ^ 32)%Z -> (Z.of_nat j < 2 ^ 32)%Z -> nth_call_id i = nth_call_id j -> i = j.
Proof.
  unfold nth_call_id, u32. intros Hi Hj. by apply counter_inj.
Qed.

Lemma nth_call_id_S n : u32 (nth_call_id n + 1) = nth_call_id (S n).
Proof. unfold nth_call_id, u32. rw Zplus_mod_idemp_l. f_equal. lia. Qed.

Lemma nth_call_ids_NoDup n : (Z.of_nat n <= 2 ^ 32)%Z -> NoDup (nth_call_id <$> seq 0 n).
Proof.
  intros Hn. apply NoDup_fmap_2_strong; [|apply NoDup_seq].
  intros i j Hi%elem_of_seq Hj%elem_of_seq. apply nth_call_id_inj; lia.
Qed.

Lemma nth_call_id_fresh n : (Z.of_nat n < 2 ^ 32)%Z -> nth_call_id n ∉ nth_call_id <$> seq 0 n.
Proof.
  intros Hn (i & Ei & Hi)%list_elem_of_fmap. apply elem_of_seq in Hi.
  apply nth_call_id_inj in Ei; lia.
Qed.

(** ** Counting occurrences

    Conservation arguments (nothing is lost, nothing is used twice) count how
    often an identity occurs in the places it can be in. *)

Section Occurrences.
Context {A : Type} `{!EqDecision A}.
Implicit Types (x : A) (l : list A).

Fixpoint occ x l : nat :=
  match l with
  | [] => 0
  | y :: l => (if decide (x = y) then 1 else 0) + occ x l
  end.

Lemma occ_nil x : occ x [] = 0.
Proof. done. Qed.

Lemma occ_app x l1 l2 : occ x (l1 ++ l2) = occ x l1 + occ x l2.
Proof. induction l1 as [|y l1 IH]; simpl; [done|]. rw IH. lia. Qed.

Lemma occ_Permutation x l1 l2 : l1 ≡ₚ l2 -> occ x l1 = occ x l2.
Proof. induction 1; simpl; lia. Qed.

Lemma occ_pos x l : x ∈ l <-> 1 <= occ x l.
Proof.
  induction l as [|y l IH]; simpl.
  - split; [by intros ?%elem_of_nil|lia].
  - rw elem_of_cons IH. case_decide; naive_solver lia.
Qed.

Lemma NoDup_occ l : NoDup l <-> forall x, occ x l <= 1.
Proof.
  induction l as [|y l IH]; simpl.
  - split; [lia|constructor].
  - rw NoDup_cons IH occ_pos. split.
    + intros [Hy Hl] x. specialize (Hl x). case_decide; subst; lia.
    + intros H. split; [specialize (H y); rw decide_True // in H; lia|].
      intros x. specialize (H x). lia.
Qed.

Lemma occ_all_Permutation l k : (forall x, occ x l = occ x k) -> l ≡ₚ k.
Proof.
  revert k. induction l as [|y l IH]; intros k H.
  - destruct k as [|y k]; [done|]. specialize (H y). simpl in H. by rw decide_True in H.
  - assert (y ∈ k) as Hy.
    { apply occ_pos. rw -H /= decide_True //. lia. }
    apply elem_of_Permutation in Hy as [k' Hk]. rw Hk. f_equiv. apply IH. intros x.
    specialize (H x). rw (occ_Permutation x _ _ Hk) /= in H. lia.
Qed.

(** The same over the values of a map. *)
Context {K V : Type} `{Countable K}.
Variable ids : V -> list A.

Definition map_occ x (m : gmap K V) : nat := occ x ((map_to_list m).*2 ≫= ids).

Lemma map_occ_empty x : map_occ x ∅ = 0.
Proof. unfold map_occ. by rw map_to_list_empty. Qed.

Lemma map_occ_insert x m k v :
  m !! k = None -> map_occ x (<[k := v]> m) = occ x (ids v) + map_occ x m.
Proof.
  intros Hk. unfold map_occ. rw -occ_app. apply occ_Permutation.
  by rw map_to_list_insert.
Qed.

Lemma map_occ_delete x m k v :
  m !! k = Some v -> map_occ x m = occ x (ids v) + map_occ x (delete k m).
Proof.
  intros Hk. rw -{1}(insert_delete_id m k v) //. rw map_occ_insert //. apply lookup_delete_eq.
Qed.

Lemma map_occ_update x m k v v' :
  m !! k = Some v -> map_occ x (<[k := v']> m) + occ x (ids v) = map_occ x m + occ x (ids v').
Proof.
  intros Hk. rw (map_occ_delete x m k v) // -insert_delete_eq map_occ_insert; [|lia].
  apply lookup_delete_eq.
Qed.
End Occurrences.

(** Iteration over an [unordered_map] meets every value once. *)
Lemma map_occ_iter {A V} `{!EqDecision A} `{!UnorderedIter V} (ids : V -> list A) x (m : gmap Z V) :
  occ x (iter_entries m ≫= (fun e => ids e.2)) = map_occ ids x m.
Proof.
  unfold map_occ. rw list_fmap_bind. apply occ_Permutation. by rw iter_entries_perm.
Qed.
