(* ===== verification/Status.v ===== *)
(** * Status codes and statuses

    Models c++/include/protocomm/status.h.  [StatusCode] is an [enum class]
    with underlying type [int], so a value of the type may lie outside the
    listed enumerators (a cast from a wire integer, or a cast in a handler):
    [StatusCode_of_int] carries those. *)

From S2P Require Import Prelude.

(** ** Data *)

Inductive StatusCode :=
| OK | CANCELLED | UNKNOWN | INVALID_ARGUMENT | DEADLINE_EXCEEDED | NOT_FOUND
| ALREADY_EXISTS | PERMISSION_DENIED | RESOURCE_EXHAUSTED
| FAILED_PRECONDITION | ABORTED | OUT_OF_RANGE | UNIMPLEMENTED | INTERNAL
| UNAVAILABLE | DATA_LOSS | UNAUTHENTICATED
| StatusCode_of_int (n : Z).

(** [static_cast<int>(code)]. *)
Definition code_to_int (c : StatusCode) : Z :=
  match c with
  | OK => 0 | CANCELLED => 1 | UNKNOWN => 2 | INVALID_ARGUMENT => 3
  | DEADLINE_EXCEEDED => 4 | NOT_FOUND => 5 | ALREADY_EXISTS => 6
  | PERMISSION_DENIED => 7 | RESOURCE_EXHAUSTED => 8
  | FAILED_PRECONDITION => 9 | ABORTED => 10 | OUT_OF_RANGE => 11
  | UNIMPLEMENTED => 12 | INTERNAL => 13 | UNAVAILABLE => 14
  | DATA_LOSS => 15 | UNAUTHENTICATED => 16
  | StatusCode_of_int n => n
  end%Z.

(** [static_cast<StatusCode>(n)]. *)
Definition code_of_int (n : Z) : StatusCode :=
  match n with
  | 0 => OK | 1 => CANCELLED | 2 => UNKNOWN | 3 => INVALID_ARGUMENT
  | 4 => DEADLINE_EXCEEDED | 5 => NOT_FOUND | 6 => ALREADY_EXISTS
  | 7 => PERMISSION_DENIED | 8 => RESOURCE_EXHAUSTED
  | 9 => FAILED_PRECONDITION | 10 => ABORTED | 11 => OUT_OF_RANGE
  | 12 => UNIMPLEMENTED | 13 => INTERNAL | 14 => UNAVAILABLE
  | 15 => DATA_LOSS | 16 => UNAUTHENTICATED
  | _ => StatusCode_of_int n
  end%Z.

(** Enumerators are compared as their integers. *)
Definition code_eqb (c d : StatusCode) : bool := (code_to_int c =? code_to_int d)%Z.

Record Status := mkStatus { code_ : StatusCode; message_ : string }.

(** [Status() noexcept = default]: code_ OK, empty message. *)
Definition Status_default : Status := mkStatus OK "".
Definition OK_status : Status := Status_default.
Definition error_code (s : Status) : StatusCode := code_ s.
Definition error_message (s : Status) : string := message_ s.
Definition ok (s : Status) : bool := code_eqb (code_ s) OK.

(** A value of the C++ type has one representative: an unlisted value is not
    the integer of an enumerator. *)
Definition code_canonical (c : StatusCode) : Prop :=
  match c with
  | StatusCode_of_int n => ~ (0 <= n <= 16)%Z
  | _ => True
  end.

#[global] Instance StatusCode_eq_dec : EqDecision StatusCode.
Proof. solve_decision. Defined.
#[global] Instance Status_eq_dec : EqDecision Status.
Proof. solve_decision. Defined.

(** ** Lemmas *)

Lemma code_of_int_unlisted n :
  ~ (0 <= n <= 16)%Z -> code_of_int n = StatusCode_of_int n.
Proof.
  intros H. destruct n as [|p|p]; [lia| |done].
  do 5 (destruct p as [p|p|]; try reflexivity; try lia).
Qed.

Lemma code_to_of_int n : code_to_int (code_of_int n) = n.
Proof.
  destruct n as [|p|p]; [done| |done].
  do 5 (destruct p as [p|p|]; try reflexivity).
Qed.

Lemma code_of_to_int c : code_canonical c -> code_of_int (code_to_int c) = c.
Proof. destruct c; try done. apply code_of_int_unlisted. Qed.

Lemma code_of_int_canonical n : code_canonical (code_of_int n).
Proof.
  destruct n as [|p|p]; [done| |simpl; lia].
  do 5 (destruct p as [p|p|]; try done; simpl; try lia).
Qed.

Lemma ok_default : ok Status_default = true.
Proof. done. Qed.

Lemma ok_spec s : ok s = true <-> code_to_int (code_ s) = 0%Z.
Proof. unfold ok, code_eqb. rw Z.eqb_eq //. Qed.
