(* ===== verification/Frame.v ===== *)
(** * The 16-byte frame header

    Models c++/src/frame.h: the frame types, the header record and its
    big-endian encoding. *)

From S2P Require Import Prelude Status.

Local Open Scope Z_scope.

(** ** Data *)

(** [enum class FrameType : uint8_t]; a byte that is no enumerator is a value
    of the type too. *)
Inductive FrameType :=
| kRequest | kResponse | kPush
| FrameType_of_u8 (n : Z).

Definition type_to_u8 (t : FrameType) : Z :=
  match t with
  | kRequest => 1 | kResponse => 2 | kPush => 3
  | FrameType_of_u8 n => n
  end.

(** [static_cast<FrameType>(in[0])]. *)
Definition type_of_u8 (n : Z) : FrameType :=
  match n with
  | 1 => kRequest | 2 => kResponse | 3 => kPush
  | _ => FrameType_of_u8 n
  end.

Definition type_eqb (t u : FrameType) : bool := type_to_u8 t =? type_to_u8 u.

Record FrameHeader := mkHeader {
  type : FrameType;
  status_code : Z;
  call_id : Z;
  method_id : Z;
  payload_size : Z
}.

Definition kSize : nat := 16.

(** Member initializers of [FrameHeader]. *)
Definition FrameHeader_default : FrameHeader := mkHeader kRequest 0 0 0 0.

(** ** Operations *)

Definition byte_at (buf : bytes) (i : nat) : Z := byte_val (nth i buf Byte.x00).

Definition WriteBE32 (v : Z) : bytes :=
  [ byte_of (Z.land (Z.shiftr v 24) 0xFF);
    byte_of (Z.land (Z.shiftr v 16) 0xFF);
    byte_of (Z.land (Z.shiftr v 8) 0xFF);
    byte_of (Z.land v 0xFF) ].

(** [ReadBE32(in + off)]. *)
Definition ReadBE32 (buf : bytes) (off : nat) : Z :=
  Z.lor (Z.lor (Z.lor (u32 (Z.shiftl (byte_at buf off) 24))
                      (u32 (Z.shiftl (byte_at buf (off + 1)) 16)))
               (u32 (Z.shiftl (byte_at buf (off + 2)) 8)))
        (byte_at buf (off + 3)).

Definition Serialize (h : FrameHeader) : bytes :=
  [ byte_of (type_to_u8 (type h));
    Byte.x00;
    byte_of (Z.land (Z.shiftr (status_code h) 8) 0xFF);
    byte_of (Z.land (status_code h) 0xFF) ]
  ++ WriteBE32 (call_id h)
  ++ WriteBE32 (method_id h)
  ++ WriteBE32 (payload_size h).

Definition Deserialize (buf : bytes) : FrameHeader :=
  {| type := type_of_u8 (byte_at buf 0);
     status_code := u16 (Z.lor (Z.shiftl (byte_at buf 2) 8) (byte_at buf 3));
     call_id := ReadBE32 buf 4;
     method_id := ReadBE32 buf 8;
     payload_size := ReadBE32 buf 12 |}.

(** ** Invariant

    The widths of the C++ fields. *)

Definition type_wf (t : FrameType) : Prop :=
  match t with
  | FrameType_of_u8 n => is_u8 n /\ ~ (1 <= n <= 3)
  | _ => True
  end.

Record header_wf (h : FrameHeader) : Prop := {
  wf_type : type_wf (type h);
  wf_status : is_u16 (status_code h);
  wf_call : is_u32 (call_id h);
  wf_method : is_u32 (method_id h);
  wf_size : is_u32 (payload_size h)
}.

#[global] Instance FrameType_eq_dec : EqDecision FrameType.
Proof. solve_decision. Defined.
#[global] Instance FrameHeader_eq_dec : EqDecision FrameHeader.
Proof. solve_decision. Defined.

(** ** Lemmas *)

Lemma type_of_to_u8 t : type_wf t -> type_of_u8 (type_to_u8 t) = t.
Proof.
  destruct t as [| | |n]; try done. intros [Hr Hn]; simpl. unfold is_u8 in Hr.
  destruct n as [|p|p]; try done.
  do 2 (destruct p as [p|p|]; try done; try lia).
Qed.

Lemma type_to_of_u8 n : type_to_u8 (type_of_u8 n) = n.
Proof.
  destruct n as [|p|p]; try done. do 2 (destruct p as [p|p|]; try done).
Qed.

Lemma type_of_u8_wf n : is_u8 n -> type_wf (type_of_u8 n).
Proof.
  unfold is_u8. intros H. destruct n as [|p|p]; simpl; unfold is_u8; try lia.
  do 2 (destruct p as [p|p|]; simpl; unfold is_u8; try lia; try done).
Qed.

Lemma type_to_u8_range t : type_wf t -> is_u8 (type_to_u8 t).
Proof. unfold type_wf, is_u8. destruct t; simpl; lia. Qed.

Lemma type_eqb_eq t u : type_wf t -> type_wf u -> type_eqb t u = true <-> t = u.
Proof.
  intros Ht Hu. unfold type_eqb. rw Z.eqb_eq. split; [|by intros ->].
  intros E. by rw -(type_of_to_u8 t) // E type_of_to_u8.
Qed.

(** The shift-and-mask extraction of a byte is division. *)
Lemma land_255 v : Z.land v 0xFF = v mod 2 ^ 8.
Proof. apply (Z.land_ones v 8). lia. Qed.

Lemma mask_byte v k :
  0 <= k -> byte_val (byte_of (Z.land (Z.shiftr v k) 0xFF)) = (v / 2 ^ k) mod 2 ^ 8.
Proof.
  intros Hk. rw byte_val_of land_255 Z.shiftr_div_pow2 //.
  apply u8_small, Z.mod_pos_bound. lia.
Qed.

Lemma mask_byte0 v : byte_val (byte_of (Z.land v 0xFF)) = v mod 2 ^ 8.
Proof. rw byte_val_of land_255. apply u8_small, Z.mod_pos_bound. lia. Qed.

(** [ReadBE32] is the positional value of four bytes. *)
Lemma ReadBE32_value buf off :
  ReadBE32 buf off =
  byte_at buf off * 2 ^ 24 + byte_at buf (off + 1) * 2 ^ 16
  + byte_at buf (off + 2) * 2 ^ 8 + byte_at buf (off + 3).
Proof.
  unfold ReadBE32, byte_at.
  pose proof (byte_val_range (nth off buf Byte.x00)).
  pose proof (byte_val_range (nth (off + 1) buf Byte.x00)).
  pose proof (byte_val_range (nth (off + 2) buf Byte.x00)).
  pose proof (byte_val_range (nth (off + 3) buf Byte.x00)).
  unfold is_u8 in *. rw !Z.shiftl_mul_pow2; try lia.
  rw !u32_small; unfold is_u32; try lia.
  rw lor_mul_add; try lia.
  replace (byte_val (nth off buf Byte.x00) * 2 ^ 24 +
    byte_val (nth (off + 1) buf Byte.x00) * 2 ^ 16)
    with ((byte_val (nth off buf Byte.x00) * 2 ^ 8 +
    byte_val (nth (off + 1) buf Byte.x00)) * 2 ^ 16) by lia.
  rw lor_mul_add; try lia.
  match goal with |- Z.lor ?x _ = _ => replace x with
    ((byte_val (nth off buf Byte.x00) * 2 ^ 16 +
      byte_val (nth (off + 1) buf Byte.x00) * 2 ^ 8 +
      byte_val (nth (off + 2) buf Byte.x00)) * 2 ^ 8) by lia end.
  rw lor_mul_add; lia.
Qed.

Lemma ReadBE32_range buf off : is_u32 (ReadBE32 buf off).
Proof.
  rw ReadBE32_value. unfold byte_at, is_u32.
  pose proof (byte_val_range (nth off buf Byte.x00)).
  pose proof (byte_val_range (nth (off + 1) buf Byte.x00)).
  pose proof (byte_val_range (nth (off + 2) buf Byte.x00)).
  pose proof (byte_val_range (nth (off + 3) buf Byte.x00)).
  unfold is_u8 in *. lia.
Qed.

Lemma WriteBE32_length v : length (WriteBE32 v) = 4%nat.
Proof. done. Qed.

Lemma Serialize_length h : length (Serialize h) = kSize.
Proof. done. Qed.

#[export] Hint Rewrite WriteBE32_length Serialize_length : protocomm.

(** Reading back four written bytes at any place of a buffer. *)
Lemma ReadBE32_WriteBE32 pre v suf :
  ReadBE32 (pre ++ WriteBE32 v ++ suf) (length pre) = u32 v.
Proof.
  rw ReadBE32_value. unfold byte_at.
  assert (forall i, nth (length pre + i) (pre ++ WriteBE32 v ++ suf) Byte.x00
                    = nth i (WriteBE32 v ++ suf) Byte.x00) as E.
  { intros i. rw app_nth2; [lia|]. f_equal. lia. }
  rw -{1}(Nat.add_0_r (length pre)) !E. unfold WriteBE32. simpl nth.
  rw !mask_byte ?mask_byte0; try lia. unfold u32.
  Z.div_mod_to_equations. lia.
Qed.

(** The converse: four bytes are what writing their value produces. *)
Lemma WriteBE32_ReadBE32 b0 b1 b2 b3 :
  WriteBE32 (byte_val b0 * 2 ^ 24 + byte_val b1 * 2 ^ 16
             + byte_val b2 * 2 ^ 8 + byte_val b3) = [b0; b1; b2; b3].
Proof.
  pose proof (byte_val_range b0). pose proof (byte_val_range b1).
  pose proof (byte_val_range b2). pose proof (byte_val_range b3).
  unfold is_u8 in *.
  unfold WriteBE32; repeat f_equal; apply byte_val_inj;
    rw ?mask_byte ?mask_byte0; try lia; Z.div_mod_to_equations; lia.
Qed.

(** The reader's view of a serialized header with arbitrary field values:
    every field reduced to its width. *)
Lemma Deserialize_Serialize_mod h :
  Deserialize (Serialize h) =
  {| type := type_of_u8 (u8 (type_to_u8 (type h)));
     status_code := u16 (status_code h);
     call_id := u32 (call_id h);
     method_id := u32 (method_id h);
     payload_size := u32 (payload_size h) |}.
Proof.
  unfold Deserialize. f_equal.
  - unfold byte_at. simpl. rw byte_val_of //.
  - unfold byte_at. simpl nth. rw mask_byte ?mask_byte0; try lia.
    rw Z.shiftl_mul_pow2; try lia.
    rw lor_mul_add; try (Z.div_mod_to_equations; lia).
    unfold u16. Z.div_mod_to_equations. lia.
  - exact (ReadBE32_WriteBE32 (take 4 (Serialize h)) (call_id h)
             (WriteBE32 (method_id h) ++ WriteBE32 (payload_size h))).
  - exact (ReadBE32_WriteBE32 (take 8 (Serialize h)) (method_id h)
             (WriteBE32 (payload_size h))).
  - exact (ReadBE32_WriteBE32 (take 12 (Serialize h)) (payload_size h) []).
Qed.

Lemma Deserialize_wf buf : header_wf (Deserialize buf).
Proof.
  constructor; simpl; auto using ReadBE32_range, u16_range.
  apply type_of_u8_wf, byte_val_range.
Qed.

#[global] Arguments Serialize : simpl never.
#[global] Arguments Deserialize : simpl never.

#[export] Hint Resolve Deserialize_wf ReadBE32_range : protocomm.

Lemma header_roundtrip h : header_wf h -> Deserialize (Serialize h) = h.
Proof.
  intros [Ht Hs Hc Hm Hp]. rw Deserialize_Serialize_mod.
  rw u8_small; [by apply type_to_u8_range|].
  rw type_of_to_u8 // u16_small // !u32_small //. by destruct h.
Qed.

Lemma Serialize_inj h1 h2 :
  header_wf h1 -> header_wf h2 -> Serialize h1 = Serialize h2 -> h1 = h2.
Proof.
  intros H1 H2 E. by rw -(header_roundtrip h1) // E header_roundtrip.
Qed.

(** Sixteen bytes are re-encoded as they were, but for the reserved byte,
    which the writer sets to zero. *)
Lemma buffer_roundtrip buf :
  length buf = kSize -> Serialize (Deserialize buf) = <[1%nat := Byte.x00]> buf.
Proof.
  intros Hl. unfold kSize in Hl.
  do 16 (destruct buf as [|? buf]; [done|]). destruct buf; [|done].
  unfold Serialize, Deserialize. simpl type. simpl status_code.
  simpl call_id. simpl method_id. simpl payload_size.
  rw !ReadBE32_value. unfold byte_at. simpl nth. rw !WriteBE32_ReadBE32.
  rw type_to_of_u8 byte_of_val. simpl. do 2 f_equal.
  match goal with |- byte_of (Z.land (Z.shiftr ?w 8) _) :: _ = ?x :: ?y :: _ =>
    assert (w = byte_val x * 2 ^ 8 + byte_val y) as -> end.
  { pose proof (byte_val_range b1). pose proof (byte_val_range b2).
    unfold is_u8 in *. rw Z.shiftl_mul_pow2; try lia. rw lor_mul_add; try lia.
    apply u16_small. unfold is_u16. lia. }
  pose proof (byte_val_range b1). pose proof (byte_val_range b2).
  unfold is_u8 in *. repeat f_equal; apply byte_val_inj;
    rw ?mask_byte ?mask_byte0; try lia; Z.div_mod_to_equations; lia.
Qed.

(** ** Properties *)

(** A header whose fields fit their C++ types is encoded in exactly 16
    bytes, with a zero reserved byte, and decoded back unchanged. *)
Theorem frame_header_roundtrip h :
  header_wf h ->
  length (Serialize h) = kSize /\ nth 1 (Serialize h) Byte.xff = Byte.x00
  /\ Deserialize (Serialize h) = h.
Proof. intros H. split; [done|]. split; [done|]. by apply header_roundtrip. Qed.

Lemma frame_header_roundtrip_witness :
  Deserialize (Serialize (mkHeader kResponse 12 0xdeadbeef 0x811c9dc5 70000))
  = mkHeader kResponse 12 0xdeadbeef 0x811c9dc5 70000.
Proof. apply frame_header_roundtrip. constructor; vm_compute; intuition congruence. Defined.

(** Whatever 16 bytes arrive, decoding yields a header within the C++
    field widths, and encoding it again gives the same bytes but for the
    reserved byte, which becomes zero. *)
Theorem frame_buffer_roundtrip buf :
  length buf = kSize ->
  header_wf (Deserialize buf) /\ Serialize (Deserialize buf) = <[1%nat := Byte.x00]> buf.
Proof. intros H. split; [apply Deserialize_wf|by apply buffer_roundtrip]. Qed.

Lemma frame_buffer_roundtrip_witness :
  header_wf (Deserialize (replicate 16 Byte.xff)).
Proof. apply frame_buffer_roundtrip. reflexivity. Defined.
