(* ===== verification/MethodHash.v ===== *)
(** * Method identifiers

    Models c++/include/protocomm/method_hash.h: the 32-bit FNV-1a hash of a
    NUL-terminated string, by which methods are routed. *)

From S2P Require Import Prelude.

Local Open Scope Z_scope.

(** ** Operations *)

Definition fnv_offset : Z := 0x811c9dc5.
Definition fnv_prime : Z := 0x01000193.

(** One turn of the loop: [hash ^= c; hash *= 0x01000193u]. *)
Definition fnv_step (hash : Z) (c : Byte.byte) : Z :=
  u32 (Z.lxor hash (byte_val c) * fnv_prime).

(** The loop ends at the first NUL; the list ends where the
    terminating NUL of [c_str()] stands. *)
Fixpoint fnv_loop (hash : Z) (s : bytes) : Z :=
  match s with
  | [] => hash
  | c :: s' => if byte_val c =? 0 then hash else fnv_loop (fnv_step hash c) s'
  end.

Definition Fnv1a32 (s : bytes) : Z := fnv_loop fnv_offset s.

(** ** Reference definitions *)

(** The inverse of the prime modulo 2^32 and the step run backwards. *)
Definition fnv_prime_inv : Z := 899433627.
Definition fnv_unstep (hash : Z) (c : Byte.byte) : Z :=
  Z.lxor (u32 (hash * fnv_prime_inv)) (byte_val c).

Definition nul_free (s : bytes) : Prop := Byte.x00 ∉ s.

#[global] Instance nul_free_dec s : Decision (nul_free s).
Proof. unfold nul_free. apply _. Defined.

(** What a C string function sees of a [std::string]. *)
Fixpoint c_str (s : bytes) : bytes :=
  match s with
  | [] => []
  | c :: s' => if byte_val c =? 0 then [] else c :: c_str s'
  end.

(** ** Lemmas *)

Lemma lxor_u32 a b : is_u32 a -> is_u32 b -> is_u32 (Z.lxor a b).
Proof.
  unfold is_u32. intros Ha Hb.
  assert (0 <= Z.lxor a b) as Hn by (apply Z.lxor_nonneg; lia).
  split; [done|]. destruct (Z.eq_dec (Z.lxor a b) 0) as [->|Hz]; [lia|].
  apply Z.log2_lt_pow2; [lia|].
  pose proof (Z.log2_lxor a b ltac:(lia) ltac:(lia)).
  assert (forall x, 0 <= x < 2 ^ 32 -> Z.log2 x < 32) as Hlog.
  { intros x Hx. destruct (Z.eq_dec x 0) as [->|]; [done|].
    apply Z.log2_lt_pow2; lia. }
  pose proof (Hlog a Ha). pose proof (Hlog b Hb). lia.
Qed.

Lemma byte_u32 c : is_u32 (byte_val c).
Proof. pose proof (byte_val_range c). unfold is_u8, is_u32 in *. lia. Qed.

Lemma byte_nonzero c : c <> Byte.x00 -> (byte_val c =? 0) = false.
Proof.
  intros H. apply Z.eqb_neq. intros E. apply H, byte_val_inj. by rw E.
Qed.

Lemma fnv_step_range h c : is_u32 (fnv_step h c).
Proof. apply u32_range. Qed.

#[export] Hint Resolve fnv_step_range byte_u32 lxor_u32 : protocomm.

Lemma fnv_loop_range h s : is_u32 h -> is_u32 (fnv_loop h s).
Proof.
  revert h; induction s as [|c s IH]; intros h Hh; simpl; [done|].
  case_match; auto with protocomm.
Qed.

(** The multiplication is undone by the inverse of the prime, the
    exclusive-or by itself. *)
Lemma fnv_unstep_step h c : is_u32 h -> fnv_unstep (fnv_step h c) c = h.
Proof.
  intros Hh. unfold fnv_unstep, fnv_step, u32.
  rw Z.mul_mod_idemp_l; [done|]. rw -Z.mul_assoc.
  rw -Z.mul_mod_idemp_r; [done|].
  replace ((fnv_prime * fnv_prime_inv) mod 2 ^ 32) with 1 by reflexivity.
  rw Z.mul_1_r Z.mod_small; [by apply lxor_u32; auto using byte_u32|].
  rw Z.lxor_assoc Z.lxor_nilpotent Z.lxor_0_r //.
Qed.

Lemma fnv_step_inj h1 h2 c :
  is_u32 h1 -> is_u32 h2 -> fnv_step h1 c = fnv_step h2 c -> h1 = h2.
Proof.
  intros H1 H2 E. by rw -(fnv_unstep_step h1 c) // E fnv_unstep_step.
Qed.

(** For a fixed state the step separates bytes. *)
Lemma fnv_step_byte_inj h c d :
  is_u32 h -> fnv_step h c = fnv_step h d -> c = d.
Proof.
  intros Hh E. apply byte_val_inj.
  pose proof (fnv_unstep_step h c Hh) as Hc.
  pose proof (fnv_unstep_step h d Hh) as Hd. rw -E in Hd.
  unfold fnv_unstep in Hc, Hd. generalize dependent (u32 (fnv_step h c * fnv_prime_inv)).
  intros a Hc Hd. rw -Hd in Hc. apply (f_equal (Z.lxor a)) in Hc.
  by rw -!Z.lxor_assoc !Z.lxor_nilpotent !Z.lxor_0_l in Hc.
Qed.

Lemma fnv_loop_inj h1 h2 s :
  is_u32 h1 -> is_u32 h2 -> fnv_loop h1 s = fnv_loop h2 s -> h1 = h2.
Proof.
  revert h1 h2; induction s as [|c s IH]; intros h1 h2 H1 H2 E; simpl in E; [done|].
  case_match; [done|].
  apply (fnv_step_inj _ _ c); auto. apply IH; auto with protocomm.
Qed.

Lemma fnv_loop_app h s t :
  nul_free s -> fnv_loop h (s ++ t) = fnv_loop (fnv_loop h s) t.
Proof.
  unfold nul_free. revert h; induction s as [|c s IH]; intros h Hs; simpl; [done|].
  apply not_elem_of_cons in Hs as [Hc Hs]. rw byte_nonzero //. by apply IH.
Qed.

Lemma fnv_loop_c_str h s : fnv_loop h (c_str s) = fnv_loop h s.
Proof.
  revert h; induction s as [|c s IH]; intros h; simpl; [done|].
  destruct (byte_val c =? 0) eqn:E; [done|]. simpl. rw E. apply IH.
Qed.

Lemma c_str_nul_free s : nul_free (c_str s).
Proof.
  unfold nul_free. induction s as [|c s IH]; simpl; [set_solver|].
  destruct (byte_val c =? 0) eqn:E; [set_solver|].
  apply not_elem_of_cons; split; [|done]. intros <-. done.
Qed.

(** ** Properties *)

(** The hash of every string is a 32-bit value, and depends on the bytes
    before the first NUL only. *)
Theorem fnv_bounds_and_nul s :
  is_u32 (Fnv1a32 s) /\ Fnv1a32 s = Fnv1a32 (c_str s).
Proof.
  split; [by apply fnv_loop_range|]. symmetry. apply fnv_loop_c_str.
Qed.

(** Two method names that differ in exactly one character never share an
    identifier: names [p ++ c :: q] and [p ++ d :: q] with [c <> d] have
    different hashes. *)
Theorem fnv_one_char_no_collision p c d q :
  nul_free p -> c <> Byte.x00 -> d <> Byte.x00 -> c <> d ->
  Fnv1a32 (p ++ c :: q) <> Fnv1a32 (p ++ d :: q).
Proof.
  intros Hp Hc Hd Hne E. unfold Fnv1a32 in E.
  rw !fnv_loop_app // in E. simpl in E. rw !byte_nonzero // in E.
  apply fnv_loop_inj in E; auto with protocomm.
  apply fnv_step_byte_inj in E; [done|]. by apply fnv_loop_range.
Qed.

Lemma fnv_one_char_no_collision_witness :
  Fnv1a32 (bytes_of_string "/Greeter/SayHello" ++ [Byte.x31])
  <> Fnv1a32 (bytes_of_string "/Greeter/SayHello" ++ [Byte.x32]).
Proof.
  apply (fnv_one_char_no_collision _ Byte.x31 Byte.x32 []);
    [|discriminate|discriminate|discriminate].
  by_decision.
Defined.

(** The published FNV-1a vectors, which go/hash_test.go checks too. *)
Example fnv_vectors :
  (Fnv1a32 [], Fnv1a32 (bytes_of_string "a"), Fnv1a32 (bytes_of_string "foo"),
   Fnv1a32 (bytes_of_string "foobar"))
  = (0x811c9dc5, 0xe40c292c, 0xa9f37ed7, 0xbf9cf968).
Proof. reflexivity. Qed.
