(* ===== verification/Transport.v ===== *)
(** * Handshakes and frames on a socket

    Models c++/src/transport.cc ([SyncTransport] and [AsyncTransport]).
    Boost.Asio is not part of the repository: its socket is the class [Asio],
    with the composed operations the code calls.  [AsioStream] states what the
    Asio documentation promises of them (a composed read fills the whole
    buffer or reports an error, a composed write transmits every buffer or
    reports an error), [AsioReliable] that a healthy connection delivers. *)

From S2P Require Import Prelude Status Frame.

(** ** The socket interface *)

Class Asio := {
  socket : Type;
  ErrorCode : Type;
  (** [ec.message()] and [system_error::what()]. *)
  ec_message : ErrorCode -> string;
  ec_what : ErrorCode -> string;
  (** [boost::asio::read(socket, buffer(buf), ec)]: the socket and the buffer
      afterwards, and the error if there is one. *)
  asio_read : socket -> bytes -> socket * bytes * option ErrorCode;
  (** [boost::asio::write(socket, buffers, ec)]. *)
  asio_write : socket -> list bytes -> socket * option ErrorCode;
  (** [socket.close(ec)]. *)
  asio_close : socket -> socket
}.

(** [incoming s] is what the peer sends and this end has not read yet,
    [outgoing s] what this end has transmitted so far. *)
Class AsioStream (A : Asio) := {
  incoming : socket -> bytes;
  outgoing : socket -> bytes;
  read_fills s buf s' buf' :
    asio_read s buf = (s', buf', None) ->
    length buf' = length buf /\ incoming s = buf' ++ incoming s';
  read_error_suffix s buf s' buf' e :
    asio_read s buf = (s', buf', Some e) ->
    length buf' = length buf /\ exists k, incoming s' = drop k (incoming s);
  read_keeps_out s buf s' buf' ec :
    asio_read s buf = (s', buf', ec) -> outgoing s' = outgoing s;
  write_all s bs s' :
    asio_write s bs = (s', None) -> outgoing s' = outgoing s ++ concat bs;
  write_error_prefix s bs s' e :
    asio_write s bs = (s', Some e) ->
    exists k, outgoing s' = outgoing s ++ take k (concat bs);
  write_keeps_in s bs s' ec :
    asio_write s bs = (s', ec) -> incoming s' = incoming s;
  close_keeps_out s : outgoing (asio_close s) = outgoing s;
  close_keeps_in s : incoming (asio_close s) = incoming s
}.

Class AsioReliable (A : Asio) `{!AsioStream A} := {
  healthy : socket -> Prop;
  read_available s buf s' buf' ec :
    healthy s -> (length buf <= length (incoming s))%nat ->
    asio_read s buf = (s', buf', ec) -> ec = None /\ healthy s';
  write_healthy s bs s' ec :
    healthy s -> asio_write s bs = (s', ec) -> ec = None /\ healthy s'
}.

(** ** SyncTransport *)

Section SyncTransport.
Context {A : Asio}.

Definition SyncTransport_WriteHandshake (s : socket) (header : bytes) : socket * Status :=
  match header with
  | [] => (s, Status_default)
  | _ =>
    let '(s1, ec) := asio_write s [header] in
    match ec with
    | Some e => (s1, mkStatus UNAVAILABLE ("handshake write: " +:+ ec_message e))
    | None => (s1, Status_default)
    end
  end.

Definition SyncTransport_ReadAndVerifyHandshake (s : socket) (expected : bytes)
    : socket * Status :=
  match expected with
  | [] => (s, Status_default)
  | _ =>
    let '(s1, buf, ec) := asio_read s (zeros (length expected)) in
    match ec with
    | Some e => (s1, mkStatus UNAVAILABLE ("handshake read: " +:+ ec_message e))
    | None =>
      if bool_decide (buf <> expected)
      then (s1, mkStatus FAILED_PRECONDITION "handshake mismatch")
      else (s1, Status_default)
    end
  end.

Definition SyncTransport_WriteFrame (s : socket) (header : FrameHeader) (payload : bytes)
    : socket * Status :=
  let buf := Serialize header in
  let '(s1, ec) := asio_write s [buf; payload] in
  match ec with
  | Some e => (s1, mkStatus UNAVAILABLE ("write frame: " +:+ ec_message e))
  | None => (s1, Status_default)
  end.

(** [header] and [payload] are out-parameters: their values on entry are
    arguments, their values on return results. *)
Definition SyncTransport_ReadFrame (s : socket) (header : FrameHeader) (payload : bytes)
    : socket * FrameHeader * bytes * Status :=
  let '(s1, buf, ec) := asio_read s (zeros kSize) in
  match ec with
  | Some e => (s1, header, payload, mkStatus UNAVAILABLE ("read header: " +:+ ec_message e))
  | None =>
    let header1 := Deserialize buf in
    if (0 <? payload_size header1)%Z then
      let '(s2, payload1, ec2) :=
        asio_read s1 (resize_bytes (Z.to_nat (payload_size header1)) payload) in
      match ec2 with
      | Some e => (s2, header1, payload1,
                   mkStatus UNAVAILABLE ("read payload: " +:+ ec_message e))
      | None => (s2, header1, payload1, Status_default)
      end
    else (s1, header1, [], Status_default)
  end.
End SyncTransport.

(** ** AsyncTransport

    With [use_awaitable] an operation that completes with an error throws
    [system_error]; every function catches it and reports [e.what()]. *)

Section AsyncTransport.
Context {A : Asio}.

Definition AsyncTransport_ReadHandshake (s : socket) (expected : bytes) : socket * Status :=
  match expected with
  | [] => (s, Status_default)
  | _ =>
    let '(s1, buf, ec) := asio_read s (zeros (length expected)) in
    match ec with
    | Some e => (s1, mkStatus UNAVAILABLE ("handshake read: " +:+ ec_what e))
    | None =>
      if bool_decide (buf <> expected)
      then (s1, mkStatus FAILED_PRECONDITION "handshake mismatch")
      else (s1, Status_default)
    end
  end.

Definition AsyncTransport_ReadHandshakeRaw (s : socket) (len : nat) (out : bytes)
    : socket * bytes * Status :=
  let '(s1, out1, ec) := asio_read s (resize_bytes len out) in
  match ec with
  | Some e => (s1, out1, mkStatus UNAVAILABLE ("handshake read: " +:+ ec_what e))
  | None => (s1, out1, Status_default)
  end.

Definition AsyncTransport_WriteHandshake (s : socket) (header : bytes) : socket * Status :=
  match header with
  | [] => (s, Status_default)
  | _ =>
    let '(s1, ec) := asio_write s [header] in
    match ec with
    | Some e => (s1, mkStatus UNAVAILABLE ("handshake write: " +:+ ec_what e))
    | None => (s1, Status_default)
    end
  end.

Definition AsyncTransport_WriteFrame (s : socket) (header : FrameHeader) (payload : bytes)
    : socket * Status :=
  let hdr_buf := Serialize header in
  let '(s1, ec) := asio_write s [hdr_buf; payload] in
  match ec with
  | Some e => (s1, mkStatus UNAVAILABLE ("write frame: " +:+ ec_what e))
  | None => (s1, Status_default)
  end.

Definition AsyncTransport_ReadFrame (s : socket) (header : FrameHeader) (payload : bytes)
    : socket * FrameHeader * bytes * Status :=
  let '(s1, buf, ec) := asio_read s (zeros kSize) in
  match ec with
  | Some e => (s1, header, payload, mkStatus UNAVAILABLE ("read frame: " +:+ ec_what e))
  | None =>
    let header1 := Deserialize buf in
    if (0 <? payload_size header1)%Z then
      let '(s2, payload1, ec2) :=
        asio_read s1 (resize_bytes (Z.to_nat (payload_size header1)) payload) in
      match ec2 with
      | Some e => (s2, header1, payload1,
                   mkStatus UNAVAILABLE ("read frame: " +:+ ec_what e))
      | None => (s2, header1, payload1, Status_default)
      end
    else (s1, header1, [], Status_default)
  end.
End AsyncTransport.

(** ** Specification vocabulary *)

(** The bytes of one frame, and frames whose size field tells the truth. *)
Definition encode_frame (f : FrameHeader * bytes) : bytes := Serialize f.1 ++ f.2.

Definition frame_wf (f : FrameHeader * bytes) : Prop :=
  header_wf f.1 /\ payload_size f.1 = size_of f.2.

(** Reads up to [n] frames, as a reader loop that starts each turn with a
    fresh header and payload does; stops at the first failing read. *)
Fixpoint read_frames {A : Asio} (n : nat) (s : socket)
    : socket * list (FrameHeader * bytes) * Status :=
  match n with
  | O => (s, [], Status_default)
  | S n' =>
    let '(s1, h, p, st) := AsyncTransport_ReadFrame s FrameHeader_default [] in
    if ok st then
      let '(s2, fs, st2) := read_frames n' s1 in (s2, (h, p) :: fs, st2)
    else (s1, [], st)
  end.

(** Writes frames one after the other, stopping at the first failure. *)
Fixpoint write_frames {A : Asio} (s : socket) (fs : list (FrameHeader * bytes))
    : socket * Status :=
  match fs with
  | [] => (s, Status_default)
  | (h, p) :: fs' =>
    let '(s1, st) := AsyncTransport_WriteFrame s h p in
    if ok st then write_frames s1 fs' else (s1, st)
  end.

(** What two transports agree on: socket, results and status code; the text
    of an error may differ. *)
Definition same_code (a b : Status) : Prop := code_ a = code_ b.

(** ** A concrete socket

    A scripted connection: the bytes the peer will send, the bytes sent so
    far, the number of writes that still succeed ([None]: all), and whether the descriptor
    is open.  It satisfies the interface and is what witnesses run on. *)

Record pipe := mkPipe { p_in : bytes; p_out : bytes; p_writes : option nat; p_open : bool }.

Inductive pipe_error := pipe_eof | pipe_broken | pipe_closed.

Definition pipe_error_text (e : pipe_error) : string :=
  match e with
  | pipe_eof => "End of file"
  | pipe_broken => "Broken pipe"
  | pipe_closed => "Bad file descriptor"
  end.

Definition pipe_read (s : pipe) (buf : bytes) : pipe * bytes * option pipe_error :=
  if p_open s then
    if decide (length buf <= length (p_in s))%nat
    then (mkPipe (drop (length buf) (p_in s)) (p_out s) (p_writes s) true,
          take (length buf) (p_in s), None)
    else (mkPipe [] (p_out s) (p_writes s) true,
          resize_bytes (length buf) (p_in s ++ drop (length (p_in s)) buf), Some pipe_eof)
  else (s, buf, Some pipe_closed).

Definition pipe_write (s : pipe) (bs : list bytes) : pipe * option pipe_error :=
  if p_open s then
    match p_writes s with
    | None => (mkPipe (p_in s) (p_out s ++ concat bs) None true, None)
    | Some O => (s, Some pipe_broken)
    | Some (S n) => (mkPipe (p_in s) (p_out s ++ concat bs) (Some n) true, None)
    end
  else (s, Some pipe_closed).

Definition pipe_close (s : pipe) : pipe := mkPipe (p_in s) (p_out s) (p_writes s) false.

#[export] Instance pipe_asio : Asio := {
  socket := pipe;
  ErrorCode := pipe_error;
  ec_message := pipe_error_text;
  ec_what := pipe_error_text;
  asio_read := pipe_read;
  asio_write := pipe_write;
  asio_close := pipe_close
}.

#[export, refine] Instance pipe_stream : AsioStream pipe_asio := {
  incoming := p_in;
  outgoing := p_out
}.
Proof.
  - intros s buf s' buf'. cbn. unfold pipe_read. repeat case_match; intros; simplify_eq/=.
    rw length_take take_drop. split; [lia|done].
  - intros s buf s' buf' e. cbn. unfold pipe_read. repeat case_match; intros; simplify_eq/=.
    + rw length_resize_bytes. split; [done|]. exists (length (p_in s)). by rw drop_all.
    + split; [done|]. by exists O.
  - intros s buf s' buf' ec. cbn. unfold pipe_read. by repeat case_match; intros; simplify_eq/=.
  - intros s bs s'. cbn. unfold pipe_write. by repeat case_match; intros; simplify_eq/=.
  - intros s bs s' e. cbn. unfold pipe_write. repeat case_match; intros; simplify_eq/=;
      exists O; by rw take_0 app_nil_r.
  - intros s bs s' ec. cbn. unfold pipe_write. by repeat case_match; intros; simplify_eq/=.
  - done.
  - done.
Defined.

#[export, refine] Instance pipe_reliable : AsioReliable pipe_asio := {
  healthy := fun s => p_open s = true /\ p_writes s = None
}.
Proof.
  - intros s buf s' buf' ec [Ho Hw] Hl. cbn in *. unfold pipe_read. rw Ho.
    repeat case_match; intros; simplify_eq/=; done.
  - intros s bs s' ec [Ho Hw]. cbn. unfold pipe_write. rw Ho Hw.
    by intros; simplify_eq/=.
Defined.

(** ** Lemmas *)

Section Facts.
Context {A : Asio} `{!AsioStream A} `{!AsioReliable A}.
Implicit Types (s : socket) (h : FrameHeader) (p : bytes).

(** A composed read on a healthy connection with enough data. *)
Lemma read_take s buf :
  healthy s -> (length buf <= length (incoming s))%nat ->
  exists s', asio_read s buf = (s', take (length buf) (incoming s), None)
    /\ healthy s' /\ incoming s' = drop (length buf) (incoming s)
    /\ outgoing s' = outgoing s.
Proof.
  intros Hh Hl. destruct (asio_read s buf) as [[s' buf'] ec] eqn:E.
  destruct (read_available _ _ _ _ _ Hh Hl E) as [-> Hh'].
  destruct (read_fills _ _ _ _ E) as [Hlen Hin].
  exists s'. rw -Hlen Hin take_app_length drop_app_length.
  eauto using read_keeps_out.
Qed.

Lemma write_concat s bs :
  healthy s ->
  exists s', asio_write s bs = (s', None) /\ healthy s'
    /\ outgoing s' = outgoing s ++ concat bs /\ incoming s' = incoming s.
Proof.
  intros Hh. destruct (asio_write s bs) as [s' ec] eqn:E.
  destruct (write_healthy _ _ _ _ Hh E) as [-> Hh'].
  eauto 10 using write_all, write_keeps_in.
Qed.

(** Reading one frame off a stream that holds one, in full generality: the
    payload is as long as the size field says, whatever was written after
    the header. *)
Lemma ReadFrame_stream s h body h0 p0 :
  healthy s -> header_wf h -> incoming s = Serialize h ++ body ->
  (payload_size h <= size_of body)%Z ->
  exists s', AsyncTransport_ReadFrame s h0 p0
             = (s', h, take (Z.to_nat (payload_size h)) body, Status_default)
    /\ healthy s' /\ incoming s' = drop (Z.to_nat (payload_size h)) body
    /\ outgoing s' = outgoing s.
Proof.
  intros Hh Hwf Hin Hle. unfold AsyncTransport_ReadFrame.
  destruct (read_take s (zeros kSize)) as (s1 & E & Hh1 & Hin1 & Hout1); [done|..].
  { rw Hin length_app length_zeros Serialize_length. lia. }
  rw E length_zeros Hin -(Serialize_length h) take_app_length header_roundtrip //.
  rw length_zeros Hin -(Serialize_length h) drop_app_length in Hin1.
  pose proof (wf_size _ Hwf) as Hr. unfold is_u32, size_of in *.
  destruct (Z.ltb_spec 0 (payload_size h)) as [Hpos|Hz].
  - destruct (read_take s1 (resize_bytes (Z.to_nat (payload_size h)) p0))
      as (s2 & E2 & Hh2 & Hin2 & Hout2); [done|..].
    { rw length_resize_bytes Hin1. lia. }
    rw E2. rw length_resize_bytes in Hin2. rw length_resize_bytes Hin1.
    exists s2. rw Hin2 Hin1 Hout2. auto.
  - assert (payload_size h = 0)%Z as -> by lia. exists s1. auto.
Qed.

Lemma WriteFrame_stream s h p :
  healthy s ->
  exists s', AsyncTransport_WriteFrame s h p = (s', Status_default)
    /\ healthy s' /\ outgoing s' = outgoing s ++ encode_frame (h, p)
    /\ incoming s' = incoming s.
Proof.
  intros Hh. unfold AsyncTransport_WriteFrame.
  destruct (write_concat s [Serialize h; p]) as (s1 & -> & Hh1 & Ho & Hi); [done|].
  exists s1. rw Ho /= app_nil_r. auto.
Qed.

Lemma ReadFrame_one s f rest h0 p0 :
  healthy s -> frame_wf f -> incoming s = encode_frame f ++ rest ->
  exists s', AsyncTransport_ReadFrame s h0 p0 = (s', f.1, f.2, Status_default)
    /\ healthy s' /\ incoming s' = rest /\ outgoing s' = outgoing s.
Proof.
  destruct f as [h p]. intros Hh [Hw Hp] Hin. cbn [fst snd] in *.
  change (encode_frame (h, p)) with (Serialize h ++ p) in Hin. rw -app_assoc in Hin.
  destruct (ReadFrame_stream s h (p ++ rest) h0 p0) as (s1 & E & Hh1 & Hin1 & Ho1); try done.
  { rw Hp. unfold size_of. rw length_app. lia. }
  unfold size_of in Hp. rw E Hp Nat2Z.id take_app_length.
  rw Hp Nat2Z.id drop_app_length in Hin1. by exists s1.
Qed.

Lemma ReadHandshakeRaw_stream s hs rest :
  healthy s -> incoming s = hs ++ rest ->
  exists s', AsyncTransport_ReadHandshakeRaw s (length hs) [] = (s', hs, Status_default)
    /\ healthy s' /\ incoming s' = rest /\ outgoing s' = outgoing s.
Proof.
  intros Hh Hin. unfold AsyncTransport_ReadHandshakeRaw.
  destruct (read_take s (resize_bytes (length hs) [])) as (s1 & E & Hh1 & Hin1 & Ho1); [done|..].
  { rw length_resize_bytes Hin length_app. lia. }
  rw length_resize_bytes Hin drop_app_length in Hin1.
  rw E length_resize_bytes Hin take_app_length. by exists s1.
Qed.

Lemma WriteHandshake_stream s hs :
  healthy s ->
  exists s', AsyncTransport_WriteHandshake s hs = (s', Status_default)
    /\ healthy s' /\ outgoing s' = outgoing s ++ hs /\ incoming s' = incoming s.
Proof.
  intros Hh. unfold AsyncTransport_WriteHandshake.
  destruct hs as [|c hs]; [exists s; by rw app_nil_r|].
  destruct (write_concat s [c :: hs]) as (s1 & -> & Hh1 & Ho & Hi); [done|].
  exists s1. by rw Ho /= app_nil_r.
Qed.

(** A run of well-formed frames is read back frame by frame. *)
Lemma read_frames_stream fs s rest :
  healthy s -> Forall frame_wf fs ->
  incoming s = concat (encode_frame <$> fs) ++ rest ->
  exists s', read_frames (length fs) s = (s', fs, Status_default)
    /\ healthy s' /\ incoming s' = rest /\ outgoing s' = outgoing s.
Proof.
  intros Hh Hwf. revert s Hh.
  induction Hwf as [|[h p] fs Hf Hfs IH]; intros s Hh Hin; simpl in *.
  { exists s. auto. }
  rw -app_assoc in Hin.
  destruct (ReadFrame_one s (h, p) _ FrameHeader_default [] Hh Hf Hin)
    as (s1 & E & Hh1 & Hin1 & Ho1). rw E /=.
  destruct (IH s1 Hh1 Hin1) as (s2 & -> & Hh2 & Hin2 & Ho2).
  exists s2. rw Ho2. auto.
Qed.

Lemma write_frames_stream fs s :
  healthy s ->
  exists s', write_frames s fs = (s', Status_default)
    /\ healthy s' /\ outgoing s' = outgoing s ++ concat (encode_frame <$> fs).
Proof.
  revert s. induction fs as [|[h p] fs IH]; intros s Hh; simpl.
  { exists s. rw app_nil_r. auto. }
  destruct (WriteFrame_stream s h p Hh) as (s1 & -> & Hh1 & Ho1 & _). simpl.
  destruct (IH s1 Hh1) as (s2 & -> & Hh2 & Ho2).
  exists s2. rw Ho2 Ho1. split; [done|]. by rewrite <- app_assoc.
Qed.
End Facts.

(** ** Facts that need no healthy connection *)

Section StreamFacts.
Context {A : Asio} `{!AsioStream A}.
Implicit Types (s : socket) (h : FrameHeader) (p : bytes).

(** The raw bytes of a frame as they were received. *)
Definition raw_frame (raw : bytes) (f : FrameHeader * bytes) : Prop :=
  exists buf, length buf = kSize /\ f.1 = Deserialize buf
    /\ size_of f.2 = payload_size f.1 /\ raw = buf ++ f.2.

Lemma ReadFrame_raw s h0 p0 s' h p st :
  AsyncTransport_ReadFrame s h0 p0 = (s', h, p, st) ->
  outgoing s' = outgoing s /\
  (ok st = true -> exists raw, raw_frame raw (h, p) /\ incoming s = raw ++ incoming s').
Proof.
  unfold AsyncTransport_ReadFrame. intros E.
  destruct (asio_read s (zeros kSize)) as [[s1 buf] ec] eqn:E1.
  pose proof (read_keeps_out _ _ _ _ _ E1) as Ho1.
  destruct ec as [e|]; [by simplify_eq/=|]. cbv zeta in E.
  destruct (read_fills _ _ _ _ E1) as [Hl1 Hin1]. rw length_zeros in Hl1.
  pose proof (wf_size _ (Deserialize_wf buf)) as Hr.
  remember (Deserialize buf) as hd eqn:Hhd.
  destruct (0 <? payload_size hd)%Z eqn:Ep; breflect.
  - destruct (asio_read s1 _) as [[s2 p1] ec2] eqn:E2.
    pose proof (read_keeps_out _ _ _ _ _ E2) as Ho2.
    destruct ec2; simplify_eq; (split; [congruence|]); [done|]. intros _.
    destruct (read_fills _ _ _ _ E2) as [Hl2 Hin2]. rw length_resize_bytes in Hl2.
    exists (buf ++ p). rw Hin1 Hin2 -app_assoc. split; [|done].
    exists buf. unfold size_of. cbn [fst snd]. rw Hl2. repeat split; try done; lia.
  - simplify_eq. split; [done|]. intros _. exists buf. split; [|done].
    exists buf. unfold is_u32, size_of in *. cbn [fst snd]. rw app_nil_r.
    repeat split; try done. change (length (@nil Byte.byte)) with 0%nat. lia.
Qed.

Lemma ReadFrame_header_wf (sock sock' : socket) h0 p0 h p st :
  AsyncTransport_ReadFrame sock h0 p0 = (sock', h, p, st) -> ok st = true -> header_wf h.
Proof.
  unfold AsyncTransport_ReadFrame. repeat case_match; intros; simplify_eq; auto with protocomm.
Qed.

Lemma WriteFrame_out s h p s' st :
  AsyncTransport_WriteFrame s h p = (s', st) ->
  incoming s' = incoming s /\
  (ok st = true -> outgoing s' = outgoing s ++ encode_frame (h, p)).
Proof.
  unfold AsyncTransport_WriteFrame.
  destruct (asio_write s [Serialize h; p]) as [s1 ec] eqn:E.
  pose proof (write_keeps_in _ _ _ _ E). destruct ec; intros; simplify_eq/=; [done|].
  apply write_all in E. rw E /= app_nil_r. done.
Qed.

Lemma WriteHandshake_out s hs s' st :
  AsyncTransport_WriteHandshake s hs = (s', st) ->
  incoming s' = incoming s /\
  (exists k, outgoing s' = outgoing s ++ take k hs) /\
  (ok st = true -> outgoing s' = outgoing s ++ hs).
Proof.
  unfold AsyncTransport_WriteHandshake. destruct hs as [|c hs].
  { intros; simplify_eq. rw app_nil_r. split_and!; try done. exists O. by rw take_0 app_nil_r. }
  destruct (asio_write s [c :: hs]) as [s1 ec] eqn:E.
  pose proof (write_keeps_in _ _ _ _ E). destruct ec; intros; simplify_eq; split_and!; try done.
  - apply write_error_prefix in E as [k E]. exists k. by rw E /= app_nil_r.
  - apply write_all in E. exists (length (c :: hs)). by rw E take_ge //= app_nil_r.
  - apply write_all in E. by rw E /= app_nil_r.
Qed.

Lemma ReadHandshake_out s hs s' st :
  AsyncTransport_ReadHandshake s hs = (s', st) -> outgoing s' = outgoing s.
Proof.
  unfold AsyncTransport_ReadHandshake. destruct hs as [|c hs]; [by intros; simplify_eq|].
  destruct (asio_read _ _) as [[s1 b] ec] eqn:E. pose proof (read_keeps_out _ _ _ _ _ E).
  repeat case_match; intros; by simplify_eq.
Qed.

Lemma ReadHandshakeRaw_in s n out0 s' out st :
  AsyncTransport_ReadHandshakeRaw s n out0 = (s', out, st) ->
  outgoing s' = outgoing s /\
  (ok st = true -> incoming s = out ++ incoming s').
Proof.
  unfold AsyncTransport_ReadHandshakeRaw.
  destruct (asio_read s (resize_bytes n out0)) as [[s1 o1] ec] eqn:E.
  pose proof (read_keeps_out _ _ _ _ _ E). destruct ec; intros; simplify_eq; [done|].
  apply read_fills in E as [_ ?]. done.
Qed.
End StreamFacts.

(** Frames are self-delimiting. *)
Lemma encode_frames_inj fs gs :
  Forall frame_wf fs -> Forall frame_wf gs ->
  concat (encode_frame <$> fs) = concat (encode_frame <$> gs) -> fs = gs.
Proof.
  intros Hf. revert gs.
  induction Hf as [|[h p] fs [Hw Hp] Hfs IH]; intros gs Hg E;
    destruct Hg as [|[h' p'] gs [Hw' Hp'] Hgs]; try done.
  rw !fmap_cons !concat_cons /encode_frame in E. cbn [fst snd] in *.
  rw -(app_assoc (Serialize h)) -(app_assoc (Serialize h')) in E.
  apply app_eq_length_inv in E as [E1 E]; [|done].
  apply Serialize_inj in E1; [|done..]. subst h'.
  apply app_eq_length_inv in E as [-> E].
  - f_equal. by apply IH.
  - unfold size_of in *. lia.
Qed.

(** ** Properties *)

(** C20: frames written one after the other on a healthy connection are read
    back at the other end, in order, headers and payloads intact, with nothing
    left over: writing succeeds, and a reader whose incoming bytes are what
    was written gets exactly the list of frames. *)
Theorem frames_roundtrip {A : Asio} `{!AsioStream A} `{!AsioReliable A} fs w r :
  healthy w -> healthy r -> outgoing w = [] -> Forall frame_wf fs ->
  exists w', write_frames w fs = (w', Status_default) /\
    (incoming r = outgoing w' ->
     exists r', read_frames (length fs) r = (r', fs, Status_default)
       /\ incoming r' = []).
Proof.
  intros Hw Hr Ho Hfs. destruct (write_frames_stream fs w Hw) as (w' & E & _ & Ho').
  exists w'. split; [done|]. rw Ho' Ho app_nil_l. intros Hin.
  rw -(app_nil_r (concat _)) in Hin.
  destruct (read_frames_stream fs r [] Hr Hfs Hin) as (r' & E' & _ & Hin' & _). eauto.
Qed.

Lemma frames_roundtrip_witness :
  let fs := [(mkHeader kRequest 0 1 7 3, bytes_of_string "abc"); (mkHeader kPush 0 0 9 0, [])] in
  let w := mkPipe [] [] None true in
  exists w', write_frames (A := pipe_asio) w fs = (w', Status_default) /\
    exists r', read_frames (A := pipe_asio) 2 (mkPipe (p_out w') [] None true)
               = (r', fs, Status_default) /\ p_in r' = [].
Proof.
  intros fs w.
  destruct (frames_roundtrip (A := pipe_asio) fs w
    (mkPipe (concat (encode_frame <$> fs)) [] None true)) as (w' & E & H).
  - done.
  - done.
  - done.
  - by repeat constructor.
  - vm_compute in E. simplify_eq. eexists. split; [by vm_compute|].
    apply H. by vm_compute.
Defined.

(** The wire format is unambiguous: two sequences of well-formed frames
    with the same bytes are the same sequence. *)
Theorem frames_unambiguous fs gs :
  Forall frame_wf fs -> Forall frame_wf gs ->
  concat (encode_frame <$> fs) = concat (encode_frame <$> gs) -> fs = gs.
Proof. apply encode_frames_inj. Qed.

Lemma frames_unambiguous_witness :
  [(mkHeader kPush 0 0 9 0, [] : bytes)] = [(mkHeader kPush 0 0 9 0, [])].
Proof. apply frames_unambiguous; by repeat constructor. Defined.

(** [ReadFrame] on any connection, failing ones included: an OK status
    means the consumed bytes are a 16-byte header followed by as many payload
    bytes as the header announces; any failure is reported as UNAVAILABLE and
    transmits nothing. *)
Theorem ReadFrame_sound {A : Asio} `{!AsioStream A} s h0 p0 s' h p st :
  AsyncTransport_ReadFrame s h0 p0 = (s', h, p, st) ->
  outgoing s' = outgoing s /\
  if ok st
  then exists buf, length buf = kSize /\ h = Deserialize buf
         /\ size_of p = payload_size h /\ incoming s = buf ++ p ++ incoming s'
  else code_ st = UNAVAILABLE.
Proof.
  intros E. destruct (ReadFrame_raw _ _ _ _ _ _ _ E) as [Ho Hok]. split; [done|].
  destruct (ok st) eqn:Est.
  - destruct (Hok eq_refl) as (raw & (buf & ? & ? & ? & ->) & Hin). exists buf.
    by rw Hin -app_assoc.
  - revert E. unfold AsyncTransport_ReadFrame. repeat case_match; intros; by simplify_eq/=.
Qed.

Lemma ReadFrame_sound_witness :
  exists buf : bytes, length buf = kSize /\ mkHeader kPush 0 0 9 1 = Deserialize buf
    /\ (Serialize (mkHeader kPush 0 0 9 1) ++ [Byte.x41]) = buf ++ [Byte.x41] ++ [].
Proof.
  destruct (ReadFrame_sound (A := pipe_asio)
    (mkPipe (Serialize (mkHeader kPush 0 0 9 1) ++ [Byte.x41]) [] None true)
    FrameHeader_default [] (mkPipe [] [] None true) (mkHeader kPush 0 0 9 1) [Byte.x41]
    Status_default eq_refl) as [_ (buf & Hl & Hh & _ & Hin)].
  exists buf. auto.
Defined.

(** [ReadHandshake] on a healthy connection that delivers enough bytes
    consumes exactly the length of the expected header, and reports OK if
    they are the expected bytes and FAILED_PRECONDITION otherwise. *)
Theorem ReadHandshake_exact {A : Asio} `{!AsioStream A} `{!AsioReliable A} s expected :
  healthy s -> (length expected <= length (incoming s))%nat ->
  exists s' st, AsyncTransport_ReadHandshake s expected = (s', st)
    /\ incoming s' = drop (length expected) (incoming s)
    /\ code_ st = if decide (take (length expected) (incoming s) = expected)
                  then OK else FAILED_PRECONDITION.
Proof.
  intros Hh Hl. unfold AsyncTransport_ReadHandshake.
  destruct expected as [|c e]; [eexists _, _; split; [done|]; by rw drop_0|].
  destruct (read_take s (zeros (length (c :: e)))) as (s1 & -> & _ & Hin & _); try done.
  { by rw length_zeros. }
  rw !length_zeros in Hin |- *. case_bool_decide; eexists _, _; split; try done;
    (split; [done|]); by case_decide.
Qed.

Lemma ReadHandshake_exact_witness :
  exists s' st,
    AsyncTransport_ReadHandshake (A := pipe_asio)
      (mkPipe (bytes_of_string "BADx") [] None true) (bytes_of_string "pc1") = (s', st)
    /\ p_in s' = bytes_of_string "x" /\ code_ st = FAILED_PRECONDITION.
Proof.
  destruct (ReadHandshake_exact (A := pipe_asio)
    (mkPipe (bytes_of_string "BADx") [] None true) (bytes_of_string "pc1"))
    as (s' & st & E & Hin & Hc).
  - done.
  - simpl. lia.
  - exists s', st. split; [done|]. split; [done|]. rw Hc. by vm_compute.
Defined.

(** The synchronous and the asynchronous transport agree: on every socket
    they leave the same socket, header and payload and report the same status
    code; only the wording of an error differs. *)
Theorem sync_async_agree {A : Asio} s hs h p :
  (let '(s1, a) := SyncTransport_WriteHandshake s hs in
   let '(s2, b) := AsyncTransport_WriteHandshake s hs in s1 = s2 /\ same_code a b) /\
  (let '(s1, a) := SyncTransport_ReadAndVerifyHandshake s hs in
   let '(s2, b) := AsyncTransport_ReadHandshake s hs in s1 = s2 /\ same_code a b) /\
  (let '(s1, a) := SyncTransport_WriteFrame s h p in
   let '(s2, b) := AsyncTransport_WriteFrame s h p in s1 = s2 /\ same_code a b) /\
  (let '(s1, h1, p1, a) := SyncTransport_ReadFrame s h p in
   let '(s2, h2, p2, b) := AsyncTransport_ReadFrame s h p in
   s1 = s2 /\ h1 = h2 /\ p1 = p2 /\ same_code a b).
Proof.
  unfold SyncTransport_WriteHandshake, AsyncTransport_WriteHandshake,
    SyncTransport_ReadAndVerifyHandshake, AsyncTransport_ReadHandshake,
    SyncTransport_WriteFrame, AsyncTransport_WriteFrame,
    SyncTransport_ReadFrame, AsyncTransport_ReadFrame, same_code.
  repeat split; repeat (case_match; simplify_eq/=); done.
Qed.
