(* ===== verification/Mpsc.v ===== *)
(** * The completion queue

    Models c++/src/mpsc_queue.h, an intrusive multi-producer single-consumer
    queue.  Every atomic access of [push] and [pop] is one step; producers and
    the consumer interleave at steps, so a state holds the program points of
    the pushes and of the pop that are under way.  Steps are interleaved
    sequentially consistently; [MpscWeak] has the same code under the memory
    orders that the source names. *)

From S2P Require Import Prelude.

(** ** Data *)

Abbreviation node := positive.
Abbreviation thread := nat.

(** [&stub_]. *)
Definition stub_ : node := 1%positive.

(** The points of [push(node)] between its three atomic accesses. *)
Inductive push_pc :=
| PushStored (n : node)
| PushExchanged (prev n : node).

(** The points of [pop()]; [tail] is the local variable. *)
Inductive pop_pc :=
| PopIdle
| PopSkipped (tail : node)          (* the stub was passed, line 36 is next *)
| PopCheckHead (tail : node)        (* line 45 is next *)
| PopStubStore (tail : node)        (* in push(&stub_): line 20 is next *)
| PopStubExchange (tail : node)     (* line 21 is next *)
| PopStubLink (tail prev : node)    (* line 22 is next *)
| PopRetry (tail : node).           (* line 51 is next *)

(** The queue, the calls under way, and three history variables: the nodes
    handed to [push] and not yet returned by [pop], the nodes in the order of
    their exchange on [head_], and the results of the finished pops.  A node
    without entry in [mpsc_next] holds [nullptr]. *)
Record mpsc := mkMpsc {
  head_ : node;
  tail_ : node;
  mpsc_next : gmap node node;
  pushers : gmap thread push_pc;
  popper : pop_pc;
  owned : gset node;
  pushed : list node;
  results : list (option node)
}.

(** [MpscQueue() : head_(&stub_), tail_(&stub_)]. *)
Definition mpsc_init : mpsc := mkMpsc stub_ stub_ ∅ ∅ PopIdle ∅ [] [].

(** ** Atomic accesses *)

Definition load_next (q : mpsc) (n : node) : option node := mpsc_next q !! n.

(** Line 20: [node->mpsc_next.store(nullptr)]. *)
Definition push_store (n : node) (q : mpsc) : mpsc :=
  mkMpsc (head_ q) (tail_ q) (delete n (mpsc_next q)) (pushers q) (popper q)
         (owned q) (pushed q) (results q).

(** Line 21: [head_.exchange(node)]; the old value is [head_ q]. *)
Definition push_exchange (n : node) (q : mpsc) : mpsc :=
  mkMpsc n (tail_ q) (mpsc_next q) (pushers q) (popper q)
         (owned q) (pushed q) (results q).

(** Line 22: [prev->mpsc_next.store(node)]. *)
Definition push_link (prev n : node) (q : mpsc) : mpsc :=
  mkMpsc (head_ q) (tail_ q) (<[prev := n]> (mpsc_next q)) (pushers q) (popper q)
         (owned q) (pushed q) (results q).

Definition set_pushers (ps : gmap thread push_pc) (q : mpsc) : mpsc :=
  mkMpsc (head_ q) (tail_ q) (mpsc_next q) ps (popper q) (owned q) (pushed q) (results q).

Definition set_popper (pc : pop_pc) (q : mpsc) : mpsc :=
  mkMpsc (head_ q) (tail_ q) (mpsc_next q) (pushers q) pc (owned q) (pushed q) (results q).

Definition set_tail (n : node) (q : mpsc) : mpsc :=
  mkMpsc (head_ q) n (mpsc_next q) (pushers q) (popper q) (owned q) (pushed q) (results q).

(** History: node [n] becomes the queue's, [n] takes its place in the order,
    [pop] returns [r]. *)
Definition log_own (n : node) (q : mpsc) : mpsc :=
  mkMpsc (head_ q) (tail_ q) (mpsc_next q) (pushers q) (popper q)
         ({[n]} ∪ owned q) (pushed q) (results q).

Definition log_pushed (n : node) (q : mpsc) : mpsc :=
  mkMpsc (head_ q) (tail_ q) (mpsc_next q) (pushers q) (popper q)
         (owned q) (pushed q ++ [n]) (results q).

Definition pop_return (r : option node) (q : mpsc) : mpsc :=
  mkMpsc (head_ q) (tail_ q) (mpsc_next q) (pushers q) PopIdle
         (match r with Some n => owned q ∖ {[n]} | None => owned q end)
         (pushed q) (results q ++ [r]).

(** ** Steps *)

Inductive mpsc_event :=
| PushStore (t : thread) (n : node)
| PushExchange (t : thread)
| PushLink (t : thread)
| PopStep.

(** The part of [pop] after a load of [tail->mpsc_next] at lines 28 and 36:
    lines 39 to 42, and else on to line 45. *)
Definition pop_after_load (tail : node) (next : option node) (q : mpsc) : mpsc :=
  match next with
  | Some nx => pop_return (Some tail) (set_tail nx q)
  | None => set_popper (PopCheckHead tail) q
  end.

(** The consumer's next atomic access, with the local computation up to the
    one after it. *)
Definition pop_step (q : mpsc) : mpsc :=
  match popper q with
  | PopIdle =>
    let tail := tail_ q in
    let next := load_next q tail in
    if decide (tail = stub_) then
      match next with
      | None => pop_return None q
      | Some nx => set_popper (PopSkipped nx) (set_tail nx q)
      end
    else pop_after_load tail next q
  | PopSkipped tail => pop_after_load tail (load_next q tail) q
  | PopCheckHead tail =>
    if decide (tail <> head_ q) then pop_return None q
    else set_popper (PopStubStore tail) q
  | PopStubStore tail => set_popper (PopStubExchange tail) (push_store stub_ q)
  | PopStubExchange tail =>
    set_popper (PopStubLink tail (head_ q)) (push_exchange stub_ q)
  | PopStubLink tail prev => set_popper (PopRetry tail) (push_link prev stub_ q)
  | PopRetry tail =>
    match load_next q tail with
    | Some nx => pop_return (Some tail) (set_tail nx q)
    | None => pop_return None q
    end
  end.

(** A producer thread runs one push at a time, on a node that is neither the
    stub nor in the queue already. *)
Definition mpsc_step (e : mpsc_event) (q : mpsc) : option mpsc :=
  match e with
  | PushStore t n =>
    if decide (pushers q !! t = None /\ n <> stub_ /\ n ∉ owned q)
    then Some (log_own n (set_pushers (<[t := PushStored n]> (pushers q)) (push_store n q)))
    else None
  | PushExchange t =>
    match pushers q !! t with
    | Some (PushStored n) =>
      Some (log_pushed n
             (set_pushers (<[t := PushExchanged (head_ q) n]> (pushers q)) (push_exchange n q)))
    | _ => None
    end
  | PushLink t =>
    match pushers q !! t with
    | Some (PushExchanged prev n) =>
      Some (set_pushers (delete t (pushers q)) (push_link prev n q))
    | _ => None
    end
  | PopStep => Some (pop_step q)
  end.

(** ** Uninterrupted calls *)

(** [push(node)] and [pop()] run by a thread with no other thread running:
    [pop] takes at most seven accesses. *)
Definition push_events (t : thread) (n : node) : list mpsc_event :=
  [PushStore t n; PushExchange t; PushLink t].

Definition push (t : thread) (n : node) (q : mpsc) : mpsc :=
  default q (run_events mpsc_step (push_events t n) q).

Fixpoint pop_run (fuel : nat) (q : mpsc) : mpsc :=
  match fuel with
  | O => q
  | S k => let q' := pop_step q in
           match popper q' with PopIdle => q' | _ => pop_run k q' end
  end.

Definition pop_fuel : nat := 7.
Definition pop (q : mpsc) : mpsc := pop_run pop_fuel q.

#[global] Instance pop_pc_eq_dec : EqDecision pop_pc.
Proof. solve_decision. Defined.
#[global] Instance mpsc_event_eq_dec : EqDecision mpsc_event.
Proof. solve_decision. Defined.

(** ** Specification vocabulary *)

(** The values returned by pops, in order. *)
Definition popped (q : mpsc) : list node := omap id (results q).

(** Neighbours in a list. *)
Definition adj (c : list node) (a b : node) : Prop :=
  exists i, c !! i = Some a /\ c !! S i = Some b.

(** [b] was exchanged onto [head_] after [a] and not yet linked from it. *)
Definition in_flight (q : mpsc) (a b : node) : Prop :=
  (exists t, pushers q !! t = Some (PushExchanged a b)) \/
  (b = stub_ /\ exists tail, popper q = PopStubLink tail a).

Definition pc_node (pc : push_pc) : node :=
  match pc with PushStored n => n | PushExchanged _ n => n end.

Definition not_stub (n : node) : Prop := n <> stub_.
#[global] Instance not_stub_dec n : Decision (not_stub n).
Proof. unfold not_stub. apply _. Defined.

(** What the consumer's program point entails. *)
Definition popper_inv (q : mpsc) (c : list node) : Prop :=
  match popper q with
  | PopIdle => True
  | PopSkipped tail | PopCheckHead tail | PopRetry tail =>
    tail = tail_ q /\ tail <> stub_
  | PopStubStore tail => tail = tail_ q /\ tail <> stub_ /\ (stub_ ∉ c)
  | PopStubExchange tail =>
    tail = tail_ q /\ tail <> stub_ /\ (stub_ ∉ c) /\ load_next q stub_ = None
  | PopStubLink tail prev => tail = tail_ q /\ tail <> stub_
  end.

(** The chain [c] from [tail_] to [head_] in exchange order: every neighbour
    is linked or about to be linked by exactly one call. *)
Record chain_inv (q : mpsc) (c : list node) : Prop := {
  ci_tail : head c = Some (tail_ q);
  ci_head : last c = Some (head_ q);
  ci_nodup : NoDup c;
  ci_links : forall a b, adj c a b ->
    load_next q a = Some b \/ (load_next q a = None /\ in_flight q a b);
  ci_last : load_next q (head_ q) = None;
  ci_flight : forall a b, in_flight q a b -> adj c a b /\ load_next q a = None;
  ci_stored : forall t n, pushers q !! t = Some (PushStored n) ->
    (n ∉ c) /\ load_next q n = None;
  ci_uniq : forall t u pc pd, pushers q !! t = Some pc -> pushers q !! u = Some pd ->
    pc_node pc = pc_node pd -> t = u;
  ci_nodes : forall t pc, pushers q !! t = Some pc -> pc_node pc <> stub_;
  ci_owned : forall n, n ∈ owned q <->
    n <> stub_ /\ (n ∈ c \/ exists t, pushers q !! t = Some (PushStored n));
  ci_popper : popper_inv q c;
  ci_order : pushed q = popped q ++ filter not_stub c
}.

(** The abstract queue: what has been exchanged and not been returned. *)
Definition contents (q : mpsc) : list node := drop (length (popped q)) (pushed q).

(** No call is under way. *)
Definition quiescent (q : mpsc) : Prop := pushers q = ∅ /\ popper q = PopIdle.

(** ** Lemmas on neighbours *)

Lemma adj_nil a b : ~ adj [] a b.
Proof. intros (i & Hi & _). by rw lookup_nil in Hi. Qed.

Lemma adj_cons x c a b : adj (x :: c) a b <-> (x = a /\ head c = Some b) \/ adj c a b.
Proof.
  split.
  - intros ([|i] & Ha & Hb); simpl in *.
    + left. simplify_eq. by rw head_lookup.
    + right. by exists i.
  - intros [[-> Hb]|(i & Ha & Hb)].
    + exists 0. by rw head_lookup in Hb.
    + by exists (S i).
Qed.

Lemma adj_snoc c n a b : adj (c ++ [n]) a b <-> adj c a b \/ (last c = Some a /\ n = b).
Proof.
  induction c as [|x c IH].
  - rw app_nil_l adj_cons. simpl. split; [intros [[_ ?]|?%adj_nil]|intros [?%adj_nil|[??]]]; done.
  - rw -app_comm_cons !adj_cons IH. destruct c as [|y c]; simpl.
    + split.
      * intros [[-> [= <-]]|[?%adj_nil|[??]]]; [right|..]; auto; done.
      * intros [[[_ ?]|?%adj_nil]|[[= ->] ->]]; [done..|]. by left.
    + tauto.
Qed.

Lemma adj_elem c a b : adj c a b -> a ∈ c /\ b ∈ c.
Proof. intros (i & ? & ?). split; by eapply list_elem_of_lookup_2. Qed.

Lemma adj_fun c a b b' : NoDup c -> adj c a b -> adj c a b' -> b = b'.
Proof.
  intros Hn (i & Ha & Hb) (j & Ha' & Hb').
  pose proof (NoDup_lookup _ _ _ _ Hn Ha Ha'). by simplify_eq.
Qed.

Lemma adj_inj c a a' b : NoDup c -> adj c a b -> adj c a' b -> a = a'.
Proof.
  intros Hn (i & Ha & Hb) (j & Ha' & Hb').
  pose proof (NoDup_lookup _ _ _ _ Hn Hb Hb'). by simplify_eq.
Qed.

Lemma adj_irrefl c a : NoDup c -> ~ adj c a a.
Proof.
  intros Hn (i & Ha & Hb). pose proof (NoDup_lookup _ _ _ _ Hn Ha Hb). lia.
Qed.

(** The last element has no right neighbour. *)
Lemma adj_last c a b : NoDup c -> last c = Some a -> ~ adj c a b.
Proof.
  intros Hn Hl (i & Ha & Hb). rw last_lookup in Hl.
  pose proof (NoDup_lookup _ _ _ _ Hn Ha Hl). apply lookup_lt_Some in Hb. lia.
Qed.

(** In a chain, a node with no successor is the last one. *)
Lemma no_succ_last c a : a ∈ c -> (forall b, ~ adj c a b) -> last c = Some a.
Proof.
  intros [i Hi]%list_elem_of_lookup Hno. rw last_lookup.
  destruct (c !! S i) as [b|] eqn:E; [by destruct (Hno b); exists i|].
  apply lookup_ge_None in E. apply lookup_lt_Some in Hi as Hlt.
  by replace (pred (length c)) with i by lia.
Qed.

#[export] Hint Resolve adj_nil adj_elem adj_irrefl : protocomm.

(** Without a stub insertion under way only producers have links to make. *)
Lemma in_flight_pushers q q' a b :
  pushers q' = pushers q ->
  (forall tl pv, popper q <> PopStubLink tl pv) ->
  (forall tl pv, popper q' <> PopStubLink tl pv) ->
  in_flight q' a b <-> in_flight q a b.
Proof.
  intros Ep Hp Hp'. unfold in_flight. rw Ep.
  split; (intros [?|[_ [tl Htl]]]; [by left|]).
  - by destruct (Hp' tl a).
  - by destruct (Hp tl a).
Qed.

(** ** Preservation of the chain *)

Lemma chain_init : chain_inv mpsc_init [stub_].
Proof.
  constructor; simpl; try done.
  - apply NoDup_singleton.
  - intros a b [[_ ?]|?%adj_nil]%adj_cons; done.
  - intros a b [[t Ht]|[_ [tl Htl]]]; [by rw lookup_empty in Ht|done].
  - intros n. rw elem_of_empty. split; [done|].
    intros [Hn [?%list_elem_of_singleton|[t Ht]]]; [done|by rw lookup_empty in Ht].
Qed.

Lemma chain_push_store q c t n :
  chain_inv q c -> pushers q !! t = None -> n <> stub_ -> n ∉ owned q ->
  chain_inv (log_own n (set_pushers (<[t := PushStored n]> (pushers q)) (push_store n q))) c.
Proof.
  intros [] Ht Hn Hno.
  assert (n ∉ c) as Hnc by (intros ?; apply Hno, ci_owned0; auto).
  assert (forall a, a ∈ c -> delete n (mpsc_next q) !! a = mpsc_next q !! a) as Hd.
  { intros a Ha. rw lookup_delete_ne //. by intros ->. }
  assert (forall a b, in_flight
    (log_own n (set_pushers (<[t:=PushStored n]> (pushers q)) (push_store n q))) a b
    <-> in_flight q a b) as Hf.
  { intros a b. unfold in_flight; simpl. split; (intros [[u Hu]|?]; [left; exists u|by right]).
    - rw lookup_insert in Hu. case_decide; simplify_eq. done.
    - rw lookup_insert_ne //. intros ->. simplify_eq. }
  constructor; unfold load_next in *; simpl in *; try done.
  - intros a b Hab. rw Hf Hd; [by apply adj_elem in Hab as [? _]|]. by apply ci_links0.
  - rw Hd //. eapply last_Some_elem_of; eauto.
  - intros a b Hab%Hf. destruct (ci_flight0 _ _ Hab) as [Had Hnx]. split; [done|].
    rw Hd //. by apply adj_elem in Had as [? _].
  - intros u m. rw lookup_insert. case_decide; intros; simplify_eq.
    + split; [done|]. apply lookup_delete_eq.
    + destruct (ci_stored0 u m) as [? Hm]; [done|]. split; [done|].
      rw lookup_delete. by case_decide.
  - assert (forall u pc, pushers q !! u = Some pc -> pc_node pc <> n) as Hx.
    { intros u pc Hu <-. apply Hno, ci_owned0. split; [done|].
      destruct pc as [m|pv m]; simpl; [eauto|]. left.
      destruct (ci_flight0 pv m) as [Hadj _]; [left; eauto|]. by apply adj_elem in Hadj as [_ ?]. }
    intros u v pc pd. rw !lookup_insert. repeat case_decide; intros; simplify_eq/=; try done.
    + by destruct (Hx v pd).
    + by destruct (Hx u pc).
    + eauto.
  - intros u pc. rw lookup_insert. case_decide; intros; simplify_eq/=; eauto.
  - intros m. rw elem_of_union elem_of_singleton ci_owned0. split.
    + intros [->|[? [?|[u Hu]]]]; [|by auto|].
      * split; [done|]. right. exists t. apply lookup_insert_eq.
      * split; [done|]. right. exists u. rw lookup_insert_ne //. intros ->. simplify_eq.
    + intros [? [?|[u Hu]]]; [by auto|].
      rw lookup_insert in Hu. case_decide; simplify_eq; [by left|right; eauto].
  - unfold popper_inv, load_next in *; simpl in *. destruct (popper q); try done.
    destruct ci_popper0 as (?&?&?&?). rw lookup_delete. by case_decide.
Qed.

Lemma filter_snoc_not_stub c n :
  n <> stub_ -> filter not_stub (c ++ [n]) = filter not_stub c ++ [n].
Proof. intros. rw filter_app filter_cons_True //. Qed.

Lemma chain_push_exchange q c t n :
  chain_inv q c -> pushers q !! t = Some (PushStored n) ->
  chain_inv (log_pushed n
    (set_pushers (<[t := PushExchanged (head_ q) n]> (pushers q)) (push_exchange n q)))
    (c ++ [n]).
Proof.
  intros [] Ht. destruct (ci_stored0 _ _ Ht) as [Hnc Hnn].
  pose proof (ci_nodes0 _ _ Ht) as Hns; simpl in Hns.
  assert (forall a b, in_flight (log_pushed n
    (set_pushers (<[t:=PushExchanged (head_ q) n]> (pushers q)) (push_exchange n q))) a b
    <-> in_flight q a b \/ (a = head_ q /\ b = n)) as Hf.
  { intros a b. unfold in_flight; simpl. split.
    - intros [[u Hu]|?]; [|by auto]. rw lookup_insert in Hu. case_decide; simplify_eq; eauto.
    - intros [[[u Hu]|?]|[-> ->]]; [|by auto|].
      + left. exists u. rw lookup_insert_ne //. intros ->. simplify_eq.
      + left. exists t. apply lookup_insert_eq. }
  constructor; unfold load_next in *; simpl in *; try done.
  - destruct c; [done|]. done.
  - by rw last_snoc.
  - apply NoDup_snoc; auto.
  - intros a b [Hab|[Hl ->]]%adj_snoc; rw Hf.
    + destruct (ci_links0 _ _ Hab) as [?|[??]]; auto.
    + right. simplify_eq. auto.
  - intros a b [Hab|[-> ->]]%Hf.
    + destruct (ci_flight0 _ _ Hab). rw adj_snoc. auto.
    + rw adj_snoc. auto.
  - intros u m Hu. destruct (decide (t = u)) as [->|Hne]; [by rw lookup_insert_eq in Hu|].
    rw lookup_insert_ne // in Hu. destruct (ci_stored0 u m) as [? ?]; [done|].
    split; [|done]. rw elem_of_app list_elem_of_singleton. intros [?| ->]; [done|].
    by pose proof (ci_uniq0 _ _ _ _ Ht Hu eq_refl).
  - intros u v pc pd Hu Hv E. rw lookup_insert in Hu. rw lookup_insert in Hv.
    repeat case_decide; simplify_eq/=; try done;
      first [eapply ci_uniq0; [exact Ht|eassumption|exact E]
            |eapply ci_uniq0; [eassumption|exact Ht|exact E]|eauto].
  - intros u pc. rw lookup_insert. case_decide; intros; simplify_eq/=; eauto.
  - intros m. rw ci_owned0 elem_of_app list_elem_of_singleton. split.
    + intros [? [?|[u Hu]]]; [by auto|]. split; [done|].
      destruct (decide (t = u)) as [->|]; simplify_eq; [by auto|].
      right. exists u. by rw lookup_insert_ne.
    + intros [? [[?| ->]|[u Hu]]]; [by auto|by eauto|]. split; [done|]. right.
      rw lookup_insert in Hu. case_decide; simplify_eq. eauto.
  - unfold popper_inv, load_next in *; simpl in *.
    clear -ci_popper0 Hns. destruct (popper q);
      rw ?elem_of_app ?list_elem_of_singleton; naive_solver.
  - rw ci_order0 filter_snoc_not_stub // app_assoc //.
Qed.

Lemma chain_push_link q c t prev n :
  chain_inv q c -> pushers q !! t = Some (PushExchanged prev n) ->
  chain_inv (set_pushers (delete t (pushers q)) (push_link prev n q)) c.
Proof.
  intros [] Ht.
  destruct (ci_flight0 prev n) as [Hadj Hnx]; [left; eauto|].
  pose proof (ci_nodes0 _ _ Ht) as Hns; simpl in Hns.
  destruct (adj_elem _ _ _ Hadj) as [Hpc Hnc].
  assert (forall a b, in_flight (set_pushers (delete t (pushers q)) (push_link prev n q)) a b
    -> in_flight q a b /\ a <> prev) as Hf1.
  { intros a b [[u Hu]|[-> [tl Htl]]]; simpl in *.
    - rw lookup_delete in Hu. case_decide; [done|]. split; [left; eauto|].
      intros ->. destruct (ci_flight0 prev b) as [Hadj' _]; [left; eauto|].
      pose proof (adj_fun _ _ _ _ ci_nodup0 Hadj Hadj') as ->.
      by pose proof (ci_uniq0 _ _ _ _ Ht Hu eq_refl).
    - split; [right; eauto|]. intros ->.
      destruct (ci_flight0 prev stub_) as [Hadj' _]; [right; eauto|].
      by pose proof (adj_fun _ _ _ _ ci_nodup0 Hadj Hadj'). }
  assert (forall a b, in_flight q a b -> a <> prev ->
    in_flight (set_pushers (delete t (pushers q)) (push_link prev n q)) a b) as Hf2.
  { intros a b [[u Hu]|?] Hne; [|by right]. left. exists u; simpl.
    rw lookup_delete_ne //. intros ->. by simplify_eq. }
  constructor; unfold load_next in *; simpl in *; try done.
  - intros a b Hab. rw lookup_insert. case_decide; subst.
    + left. by rw (adj_fun _ _ _ _ ci_nodup0 Hadj Hab).
    + destruct (ci_links0 _ _ Hab) as [?|[??]]; eauto.
  - rw lookup_insert_ne //. intros ->. by apply (adj_last c (head_ q) n).
  - intros a b Hab. destruct (Hf1 _ _ Hab) as [Hab' Hne].
    rw lookup_insert_ne //. by apply ci_flight0.
  - intros u m Hu. rw lookup_delete in Hu. case_decide; [done|].
    destruct (ci_stored0 u m Hu) as [? ?]. split; [done|].
    rw lookup_insert_ne //. by intros ->.
  - intros u v pc pd Hu Hv. rw lookup_delete in Hu. rw lookup_delete in Hv.
    repeat case_decide; try done. eauto.
  - intros u pc Hu. rw lookup_delete in Hu. case_decide; [done|]. eauto.
  - intros m. rw ci_owned0. split; intros [? [?|[u Hu]]]; auto; split; auto; right; exists u.
    + rw lookup_delete_ne //. intros ->. by simplify_eq.
    + rw lookup_delete in Hu. by case_decide.
  - unfold popper_inv, load_next in *; simpl in *. destruct (popper q); try done.
    destruct ci_popper0 as (? & ? & Hs & ?). split_and!; try done.
    rw lookup_insert_ne //. by intros ->.
Qed.

(** The consumer's view of the chain. *)
Lemma chain_tail q c : chain_inv q c -> exists c', c = tail_ q :: c'.
Proof. intros []. destruct c as [|x c']; simplify_eq/=. eauto. Qed.

Lemma chain_tail_next q c nx :
  chain_inv q c -> load_next q (tail_ q) = Some nx ->
  exists c', c = tail_ q :: c' /\ head c' = Some nx.
Proof.
  intros Hc Hn. destruct (chain_tail _ _ Hc) as [c' ->]. exists c'. split; [done|].
  destruct Hc, c' as [|b c']; simpl in *; simplify_eq.
  { congruence. }
  destruct (ci_links0 (tail_ q) b) as [?|[??]]; [by apply adj_cons; auto|..]; congruence.
Qed.

(** [tail_] moves to the linked successor of [x]. *)
Lemma chain_advance q q' x c nx :
  chain_inv q (x :: c) -> load_next q x = Some nx -> head c = Some nx ->
  head_ q' = head_ q -> tail_ q' = nx -> mpsc_next q' = mpsc_next q ->
  pushers q' = pushers q ->
  (forall tl pv, popper q <> PopStubLink tl pv) ->
  (forall tl pv, popper q' <> PopStubLink tl pv) ->
  popper_inv q' c ->
  (forall n, n ∈ owned q' <-> n <> stub_ /\
     (n ∈ c \/ exists t, pushers q' !! t = Some (PushStored n))) ->
  pushed q' = popped q' ++ filter not_stub c ->
  chain_inv q' c.
Proof.
  intros [] Hx Hhd Ehd Etl Enx Eps Hp Hp' Hpi How Hord.
  assert (forall a b, in_flight q' a b <-> in_flight q a b) as Hf.
  { intros a b. by apply in_flight_pushers. }
  apply NoDup_cons in ci_nodup0 as [Hxc Hnd].
  constructor; unfold load_next in *; rw ?Ehd ?Enx ?Eps; try done.
  - by rw Hhd Etl.
  - destruct c; [done|]. by rw last_cons_cons in ci_head0.
  - intros a b Hab. rw Hf. apply ci_links0, adj_cons. auto.
  - intros a b Hab%Hf. destruct (ci_flight0 _ _ Hab) as [Had Hn]. split; [|done].
    apply adj_cons in Had as [[<- _]|?]; [congruence|done].
  - intros t n Ht. destruct (ci_stored0 _ _ Ht) as [Hn ?]. split; [|done].
    by apply not_elem_of_cons in Hn as [_ ?].
  - intros n. rw How Eps //.
Qed.

Lemma popped_return r q :
  popped (pop_return r q) = popped q ++ match r with Some n => [n] | None => [] end.
Proof.
  unfold popped; simpl. rw omap_app; simpl. by destruct r.
Qed.

(** [pop] returns the node at the tail. *)
Lemma chain_pop_node q c nx :
  chain_inv q c -> tail_ q <> stub_ -> load_next q (tail_ q) = Some nx ->
  (forall tl pv, popper q <> PopStubLink tl pv) ->
  exists c', c = tail_ q :: c' /\
    chain_inv (pop_return (Some (tail_ q)) (set_tail nx q)) c'.
Proof.
  intros Hc Hs Hn Hp. destruct (chain_tail_next _ _ _ Hc Hn) as (c' & -> & Hhd).
  exists c'. split; [done|].
  pose proof (ci_nodup _ _ Hc) as [Hxc Hnd]%NoDup_cons.
  eapply chain_advance; eauto; simpl; try done.
  - intros n. rw elem_of_difference (ci_owned _ _ Hc) elem_of_cons not_elem_of_singleton.
    split.
    + intros [[? [[?|?]|?]] ?]; tauto.
    + intros [? [?|[t Ht]]]; (split; [by eauto|]); [by intros ->|].
      intros ->. destruct (ci_stored _ _ Hc _ _ Ht) as [Hin _]. apply Hin. by left.
  - change (popped (pop_return (Some (tail_ q)) (set_tail nx q)))
      with (popped (pop_return (Some (tail_ q)) q)).
    rw popped_return (ci_order _ _ Hc) filter_cons_True // -app_assoc //.
Qed.

(** A step that only moves the consumer's program point. *)
Lemma chain_popper q c pc :
  chain_inv q c -> (forall tl pv, popper q <> PopStubLink tl pv) ->
  (forall tl pv, pc <> PopStubLink tl pv) -> popper_inv (set_popper pc q) c ->
  chain_inv (set_popper pc q) c.
Proof.
  intros [] Hp Hpc Hi.
  assert (forall a b, in_flight (set_popper pc q) a b <-> in_flight q a b) as Hf.
  { intros a b. by apply in_flight_pushers. }
  constructor; try done.
  - intros a b Hab. rw Hf. by apply ci_links0.
  - intros a b Hab%Hf. by apply ci_flight0.
Qed.

Lemma chain_return_none q c :
  chain_inv q c -> (forall tl pv, popper q <> PopStubLink tl pv) ->
  chain_inv (pop_return None q) c.
Proof.
  intros Hc Hp. destruct (chain_popper q c PopIdle Hc Hp) as []; try done.
  constructor; try done. rw popped_return app_nil_r //.
Qed.

(** ** The consumer's re-insertion of the stub *)

Lemma chain_singleton q c :
  chain_inv q c -> tail_ q = head_ q -> c = [tail_ q].
Proof.
  intros Hc E. destruct (chain_tail _ _ Hc) as [[|y c'] ->]; [done|].
  destruct Hc. apply NoDup_cons in ci_nodup0 as [Hx _].
  rw last_cons_cons -E in ci_head0. destruct Hx. by eapply last_Some_elem_of.
Qed.

Lemma chain_stub_store q c tail :
  chain_inv q c -> popper q = PopStubStore tail ->
  chain_inv (set_popper (PopStubExchange tail) (push_store stub_ q)) c.
Proof.
  intros [] Hp. unfold popper_inv in ci_popper0. rw Hp in ci_popper0.
  destruct ci_popper0 as (-> & Hts & Hsc).
  assert (forall a, a <> stub_ -> delete stub_ (mpsc_next q) !! a = mpsc_next q !! a) as Hd.
  { intros a Ha. by rw lookup_delete_ne. }
  assert (forall a, a ∈ c -> a <> stub_) as Hcs by (by intros a Ha ->).
  assert (forall a b, in_flight (set_popper (PopStubExchange (tail_ q)) (push_store stub_ q)) a b
    <-> in_flight q a b) as Hf.
  { intros a b. apply in_flight_pushers; [done|by rw Hp|done]. }
  constructor; unfold load_next in *; simpl in *; try done.
  - intros a b Hab. rw Hf Hd; [|by apply ci_links0].
    by apply adj_elem in Hab as [?%Hcs _].
  - rw Hd //. by eapply Hcs, last_Some_elem_of.
  - intros a b Hab%Hf. destruct (ci_flight0 _ _ Hab) as [Had Hnx]. split; [done|].
    rw Hd //. by apply adj_elem in Had as [?%Hcs _].
  - intros t n Ht. destruct (ci_stored0 _ _ Ht). split; [done|].
    rw Hd //. apply (ci_nodes0 _ _ Ht).
  - unfold popper_inv, load_next; simpl. split_and!; try done. apply lookup_delete_eq.
Qed.

Lemma chain_stub_exchange q c tail :
  chain_inv q c -> popper q = PopStubExchange tail ->
  chain_inv (set_popper (PopStubLink tail (head_ q)) (push_exchange stub_ q)) (c ++ [stub_]).
Proof.
  intros [] Hp. unfold popper_inv in ci_popper0. rw Hp in ci_popper0.
  destruct ci_popper0 as (-> & Hts & Hsc & Hsn).
  assert (forall a b, in_flight
    (set_popper (PopStubLink (tail_ q) (head_ q)) (push_exchange stub_ q)) a b
    <-> in_flight q a b \/ (a = head_ q /\ b = stub_)) as Hf.
  { intros a b. unfold in_flight; simpl. rw Hp. split.
    - intros [?|[-> [tl [= _ ->]]]]; auto.
    - intros [[?|[_ [tl Htl]]]|[-> ->]]; [by left|done|right; eauto]. }
  constructor; unfold load_next in *; simpl in *; try done.
  - by destruct c.
  - by rw last_snoc.
  - by apply NoDup_snoc.
  - intros a b [Hab|[Hl <-]]%adj_snoc; rw Hf.
    + destruct (ci_links0 _ _ Hab) as [?|[??]]; auto.
    + right. simplify_eq. auto.
  - intros a b [Hab|[-> ->]]%Hf; rw adj_snoc; [|by auto].
    destruct (ci_flight0 _ _ Hab). auto.
  - intros t n Ht. destruct (ci_stored0 _ _ Ht). split; [|done].
    rw elem_of_app list_elem_of_singleton. intros [?|Hn]; [done|].
    by apply (ci_nodes0 _ _ Ht).
  - intros n. rw ci_owned0 elem_of_app list_elem_of_singleton.
    split; intros [Hn Ho]; (split; [done|]); tauto.
  - rw ci_order0 filter_app filter_cons_False; [by intros []|]. by rw app_nil_r.
Qed.

Lemma chain_stub_link q c tail prev :
  chain_inv q c -> popper q = PopStubLink tail prev ->
  chain_inv (set_popper (PopRetry tail) (push_link prev stub_ q)) c.
Proof.
  intros [] Hp. unfold popper_inv in ci_popper0. rw Hp in ci_popper0.
  destruct ci_popper0 as [-> Hts].
  destruct (ci_flight0 prev stub_) as [Hadj Hnx]; [right; eauto|].
  destruct (adj_elem _ _ _ Hadj) as [Hpc Hsc].
  assert (forall a b, in_flight (set_popper (PopRetry (tail_ q)) (push_link prev stub_ q)) a b
    -> in_flight q a b /\ a <> prev) as Hf1.
  { intros a b [[t Ht]|[_ [tl Htl]]]; simpl in *; [|done]. split; [left; eauto|].
    intros ->. destruct (ci_flight0 prev b) as [Hadj' _]; [left; eauto|].
    pose proof (adj_fun _ _ _ _ ci_nodup0 Hadj Hadj') as <-.
    by pose proof (ci_nodes0 _ _ Ht). }
  assert (forall a b, in_flight q a b -> a <> prev ->
    in_flight (set_popper (PopRetry (tail_ q)) (push_link prev stub_ q)) a b) as Hf2.
  { intros a b [?|[-> [tl Htl]]] Hne; [by left|]. congruence. }
  constructor; unfold load_next in *; simpl in *; try done.
  - intros a b Hab. rw lookup_insert. case_decide; subst.
    + left. by rw (adj_fun _ _ _ _ ci_nodup0 Hadj Hab).
    + destruct (ci_links0 _ _ Hab) as [?|[??]]; eauto.
  - rw lookup_insert_ne //. intros ->. by apply (adj_last c (head_ q) stub_).
  - intros a b Hab. destruct (Hf1 _ _ Hab) as [Hab' Hne].
    rw lookup_insert_ne //. by apply ci_flight0.
  - intros t n Ht. destruct (ci_stored0 t n Ht) as [? ?]. split; [done|].
    rw lookup_insert_ne //. by intros ->.
Qed.

(** Every step keeps the chain. *)
Lemma chain_pop_step q c : chain_inv q c -> exists c', chain_inv (pop_step q) c'.
Proof.
  intros Hc. pose proof (ci_popper _ _ Hc) as Hp. unfold popper_inv in Hp.
  assert (forall tail, tail = tail_ q -> tail <> stub_ ->
    (forall tl pv, popper q <> PopStubLink tl pv) ->
    exists c', chain_inv (pop_after_load tail (load_next q tail) q) c') as Hafter.
  { intros tail -> Hs Hnl. unfold pop_after_load.
    destruct (load_next q (tail_ q)) as [nx|] eqn:En.
    - destruct (chain_pop_node _ _ _ Hc Hs En Hnl) as (c' & _ & ?). eauto.
    - exists c. by apply chain_popper. }
  unfold pop_step. destruct (popper q) eqn:Epc.
  - case_decide as Es; [|by apply Hafter].
    destruct (load_next q (tail_ q)) as [nx|] eqn:En.
    + destruct (chain_tail_next _ _ _ Hc En) as (c' & -> & Hhd). exists c'.
      pose proof (ci_nodup _ _ Hc) as [Hxc Hnd]%NoDup_cons. rw Es in Hxc.
      eapply chain_advance; eauto; simpl; try done; try (by rw Epc).
      * split; [done|]. intros ->. apply Hxc. destruct c'; simplify_eq/=. by left.
      * intros n. rw (ci_owned _ _ Hc) elem_of_cons Es.
        split; intros [Hn Ho]; (split; [done|]); tauto.
      * rw (ci_order _ _ Hc) filter_cons_False //. by intros [].
    + exists c. apply chain_return_none; [done|]. by rw Epc.
  - destruct Hp. apply Hafter; auto; by rw Epc.
  - destruct Hp as [-> Hs]. case_decide as Eh.
    + exists c. apply chain_return_none; [done|]. by rw Epc.
    + exists c. apply chain_popper; [done|by rw Epc|done|].
      unfold popper_inv; simpl. split_and!; try done.
      pose proof (chain_singleton q c Hc Eh) as ->.
      rw list_elem_of_singleton. congruence.
  - exists c. by apply chain_stub_store.
  - exists (c ++ [stub_]). by apply chain_stub_exchange.
  - exists c. by apply chain_stub_link.
  - destruct Hp as [-> Hs]. destruct (load_next q (tail_ q)) as [nx|] eqn:En.
    + destruct (chain_pop_node _ _ _ Hc Hs En) as (c' & _ & ?); [by rw Epc|]. eauto.
    + exists c. apply chain_return_none; [done|]. by rw Epc.
Qed.

Lemma chain_step e q q' c :
  chain_inv q c -> mpsc_step e q = Some q' -> exists c', chain_inv q' c'.
Proof.
  intros Hc. destruct e as [t n|t|t|]; simpl.
  - case_decide as H; intros; simplify_eq. destruct H as (?&?&?).
    exists c. by apply chain_push_store.
  - destruct (pushers q !! t) as [[n|]|] eqn:E; intros; simplify_eq.
    exists (c ++ [n]). by apply chain_push_exchange.
  - destruct (pushers q !! t) as [[|prev n]|] eqn:E; intros; simplify_eq.
    exists c. by apply (chain_push_link q c t prev n).
  - intros; simplify_eq. by eapply chain_pop_step.
Qed.

(** Reachable states of the queue. *)
Definition mpsc_reachable (q : mpsc) : Prop :=
  exists es, run_events mpsc_step es mpsc_init = Some q.

Lemma reachable_chain q : mpsc_reachable q -> exists c, chain_inv q c.
Proof.
  intros [es Hr]. revert Hr.
  apply (run_events_invariant mpsc_step (fun q => exists c, chain_inv q c)).
  - intros e q1 q2 [c Hc] Hs. by eapply chain_step.
  - exists [stub_]. apply chain_init.
Qed.

Lemma chain_contents q c : chain_inv q c -> contents q = filter not_stub c.
Proof. intros Hc. unfold contents. by rw (ci_order _ _ Hc) drop_app_length. Qed.

(** ** Uninterrupted pops *)

Lemma pushed_pop_step q : pushed (pop_step q) = pushed q.
Proof. unfold pop_step, pop_after_load. by repeat case_match. Qed.

Lemma pushers_pop_step q : pushers (pop_step q) = pushers q.
Proof. unfold pop_step, pop_after_load. by repeat case_match. Qed.

(** With no producer under way neighbours are linked. *)
Lemma quiescent_linked q c a b :
  chain_inv q c -> quiescent q -> adj c a b -> load_next q a = Some b.
Proof.
  intros [] [Hp Hi] Hab. destruct (ci_links0 _ _ Hab) as [?|[_ [[t Ht]|[_ [tl Htl]]]]]; [done|..].
  - by rw Hp lookup_empty in Ht.
  - congruence.
Qed.

Lemma pop_run_step k q q' :
  pop_step q = q' -> popper q' <> PopIdle -> pop_run (S k) q = pop_run k q'.
Proof. intros <- H. simpl. by destruct (popper (pop_step q)). Qed.

Lemma pop_run_done k q q' :
  pop_step q = q' -> popper q' = PopIdle -> pop_run (S k) q = q'.
Proof. intros <- H. simpl. by rw H. Qed.

(** What a pop that returns [r] leaves unchanged. *)
Definition pop_outcome (r : option node) (q q' : mpsc) : Prop :=
  results q' = results q ++ [r] /\ popper q' = PopIdle
  /\ pushed q' = pushed q /\ pushers q' = pushers q.

(** From a load of [tail->mpsc_next] on, when [tail] is not the stub and no
    producer is under way, [pop] returns [tail]: at once if it is linked, and
    after re-inserting the stub if it is the last node. *)
Lemma pop_run_after_load k q tail :
  6 <= k -> pop_step q = pop_after_load tail (load_next q tail) q -> tail <> stub_ ->
  (load_next q tail = None -> tail = head_ q) ->
  pop_outcome (Some tail) q (pop_run k q).
Proof.
  intros Hk Hq Hs Hlast. destruct k as [|k]; [lia|].
  destruct (load_next q tail) as [nx|] eqn:En; simpl in Hq.
  { by rw (pop_run_done k _ _ Hq). }
  specialize (Hlast eq_refl). do 5 (destruct k as [|k]; [lia|]). clear Hk.
  rw (pop_run_step _ _ _ Hq) //.
  set (q1 := set_popper (PopCheckHead tail) q).
  set (q2 := set_popper (PopStubStore tail) q1).
  assert (pop_step q1 = q2) as E2.
  { unfold pop_step; simpl. by case_decide. }
  set (q3 := set_popper (PopStubExchange tail) (push_store stub_ q2)).
  set (q4 := set_popper (PopStubLink tail (head_ q)) (push_exchange stub_ q3)).
  set (q5 := set_popper (PopRetry tail) (push_link (head_ q) stub_ q4)).
  assert (pop_step q5 = pop_return (Some tail) (set_tail stub_ q5)) as E6.
  { unfold pop_step, load_next; simpl. by rw Hlast lookup_insert_eq. }
  rw (pop_run_step _ _ _ E2) // (pop_run_step _ q2 q3) //.
  rw (pop_run_step _ q3 q4) // (pop_run_step _ q4 q5) //.
  by rw (pop_run_done _ _ _ E6).
Qed.

Lemma pop_quiescent_outcome q c :
  chain_inv q c -> quiescent q ->
  pop_outcome (head (filter not_stub c)) q (pop q).
Proof.
  intros Hc Hq. pose proof (chain_tail _ _ Hc) as [c' ->].
  pose proof (fun a b => quiescent_linked _ _ a b Hc Hq) as Hlink.
  assert (forall x, last (tail_ q :: c') = Some x -> x = head_ q /\ load_next q x = None) as Hl.
  { intros x Hx. rw (ci_head _ _ Hc) in Hx. simplify_eq. by destruct Hc. }
  unfold pop, pop_fuel.
  destruct (decide (tail_ q = stub_)) as [Es|Es].
  - rw filter_cons_False; [by intros []|].
    assert (pop_step q = match load_next q (tail_ q) with None => pop_return None q
      | Some nx => set_popper (PopSkipped nx) (set_tail nx q) end) as Hstep.
    { unfold pop_step. rw (proj2 Hq). cbv zeta. by case_decide. }
    destruct c' as [|nx c'].
    { destruct (Hl (tail_ q)) as [_ Hn]; [done|]. rw Hn in Hstep.
      by rw (pop_run_done _ _ _ Hstep). }
    rw (Hlink _ nx) in Hstep; [apply adj_cons; by left|].
    rw (pop_run_step _ _ _ Hstep) //.
    assert (nx <> stub_) as Hns.
    { pose proof (ci_nodup _ _ Hc) as [Hx _]%NoDup_cons. rw Es in Hx.
      intros ->. apply Hx. by left. }
    rw filter_cons_True //. simpl head.
    apply (pop_run_after_load 6 (set_popper (PopSkipped nx) (set_tail nx q)) nx); try done.
    destruct c' as [|m c'].
    + intros _. by destruct (Hl nx).
    + unfold load_next; simpl. fold (load_next q nx). rw (Hlink _ m) //.
      apply adj_cons. right. apply adj_cons. by left.
  - rw filter_cons_True //. simpl head. apply (pop_run_after_load 7); try done; [lia|..].
    + unfold pop_step. rw (proj2 Hq). cbv zeta. by case_decide.
    + destruct c' as [|m c'].
      * intros _. by destruct (Hl (tail_ q)).
      * rw (Hlink _ m) //. apply adj_cons. by left.
Qed.

(** [pop] is a run of the machine. *)
Lemma pop_run_events k q : exists es, run_events mpsc_step es q = Some (pop_run k q).
Proof.
  revert q. induction k as [|k IH]; intros q; [by exists []|].
  destruct (decide (popper (pop_step q) = PopIdle)) as [E|E].
  - exists [PopStep]. simpl. by rw E.
  - destruct (IH (pop_step q)) as [es Hes]. exists (PopStep :: es).
    by rw (pop_run_step k q _ eq_refl E).
Qed.

Lemma reachable_run es q q' :
  mpsc_reachable q -> run_events mpsc_step es q = Some q' -> mpsc_reachable q'.
Proof.
  intros [es0 H0] H. exists (es0 ++ es). by rw run_events_app H0.
Qed.

Lemma pop_reachable q : mpsc_reachable q -> mpsc_reachable (pop q).
Proof.
  intros H. destruct (pop_run_events pop_fuel q) as [es Hes]. by eapply reachable_run.
Qed.

(** An uninterrupted pop on a reachable quiescent queue is the abstract pop. *)
Lemma pop_quiescent_spec q :
  mpsc_reachable q -> quiescent q ->
  results (pop q) = results q ++ [head (contents q)]
  /\ contents (pop q) = tail (contents q) /\ quiescent (pop q).
Proof.
  intros Hr Hq. destruct (reachable_chain q Hr) as [c Hc].
  destruct (pop_quiescent_outcome q c Hc Hq) as (Hres & Hpc & Hpu & Hps).
  rw (chain_contents q c Hc). split; [done|]. split.
  - unfold contents, popped. rw Hpu Hres omap_app length_app (ci_order _ _ Hc).
    fold (popped q). destruct (filter not_stub c) as [|n l]; simpl.
    + by rw app_nil_r Nat.add_0_r drop_all.
    + by rw -drop_drop drop_app_length.
  - split; [|done]. rw Hps. apply Hq.
Qed.

(** An uninterrupted push appends. *)
Lemma push_quiescent_spec q t n :
  mpsc_reachable q -> quiescent q -> n <> stub_ -> n ∉ owned q ->
  let q' := push t n q in
  run_events mpsc_step (push_events t n) q = Some q'
  /\ mpsc_reachable q' /\ quiescent q' /\ contents q' = contents q ++ [n]
  /\ results q' = results q.
Proof.
  intros Hr [Hp Hi] Hn Ho. cbv zeta. unfold push.
  destruct (run_events mpsc_step (push_events t n) q) as [q'|] eqn:E; [|exfalso];
    [pose proof (reachable_run _ _ _ Hr E) as Hr'|]; unfold push_events in E; simpl in E;
    (rw decide_True in E; [by rw Hp lookup_empty|]); simpl in E;
    rw lookup_insert_eq /= lookup_insert_eq in E; [|done].
  simplify_eq. split_and!; try done.
  - split; [|done]. simpl. rw Hp. by rw insert_insert_eq delete_insert_eq.
  - destruct (reachable_chain q Hr) as [c Hc].
    unfold contents, popped; simpl. fold (popped q).
    rw drop_app_le //. rw (ci_order _ _ Hc) length_app. lia.
Qed.

(** ** The promise to clients

    A first-in first-out container: [fifo_list] is what is in it, oldest
    first. *)

Class Fifo (Q A : Type) := {
  fifo_empty : Q;
  fifo_push : A -> Q -> Q;
  fifo_pop : Q -> option A * Q;
  fifo_list : Q -> list A;
  fifo_list_empty : fifo_list fifo_empty = [];
  fifo_list_push a q : fifo_list (fifo_push a q) = fifo_list q ++ [a];
  fifo_pop_head q : (fifo_pop q).1 = head (fifo_list q);
  fifo_pop_tail q : fifo_list (fifo_pop q).2 = tail (fifo_list q)
}.

Lemma fifo_pop_some {Q A} `{Fifo Q A} q k q' :
  fifo_pop q = (Some k, q') -> fifo_list q = k :: fifo_list q'.
Proof.
  intros E. pose proof (fifo_pop_head q) as Hh. pose proof (fifo_pop_tail q) as Ht.
  rw E /= in Hh Ht. rw Ht. destruct (fifo_list q); simpl in *; by simplify_eq.
Qed.

Lemma fifo_pop_none {Q A} `{Fifo Q A} q q' :
  fifo_pop q = (None, q') -> fifo_list q = [] /\ fifo_list q' = [].
Proof.
  intros E. pose proof (fifo_pop_head q) as Hh. pose proof (fifo_pop_tail q) as Ht.
  rw E /= in Hh Ht. rw Ht. by destruct (fifo_list q).
Qed.

#[export, refine] Instance list_fifo (A : Type) : Fifo (list A) A := {
  fifo_empty := [];
  fifo_push a q := q ++ [a];
  fifo_pop q := (head q, tail q);
  fifo_list := id
}.
Proof. all: done. Defined.

(** The queue with the objects its nodes stand for.  [new] hands out an
    address that is not in use. *)
Section MpscFifo.
Context {A : Type}.

Record mpsc_fifo := mkMpscFifo {
  mf_queue : mpsc;
  mf_mem : gmap node A;
  mf_reach : mpsc_reachable mf_queue;
  mf_quiet : quiescent mf_queue;
  mf_objects : forall n, n ∈ contents mf_queue -> is_Some (mf_mem !! n)
}.

Definition new_node (q : mpsc) : node := fresh ({[stub_]} ∪ owned q).

Lemma new_node_fresh q : new_node q <> stub_ /\ new_node q ∉ owned q.
Proof.
  pose proof (is_fresh ({[stub_]} ∪ owned q)) as H. unfold new_node. set_solver.
Qed.

Lemma contents_nodup q : mpsc_reachable q -> NoDup (contents q).
Proof.
  intros [c Hc]%reachable_chain. rw (chain_contents _ _ Hc).
  apply NoDup_filter, Hc.
Qed.

Lemma contents_owned q n : mpsc_reachable q -> n ∈ contents q -> n ∈ owned q.
Proof.
  intros [c Hc]%reachable_chain. rw (chain_contents _ _ Hc) list_elem_of_filter.
  intros [Hn Hin]. apply (ci_owned _ _ Hc). auto.
Qed.

Lemma mf_push_spec (q : mpsc_fifo) :
  let n := new_node (mf_queue q) in
  mpsc_reachable (push 0 n (mf_queue q)) /\ quiescent (push 0 n (mf_queue q))
  /\ contents (push 0 n (mf_queue q)) = contents (mf_queue q) ++ [n]
  /\ n ∉ contents (mf_queue q).
Proof.
  cbv zeta. destruct (new_node_fresh (mf_queue q)) as [Hn Ho].
  destruct (push_quiescent_spec _ 0 _ (mf_reach q) (mf_quiet q) Hn Ho) as (_ & ? & ? & ? & _).
  split_and!; try done. intros Hin. by apply Ho, contents_owned, Hin; apply mf_reach.
Qed.

Lemma mf_push_objects (q : mpsc_fifo) a n :
  n ∈ contents (push 0 (new_node (mf_queue q)) (mf_queue q)) ->
  is_Some (<[new_node (mf_queue q) := a]> (mf_mem q) !! n).
Proof.
  destruct (mf_push_spec q) as (_ & _ & -> & _).
  rw elem_of_app list_elem_of_singleton lookup_insert. case_decide; [by eauto|].
  intros [?| ->]; [by apply mf_objects|done].
Qed.

(** [cb_queue.push(new Completion{...})]. *)
Definition mf_push (a : A) (q : mpsc_fifo) : mpsc_fifo :=
  mkMpscFifo (push 0 (new_node (mf_queue q)) (mf_queue q))
    (<[new_node (mf_queue q) := a]> (mf_mem q))
    (proj1 (mf_push_spec q)) (proj1 (proj2 (mf_push_spec q))) (mf_push_objects q a).

(** What the pop returned, read off the history. *)
Definition pop_result (q : mpsc) : option node := mjoin (last (results (pop q))).

Lemma mf_pop_objects (q : mpsc_fifo) n :
  n ∈ contents (pop (mf_queue q)) ->
  is_Some (match pop_result (mf_queue q) with
           | Some m => delete m (mf_mem q) | None => mf_mem q end !! n).
Proof.
  destruct (pop_quiescent_spec _ (mf_reach q) (mf_quiet q)) as (Hr & -> & _).
  unfold pop_result. rw Hr last_snoc. simpl.
  pose proof (contents_nodup _ (mf_reach q)) as Hnd. pose proof (mf_objects q) as Ho.
  destruct (contents (mf_queue q)) as [|m l]; simpl; [by intros ?%not_elem_of_nil|].
  apply NoDup_cons in Hnd as [Hm _]. intros Hn.
  rw lookup_delete_ne; [by intros ->|]. apply Ho. by right.
Qed.

(** [Completion* c = cb_queue.pop()], the object read, then [delete c]. *)
Definition mf_pop (q : mpsc_fifo) : option A * mpsc_fifo :=
  (match pop_result (mf_queue q) with Some n => mf_mem q !! n | None => None end,
   mkMpscFifo (pop (mf_queue q))
     (match pop_result (mf_queue q) with
      | Some n => delete n (mf_mem q) | None => mf_mem q end)
     (pop_reachable _ (mf_reach q))
     (proj2 (proj2 (pop_quiescent_spec _ (mf_reach q) (mf_quiet q))))
     (mf_pop_objects q)).

Definition mf_list (q : mpsc_fifo) : list A :=
  omap (fun n => mf_mem q !! n) (contents (mf_queue q)).

Lemma mf_init_reach : mpsc_reachable mpsc_init.
Proof. by exists []. Qed.

Lemma mf_init_objects n : n ∈ contents mpsc_init -> is_Some ((∅ : gmap node A) !! n).
Proof. by intros ?%not_elem_of_nil. Qed.

Definition mf_empty : mpsc_fifo :=
  mkMpscFifo mpsc_init ∅ mf_init_reach (conj eq_refl eq_refl) mf_init_objects.

Lemma mf_list_push a q : mf_list (mf_push a q) = mf_list q ++ [a].
Proof.
  destruct (mf_push_spec q) as (_ & _ & Hc & Hn). unfold mf_list; simpl.
  rw Hc omap_app /= lookup_insert_eq. f_equal.
  apply list_omap_ext, Forall_Forall2_diag, Forall_forall. intros m Hm.
  rw lookup_insert_ne //. by intros <-.
Qed.

Lemma mf_pop_facts q :
  pop_result (mf_queue q) = head (contents (mf_queue q))
  /\ contents (pop (mf_queue q)) = tail (contents (mf_queue q)).
Proof.
  destruct (pop_quiescent_spec _ (mf_reach q) (mf_quiet q)) as (Hr & Ht & _).
  unfold pop_result. by rw Hr last_snoc.
Qed.

Lemma mf_pop_head q : (mf_pop q).1 = head (mf_list q).
Proof.
  destruct (mf_pop_facts q) as [Hr _]. unfold mf_pop, mf_list; simpl. rw Hr.
  pose proof (mf_objects q) as Ho.
  destruct (contents (mf_queue q)) as [|m l]; simpl; [done|].
  destruct (Ho m) as [a Ha]; [by left|]. by rw Ha.
Qed.

Lemma mf_pop_tail q : mf_list (mf_pop q).2 = tail (mf_list q).
Proof.
  destruct (mf_pop_facts q) as [Hr Ht]. unfold mf_pop, mf_list; simpl. rw Hr Ht.
  pose proof (mf_objects q) as Ho. pose proof (contents_nodup _ (mf_reach q)) as Hnd.
  destruct (contents (mf_queue q)) as [|m l]; simpl; [done|].
  destruct (Ho m) as [a Ha]; [by left|]. rw Ha /=. apply NoDup_cons in Hnd as [Hm _].
  apply list_omap_ext, Forall_Forall2_diag, Forall_forall. intros n Hn.
  rw lookup_delete_ne //. by intros <-.
Qed.

#[export, refine] Instance mpsc_is_fifo : Fifo mpsc_fifo A := {
  fifo_empty := mf_empty;
  fifo_push := mf_push;
  fifo_pop := mf_pop;
  fifo_list := mf_list
}.
Proof.
  - done.
  - apply mf_list_push.
  - apply mf_pop_head.
  - apply mf_pop_tail.
Defined.
End MpscFifo.
Arguments mpsc_fifo : clear implicits.

(** Two producers and a pop, interleaved. *)
Definition two_producers : list mpsc_event :=
  [PushStore 0 2; PushStore 1 3; PushExchange 1; PopStep; PushExchange 0; PushLink 1;
   PopStep; PopStep; PushLink 0; PopStep].

(** Two producers, and a pop that has passed the stub. *)
Definition half_popped : list mpsc_event :=
  [PushStore 0 2; PushExchange 0; PushStore 1 3; PushExchange 1; PushLink 0; PushLink 1; PopStep].

(** ** Properties *)

(** First in, first out under every interleaving of any number of
    producers with the consumer: the nodes returned so far are, in order, the
    first of the nodes in the order of their exchange on [head_]; what remains
    in the queue is the rest, without duplicates, and nothing is lost. *)
Theorem mpsc_fifo_order q :
  mpsc_reachable q ->
  pushed q = popped q ++ contents q /\ NoDup (contents q)
  /\ (forall n, n ∈ contents q <->
        n ∈ owned q /\ forall t, pushers q !! t <> Some (PushStored n)).
Proof.
  intros Hr. destruct (reachable_chain q Hr) as [c Hc]. split_and!.
  - rw (chain_contents _ _ Hc). apply Hc.
  - by apply contents_nodup.
  - intros n. rw (ci_owned _ _ Hc) (chain_contents _ _ Hc) list_elem_of_filter. split.
    + intros [Hn Hin]. split; [auto|]. intros t Ht.
      by destruct (ci_stored _ _ Hc _ _ Ht).
    + intros [[Hn [?|[t Ht]]] Hno]; [done|]. by destruct (Hno t).
Qed.

Lemma mpsc_fifo_order_witness :
  exists q, run_events mpsc_step two_producers mpsc_init = Some q
  /\ pushed q = [3; 2]%positive /\ popped q ++ contents q = [3; 2]%positive.
Proof.
  eexists. split; [by vm_compute|]. split; [done|].
  match goal with |- popped ?q ++ _ = _ => destruct (mpsc_fifo_order q) as [E _] end.
  - exists two_producers. by vm_compute.
  - rw -E. reflexivity.
Defined.

(** Memory safety of the intrusive queue: the node a pop hands back is
    not referenced by the queue any more, neither by [head_], [tail_] nor by
    the stub, and no push under way will still write to it, so the consumer
    may delete it. *)
Theorem mpsc_popped_node_free q n :
  mpsc_reachable q -> results (pop_step q) = results q ++ [Some n] ->
  let q' := pop_step q in
  n <> stub_ /\ n <> head_ q' /\ n <> tail_ q' /\ (n ∉ owned q')
  /\ forall t, pushers q' !! t <> Some (PushStored n)
     /\ forall prev m, pushers q' !! t = Some (PushExchanged prev m) -> prev <> n /\ m <> n.
Proof.
  intros Hr Hres. cbv zeta.
  destruct (reachable_chain q Hr) as [c Hc]. destruct (chain_pop_step q c Hc) as [c' Hc'].
  assert (n ∈ popped (pop_step q)) as Hpop.
  { unfold popped. rw Hres omap_app elem_of_app /=. right. by left. }
  assert (n <> stub_ /\ n ∉ owned (pop_step q)) as [Hs Ho].
  { clear Hc' Hpop. pose proof (ci_popper _ _ Hc) as Hp. unfold popper_inv in Hp.
    unfold pop_step, pop_after_load in *.
    repeat case_match; simplify_eq/=;
      try (apply (f_equal length) in Hres; rw length_app in Hres; simpl in Hres; lia);
      (split; [naive_solver|set_solver]). }
  assert (n ∉ c') as Hn by (intros Hin; apply Ho, (ci_owned _ _ Hc'); auto).
  split_and!; try done.
  - intros ->. apply Hn. eapply last_Some_elem_of, Hc'.
  - intros ->. apply Hn. destruct (chain_tail _ _ Hc') as [l ->]. by left.
  - intros t. split.
    + intros Ht. apply Ho, (ci_owned _ _ Hc'). eauto.
    + intros prev m Ht. destruct (ci_flight _ _ Hc' prev m) as [Hadj _]; [left; eauto|].
      apply adj_elem in Hadj as [? ?]. split; by intros ->.
Qed.

Lemma mpsc_popped_node_free_witness :
  exists q, run_events mpsc_step half_popped mpsc_init = Some q /\ 2%positive ∉ owned (pop_step q).
Proof.
  eexists. split; [by vm_compute|].
  eapply (mpsc_popped_node_free _ 2%positive); [exists half_popped; by vm_compute|by vm_compute].
Defined.

(** Refinement of the abstract queue: with no call under way, [pop] runs
    to its end and returns the oldest node, or [nullptr] exactly when the queue
    is empty, and [push] appends. *)
Theorem mpsc_refines_fifo q t n :
  mpsc_reachable q -> quiescent q -> n <> stub_ -> n ∉ owned q ->
  results (pop q) = results q ++ [head (contents q)]
  /\ contents (pop q) = tail (contents q) /\ quiescent (pop q)
  /\ run_events mpsc_step (push_events t n) q = Some (push t n q)
  /\ contents (push t n q) = contents q ++ [n] /\ quiescent (push t n q).
Proof.
  intros Hr Hq Hn Ho.
  destruct (pop_quiescent_spec q Hr Hq) as (? & ? & ?).
  destruct (push_quiescent_spec q t n Hr Hq Hn Ho) as (? & ? & ? & ? & ?).
  done.
Qed.

Lemma mpsc_refines_fifo_witness :
  let q := push 0 2 (push 0 3 mpsc_init) in
  results (pop q) = [Some 3%positive] /\ contents (pop q) = [2%positive].
Proof.
  destruct (mpsc_refines_fifo (push 0 2 (push 0 3 mpsc_init)) 0 4%positive)
    as (Hr & Hc & _).
  - exists (push_events 0 3 ++ push_events 0 2). by vm_compute.
  - split; by vm_compute.
  - done.
  - by_decision.
  - split; [rw Hr|rw Hc]; by vm_compute.
Defined.

(** The number of atomic accesses a pop at this point still makes. *)
Definition pop_rank (pc : pop_pc) : nat :=
  match pc with
  | PopIdle => 7 | PopSkipped _ => 6 | PopCheckHead _ => 5 | PopStubStore _ => 4
  | PopStubExchange _ => 3 | PopStubLink _ _ => 2 | PopRetry _ => 1
  end.

Definition pop_accesses (es : list mpsc_event) : nat :=
  length (filter (fun e => e = PopStep) es).

Lemma pop_step_rank q :
  (results (pop_step q) = results q /\ pop_rank (popper (pop_step q)) < pop_rank (popper q))
  \/ (exists r, results (pop_step q) = results q ++ [r] /\ popper (pop_step q) = PopIdle).
Proof.
  unfold pop_step, pop_after_load.
  destruct (popper q); simpl; repeat case_match; simpl; eauto; left; split; auto; lia.
Qed.

(** [pop] is wait-free: whatever the producers do between its steps, each
    pop makes at most seven atomic accesses before it returns, so seven times
    the number of finished pops and six more bound the accesses made. *)
Theorem pop_wait_free es q :
  run_events mpsc_step es mpsc_init = Some q ->
  pop_accesses es <= 7 * length (results q) + 6.
Proof.
  intros Hr.
  cut (pop_accesses es + pop_rank (popper q) <= 7 * length (results q) + 7).
  { destruct (popper q); simpl; lia. }
  revert es q Hr. apply (run_events_trace_invariant mpsc_step); [done|].
  intros es e q q' IH Hs. unfold pop_accesses in *. rw filter_app length_app.
  destruct e as [t n|t|t|]; simpl in Hs.
  1-3: rw filter_cons_False //; simpl; repeat case_match; simplify_eq; simpl; lia.
  rw filter_cons_True //. simpl. simplify_eq.
  destruct (pop_step_rank q) as [[-> ?]|(r & -> & ->)]; [lia|].
  rw length_app. simpl. destruct (popper q); simpl in *; lia.
Qed.

Lemma pop_wait_free_witness :
  exists q, run_events mpsc_step [PopStep; PushStore 0 2; PopStep] mpsc_init = Some q
  /\ 2 <= 7 * length (results q) + 6.
Proof.
  eexists. split; [by vm_compute|].
  apply (pop_wait_free [PopStep; PushStore 0 2; PopStep]). by vm_compute.
Defined.
