(* ===== verification/MpscWeak.v ===== *)
(** * The completion queue under release/acquire memory

    The queue of [c++/src/mpsc_queue.h] again, with the memory orders its
    accesses name.  [Mpsc] interleaves the accesses over one memory; here the
    memory keeps every message ever written to a location, a thread has a
    view (the oldest message it may still read, per location), an acquire
    load joins the view of the message it reads, a release store publishes
    the view of its thread, a relaxed store publishes nothing but itself, and
    a load may return any message its view admits.  The events choose the
    message that is read and the place of a message that is written in the
    modification order of its location.

    The payload of a node is a location too, written without synchronisation
    before [push]: what [pop] hands over is what the view of the consumer says
    about it.  A node is pushed once, as the channel does, which allocates one
    for each completion and deletes it after use. *)

From stdpp Require Import functions.
From S2P Require Import Prelude.
From S2P Require Import Mpsc.

(** ** Memory *)

Inductive loc :=
| LHead                  (* head_ *)
| LNext (n : node)       (* n->mpsc_next *)
| LData (n : node).      (* the other fields of *n *)
#[global] Instance loc_eq_dec : EqDecision loc.
Proof. solve_decision. Defined.

(** The place in a location's modification order from which on a thread may
    read. *)
Definition view := loc -> nat.
Definition view0 : view := fun _ => 0.
Definition seen (l : loc) (t : nat) (v : view) : view :=
  fun l' => if decide (l' = l) then Nat.max t (v l') else v l'.
Definition join (v w : view) : view := fun l => Nat.max (v l) (w l).

Inductive value :=
| Ptr (p : option node)
| Payload (d : Z).

Record message := mkMsg { m_val : value; m_view : view }.
Definition memory := loc -> nat -> option message.

Definition add (l : loc) (t : nat) (m : message) (mem : memory) : memory :=
  fun l' t' => if decide (l' = l /\ t' = t) then Some m else mem l' t'.

(** [l.load(std::memory_order_acquire)], reading the message at [t]. *)
Definition load_acquire (mem : memory) (v : view) (l : loc) (t : nat) : option (value * view) :=
  if decide (v l <= t) then
    match mem l t with
    | Some m => Some (m_val m, join (seen l t v) (m_view m))
    | None => None
    end
  else None.

(** A store at [t], which publishes the view [pub]. *)
Definition store_at (pub : view) (mem : memory) (v : view) (l : loc) (t : nat) (x : value) : option (memory * view) :=
  if decide (v l < t) then
    match mem l t with
    | None => Some (add l t (mkMsg x (seen l t pub)) mem, seen l t v)
    | Some _ => None
    end
  else None.

Definition store_relaxed : memory -> view -> loc -> nat -> value -> option (memory * view) := store_at view0.
Definition store_release (mem : memory) (v : view) : loc -> nat -> value -> option (memory * view) := store_at v mem v.

(** [l.exchange(x, std::memory_order_acq_rel)], reading the message at [t]
    and writing right after it. *)
Definition exchange_acq_rel (mem : memory) (v : view) (l : loc) (t : nat) (x : value) : option (value * (memory * view)) :=
  match load_acquire mem v l t with
  | Some (old, v1) =>
    match mem l (S t) with
    | None =>
      let v2 := seen l (S t) v1 in Some (old, (add l (S t) (mkMsg x v2) mem, v2))
    | Some _ => None
    end
  | None => None
  end.

(** ** The queue *)

Inductive party := Producer (t : thread) | Consumer.
#[global] Instance party_eq_dec : EqDecision party.
Proof. solve_decision. Defined.

(** The points of [push(node)]: the next access is that of line 20, 21, 22. *)
Inductive push_point :=
| Ready (n : node)
| Stored (n : node)
| Exchanged (prev n : node).

(** The points of [pop()]: the next access is that of line 28, 36, 45, of the
    call of [push(&stub_)], of line 51. *)
Inductive pop_point :=
| WIdle
| WSkipped (tail : node)
| WCheckHead (tail : node)
| WPush (tail : node)
| WRetry (tail : node).

(** The memory and the views; the calls of [push] under way, by party; the
    consumer's [tail_] and its point.  The history: the payload every
    allocated node was given, the nodes in the order of their exchange, the
    results of the pops. *)
Record weak := mkWeak {
  wmem : memory;
  wviews : party -> view;
  wpushing : party -> option push_point;
  wtail : node;
  wpopper : pop_point;
  wgiven : gmap node Z;
  wpushed : list node;
  wresults : list (option node)
}.

(** [MpscQueue()], which runs before any thread uses the queue; [mpsc_next] of
    a node to be is initialised to [nullptr]. *)
Definition memory_init : memory := fun l t =>
  match l, t with
  | LHead, 0 => Some (mkMsg (Ptr (Some stub_)) view0)
  | LNext _, 0 => Some (mkMsg (Ptr None) view0)
  | _, _ => None
  end.

Definition weak_init : weak :=
  mkWeak memory_init (fun _ => view0) (fun _ => None) stub_ WIdle ∅ [] [].

(** A party's access: the memory, its view, its point in [push]. *)
Definition put (p : party) (mv : memory * view) (pc : option push_point) (q : weak) : weak :=
  mkWeak mv.1 (<[p := mv.2]> (wviews q)) (<[p := pc]> (wpushing q)) (wtail q) (wpopper q)
         (wgiven q) (wpushed q) (wresults q).

Definition set_view (p : party) (v : view) (q : weak) : weak :=
  mkWeak (wmem q) (<[p := v]> (wviews q)) (wpushing q) (wtail q) (wpopper q) (wgiven q) (wpushed q) (wresults q).

Definition set_pop (tail : node) (pc : pop_point) (q : weak) : weak :=
  mkWeak (wmem q) (wviews q) (wpushing q) tail pc (wgiven q) (wpushed q) (wresults q).

Definition log_given (n : node) (d : Z) (q : weak) : weak :=
  mkWeak (wmem q) (wviews q) (wpushing q) (wtail q) (wpopper q) (<[n := d]> (wgiven q)) (wpushed q) (wresults q).

Definition log_exchanged (n : node) (q : weak) : weak :=
  mkWeak (wmem q) (wviews q) (wpushing q) (wtail q) (wpopper q) (wgiven q)
         (wpushed q ++ if decide (n = stub_) then [] else [n]) (wresults q).

Definition log_result (r : option node) (q : weak) : weak :=
  mkWeak (wmem q) (wviews q) (wpushing q) (wtail q) (wpopper q) (wgiven q) (wpushed q) (wresults q ++ [r]).

(** *** [push] *)

(** Line 20. *)
Definition weak_store (p : party) (a : nat) (q : weak) : option weak :=
  match wpushing q p with
  | Some (Ready n) =>
    mv ← store_relaxed (wmem q) (wviews q p) (LNext n) a (Ptr None);
    Some (put p mv (Some (Stored n)) q)
  | _ => None
  end.

(** Line 21. *)
Definition weak_exchange (p : party) (i : nat) (q : weak) : option weak :=
  match wpushing q p with
  | Some (Stored n) =>
    match exchange_acq_rel (wmem q) (wviews q p) LHead i (Ptr (Some n)) with
    | Some (Ptr (Some prev), mv) => Some (log_exchanged n (put p mv (Some (Exchanged prev n)) q))
    | _ => None
    end
  | _ => None
  end.

(** Line 22, the last of the call; the consumer's goes on at line 51. *)
Definition weak_link (p : party) (b : nat) (q : weak) : option weak :=
  match wpushing q p with
  | Some (Exchanged prev n) =>
    mv ← store_release (wmem q) (wviews q p) (LNext prev) b (Ptr (Some n));
    let q1 := put p mv None q in
    Some (match p, wpopper q with
          | Consumer, WPush tail => set_pop (wtail q) (WRetry tail) q1
          | _, _ => q1
          end)
  | _ => None
  end.

(** [new Completion], its fields filled in, and the call of [push]. *)
Definition weak_alloc (t : thread) (n : node) (d : Z) (q : weak) : option weak :=
  match wpushing q (Producer t) with
  | Some _ => None
  | None =>
    if decide (n <> stub_ /\ wgiven q !! n = None) then
      mv ← store_relaxed (wmem q) (wviews q (Producer t)) (LData n) 1 (Payload d);
      Some (log_given n d (put (Producer t) mv (Some (Ready n)) q))
    else None
  end.

(** *** [pop] *)

Definition weak_return (r : option node) (tail : node) (q : weak) : weak := log_result r (set_pop tail WIdle q).

(** After a load of [tail->mpsc_next] at line 28 or 36. *)
Definition weak_after_load (tail : node) (next : option node) (q : weak) : weak :=
  match next with
  | Some nx => weak_return (Some tail) nx q
  | None => set_pop (wtail q) (WCheckHead tail) q
  end.

(** A pointer the consumer loads from [l], reading the message at [t]. *)
Definition consumer_load (l : loc) (t : nat) (q : weak) : option (option node * weak) :=
  match load_acquire (wmem q) (wviews q Consumer) l t with
  | Some (Ptr x, v) => Some (x, set_view Consumer v q)
  | _ => None
  end.

Definition weak_pop (t : nat) (q : weak) : option weak :=
  match wpopper q with
  | WIdle =>
    let tail := wtail q in
    '(next, q1) ← consumer_load (LNext tail) t q;
    Some (if decide (tail = stub_) then
            match next with
            | None => weak_return None tail q1
            | Some nx => set_pop nx (WSkipped nx) q1
            end
          else weak_after_load tail next q1)
  | WSkipped tail =>
    '(next, q1) ← consumer_load (LNext tail) t q;
    Some (weak_after_load tail next q1)
  | WCheckHead tail =>
    '(h, q1) ← consumer_load LHead t q;
    Some (if decide (Some tail <> h) then weak_return None (wtail q) q1
          else set_pop (wtail q) (WPush tail)
                 (put Consumer (wmem q1, wviews q1 Consumer) (Some (Ready stub_)) q1))
  | WPush _ => None
  | WRetry tail =>
    '(next, q1) ← consumer_load (LNext tail) t q;
    Some (match next with
          | Some nx => weak_return (Some tail) nx q1
          | None => weak_return None (wtail q) q1
          end)
  end.

(** *** Runs *)

Inductive weak_event :=
| WAlloc (t : thread) (n : node) (d : Z)
| WStore (p : party) (a : nat)
| WExchange (p : party) (i : nat)
| WLink (p : party) (b : nat)
| WPop (t : nat)
| WSync (p p' : party).     (* p' synchronises with p, by a mutex or a join *)

Definition weak_step (e : weak_event) (q : weak) : option weak :=
  match e with
  | WAlloc t n d => weak_alloc t n d q
  | WStore p a => weak_store p a q
  | WExchange p i => weak_exchange p i q
  | WLink p b => weak_link p b q
  | WPop t => weak_pop t q
  | WSync p p' => Some (set_view p' (join (wviews q p') (wviews q p)) q)
  end.

Definition weak_reachable (q : weak) : Prop := exists es, run_events weak_step es weak_init = Some q.

Definition wpopped (q : weak) : list node := omap id (wresults q).
Definition wcontents (q : weak) : list node := drop (length (wpopped q)) (wpushed q).

(** ** The invariant *)

Definition vle (v w : view) : Prop := forall l, v l <= w l.

(** The view covers the [i]th exchange, of node [n] with its [nullptr] written
    at [a]. *)
Definition knows (v : view) (i : nat) (e : node * nat) : Prop :=
  i <= v LHead /\ e.2 <= v (LNext e.1) /\ (e.1 = stub_ \/ 1 <= v (LData e.1)).

Definition point_node (pc : push_point) : node :=
  match pc with Ready n | Stored n | Exchanged _ n => n end.

(** No message of [l] comes after [t]. *)
Definition latest (mem : memory) (l : loc) (t : nat) : Prop := forall t', mem l t' <> None -> t' <= t.

Definition holds (mem : memory) (l : loc) (t : nat) (x : value) : Prop := exists m, mem l t = Some m /\ m_val m = x.

(** The nodes from the consumer's on. *)
Abbreviation live ch c := ((drop c ch).*1).

(** A push under way with the view [v], when [ch] is the sequence of
    exchanges and the consumer is at its entry [c]. *)
Definition point_ok (mem : memory) (v : view) (ch : list (node * nat)) (c : nat) (pc : push_point) : Prop :=
  match pc with
  | Ready n => (n ∉ live ch c) /\ latest mem (LNext n) (v (LNext n))
  | Stored n => (n ∉ live ch c) /\
    exists a, a <= v (LNext n) /\ holds mem (LNext n) a (Ptr None) /\ latest mem (LNext n) a
  | Exchanged prev n => exists i a a',
    c <= i /\ ch !! i = Some (prev, a) /\ ch !! S i = Some (n, a')
    /\ a <= v (LNext prev) /\ knows v (S i) (n, a') /\ latest mem (LNext prev) a
  end.

(** Who pushes what. *)
Definition owner_ok (given : gmap node Z) (v : view) (ch : list (node * nat)) (p : party) (pc : push_point) : Prop :=
  let n := point_node pc in
  (n = stub_ <-> p = Consumer)
  /\ (n <> stub_ -> is_Some (given !! n) /\ 1 <= v (LData n)
      /\ match pc with Exchanged _ _ => True | _ => n ∉ ch.*1 end).

(** The link of the [i]th node is to the next one, and publishes it. *)
Definition links (mem : memory) (ch : list (node * nat)) (i : nat) (e : node * nat) : Prop :=
  holds mem (LNext e.1) e.2 (Ptr None)
  /\ (forall t m, mem (LNext e.1) t = Some m -> e.2 < t ->
        exists e', ch !! S i = Some e' /\ m_val m = Ptr (Some e'.1) /\ knows (m_view m) (S i) e')
  /\ (forall t t', mem (LNext e.1) t <> None -> mem (LNext e.1) t' <> None -> e.2 < t -> e.2 < t' -> t = t').

(** The messages of [head_] are the exchanges. *)
Definition heads (mem : memory) (ch : list (node * nat)) (i : nat) : Prop :=
  match ch !! i with
  | Some e => exists m, mem LHead i = Some m /\ m_val m = Ptr (Some e.1) /\ knows (m_view m) i e
  | None => mem LHead i = None
  end.

Definition popper_ok (q : weak) : Prop :=
  match wpopper q with
  | WIdle => wpushing q Consumer = None
  | WSkipped tail | WCheckHead tail | WRetry tail =>
    wpushing q Consumer = None /\ tail = wtail q /\ tail <> stub_
  | WPush tail => wpushing q Consumer <> None /\ tail = wtail q /\ tail <> stub_
  end.

Record weak_inv (q : weak) (ch : list (node * nat)) (c : nat) : Prop := {
  wi_zero : exists a, ch !! 0 = Some (stub_, a);
  wi_head : forall i, heads (wmem q) ch i;
  wi_links : forall i e, c <= i -> ch !! i = Some e -> links (wmem q) ch i e;
  wi_linked : forall i e e', c <= i -> ch !! i = Some e -> ch !! S i = Some e' ->
    (exists t, e.2 < t /\ wmem q (LNext e.1) t <> None)
    \/ exists p, wpushing q p = Some (Exchanged e.1 e'.1);
  wi_point : forall p pc, wpushing q p = Some pc ->
    owner_ok (wgiven q) (wviews q p) ch p pc /\ point_ok (wmem q) (wviews q p) ch c pc;
  wi_uniq : forall p p' pc pc', wpushing q p = Some pc -> wpushing q p' = Some pc' ->
    point_node pc = point_node pc' -> p = p';
  wi_nodup : NoDup (live ch c);
  wi_once : NoDup (filter not_stub ch.*1);
  wi_given : forall n, n ∈ ch.*1 -> n <> stub_ -> is_Some (wgiven q !! n);
  wi_fresh : forall n, n <> stub_ -> wgiven q !! n = None ->
    latest (wmem q) (LNext n) 0 /\ forall t, wmem q (LData n) t = None;
  wi_data : forall n d, wgiven q !! n = Some d ->
    holds (wmem q) (LData n) 1 (Payload d) /\ latest (wmem q) (LData n) 1;
  wi_tail : exists a, ch !! c = Some (wtail q, a) /\ knows (wviews q Consumer) c (wtail q, a);
  wi_dead : forall i e, i < c -> ch !! i = Some e ->
    (e.1 = stub_ \/ 1 <= wviews q Consumer (LData e.1))
    /\ ((e.1 ∉ live ch c) -> latest (wmem q) (LNext e.1) (wviews q Consumer (LNext e.1)));
  wi_stub : forall j a, c <= j -> ch !! j = Some (stub_, a) -> j <= wviews q Consumer LHead;
  wi_popper : popper_ok q;
  wi_pushed : wpushed q = filter not_stub ch.*1;
  wi_popped : wpopped q = filter not_stub (take c ch).*1
}.

#[global] Arguments add : simpl never.
#[global] Arguments seen : simpl never.
#[global] Arguments join : simpl never.

(** ** Views *)

#[export] Instance vle_refl : Reflexive vle.
Proof. intros v l. lia. Qed.
#[export] Instance vle_trans : Transitive vle.
Proof. intros u v w H1 H2 l. specialize (H1 l). specialize (H2 l). lia. Qed.

Lemma seen_le l t v : vle v (seen l t v).
Proof. intros l'. unfold seen. case_decide; lia. Qed.
Lemma seen_at l t v : t <= seen l t v l.
Proof. unfold seen. case_decide; [lia|done]. Qed.
Lemma join_le_l v w : vle v (join v w).
Proof. intros l. unfold join. lia. Qed.
Lemma join_le_r v w : vle w (join v w).
Proof. intros l. unfold join. lia. Qed.

Lemma knows_le v w i e : vle v w -> knows v i e -> knows w i e.
Proof.
  intros Hle (? & ? & Hd). pose proof (Hle LHead). pose proof (Hle (LNext e.1)). pose proof (Hle (LData e.1)).
  split_and!; [lia..|]. destruct Hd; [by left|right; lia].
Qed.

Lemma point_ok_le mem v w ch c pc : vle v w -> point_ok mem v ch c pc -> point_ok mem w ch c pc.
Proof.
  intros Hle. destruct pc as [n|n|prev n]; simpl.
  - intros [? Hl]. split; [done|]. intros t Ht. specialize (Hl t Ht). specialize (Hle (LNext n)). lia.
  - intros [? (a & ? & ?)]. split; [done|]. exists a. pose proof (Hle (LNext n)). split; [lia|done].
  - intros (i & a & a' & ? & ? & ? & ? & Hk & ?). exists i, a, a'. pose proof (Hle (LNext prev)).
    split_and!; try done; [lia|]. by eapply knows_le.
Qed.

Lemma owner_ok_le given v w ch p pc : vle v w -> owner_ok given v ch p pc -> owner_ok given w ch p pc.
Proof.
  intros Hle [? Ho]. split; [done|]. intros Hn. destruct (Ho Hn) as (? & ? & ?).
  pose proof (Hle (LData (point_node pc))). split_and!; [done|lia|done].
Qed.

(** What is known of a node passed by stays known. *)
Lemma dead_le mem v w (Q : Prop) (n : node) :
  vle v w -> (n = stub_ \/ 1 <= v (LData n)) /\ (Q -> latest mem (LNext n) (v (LNext n))) ->
  (n = stub_ \/ 1 <= w (LData n)) /\ (Q -> latest mem (LNext n) (w (LNext n))).
Proof.
  intros Hle [Hd Hl]. pose proof (Hle (LData n)). pose proof (Hle (LNext n)). split; [destruct Hd; [by left|right; lia]|].
  intros HQ t Ht. specialize (Hl HQ t Ht). lia.
Qed.

(** ** Memory *)

Lemma add_at l t m mem : add l t m mem l t = Some m.
Proof. unfold add. by rw decide_True. Qed.
Lemma add_ne l t m mem l' t' : l' <> l -> add l t m mem l' t' = mem l' t'.
Proof. intros H. unfold add. rw decide_False //. by intros [? _]. Qed.

Lemma add_some l t m mem l' t' m' :
  add l t m mem l' t' = Some m' -> (l' = l /\ t' = t /\ m' = m) \/ mem l' t' = Some m'.
Proof. unfold add. case_decide as H; [|by right]. destruct H. intros [= <-]. by left. Qed.

Lemma add_old l t m mem l' t' m' : mem l t = None -> mem l' t' = Some m' -> add l t m mem l' t' = Some m'.
Proof. intros Hn H. unfold add. case_decide as E; [|done]. destruct E; subst. by rw Hn in H. Qed.

Lemma add_not_none l t m mem l' t' : add l t m mem l' t' <> None -> (l' = l /\ t' = t) \/ mem l' t' <> None.
Proof. unfold add. case_decide; auto. Qed.

Lemma holds_add l t m mem l' t' x : mem l t = None -> holds mem l' t' x -> holds (add l t m mem) l' t' x.
Proof. intros Hn (m' & H & ?). exists m'. split; [|done]. by apply add_old. Qed.

Lemma latest_ne l t m mem l' t' : l' <> l -> latest mem l' t' -> latest (add l t m mem) l' t'.
Proof. intros Hne H u Hu. apply H. by rw add_ne in Hu. Qed.

Lemma latest_add l t m mem u : latest mem l u -> u < t -> latest (add l t m mem) l t.
Proof. intros H Hlt t' [[_ ->]|Ht]%add_not_none; [lia|]. specialize (H t' Ht). lia. Qed.

(** The locations of the live nodes. *)
Lemma live_elem ch c i (e : node * nat) : c <= i -> ch !! i = Some e -> e.1 ∈ live ch c.
Proof.
  intros Hc He. apply list_elem_of_fmap. exists e. split; [done|]. apply list_elem_of_lookup. exists (i - c).
  rw lookup_drop. by replace (c + (i - c)) with i by lia.
Qed.

Lemma live_index ch c i j (e e' : node * nat) :
  NoDup (live ch c) -> c <= i -> c <= j -> ch !! i = Some e -> ch !! j = Some e' -> e.1 = e'.1 -> i = j.
Proof.
  intros Hn Hi Hj He He' E.
  assert (forall k (x : node * nat), c <= k -> ch !! k = Some x -> live ch c !! (k - c) = Some x.1) as Hl.
  { intros k x Hk Hx. rw list_lookup_fmap lookup_drop. replace (c + (k - c)) with k by lia. by rw Hx. }
  pose proof (Hl i e Hi He) as H1. pose proof (Hl j e' Hj He') as H2. rw -E in H2.
  pose proof (NoDup_lookup _ _ _ _ Hn H1 H2). lia.
Qed.

Lemma links_ne n t m mem ch i e :
  e.1 <> n -> mem (LNext n) t = None -> links mem ch i e -> links (add (LNext n) t m mem) ch i e.
Proof.
  intros Hne Hn (H1 & H2 & H3). assert (LNext e.1 <> LNext n) as Hl by congruence.
  split_and!; [by apply holds_add|..]; intros t' t''; rw !add_ne //; eauto.
Qed.

Lemma point_ok_add n t m mem v ch c pc :
  (n ∉ live ch c) -> point_node pc <> n -> mem (LNext n) t = None ->
  point_ok mem v ch c pc -> point_ok (add (LNext n) t m mem) v ch c pc.
Proof.
  intros Hl Hne Hn. destruct pc as [x|x|prev x]; simpl in *.
  - intros [? ?]. split; [done|]. apply latest_ne; [congruence|done].
  - intros [? (a & ? & ? & ?)]. split; [done|]. exists a. split_and!; [done|by apply holds_add|].
    apply latest_ne; [congruence|done].
  - intros (i & a & a' & Hc & Hp & ? & ? & ? & ?). exists i, a, a'. split_and!; try done.
    apply latest_ne; [|done]. pose proof (live_elem _ _ _ _ Hc Hp). simpl in *. congruence.
Qed.

(** An exchange on [head_] concerns no other location. *)
Lemma latest_head t m mem n u : latest mem (LNext n) u -> latest (add LHead t m mem) (LNext n) u.
Proof. by apply latest_ne. Qed.

Lemma live_snoc ch c (e : node * nat) : c <= length ch -> live (ch ++ [e]) c = live ch c ++ [e.1].
Proof. intros H. by rw drop_app_le // fmap_app. Qed.

Lemma snoc_cases (ch : list (node * nat)) x i j e :
  length ch = S i -> (ch ++ [x]) !! j = Some e -> ch !! j = Some e \/ (j = S i /\ e = x).
Proof.
  intros Hlen [?|[? Hj]]%lookup_app_Some; [by left|]. right. rw -Hlen.
  destruct (j - length ch) as [|k] eqn:Ek; simpl in Hj; simplify_eq. split; [lia|done].
Qed.

Lemma heads_snoc mem ch i x m :
  length ch = S i -> (forall j, heads mem ch j) -> mem LHead (S i) = None ->
  m_val m = Ptr (Some x.1) -> knows (m_view m) (S i) x -> forall j, heads (add LHead (S i) m mem) (ch ++ [x]) j.
Proof.
  intros Hlen Hh Hno Hv Hk j. specialize (Hh j). unfold heads in *. destruct ((ch ++ [x]) !! j) as [e|] eqn:Ej.
  - destruct (snoc_cases _ _ _ _ _ Hlen Ej) as [Ej'|[-> ->]]; [|exists m; by rw add_at].
    rw Ej' in Hh. destruct Hh as (m' & ? & ?). exists m'. split; [by apply add_old|done].
  - apply lookup_ge_None in Ej. rw length_app /= in Ej. unfold add. rw decide_False; [intros [_ ->]; lia|].
    by rw lookup_ge_None_2 in Hh; [lia|].
Qed.

Lemma once_snoc (l : list node) n :
  NoDup (filter not_stub l) -> (n <> stub_ -> n ∉ l) -> NoDup (filter not_stub (l ++ [n])).
Proof.
  intros Hl Hn. destruct (decide (n = stub_)) as [->|Hs].
  - rw filter_app filter_cons_False; [by intros []|]. by rw app_nil_r.
  - rw filter_snoc_not_stub //. apply NoDup_snoc; [done|]. rw list_elem_of_filter. intros [_ ?]. by apply Hn.
Qed.

Lemma links_snoc t m mem ch i e x : links mem ch i e -> links (add LHead t m mem) (ch ++ [x]) i e.
Proof.
  intros ((m' & H1 & ?) & H2 & H3). split_and!.
  - by exists m'.
  - intros t' m1 Hm Ht. destruct (H2 t' m1 Hm Ht) as (e' & He' & ?). exists e'. split; [|done].
    by apply lookup_app_l_Some.
  - done.
Qed.

Lemma links_new mem ch i n a : holds mem (LNext n) a (Ptr None) -> latest mem (LNext n) a -> links mem ch i (n, a).
Proof.
  intros Hn Hl. split_and!; [done|..]; simpl; intros t.
  - intros m Hm Hlt. specialize (Hl t). rw Hm in Hl. specialize (Hl ltac:(done)). lia.
  - intros t' Ht _ Hlt _. specialize (Hl t Ht). lia.
Qed.

Lemma point_ok_snoc t m mem v ch c pc x :
  c <= length ch -> point_node pc <> x.1 ->
  point_ok mem v ch c pc -> point_ok (add LHead t m mem) v (ch ++ [x]) c pc.
Proof.
  intros Hc Hne. destruct pc as [n|n|prev n]; simpl in *.
  - intros [? ?]. rw live_snoc // not_elem_of_app list_elem_of_singleton. split; [done|]. by apply latest_head.
  - intros [? (a & ? & (m' & ? & ?) & ?)]. rw live_snoc // not_elem_of_app list_elem_of_singleton. split; [done|].
    exists a. split_and!; [done|by exists m'|by apply latest_head].
  - intros (i & a & a' & Hp). exists i, a, a'. destruct Hp as (? & ? & ? & ? & ? & ?).
    split_and!; [done|by apply lookup_app_l_Some..|done|done|by apply latest_head].
Qed.

Lemma owner_ok_snoc given v ch p pc x :
  point_node pc <> x.1 -> owner_ok given v ch p pc -> owner_ok given v (ch ++ [x]) p pc.
Proof.
  intros Hne [? Ho]. split; [done|]. intros Hn. destruct (Ho Hn) as (? & ? & Hpc). split_and!; [done..|].
  destruct pc; simpl in *; try done; rw fmap_app not_elem_of_app list_elem_of_singleton; done.
Qed.

(** ** Preservation *)

Lemma fn_insert_some {B} (f : party -> option B) p x p' b :
  (<[p := x]> f) p' = Some b -> (p' = p /\ x = Some b) \/ (p' <> p /\ f p' = Some b).
Proof. destruct (decide (p = p')) as [->|Hne]; rw ?fn_lookup_insert ?fn_lookup_insert_ne; auto. Qed.

Lemma views_grow (vs : party -> view) p v : vle (vs p) v -> forall p', vle (vs p') ((<[p := v]> vs) p').
Proof. intros H p'. destruct (decide (p = p')) as [->|Hne]; by rw ?fn_lookup_insert ?fn_lookup_insert_ne. Qed.

Lemma weak_inv_init : weak_inv weak_init [(stub_, 0)] 0.
Proof.
  constructor; simpl; try done.
  - by exists 0.
  - intros [|i]; simpl; [|done]. eexists. split_and!; [done..|]. by split_and!; [..|left].
  - intros [|i] e _ [= <-]. split_and!; [by eexists|..]; intros [|t]; simpl; done || lia.
  - apply NoDup_singleton.
  - constructor.
  - intros n ->%list_elem_of_singleton. done.
  - intros n _ _. split; [|done]. intros [|t]; simpl; done || lia.
  - exists 0. split; [done|]. by split_and!; [..|left].
  - intros i e Hi. lia.
  - intros [|j] a _ ?; [apply Nat.le_0_l|done].
Qed.

Lemma weak_inv_views q ch c vs :
  weak_inv q ch c -> (forall p, vle (wviews q p) (vs p)) ->
  weak_inv (mkWeak (wmem q) vs (wpushing q) (wtail q) (wpopper q) (wgiven q) (wpushed q) (wresults q)) ch c.
Proof.
  intros [] Hle. constructor; simpl; try done.
  - intros p pc Hp. destruct (wi_point0 p pc Hp). split; [eapply owner_ok_le|eapply point_ok_le]; eauto.
  - destruct wi_tail0 as (a & ? & ?). exists a. split; [done|]. eapply knows_le; [apply Hle|done].
  - intros i e Hi He. eapply dead_le; [apply Hle|by eapply wi_dead0].
  - intros j a Hj Ha. specialize (wi_stub0 j a Hj Ha). specialize (Hle Consumer LHead). lia.
Qed.

Lemma weak_inv_view q ch c p v :
  weak_inv q ch c -> vle (wviews q p) v -> weak_inv (set_view p v q) ch c.
Proof. intros Hi Hv. apply weak_inv_views; [done|]. by apply views_grow. Qed.

(** A change of the consumer's point alone. *)
Lemma weak_inv_point q ch c pc :
  weak_inv q ch c -> popper_ok (set_pop (wtail q) pc q) -> weak_inv (set_pop (wtail q) pc q) ch c.
Proof. intros [] Hp. by constructor. Qed.

Lemma weak_inv_none q ch c :
  weak_inv q ch c -> wpushing q Consumer = None -> weak_inv (weak_return None (wtail q) q) ch c.
Proof.
  intros [] Hp. constructor; simpl; try done. unfold wpopped in *. simpl. rw omap_app wi_popped0. simpl. by rw app_nil_r.
Qed.

(** A push that goes on keeps its node. *)
Lemma uniq_put (f : party -> option push_point) p pc pc' :
  (forall p1 p2 pc1 pc2, f p1 = Some pc1 -> f p2 = Some pc2 -> point_node pc1 = point_node pc2 -> p1 = p2) ->
  f p = Some pc -> point_node pc' = point_node pc ->
  forall p1 p2 pc1 pc2, (<[p := Some pc']> f) p1 = Some pc1 -> (<[p := Some pc']> f) p2 = Some pc2 ->
  point_node pc1 = point_node pc2 -> p1 = p2.
Proof.
  intros Hu Hp En p1 p2 pc1 pc2 [[-> [= <-]]|[? H1]]%fn_insert_some [[-> [= <-]]|[? H2]]%fn_insert_some E;
    rw ?En in E; eauto.
Qed.

Lemma popper_ok_put q p mv pc pc' :
  popper_ok q -> wpushing q p = Some pc -> popper_ok (put p mv (Some pc') q).
Proof.
  unfold popper_ok. simpl. intros Hk Hp. destruct (decide (p = Consumer)) as [->|Hne].
  - rw fn_lookup_insert. destruct (wpopper q); rw ?Hp in Hk; naive_solver.
  - by rw fn_lookup_insert_ne.
Qed.

Lemma weak_inv_store q ch c p n a x :
  weak_inv q ch c -> wpushing q p = Some (Ready n) ->
  wviews q p (LNext n) < a -> wmem q (LNext n) a = None ->
  weak_inv (put p (add (LNext n) a (mkMsg (Ptr None) x) (wmem q), seen (LNext n) a (wviews q p)) (Some (Stored n)) q) ch c.
Proof.
  intros Hi Hp Ha Hnone. pose proof Hi as [].
  destruct (wi_point0 _ _ Hp) as [[Hown Hgiv] [Hlive Hlat]]. simpl in Hown, Hgiv.
  pose proof (views_grow (wviews q) p _ (seen_le (LNext n) a (wviews q p))) as Hv.
  constructor; simpl; try done.
  - intros i e Hc He. apply links_ne; [|done|by apply wi_links0].
    intros E. destruct Hlive. rw -E. by eapply live_elem.
  - intros i e e' Hc He He'. destruct (wi_linked0 i e e' Hc He He') as [(t & Ht & Hm)|(p' & Hp')].
    + left. exists t. split; [done|]. rw add_ne //. intros [= E]. destruct Hlive. rw -E. by eapply live_elem.
    + right. exists p'. rw fn_lookup_insert_ne //. congruence.
  - intros p' pc [[-> [= <-]]|[Hne Hp']]%fn_insert_some.
    + rw fn_lookup_insert. split; [eapply owner_ok_le; [apply seen_le|done]|].
      split; [done|]. exists a. split_and!; [apply seen_at|eexists; split; [apply add_at|done]|by eapply latest_add].
    + rw fn_lookup_insert_ne //. destruct (wi_point0 _ _ Hp') as [? ?]. split; [done|].
      apply point_ok_add; try done. intros E. by destruct Hne; eapply wi_uniq0.
  - by eapply uniq_put.
  - intros m Hm Hg. destruct (wi_fresh0 m Hm Hg) as [Hl Hd]. split; [|intros t; by rw add_ne].
    apply latest_ne; [|done]. intros [= ->]. destruct (Hgiv Hm) as [[? ?] _]. congruence.
  - destruct wi_tail0 as (a' & ? & ?). exists a'. split; [done|]. eapply knows_le; [apply Hv|done].
  - intros i e Hc He. destruct (dead_le _ _ _ _ _ (Hv Consumer) (wi_dead0 i e Hc He)) as [Hd Hl]. split; [done|].
    intros Hnl. destruct (decide (e.1 = n)) as [E|Hne].
    + rw E. destruct (decide (n = stub_)) as [Es|Es].
      * apply Hown in Es as ->. rw fn_lookup_insert. intros t [[_ ->]|Ht]%add_not_none; [apply seen_at|].
        specialize (Hlat t Ht). etrans; [exact Hlat|]. apply seen_le.
      * destruct (Hgiv Es) as (_ & _ & Hno). destruct Hno. apply list_elem_of_fmap. exists e. split; [done|].
        by eapply list_elem_of_lookup_2.
    + apply latest_ne; [congruence|]. by apply Hl.
  - intros j b Hj Hb. specialize (wi_stub0 j b Hj Hb). specialize (Hv Consumer LHead). lia.
  - by eapply popper_ok_put.
Qed.

Lemma exchange_inv mem v i x old mv :
  exchange_acq_rel mem v LHead i x = Some (old, mv) ->
  exists m, mem LHead i = Some m /\ m_val m = old /\ mem LHead (S i) = None
  /\ vle v mv.2 /\ vle (m_view m) mv.2 /\ S i <= mv.2 LHead /\ mv.1 = add LHead (S i) (mkMsg x mv.2) mem.
Proof.
  unfold exchange_acq_rel, load_acquire. repeat case_match; intros; simplify_eq. eexists. split_and!; try done; simpl.
  - etrans; [apply seen_le|]. etrans; [apply join_le_l|]. apply seen_le.
  - etrans; [apply join_le_r|]. apply seen_le.
  - apply seen_at.
Qed.

(** The exchange reads the last entry of [ch]. *)
Lemma head_last q ch c i m :
  weak_inv q ch c -> wmem q LHead i = Some m -> wmem q LHead (S i) = None ->
  length ch = S i /\ c <= i /\ exists e, ch !! i = Some e /\ m_val m = Ptr (Some e.1) /\ knows (m_view m) i e
    /\ latest (wmem q) (LNext e.1) e.2.
Proof.
  intros [] Hm Hno. pose proof (wi_head0 i) as H1. pose proof (wi_head0 (S i)) as H2. unfold heads in H1, H2.
  destruct (ch !! S i) as [e1|] eqn:E1; [destruct H2 as (? & ? & _); congruence|].
  destruct (ch !! i) as [e|] eqn:E; [|congruence]. destruct H1 as (m' & Hm' & ? & ?). simplify_eq.
  apply lookup_ge_None in E1. pose proof (lookup_lt_Some _ _ _ E). destruct wi_tail0 as (a & Ht & _).
  apply lookup_lt_Some in Ht. assert (c <= i) as Hc by lia. split; [lia|]. split; [done|]. exists e. split_and!; try done.
  intros t Ht'. destruct (wi_links0 i e Hc E) as (_ & Hl & _).
  destruct (wmem q (LNext e.1) t) as [mt|] eqn:Et; [|done]. destruct (decide (t <= e.2)) as [|Hlt]; [done|].
  destruct (Hl t mt Et ltac:(lia)) as (e' & He' & _). apply lookup_lt_Some in He'. lia.
Qed.

(** The producer of node [n] knows the entry its exchange appends. *)
Lemma exchange_knows q ch c p n i a v :
  weak_inv q ch c -> wpushing q p = Some (Stored n) -> vle (wviews q p) v -> S i <= v LHead ->
  a <= wviews q p (LNext n) -> knows v (S i) (n, a).
Proof.
  intros Hi Hp Hv Hh Ha. destruct (wi_point _ _ _ Hi _ _ Hp) as [[_ Hgiv] _]. simpl in Hgiv.
  split_and!; simpl; [done|pose proof (Hv (LNext n)); lia|]. destruct (decide (n = stub_)) as [|Hn]; [by left|right].
  destruct (Hgiv Hn) as (_ & ? & _). pose proof (Hv (LData n)). lia.
Qed.

(** After the exchange every entry still has its link or a producer about to write it. *)
Lemma exchange_linked q ch c p n i prev a0 a :
  weak_inv q ch c -> wpushing q p = Some (Stored n) -> length ch = S i -> ch !! i = Some (prev, a0) ->
  forall j e e', c <= j -> (ch ++ [(n, a)]) !! j = Some e -> (ch ++ [(n, a)]) !! S j = Some e' ->
  (exists t, e.2 < t /\ wmem q (LNext e.1) t <> None)
  \/ exists p', (<[p := Some (Exchanged prev n)]> (wpushing q)) p' = Some (Exchanged e.1 e'.1).
Proof.
  intros Hi Hp Hlen He j e e' Hj He1 He2. destruct (snoc_cases ch (n, a) i _ _ Hlen He2) as [Ej|[[= ->] ->]].
  - rw lookup_app_l in He1; [apply lookup_lt_Some in Ej; lia|].
    destruct (wi_linked _ _ _ Hi j e e' Hj He1 Ej) as [?|[p' Hp']]; [by left|]. right. exists p'.
    rw fn_lookup_insert_ne //. congruence.
  - right. exists p. rw fn_lookup_insert. rw lookup_app_l in He1; [lia|]. by simplify_eq.
Qed.

Lemma weak_inv_exchange q ch c p n i prev mv :
  weak_inv q ch c -> wpushing q p = Some (Stored n) ->
  exchange_acq_rel (wmem q) (wviews q p) LHead i (Ptr (Some n)) = Some (Ptr (Some prev), mv) ->
  exists a, weak_inv (log_exchanged n (put p mv (Some (Exchanged prev n)) q)) (ch ++ [(n, a)]) c.
Proof.
  intros Hi Hp (m & Hm & Hval & Hno & Hv1 & Hv2 & Hv3 & Hmv)%exchange_inv.
  destruct (head_last _ _ _ _ _ Hi Hm Hno) as (Hlen & Hc & [prev' a0] & He & Hval' & Hk & Hlat0). simpl in *.
  rw Hval' in Hval. injection Hval as ->.
  pose proof Hi as []. destruct (wi_point0 _ _ Hp) as [[Hown Hgiv] [Hlive (a & Ha & Hnull & Hlat)]]. simpl in Hown, Hgiv.
  pose proof (views_grow (wviews q) p _ Hv1) as Hv. exists a.
  assert (forall j e, j < S i -> (ch ++ [(n, a)]) !! j = Some e -> ch !! j = Some e) as Hold.
  { intros j e Hj. by rw lookup_app_l; [lia|]. }
  pose proof (fun j e => snoc_cases ch (n, a) i j e Hlen) as Hcase.
  pose proof (exchange_knows _ _ _ _ _ _ _ _ Hi Hp Hv1 Hv3 Ha) as Hkn.
  constructor; simpl; rw ?Hmv; try done.
  - destruct wi_zero0 as [a1 ?]. exists a1. by apply lookup_app_l_Some.
  - by apply heads_snoc.
  - intros j e Hj He'. destruct (Hcase _ _ He') as [Ej|[-> ->]]; [by apply links_snoc, wi_links0|].
    apply links_new; [by destruct Hnull as (m' & ? & ?); exists m'|by apply latest_head].
  - by eapply exchange_linked.
  - intros p' pc [[-> [= <-]]|[Hne Hp']]%fn_insert_some.
    + rw fn_lookup_insert. split; [split; [done|]|].
      * intros Hn. destruct (Hgiv Hn) as (? & ? & _). split_and!; [done| |done]. etrans; [|apply Hv1]. done.
      * exists i, a0, a. split_and!; [done|by apply lookup_app_l_Some| | |done|done].
        -- rw lookup_app_r; [lia|]. by rw Hlen Nat.sub_diag.
        -- destruct Hk as (_ & Hk & _). etrans; [exact Hk|]. apply Hv2.
    + rw fn_lookup_insert_ne //. destruct (wi_point0 _ _ Hp') as [? ?].
      assert (point_node pc <> n) by (intros E; by destruct Hne; eapply wi_uniq0).
      split; [by apply owner_ok_snoc|]. apply point_ok_snoc; [lia|done|done].
  - by eapply uniq_put.
  - rw live_snoc; [lia|]. by apply NoDup_snoc.
  - rw fmap_app. apply once_snoc; [done|]. intros Hn. by destruct (Hgiv Hn) as (_ & _ & ?).
  - intros x. rw fmap_app elem_of_app list_elem_of_singleton. intros [?| ->] Hx; [by apply wi_given0|]. by apply Hgiv.
  - destruct wi_tail0 as (a1 & ? & ?). exists a1. split; [by apply lookup_app_l_Some|].
    eapply knows_le; [apply Hv|done].
  - intros j e Hj He'. pose proof (Hold j e ltac:(lia) He') as Hj'. rw live_snoc; [lia|]. rw not_elem_of_app.
    destruct (dead_le _ _ _ _ _ (Hv Consumer) (wi_dead0 j e Hj Hj')) as [Hd Hl]. split; [done|].
    intros [Hnl _]. by apply latest_head, Hl.
  - intros j b Hj Hb. destruct (Hcase _ _ Hb) as [Hb'|[-> [= Hs]]].
    + specialize (wi_stub0 j b Hj Hb'). specialize (Hv Consumer LHead). lia.
    + symmetry in Hs. apply Hown in Hs as ->. by rw fn_lookup_insert.
  - apply (popper_ok_put q p mv _ (Exchanged prev n)) in Hp; done.
  - rw fmap_app filter_app wi_pushed0. f_equal. case_decide as E.
    + rw filter_cons_False //. by intros [].
    + by rw filter_cons_True.
  - rw take_app_le; [lia|]. done.
Qed.

(** The link of the [i]th node is written. *)
Lemma links_link mem ch i e e' b v :
  ch !! S i = Some e' -> knows v (S i) e' -> e.2 < b -> mem (LNext e.1) b = None -> latest mem (LNext e.1) e.2 ->
  links mem ch i e -> links (add (LNext e.1) b (mkMsg (Ptr (Some e'.1)) v) mem) ch i e.
Proof.
  intros He' Hk Hb Hn Hl (H1 & _ & _). split_and!; [by apply holds_add|..].
  - intros t m [(_ & -> & ->)|Hm]%add_some Ht; [by exists e'|]. specialize (Hl t). rw Hm in Hl.
    specialize (Hl ltac:(done)). lia.
  - intros t t' [[_ ->]|Ht]%add_not_none [[_ ->]|Ht']%add_not_none Hlt Hlt'; [done|..].
    + specialize (Hl _ Ht'). lia.
    + specialize (Hl _ Ht). lia.
    + specialize (Hl _ Ht). lia.
Qed.

(** The other pushes concern other nodes. *)
Lemma point_ok_link n t m mem v ch c pc :
  n ∈ live ch c -> (forall n', pc <> Exchanged n n') -> mem (LNext n) t = None ->
  point_ok mem v ch c pc -> point_ok (add (LNext n) t m mem) v ch c pc.
Proof.
  intros Hl Hne Hn. destruct pc as [x|x|prev x]; simpl in *.
  - intros [? ?]. split; [done|]. apply latest_ne; [congruence|done].
  - intros [? (a & ? & ? & ?)]. split; [done|]. exists a. split_and!; [done|by apply holds_add|].
    apply latest_ne; [congruence|done].
  - intros (i & a & a' & Hc & Hp & ? & ? & ? & ?). exists i, a, a'. split_and!; try done.
    apply latest_ne; [|done]. intros [= ->]. by destruct (Hne x).
Qed.

Lemma weak_inv_link q ch c p prev n b pc :
  weak_inv q ch c -> wpushing q p = Some (Exchanged prev n) ->
  wviews q p (LNext prev) < b -> wmem q (LNext prev) b = None ->
  let v := seen (LNext prev) b (wviews q p) in
  let q' := set_pop (wtail q) pc (put p (add (LNext prev) b (mkMsg (Ptr (Some n)) v) (wmem q), v) None q) in
  popper_ok q' -> weak_inv q' ch c.
Proof.
  intros Hi Hp Hb Hnone v q' Hpop. pose proof Hi as [].
  destruct (wi_point0 _ _ Hp) as [_ (i & a & a' & Hc & Hprev & Hn & Ha & Hk & Hlat)].
  pose proof (views_grow (wviews q) p v (seen_le (LNext prev) b (wviews q p))) as Hv.
  pose proof (live_elem _ _ _ _ Hc Hprev) as Hlive. simpl in Hlive.
  assert (forall j e, c <= j -> ch !! j = Some e -> e.1 = prev -> j = i /\ e = (prev, a)) as Hsame.
  { intros j e Hj He E. pose proof (live_index _ _ _ _ _ _ wi_nodup0 Hj Hc He Hprev E) as ->. by simplify_eq. }
  assert (forall p' n', wpushing q p' = Some (Exchanged prev n') -> p' = p) as Hother.
  { intros p' n' Hp'. destruct (wi_point0 _ _ Hp') as [_ (j & e & e' & Hj & Hje & Hjn & _)].
    destruct (Hsame _ _ Hj Hje eq_refl) as [-> _]. simplify_eq. by eapply wi_uniq0. }
  constructor; simpl; try done.
  - intros j e Hj He. destruct (decide (e.1 = prev)) as [E|Hne].
    + destruct (Hsame _ _ Hj He E) as [-> ->]. pose proof (wi_links0 _ _ Hc He) as Hl.
      apply (links_link _ _ _ (prev, a) (n, a')); try done; simpl; [|lia].
      eapply knows_le; [apply seen_le|done].
    + apply links_ne; [done..|by apply wi_links0].
  - intros j e e' Hj He He'. destruct (decide (e.1 = prev)) as [E|Hne].
    + destruct (Hsame _ _ Hj He E) as [-> ->]. left. exists b. rw add_at. split; [simpl; lia|done].
    + destruct (wi_linked0 j e e' Hj He He') as [(t & ? & ?)|(p' & Hp')].
      * left. exists t. rw add_ne //. congruence.
      * right. exists p'. rw fn_lookup_insert_ne //. intros ->. congruence.
  - intros p' pc' [[_ ?]|[Hne Hp']]%fn_insert_some; [done|]. rw fn_lookup_insert_ne //.
    destruct (wi_point0 _ _ Hp') as [? ?]. split; [done|]. apply point_ok_link; try done.
    intros n' ->. by apply Hother in Hp'.
  - intros p1 p2 pc1 pc2 [[_ ?]|[? H1]]%fn_insert_some [[_ ?]|[? H2]]%fn_insert_some E; [done..|]. by eapply wi_uniq0.
  - intros m Hm Hg. destruct (wi_fresh0 m Hm Hg) as [Hl Hd]. split; [|done].
    apply latest_ne; [|done]. intros [= ->]. destruct (wi_given0 prev) as [? ?]; [|done|congruence].
    apply list_elem_of_fmap. exists (prev, a). split; [done|]. by eapply list_elem_of_lookup_2.
  - destruct wi_tail0 as (a1 & ? & ?). exists a1. split; [done|]. eapply knows_le; [apply Hv|done].
  - intros j e Hj He. destruct (dead_le _ _ _ _ _ (Hv Consumer) (wi_dead0 j e Hj He)) as [Hd Hl]. split; [done|].
    intros Hnl. apply latest_ne; [congruence|]. by apply Hl.
  - intros j x Hj Hx. specialize (wi_stub0 j x Hj Hx). specialize (Hv Consumer LHead). lia.
Qed.

Lemma live_cons ch c (e : node * nat) : ch !! c = Some e -> live ch c = e.1 :: live ch (S c).
Proof. intros H. by rw (drop_S _ _ _ H). Qed.

(** [tail_] moves over a link. *)
Lemma weak_inv_advance q ch c a nx a' t pc rs :
  weak_inv q ch c -> ch !! c = Some (wtail q, a) -> ch !! S c = Some (nx, a') ->
  knows (wviews q Consumer) (S c) (nx, a') ->
  wmem q (LNext (wtail q)) t <> None -> a < t -> t <= wviews q Consumer (LNext (wtail q)) ->
  let q' := mkWeak (wmem q) (wviews q) (wpushing q) nx pc (wgiven q) (wpushed q) rs in
  popper_ok q' -> wpopped q' = wpopped q ++ filter not_stub [wtail q] ->
  weak_inv q' ch (S c).
Proof.
  intros Hi Hc Hnx Hk Ht Hat Htv q' Hpop Hrs. pose proof Hi as [].
  pose proof (live_cons _ _ _ Hc) as Hlive. simpl in Hlive.
  assert (latest (wmem q) (LNext (wtail q)) t) as Hlat.
  { intros t' Ht'. destruct (decide (t' <= a)); [lia|]. destruct (wi_links0 _ _ (le_n c) Hc) as (_ & _ & Hu).
    rw (Hu t t') //. simpl. lia. }
  constructor; simpl; try done.
  - intros i e Hi'. apply wi_links0. lia.
  - intros i e e' Hi'. apply wi_linked0. lia.
  - intros p pc' Hp. destruct (wi_point0 _ _ Hp) as [? Hok]. split; [done|].
    destruct pc' as [n|n|prev n]; simpl in *; rw ?Hlive ?not_elem_of_cons in Hok.
    1-2: naive_solver.
    destruct Hok as (i & b & b' & Hci & Hb & ? & ? & ? & Hl). exists i, b, b'. split_and!; try done.
    destruct (decide (i = c)) as [->|]; [|lia]. simplify_eq. specialize (Hl t Ht). lia.
  - rw Hlive in wi_nodup0. by apply NoDup_cons in wi_nodup0 as [_ ?].
  - by exists a'.
  - intros i e Hi' He. destruct wi_tail0 as (a1 & Ha1 & Hk1). simplify_eq.
    assert (e.1 = wtail q -> latest (wmem q) (LNext e.1) (wviews q Consumer (LNext e.1))) as Htail.
    { intros -> t' Ht'. specialize (Hlat t' Ht'). lia. }
    destruct (decide (i = c)) as [->|Hne]; simplify_eq.
    + split; [|by intros _; apply Htail]. by destruct Hk1 as (_ & _ & ?).
    + destruct (wi_dead0 i e ltac:(lia) He) as [Hd Hl]. split; [done|]. intros Hnl.
      destruct (decide (e.1 = wtail q)) as [E|E]; [by apply Htail|]. apply Hl. rw Hlive. by apply not_elem_of_cons.
  - intros j b Hj. apply wi_stub0. lia.
  - rw Hrs (take_S_r _ _ _ Hc) fmap_app filter_app wi_popped0 //.
Qed.

(** [new Completion]. *)
Lemma weak_inv_alloc q ch c t n d x :
  weak_inv q ch c -> wpushing q (Producer t) = None -> n <> stub_ -> wgiven q !! n = None ->
  weak_inv (log_given n d (put (Producer t)
    (add (LData n) 1 (mkMsg (Payload d) x) (wmem q), seen (LData n) 1 (wviews q (Producer t))) (Some (Ready n)) q)) ch c.
Proof.
  intros Hi Hp Hn Hg. pose proof Hi as []. destruct (wi_fresh0 n Hn Hg) as [Hl0 Hd0].
  pose proof (views_grow (wviews q) (Producer t) _ (seen_le (LData n) 1 (wviews q (Producer t)))) as Hv.
  assert (n ∉ ch.*1) as Hnc.
  { intros Hin. destruct (wi_given0 n Hin Hn). congruence. }
  assert (n ∉ live ch c) as Hnl.
  { intros Hin. apply Hnc. rw fmap_drop in Hin. apply list_elem_of_lookup in Hin as [k Hk]. rw lookup_drop in Hk.
    by eapply list_elem_of_lookup_2. }
  assert (forall m, is_Some (wgiven q !! m) -> is_Some (<[n := d]> (wgiven q) !! m)) as Hgrow.
  { intros m Hm. rw lookup_insert. case_decide; [done|exact Hm]. }
  assert (forall p pc, wpushing q p = Some pc -> point_node pc <> n) as Hother.
  { intros p pc Hp' E. destruct (wi_point0 _ _ Hp') as [[_ Ho] _]. rw E in Ho. destruct (Ho Hn) as ([? ?] & _). congruence. }
  constructor; simpl; try done.
  - intros i e e' Hi' He He'. destruct (wi_linked0 i e e' Hi' He He') as [?|(p & Hp')]; [by left|].
    right. exists p. rw fn_lookup_insert_ne //. congruence.
  - intros p pc [[-> [= <-]]|[Hne Hp']]%fn_insert_some.
    + rw fn_lookup_insert. split.
      * split; [done|]. intros _. rw lookup_insert_eq. split_and!; [done|apply seen_at|done].
      * split; [done|]. intros t' Ht'. specialize (Hl0 t' Ht'). lia.
    + rw fn_lookup_insert_ne //. destruct (wi_point0 _ _ Hp') as [[? Ho] Hok]. split; [|by destruct pc].
      split; [done|]. intros Hs. destruct (Ho Hs) as (? & ? & ?). split_and!; auto.
  - intros p p' pc pc' [[-> [= <-]]|[? H1]]%fn_insert_some [[-> [= <-]]|[? H2]]%fn_insert_some E; [done|..].
    + by destruct (Hother _ _ H2).
    + by destruct (Hother _ _ H1).
    + by eapply wi_uniq0.
  - intros m Hm Hs. by apply Hgrow, wi_given0.
  - intros m Hm Hgm. rw lookup_insert in Hgm. case_decide; [done|]. destruct (wi_fresh0 m Hm Hgm) as [? ?].
    split; [done|]. intros t'. rw add_ne //. congruence.
  - intros m e Hgm. rw lookup_insert in Hgm. case_decide; simplify_eq.
    + split; [eexists; by rw add_at|]. intros t' [[_ ->]|Hold]%add_not_none; [done|]. by rw Hd0 in Hold.
    + destruct (wi_data0 m e Hgm). split; [by apply holds_add|]. apply latest_ne; [congruence|done].
Qed.

(** The consumer finds its node at [head_]: the stub is not in the queue, and
    no store to it is unknown to the consumer. *)
Lemma weak_inv_insert q ch c t m tail :
  weak_inv q ch c -> wpopper q = WCheckHead tail ->
  wviews q Consumer LHead <= t -> wmem q LHead t = Some m -> m_val m = Ptr (Some tail) ->
  weak_inv (set_pop (wtail q) (WPush tail)
    (put Consumer (wmem q, wviews q Consumer) (Some (Ready stub_)) q)) ch c.
Proof.
  intros Hi Hpc Ht Hm Hval. pose proof Hi as []. pose proof wi_popper0 as Hpop. unfold popper_ok in Hpop. rw Hpc in Hpop.
  destruct Hpop as (Hno & -> & Hs). destruct wi_tail0 as (a & Hc & Hk).
  assert (t = c) as ->.
  { pose proof (wi_head0 t) as Hh. unfold heads in Hh. destruct (ch !! t) as [e|] eqn:Et; [|congruence].
    destruct Hh as (m' & ? & ? & _). simplify_eq. rw Hval in H0. injection H0 as E.
    symmetry. eapply (live_index ch c c t (wtail q, a) e); eauto. destruct Hk as (? & _). lia. }
  assert (stub_ ∉ live ch c) as Hnl.
  { intros ((e & b) & E & Hin)%list_elem_of_fmap. simpl in E. subst e. apply list_elem_of_lookup in Hin as [k Hk'].
    rw lookup_drop in Hk'. pose proof (wi_stub0 (c + k) b ltac:(lia) Hk').
    assert (k = 0) as -> by lia. rw Nat.add_0_r in Hk'. congruence. }
  assert (latest (wmem q) (LNext stub_) (wviews q Consumer (LNext stub_))) as Hlat.
  { destruct wi_zero0 as [b Hb]. destruct (decide (c = 0)) as [->|]; [by destruct Hnl; eapply (live_elem ch 0 0 (stub_, b))|].
    apply (wi_dead0 0 (stub_, b)); [lia|done..]. }
  assert (<[Consumer := wviews q Consumer]> (wviews q) Consumer = wviews q Consumer) as Ev by apply fn_lookup_insert.
  constructor; simpl; rw ?Ev; try done; [| | |by exists a].
  - intros i e e' Hi' He He'. destruct (wi_linked0 i e e' Hi' He He') as [?|(p & Hp')]; [by left|].
    right. exists p. rw fn_lookup_insert_ne //. congruence.
  - intros p pc [[-> [= <-]]|[Hne Hp']]%fn_insert_some; [|rw fn_lookup_insert_ne //; by apply wi_point0].
    rw Ev. by split.
  - intros p p' pc pc' [[-> [= <-]]|[? H1]]%fn_insert_some [[-> [= <-]]|[? H2]]%fn_insert_some E; [done|..].
    + destruct (wi_point0 _ _ H2) as [[Ho _] _]. by rw (proj1 Ho).
    + destruct (wi_point0 _ _ H1) as [[Ho _] _]. by rw (proj1 Ho).
    + by eapply wi_uniq0.
Qed.

(** *** The steps *)

Lemma load_inv mem v l t x w :
  load_acquire mem v l t = Some (x, w) ->
  exists m, mem l t = Some m /\ m_val m = x /\ v l <= t /\ vle v w /\ t <= w l /\ vle (m_view m) w.
Proof.
  unfold load_acquire. repeat case_match; intros; simplify_eq. eexists. split_and!; try done.
  - etrans; [apply seen_le|apply join_le_l].
  - etrans; [apply (seen_at l t v)|apply join_le_l].
  - apply join_le_r.
Qed.

Lemma store_inv pub mem v l t x mv :
  store_at pub mem v l t x = Some mv ->
  v l < t /\ mem l t = None /\ mv = (add l t (mkMsg x (seen l t pub)) mem, seen l t v).
Proof. unfold store_at. repeat case_match; intros; by simplify_eq. Qed.

(** What the consumer reads in the [mpsc_next] of its node. *)
Lemma consumer_next q ch c t x q1 :
  weak_inv q ch c -> consumer_load (LNext (wtail q)) t q = Some (x, q1) ->
  (x = None /\ weak_inv q1 ch c /\ exists v, q1 = set_view Consumer v q)
  \/ exists v nx, x = Some nx /\ nx <> wtail q /\ q1 = set_view Consumer v q /\ forall pc rs,
     let q' := mkWeak (wmem q1) (wviews q1) (wpushing q1) nx pc (wgiven q1) (wpushed q1) rs in
     popper_ok q' -> wpopped q' = wpopped q ++ filter not_stub [wtail q] -> weak_inv q' ch (S c).
Proof.
  intros Hi. unfold consumer_load. destruct (load_acquire _ _ _ _) as [[y v]|] eqn:E; [|done].
  apply load_inv in E as (m & Hm & <- & Hle & Hv & Htv & Hmv).
  destruct (m_val m) as [y|] eqn:Ey; [|done]. intros [= <- <-].
  pose proof (weak_inv_view q ch c Consumer v Hi Hv) as Hi1. pose proof Hi as [].
  destruct wi_tail0 as (a & Hc & _ & Ha & _). simpl in Ha.
  destruct (wi_links0 _ _ (le_n c) Hc) as ((m0 & Hm0 & Hnull) & Hl & _). simpl in *.
  destruct (decide (t = a)) as [->|Hne].
  { left. simplify_eq. rw Ey in Hnull. simplify_eq. split; [done|]. split; [done|]. by exists v. }
  destruct (Hl t m Hm ltac:(lia)) as ([nx a'] & Hnx & Hval & Hk). rw Ey in Hval. simpl in Hval. simplify_eq.
  right. exists v, nx. split; [done|]. split.
  { intros ->. pose proof (live_index _ _ _ _ _ _ wi_nodup0 (le_n c) (Nat.le_succ_diag_r c) Hc Hnx eq_refl). lia. }
  split; [done|]. intros pc rs Hpop Hrs.
  eapply (weak_inv_advance (set_view Consumer v q) ch c a nx a' t pc rs); simpl; try done.
  - rw fn_lookup_insert. by eapply knows_le.
  - congruence.
  - lia.
Qed.

(** Lines 39 to 42, or on to line 45. *)
Lemma weak_inv_after_load q ch c t x q1 :
  weak_inv q ch c -> wpushing q Consumer = None -> wtail q <> stub_ ->
  consumer_load (LNext (wtail q)) t q = Some (x, q1) ->
  exists c', weak_inv (weak_after_load (wtail q) x q1) ch c'.
Proof.
  intros Hi Hno Hs Hl. destruct (consumer_next _ _ _ _ _ _ Hi Hl) as [(-> & Hi1 & v & ->)|(v & nx & -> & Hnx & -> & Hadv)].
  - exists c. by apply weak_inv_point.
  - exists (S c). apply (Hadv WIdle (wresults q ++ [Some (wtail q)])); [done|].
    unfold wpopped. simpl. by rw omap_app filter_cons_True.
Qed.

Lemma weak_inv_pop q ch c t q' : weak_inv q ch c -> weak_pop t q = Some q' -> exists c', weak_inv q' ch c'.
Proof.
  intros Hi. pose proof (wi_popper _ _ _ Hi) as Hpop. unfold popper_ok in Hpop. unfold weak_pop, mbind, option_bind.
  destruct (wpopper q) as [|tail|tail|tail|tail] eqn:Epc; [| | |done|].
  - destruct (consumer_load _ _ _) as [[x q1]|] eqn:El; [|done]. intros [= <-].
    case_decide as Es; [|by eapply weak_inv_after_load].
    destruct (consumer_next _ _ _ _ _ _ Hi El) as [(-> & Hi1 & v & ->)|(v & nx & -> & Hnx & -> & Hadv)].
    + exists c. by apply (weak_inv_none (set_view Consumer v q)).
    + exists (S c). apply (Hadv (WSkipped nx) (wresults q)); [by rw Es in Hnx|].
      by rw filter_cons_False ?app_nil_r; [rw Es; intros []|].
  - destruct Hpop as (Hno & -> & Hs). destruct (consumer_load _ _ _) as [[x q1]|] eqn:El; [|done]. intros [= <-].
    by eapply weak_inv_after_load.
  - destruct Hpop as (Hno & -> & Hs). unfold consumer_load.
    destruct (load_acquire _ _ _ _) as [[[x|] v]|] eqn:El; try done. intros [= <-].
    apply load_inv in El as (m & Hm & Hval & Hle & Hv & _). exists c. case_decide as Ex.
    + apply (weak_inv_none (set_view Consumer v q)); [by apply weak_inv_view|done].
    + subst x. pose proof (weak_inv_insert q ch c t m _ Hi Epc Hle Hm Hval) as Hi1.
      apply (weak_inv_views _ _ _ (wviews (set_pop (wtail q) (WPush (wtail q)) (put Consumer
        (wmem q, wviews (set_view Consumer v q) Consumer) (Some (Ready stub_)) (set_view Consumer v q)))) Hi1).
      intros p. simpl. destruct (decide (p = Consumer)) as [->|Hne]; by rw ?fn_lookup_insert ?fn_lookup_insert_ne.
  - destruct Hpop as (Hno & -> & Hs). destruct (consumer_load _ _ _) as [[x q1]|] eqn:El; [|done]. intros [= <-].
    destruct (consumer_next _ _ _ _ _ _ Hi El) as [(-> & Hi1 & v & ->)|(v & nx & -> & Hnx & -> & Hadv)].
    + exists c. by apply (weak_inv_none (set_view Consumer v q)).
    + exists (S c). apply (Hadv WIdle (wresults q ++ [Some (wtail q)])); [done|].
      unfold wpopped. simpl. by rw omap_app filter_cons_True.
Qed.

Lemma weak_inv_step e q ch c q' :
  weak_inv q ch c -> weak_step e q = Some q' -> exists ch' c', weak_inv q' ch' c'.
Proof.
  intros Hi. destruct e as [t n d|p a|p i|p b|t|p p']; simpl.
  - unfold weak_alloc. destruct (wpushing q (Producer t)) eqn:Ep; [done|]. case_decide as Hd; [|done].
    destruct (store_relaxed _ _ _ _ _) as [mv|] eqn:Es; simpl; intros; simplify_eq.
    apply store_inv in Es as (_ & _ & ->). destruct Hd as [? ?]. exists ch, c. by apply weak_inv_alloc.
  - unfold weak_store. destruct (wpushing q p) as [[n|n|prev n]|] eqn:Ep; try done.
    destruct (store_relaxed _ _ _ _ _) as [mv|] eqn:Es; simpl; intros; simplify_eq.
    apply store_inv in Es as (? & ? & ->). exists ch, c. by apply weak_inv_store.
  - unfold weak_exchange. destruct (wpushing q p) as [[n|n|prev n]|] eqn:Ep; try done.
    destruct (exchange_acq_rel _ _ _ _ _) as [[[[prev|]|] mv]|] eqn:Ex; intros; simplify_eq.
    destruct (weak_inv_exchange _ _ _ _ _ _ _ _ Hi Ep Ex) as [a Ha]. by exists (ch ++ [(n, a)]), c.
  - unfold weak_link. destruct (wpushing q p) as [[n|n|prev n]|] eqn:Ep; try done.
    destruct (store_release _ _ _ _ _) as [mv|] eqn:Es; simpl; intros; simplify_eq.
    apply store_inv in Es as (? & ? & ->). exists ch, c.
    pose proof (weak_inv_link q ch c p prev n b) as Hl. pose proof (wi_popper _ _ _ Hi) as Hpop. unfold popper_ok in *.
    destruct p as [t|]; [by apply (Hl (wpopper q))|].
    rw Ep in Hpop. destruct (wpopper q) as [|?|?|tl|?] eqn:Epc; [done|by destruct Hpop..| |by destruct Hpop].
    destruct Hpop as (_ & -> & ?). by apply (Hl (WRetry (wtail q))).
  - intros Hp. destruct (weak_inv_pop _ _ _ _ _ Hi Hp) as [c' ?]. by exists ch, c'.
  - intros [= <-]. exists ch, c. apply weak_inv_view; [done|]. apply join_le_l.
Qed.

Lemma weak_reachable_inv q : weak_reachable q -> exists ch c, weak_inv q ch c.
Proof.
  intros [es Hr]. revert Hr. apply (run_events_invariant weak_step (fun q => exists ch c, weak_inv q ch c)).
  - intros e q1 q2 (ch & c & Hi) Hs. by eapply weak_inv_step.
  - exists [(stub_, 0)], 0. apply weak_inv_init.
Qed.

(** ** Views and messages

    A view points to messages, a message is known to a party. *)

Definition closed (mem : memory) (v : view) : Prop := forall l, v l = 0 \/ mem l (v l) <> None.

Record memory_inv (mem : memory) (vs : party -> view) : Prop := {
  mi_zero : mem LHead 0 <> None /\ forall n, mem (LNext n) 0 <> None;
  mi_view : forall p, closed mem (vs p);
  mi_message : forall l t m, mem l t = Some m -> closed mem (m_view m);
  mi_written : forall l t, mem l t <> None -> exists p, t <= vs p l
}.

Lemma closed_seen mem v l t : closed mem v -> mem l t <> None -> closed mem (seen l t v).
Proof.
  intros Hv Ht l'. unfold seen. case_decide as E; [|done]. subst l'.
  destruct (Nat.max_spec t (v l)) as [[_ ->]|[_ ->]]; [done|by right].
Qed.

Lemma closed_join mem v w : closed mem v -> closed mem w -> closed mem (join v w).
Proof. intros Hv Hw l. unfold join. by destruct (Nat.max_spec (v l) (w l)) as [[_ ->]|[_ ->]]. Qed.

Lemma add_keeps l t m mem l' t' : mem l' t' <> None -> add l t m mem l' t' <> None.
Proof. intros H. unfold add. by case_decide. Qed.

Lemma closed_add mem v l t m : closed mem v -> closed (add l t m mem) v.
Proof. intros H l'. destruct (H l'); [by left|right]. by apply add_keeps. Qed.

Lemma memory_inv_view mem vs p v :
  memory_inv mem vs -> vle (vs p) v -> closed mem v -> memory_inv mem (<[p := v]> vs).
Proof.
  intros [] Hle Hv. constructor; try done.
  - intros p'. destruct (decide (p = p')) as [->|]; by rw ?fn_lookup_insert ?fn_lookup_insert_ne.
  - intros l t Ht. destruct (mi_written0 l t Ht) as [p' Hp']. exists p'. etrans; [exact Hp'|]. by apply views_grow.
Qed.

Lemma memory_inv_write mem vs p v l t x w :
  memory_inv mem vs -> vle (vs p) v -> t <= v l ->
  closed (add l t (mkMsg x w) mem) v -> closed (add l t (mkMsg x w) mem) w -> mem l t = None ->
  memory_inv (add l t (mkMsg x w) mem) (<[p := v]> vs).
Proof.
  intros [[Hz1 Hz2] Hview Hmsg Hwr] Hle Ht Hv Hw Hn. constructor.
  - split; [|intros n]; by apply add_keeps.
  - intros p'. destruct (decide (p = p')) as [->|Hne]; [by rw fn_lookup_insert|].
    rw fn_lookup_insert_ne //. by apply closed_add.
  - intros l' t' m [(_ & _ & ->)|Hm]%add_some; [done|]. apply closed_add. by eapply Hmsg.
  - intros l' t' [[-> ->]|Hm]%add_not_none; [exists p; by rw fn_lookup_insert|].
    destruct (Hwr l' t' Hm) as [p' Hp']. exists p'. etrans; [exact Hp'|]. by apply views_grow.
Qed.

Lemma memory_inv_load mem vs p l t x v :
  memory_inv mem vs -> load_acquire mem (vs p) l t = Some (x, v) -> closed mem v /\ vle (vs p) v.
Proof.
  intros [] Hl. pose proof (load_inv _ _ _ _ _ _ Hl) as (m & Hm & _ & _ & Hle & _). split; [|done].
  unfold load_acquire in Hl. repeat case_match; simplify_eq. apply closed_join; [|by eapply mi_message0].
  apply closed_seen; [done|congruence].
Qed.

Lemma memory_inv_store pub mem vs p l t x mv :
  memory_inv mem vs -> closed mem pub -> store_at pub mem (vs p) l t x = Some mv ->
  memory_inv mv.1 (<[p := mv.2]> vs).
Proof.
  intros Hi Hp (_ & Hn & ->)%store_inv. simpl. apply memory_inv_write; [done|apply seen_le|apply seen_at|..|done].
  all: apply closed_seen; [|by rw add_at]; apply closed_add; by try apply Hi.
Qed.

Lemma memory_inv_exchange mem vs p l t x old mv :
  memory_inv mem vs -> exchange_acq_rel mem (vs p) l t x = Some (old, mv) ->
  memory_inv mv.1 (<[p := mv.2]> vs).
Proof.
  intros Hi He. unfold exchange_acq_rel in He. destruct (load_acquire _ _ _ _) as [[y v]|] eqn:El; [|done].
  destruct (memory_inv_load _ _ _ _ _ _ _ Hi El) as [Hc Hle]. case_match; simplify_eq/=.
  apply memory_inv_write; [done|etrans; [exact Hle|apply seen_le]|apply seen_at|..|done].
  all: apply closed_seen; [by apply closed_add|by rw add_at].
Qed.

Lemma memory_inv_step e q q' :
  memory_inv (wmem q) (wviews q) -> weak_step e q = Some q' -> memory_inv (wmem q') (wviews q').
Proof.
  intros Hi. assert (closed (wmem q) view0) as H0 by (by left).
  destruct e as [t n d|p a|p i|p b|t|p p']; simpl.
  - unfold weak_alloc. repeat case_match; try done. destruct (store_relaxed _ _ _ _ _) as [mv|] eqn:Es; simpl; [|done].
    intros [= <-]. by eapply memory_inv_store.
  - unfold weak_store. repeat case_match; try done. destruct (store_relaxed _ _ _ _ _) as [mv|] eqn:Es; simpl; [|done].
    intros [= <-]. by eapply memory_inv_store.
  - unfold weak_exchange. repeat case_match; try done. intros [= <-]. by eapply memory_inv_exchange.
  - unfold weak_link. destruct (wpushing q p) as [[n|n|prev n]|]; try done. destruct (store_release _ _ _ _ _) as [mv|] eqn:Es; simpl; [|done].
    intros [= <-]. assert (memory_inv mv.1 (<[p := mv.2]> (wviews q))) by (eapply memory_inv_store; [done|apply Hi|done]).
    by repeat case_match.
  - unfold weak_pop, weak_after_load, mbind, option_bind, consumer_load.
    assert (forall l x v, load_acquire (wmem q) (wviews q Consumer) l t = Some (x, v) ->
      memory_inv (wmem q) (<[Consumer := v]> (wviews q))) as Hl.
    { intros l x v Hl. destruct (memory_inv_load _ _ _ _ _ _ _ Hi Hl). by apply memory_inv_view. }
    repeat case_match; intros; simplify_eq; simpl; eauto.
    all: apply memory_inv_view; [eauto|done|]; rw fn_lookup_insert; by eapply memory_inv_load.
  - intros [= <-]. simpl. apply memory_inv_view; [done|apply join_le_l|]. apply closed_join; apply Hi.
Qed.

Lemma weak_reachable_memory q : weak_reachable q -> memory_inv (wmem q) (wviews q).
Proof.
  intros [es Hr]. revert Hr. apply (run_events_invariant weak_step (fun q => memory_inv (wmem q) (wviews q))).
  - intros e q1 q2. apply memory_inv_step.
  - constructor; [done|by left|..].
    + intros l [|t] m Hm l'; left; destruct l; by simplify_eq/=.
    + intros l [|t]; [exists Consumer; apply Nat.le_0_l|]. by destruct l.
Qed.

Lemma inv_contents q ch c : weak_inv q ch c -> wcontents q = filter not_stub (live ch c).
Proof.
  intros []. unfold wcontents. rw wi_pushed0 wi_popped0 -{2}(take_drop c ch) fmap_app filter_app. by rw drop_app_length.
Qed.

Lemma inv_order q ch c : weak_inv q ch c -> wpushed q = wpopped q ++ wcontents q.
Proof. intros Hi. rw (inv_contents _ _ _ Hi). destruct Hi. by rw wi_pushed0 wi_popped0 -filter_app -fmap_app take_drop. Qed.

(** ** First in, first out *)

Definition point_nodes (pc : push_point) : list node :=
  match pc with Ready n | Stored n => [n] | Exchanged prev n => [prev; n] end.

(** A node that [pop] has returned belongs to the consumer: its view covers
    the payload written before [push], which was the only write to it, and
    every store ever made to the node's [mpsc_next], and no push under way has
    anything left to do with the node.  Reading the payload and deleting the
    node are therefore ordered after all other accesses to it. *)
Definition handed_over (q : weak) (n : node) : Prop :=
  exists d, wgiven q !! n = Some d
  /\ holds (wmem q) (LData n) 1 (Payload d) /\ 1 <= wviews q Consumer (LData n)
  /\ latest (wmem q) (LData n) (wviews q Consumer (LData n))
  /\ latest (wmem q) (LNext n) (wviews q Consumer (LNext n))
  /\ forall p pc, wpushing q p = Some pc -> n ∉ point_nodes pc.

Lemma weak_handover q ch c n : weak_inv q ch c -> n ∈ wpopped q -> handed_over q n.
Proof.
  intros Hi Hin. pose proof Hi as [].
  rw wi_popped0 in Hin. apply list_elem_of_filter in Hin as [Hs Hin].
  apply list_elem_of_fmap in Hin as ([n' a] & -> & Hin). apply list_elem_of_lookup in Hin as [i He]. simpl in *.
  apply lookup_take_Some in He as [He Hic].
  assert (n' ∈ ch.*1) as Hch by (apply list_elem_of_fmap; exists (n', a); split; [done|]; by eapply list_elem_of_lookup_2).
  destruct (wi_given0 n' Hch Hs) as [d Hd].
  assert (n' ∉ live ch c) as Hnl.
  { intros Hlive. rw -(take_drop c ch) fmap_app filter_app in wi_once0. apply NoDup_app in wi_once0 as (_ & Hdis & _).
    apply (Hdis n'); apply list_elem_of_filter; (split; [done|]); [|done].
    apply list_elem_of_fmap. exists (n', a). split; [done|]. eapply list_elem_of_lookup_2. by apply lookup_take_Some. }
  destruct (wi_dead0 _ _ Hic He) as [[?|Hdata] Hlat]; [done|]. destruct (wi_data0 _ _ Hd) as [? Hl1]. simpl in *.
  exists d. split_and!; try done; [by intros t Ht; specialize (Hl1 t Ht); lia|by apply Hlat|].
  intros p pc Hp. destruct (wi_point0 _ _ Hp) as [[_ Ho] Hok].
  destruct pc as [x|x|prev x]; simpl in *; rw ?not_elem_of_cons.
  1-2: split; [intros ->; by destruct (Ho Hs) as (_ & _ & ?)|by apply not_elem_of_nil].
  destruct Hok as (k & b & b' & Hk & Hb & Hb' & _). split_and!; [intros ->..|by apply not_elem_of_nil].
  - apply Hnl. apply (live_elem _ _ _ _ Hk Hb).
  - apply Hnl. apply (live_elem _ _ (S k) (x, b')); [lia|done].
Qed.

(** C5: the queue keeps its order under release/acquire memory, and hands its
    nodes over.  In whatever way the accesses of the producers and of the
    consumer interleave, and whatever message each load reads that its
    thread's view admits, the nodes [pop] has returned are the first of those
    exchanged onto [head_], in that order, none of them twice; and each of
    them, with the payload it was given, is handed over: no access to it by a
    producer is concurrent with the consumer's, or still to come. *)
Theorem weak_fifo q :
  weak_reachable q ->
  wpushed q = wpopped q ++ wcontents q /\ NoDup (wpushed q) /\ Forall (handed_over q) (wpopped q).
Proof.
  intros (ch & c & Hi)%weak_reachable_inv. split; [by eapply inv_order|]. split.
  - rw (wi_pushed _ _ _ Hi). by destruct Hi.
  - apply Forall_forall. intros n. by eapply weak_handover.
Qed.

(** ** Pops without producers

    The consumer's own events, and a consumer that knows all that was written
    while no producer is in [push]: the situation of the channel's destructor,
    which drains the queue after joining the thread that fills it. *)

Definition consumer_event (e : weak_event) : bool :=
  match e with
  | WStore Consumer _ | WExchange Consumer _ | WLink Consumer _ | WPop _ => true
  | _ => false
  end.

Definition synced (q : weak) : Prop :=
  (forall t, wpushing q (Producer t) = None) /\ forall l, latest (wmem q) l (wviews q Consumer l).

Definition head_is (q : weak) (n : node) : Prop :=
  exists i, holds (wmem q) LHead i (Ptr (Some n)) /\ latest (wmem q) LHead i.

(** What the consumer has found out on its way. *)
Definition pop_knows (q : weak) : Prop :=
  match wpopper q with
  | WIdle | WSkipped _ => True
  | WCheckHead tail => head_is q tail
  | WPush tail =>
    match wpushing q Consumer with
    | Some (Exchanged prev n) => prev = tail /\ n = stub_
    | _ => head_is q tail
    end
  | WRetry tail => exists t, holds (wmem q) (LNext tail) t (Ptr (Some stub_)) /\ latest (wmem q) (LNext tail) t
  end.

Lemma latest_seen mem l t m v l' : latest mem l' (v l') -> latest (add l t m mem) l' (seen l t v l').
Proof.
  intros H t' [[-> ->]|Ht]%add_not_none; [apply seen_at|]. specialize (H t' Ht). pose proof (seen_le l t v l'). lia.
Qed.

Lemma latest_le mem l t t' : latest mem l t -> t <= t' -> latest mem l t'.
Proof. intros H Hle u Hu. specialize (H u Hu). lia. Qed.

(** The consumer reads the last message. *)
Lemma synced_load q l t x q1 t0 y :
  synced q -> consumer_load l t q = Some (x, q1) ->
  holds (wmem q) l t0 (Ptr y) -> latest (wmem q) l t0 -> x = y.
Proof.
  intros [_ Hs] Hl (m & Hm & Hy) Hlat. unfold consumer_load in Hl.
  destruct (load_acquire _ _ _ _) as [[[x'|] v]|] eqn:E; simplify_eq.
  apply load_inv in E as (m' & Hm' & Hx & Hle & _).
  pose proof (Hlat t ltac:(congruence)). pose proof (Hs l t0 ltac:(congruence)). assert (t = t0) as -> by lia. congruence.
Qed.

(** Without a successor its node is the last one. *)
Lemma synced_last q ch c t q1 :
  weak_inv q ch c -> synced q -> wpushing q Consumer = None ->
  consumer_load (LNext (wtail q)) t q = Some (None, q1) ->
  head_is q (wtail q) /\ live ch c = [wtail q].
Proof.
  intros [] [Hp Hs] Hno Hl. destruct wi_tail0 as (a & Hc & _). unfold consumer_load in Hl.
  destruct (load_acquire _ _ _ _) as [[[x'|] v]|] eqn:E; simplify_eq. apply load_inv in E as (m & Hm & Hx & Hle & _).
  assert (ch !! S c = None) as Hend.
  { destruct (ch !! S c) as [e'|] eqn:E; [|done]. destruct (wi_linked0 _ _ _ (le_n c) Hc E) as [(u & Hu & Hmu)|([u|] & Hu)].
    - simpl in *. specialize (Hs _ _ Hmu). destruct (wi_links0 _ _ (le_n c) Hc) as (_ & Hlk & _).
      destruct (Hlk t m Hm) as (e & _ & He & _); [simpl; lia|]. congruence.
    - by rw Hp in Hu.
    - by rw Hno in Hu. }
  pose proof (wi_head0 c) as Hh. unfold heads in Hh. rw Hc in Hh. destruct Hh as (mh & Hmh & Hvh & _). split.
  - exists c. split; [by exists mh|]. intros i Hi. specialize (wi_head0 i). unfold heads in wi_head0. destruct (ch !! i) eqn:Ei; [|done].
    apply lookup_lt_Some in Ei. apply lookup_ge_None in Hend. lia.
  - rw (live_cons _ _ _ Hc). f_equal. rw drop_ge //. by apply lookup_ge_None.
Qed.

Lemma contents_tail q ch c : weak_inv q ch c -> wtail q <> stub_ -> head (wcontents q) = Some (wtail q).
Proof.
  intros Hi Hs. rw (inv_contents _ _ _ Hi). destruct (wi_tail _ _ _ Hi) as (a & Hc & _).
  by rw (live_cons _ _ _ Hc) filter_cons_True.
Qed.

Lemma weak_contents_results q q' : wpushed q' = wpushed q -> wresults q' = wresults q -> wcontents q' = wcontents q.
Proof. intros H1 H2. unfold wcontents, wpopped. by rw H1 H2. Qed.

(** A step of [pop] goes on with the same queue before it, or ends the call
    with the first node. *)
Definition pop_outcome_weak (q q' : weak) : Prop :=
  (wresults q' = wresults q /\ wcontents q' = wcontents q /\ pop_knows q')
  \/ (wresults q' = wresults q ++ [head (wcontents q)] /\ wpushed q' = wpushed q /\ wpopper q' = WIdle).

Lemma outcome_after_load q ch c t x q1 :
  weak_inv q ch c -> synced q -> wpushing q Consumer = None -> wtail q <> stub_ ->
  consumer_load (LNext (wtail q)) t q = Some (x, q1) ->
  pop_outcome_weak q (weak_after_load (wtail q) x q1).
Proof.
  intros Hi Hsy Hno Hs Hl. pose proof (consumer_next _ _ _ _ _ _ Hi Hl) as Hn.
  destruct x as [nx|]; simpl.
  - right. rw (contents_tail _ _ _ Hi Hs). by destruct Hn as [(? & _)|(v & ? & _ & _ & -> & _)].
  - left. destruct Hn as [(_ & _ & v & ->)|(? & ? & ? & _)]; [|done]. split_and!; [done|done|].
    by destruct (synced_last _ _ _ _ _ Hi Hsy Hno Hl) as [? _].
Qed.

Lemma outcome_pop q ch c t q' :
  weak_inv q ch c -> synced q -> pop_knows q -> weak_pop t q = Some q' -> pop_outcome_weak q q'.
Proof.
  intros Hi Hsy Hk. pose proof (wi_popper _ _ _ Hi) as Hpop. unfold popper_ok in Hpop. unfold pop_knows in Hk.
  unfold weak_pop, mbind, option_bind.
  destruct (wpopper q) as [|tail|tail|tail|tail] eqn:Epc; [| | |done|];
    (destruct (consumer_load _ _ _) as [[x q1]|] eqn:El; [|done]); intros [= <-].
  - case_decide as Es; [|by eapply outcome_after_load].
    destruct (consumer_next _ _ _ _ _ _ Hi El) as [(-> & _ & v & ->)|(v & nx & -> & _ & -> & _)].
    + right. split; [|done]. simpl. destruct (synced_last _ _ _ _ _ Hi Hsy Hpop El) as [_ Hlive].
      rw (inv_contents _ _ _ Hi) Hlive filter_cons_False //. rw Es. by intros [].
    + by left.
  - destruct Hpop as (Hno & -> & Hs). by eapply outcome_after_load.
  - destruct Hpop as (Hno & -> & Hs). destruct Hk as (i & Hh & Hlat).
    pose proof (synced_load _ _ _ _ _ _ _ Hsy El Hh Hlat) as ->. rw decide_False; [by intros []|]. left.
    unfold consumer_load in El. repeat case_match; simplify_eq. split_and!; [done..|].
    unfold pop_knows. simpl. rw fn_lookup_insert. by exists i.
  - destruct Hpop as (Hno & -> & Hs). destruct Hk as (i & Hh & Hlat).
    pose proof (synced_load _ _ _ _ _ _ _ Hsy El Hh Hlat) as ->. right.
    rw (contents_tail _ _ _ Hi Hs). unfold consumer_load in El. by repeat case_match; simplify_eq.
Qed.

(** The accesses of [push(&stub_)]. *)
Lemma outcome_push e q ch c q' :
  weak_inv q ch c -> synced q -> pop_knows q -> consumer_event e = true ->
  (forall t, e <> WPop t) -> weak_step e q = Some q' -> pop_outcome_weak q q'.
Proof.
  intros Hi Hsy Hk He Hne Hs. pose proof (wi_popper _ _ _ Hi) as Hpop. unfold popper_ok in Hpop. unfold pop_knows in Hk.
  left. destruct e as [|[|] a|[|] i|[|] b|t|]; try done; simpl in Hs; [..|by destruct (Hne t)].
  - unfold weak_store in Hs. destruct (wpushing q Consumer) as [[n|n|prev n]|] eqn:Ep; try done.
    destruct (store_relaxed _ _ _ _ _) as [mv|] eqn:Es; simplify_eq/=. apply store_inv in Es as (_ & Hn & ->).
    split_and!; [done..|]. unfold pop_knows. simpl.
    by destruct (wpopper q) as [|?|?|tail|?]; [|destruct Hpop..| |destruct Hpop].
  - unfold weak_exchange in Hs. destruct (wpushing q Consumer) as [[n|n|prev n]|] eqn:Ep; try done.
    destruct (exchange_acq_rel _ _ _ _ _) as [[[[prev|]|] mv]|] eqn:Ex; simplify_eq/=.
    destruct (wi_point _ _ _ Hi _ _ Ep) as [[Ho _] _]. pose proof (proj2 Ho eq_refl) as Hn. simpl in Hn. subst n.
    split_and!; [done|by apply weak_contents_results; [simpl; rw app_nil_r|]|].
    unfold pop_knows. simpl. destruct (wpopper q) as [|?|?|tail|?]; [done|by destruct Hpop..| |by destruct Hpop].
    apply exchange_inv in Ex as (m & Hm & Hv & Hno & _). destruct Hk as (j & (m' & Hm' & Hv') & Hlat). split; [|done].
    pose proof (Hlat i ltac:(congruence)). destruct (decide (i = j)) as [->|]; [congruence|].
    destruct (head_last _ _ _ _ _ Hi Hm Hno) as (Hlen & _). pose proof (wi_head _ _ _ Hi j) as Hj. unfold heads in Hj.
    rw lookup_ge_None_2 in Hj; [lia|]. congruence.
  - unfold weak_link in Hs. destruct (wpushing q Consumer) as [[n|n|prev n]|] eqn:Ep; try done.
    destruct (store_release _ _ _ _ _) as [mv|] eqn:Es; simplify_eq/=. apply store_inv in Es as (Hb & Hn & ->).
    destruct (wpopper q) as [|?|?|tail|?]; [done|by destruct Hpop..| |by destruct Hpop]. destruct Hk as [-> ->]. split_and!; [done..|].
    exists b. simpl. split; [eexists; by rw add_at|]. eapply latest_add; [|exact Hb]. apply Hsy.
Qed.

Lemma synced_step e q q' : synced q -> consumer_event e = true -> weak_step e q = Some q' -> synced q'.
Proof.
  intros [Hp Hs] He Hst. destruct e as [|[|] a|[|] i|[|] b|t|]; try done; simpl in Hst.
  - unfold weak_store in Hst. repeat case_match; try done.
    destruct (store_relaxed _ _ _ _ _) as [mv|] eqn:Es; simplify_eq/=. apply store_inv in Es as (_ & _ & ->).
    split; [done|]. intros l. simpl. rw fn_lookup_insert. by apply latest_seen.
  - unfold weak_exchange in Hst. repeat case_match; simplify_eq. split; [done|]. intros l. simpl. rw fn_lookup_insert.
    apply exchange_inv in H1 as (m & _ & _ & _ & Hle & _ & Hi & ->).
    intros t [[-> ->]|Ht]%add_not_none; [done|]. etrans; [by apply Hs|apply Hle].
  - unfold weak_link in Hst. destruct (wpushing q Consumer) as [[n|n|prev n]|]; try done.
    destruct (store_release _ _ _ _ _) as [mv|] eqn:Es; simplify_eq/=. apply store_inv in Es as (_ & _ & ->).
    assert (forall l, latest (add (LNext prev) b (mkMsg (Ptr (Some n)) (seen (LNext prev) b (wviews q Consumer))) (wmem q)) l
      ((<[Consumer := seen (LNext prev) b (wviews q Consumer)]> (wviews q)) Consumer l)).
    { intros l. rw fn_lookup_insert. by apply latest_seen. }
    by destruct (wpopper q).
  - assert (forall l x v, load_acquire (wmem q) (wviews q Consumer) l t = Some (x, v) ->
      forall l', latest (wmem q) l' ((<[Consumer := v]> (wviews q)) Consumer l')) as Hl.
    { intros l x v (_ & _ & _ & _ & Hle & _)%load_inv l'. rw fn_lookup_insert. by eapply latest_le. }
    unfold weak_pop, weak_after_load, mbind, option_bind, consumer_load in Hst.
    repeat case_match; simplify_eq; split; simpl; eauto. intros l'. rw fn_lookup_insert. eauto.
Qed.

Lemma outcome_step e q ch c q' :
  weak_inv q ch c -> synced q -> pop_knows q -> consumer_event e = true ->
  weak_step e q = Some q' -> pop_outcome_weak q q'.
Proof.
  intros Hi Hs Hk He Hst. destruct e; try done; try (by eapply outcome_push). by eapply outcome_pop.
Qed.

(** The nodes of a queue, and [nullptr] from then on. *)
Definition drained (k : nat) (l : list node) : list (option node) := take k ((Some <$> l) ++ replicate k None).

Lemma drained_cons k l : drained (S k) l = head l :: drained k (tail l).
Proof.
  unfold drained. destruct l as [|n l]; simpl; [done|]. f_equal. rw replicate_cons_app app_assoc take_app_le //.
  rw length_app length_replicate. lia.
Qed.

Lemma contents_popped q q' :
  wpushed q = wpopped q ++ wcontents q -> wpushed q' = wpushed q ->
  wresults q' = wresults q ++ [head (wcontents q)] -> wcontents q' = tail (wcontents q).
Proof.
  intros Ho Hp Hr. unfold wcontents at 1, wpopped. rw Hp Hr omap_app length_app. fold (wpopped q). rw Ho.
  destruct (wcontents q) as [|n l]; simpl; [by rw app_nil_r Nat.add_0_r drop_all|]. by rw -drop_drop drop_app_length.
Qed.

(** The results of the consumer's events are the nodes in order. *)
Lemma drain_run es q q' :
  (exists ch c, weak_inv q ch c) -> synced q -> pop_knows q -> forallb consumer_event es = true ->
  run_events weak_step es q = Some q' ->
  exists k, wresults q' = wresults q ++ drained k (wcontents q).
Proof.
  revert q. induction es as [|e es IH]; intros q (ch & c & Hi) Hs Hk He Hr; simpl in *.
  { simplify_eq. exists 0. by rw app_nil_r. }
  apply andb_prop in He as [He Hes]. destruct (weak_step e q) as [q1|] eqn:Est; [|done].
  pose proof (weak_inv_step _ _ _ _ _ Hi Est) as Hi1. pose proof (synced_step _ _ _ Hs He Est) as Hs1.
  destruct (outcome_step _ _ _ _ _ Hi Hs Hk He Est) as [(E1 & E2 & Hk1)|(E1 & Ep & Epc)].
  - rw -E1 -E2. by apply IH.
  - assert (pop_knows q1) as Hk1 by (unfold pop_knows; by rw Epc).
    destruct (IH q1 Hi1 Hs1 Hk1 Hes Hr) as [k E]. exists (S k).
    by rw E E1 (contents_popped q q1 (inv_order _ _ _ Hi) Ep E1) drained_cons -app_assoc.
Qed.

(** ** Progress

    No access has to wait: a message to read and a place to write exist. *)

Definition push_event (p : party) (pc : push_point) (x : nat) : weak_event :=
  match pc with Ready _ => WStore p x | Stored _ => WExchange p x | Exchanged _ _ => WLink p x end.

Lemma latest_free mem l t u : latest mem l t -> t < u -> mem l u = None.
Proof. intros H Hu. destruct (mem l u) eqn:E; [|done]. specialize (H u ltac:(congruence)). lia. Qed.

Lemma store_enabled pub mem v l t x : latest mem l t -> exists u mv, store_at pub mem v l u x = Some mv.
Proof.
  intros Hl. exists (S (Nat.max t (v l))). eexists. unfold store_at. rw decide_True; [lia|].
  by rw (latest_free mem l t _ Hl); [lia|].
Qed.

Lemma push_enabled q ch c p pc :
  weak_inv q ch c -> memory_inv (wmem q) (wviews q) -> wpushing q p = Some pc ->
  exists x, is_Some (weak_step (push_event p pc x) q).
Proof.
  intros Hi Hm Hp. destruct (wi_point _ _ _ Hi _ _ Hp) as [_ Hok].
  destruct pc as [n|n|prev n]; simpl in *; unfold weak_store, weak_exchange, weak_link; rw Hp.
  - destruct Hok as [_ Hl].
    destruct (store_enabled view0 _ (wviews q p) _ _ (Ptr None) Hl) as (x & mv & E). exists x. unfold store_relaxed. by rw E.
  - destruct (last ch) as [e|] eqn:El.
    2: { apply last_None in El as ->. by destruct (wi_zero _ _ _ Hi). }
    rw last_lookup in El. set (i := pred (length ch)) in *. apply lookup_lt_Some in El as Hlt.
    pose proof (wi_head _ _ _ Hi i) as Hh. unfold heads in Hh. rw El in Hh. destruct Hh as (m & Hmi & Hv & _).
    pose proof (wi_head _ _ _ Hi (S i)) as Hn. unfold heads in Hn. rw lookup_ge_None_2 in Hn; [lia|].
    exists i. unfold exchange_acq_rel, load_acquire. rw decide_True; [|rw Hmi Hn Hv; by eexists].
    destruct (mi_view _ _ Hm p LHead) as [->|Hs]; [lia|]. pose proof (wi_head _ _ _ Hi (wviews q p LHead)) as Hh. unfold heads in Hh.
    destruct (ch !! wviews q p LHead) eqn:E; [|done]. apply lookup_lt_Some in E. lia.
  - destruct Hok as (i & a & a' & _ & _ & _ & _ & _ & Hl).
    destruct (store_enabled (wviews q p) _ (wviews q p) _ _ (Ptr (Some n)) Hl) as (x & mv & E). exists x.
    unfold store_release. rw E. by eexists.
Qed.

(** The consumer can read where it stands. *)
Lemma load_enabled q l :
  memory_inv (wmem q) (wviews q) -> l = LHead \/ l = LNext (wtail q) ->
  exists m v, wmem q l (wviews q Consumer l) = Some m
  /\ load_acquire (wmem q) (wviews q Consumer) l (wviews q Consumer l) = Some (m_val m, v).
Proof.
  intros Hm Hl. destruct (wmem q l (wviews q Consumer l)) as [m|] eqn:E.
  - exists m. eexists. split; [done|]. unfold load_acquire. rw decide_True //. by rw E.
  - destruct (mi_view _ _ Hm Consumer l) as [H0|?]; [|done]. rw H0 in E.
    destruct (mi_zero _ _ Hm) as [Hh Hn]. destruct Hl as [->| ->]; [done|]. by destruct (Hn (wtail q)).
Qed.

Lemma head_enabled q ch c :
  weak_inv q ch c -> memory_inv (wmem q) (wviews q) ->
  exists x, consumer_load LHead (wviews q Consumer LHead) q = Some x.
Proof.
  intros Hi Hm. destruct (load_enabled q LHead Hm (or_introl eq_refl)) as (m & v & Hh & Hlh).
  unfold consumer_load. rw Hlh. pose proof (wi_head _ _ _ Hi (wviews q Consumer LHead)) as Hv. unfold heads in Hv.
  destruct (ch !! _); [|congruence]. destruct Hv as (m1 & Hm1 & Hv & _). simplify_eq. rw Hv. by eexists.
Qed.

Lemma next_enabled q ch c :
  weak_inv q ch c -> memory_inv (wmem q) (wviews q) ->
  exists x, consumer_load (LNext (wtail q)) (wviews q Consumer (LNext (wtail q))) q = Some x.
Proof.
  intros Hi Hm. destruct (load_enabled q (LNext (wtail q)) Hm (or_intror eq_refl)) as (m & v & Hn & Hl).
  unfold consumer_load. rw Hl. destruct (wi_tail _ _ _ Hi) as (a & Hc & _ & Ha & _). simpl in Ha.
  destruct (wi_links _ _ _ Hi _ _ (le_n c) Hc) as ((m0 & Hm0 & Hnull) & Hlk & _). simpl in *.
  destruct (decide (wviews q Consumer (LNext (wtail q)) = a)) as [E|E].
  - rw E in Hn. simplify_eq. rw Hnull. by eexists.
  - destruct (Hlk _ m Hn ltac:(lia)) as (e & _ & -> & _). by eexists.
Qed.

Lemma pop_enabled q ch c :
  weak_inv q ch c -> memory_inv (wmem q) (wviews q) -> wpushing q Consumer = None ->
  exists t, is_Some (weak_pop t q).
Proof.
  intros Hi Hm Hno. pose proof (wi_popper _ _ _ Hi) as Hpop. unfold popper_ok in Hpop. rw Hno in Hpop.
  destruct (head_enabled _ _ _ Hi Hm) as [[xh qh] Hh]. destruct (next_enabled _ _ _ Hi Hm) as [[xn qn] Hn].
  unfold weak_pop. destruct (wpopper q) as [|tail|tail|tail|tail]; [|destruct Hpop as (? & -> & _)..];
    first [done|exists (wviews q Consumer (LNext (wtail q))); rw Hn; by eexists
          |exists (wviews q Consumer LHead); rw Hh; by eexists].
Qed.

(** The accesses a pop has left at most. *)
Definition weak_rank (q : weak) : nat :=
  match wpopper q with
  | WIdle => 7 | WSkipped _ => 6 | WCheckHead _ => 5
  | WPush _ =>
    match wpushing q Consumer with Some (Ready _) => 4 | Some (Stored _) => 3 | _ => 2 end
  | WRetry _ => 1
  end.

Lemma rank_step e q q' :
  popper_ok q -> consumer_event e = true -> weak_step e q = Some q' ->
  (wresults q' = wresults q /\ weak_rank q' < weak_rank q) \/ exists r, wresults q' = wresults q ++ [r].
Proof.
  intros Hpop He Hst. unfold popper_ok in Hpop.
  destruct e as [|[|] a|[|] i|[|] b|t|]; try done; simpl in Hst.
  1-3: unfold weak_store, weak_exchange, weak_link in Hst; destruct (wpushing q Consumer) as [[n|n|prev n]|] eqn:Ep; try done;
    left; unfold weak_rank; rw Ep; destruct (wpopper q) as [|?|?|tail|?] eqn:Epc; [done|by destruct Hpop..| |by destruct Hpop].
  - destruct (store_relaxed _ _ _ _ _); simplify_eq/=. rw Epc. split; [done|lia].
  - destruct (exchange_acq_rel _ _ _ _ _) as [[[[prev|]|] mv]|]; simplify_eq/=. rw Epc. split; [done|lia].
  - destruct (store_release _ _ _ _ _); simplify_eq/=. split; [done|lia].
  - unfold weak_pop, weak_after_load, consumer_load, mbind, option_bind in Hst.
    destruct (wpopper q) eqn:Epc; repeat case_match; simplify_eq/=; try (right; by eexists); left; split; try done.
    all: unfold weak_rank; simpl; rw ?Epc; lia.
Qed.

(** From every reachable state the consumer alone brings its pop to an end. *)
Lemma pop_completes k q :
  weak_reachable q -> weak_rank q <= k ->
  exists es q' r, forallb consumer_event es = true /\ length es <= k
  /\ run_events weak_step es q = Some q' /\ wresults q' = wresults q ++ [r].
Proof.
  revert q. induction k as [|k IH]; intros q Hr Hk.
  { unfold weak_rank in Hk. repeat case_match; lia. }
  pose proof (weak_reachable_memory _ Hr) as Hm. pose proof Hr as (ch & c & Hi)%weak_reachable_inv.
  assert (exists e q1, consumer_event e = true /\ weak_step e q = Some q1) as (e & q1 & He & Hst).
  { destruct (wpushing q Consumer) as [pc|] eqn:Ep.
    - destruct (push_enabled _ _ _ _ _ Hi Hm Ep) as (x & q1 & Hs). exists (push_event Consumer pc x), q1. by destruct pc.
    - destruct (pop_enabled _ _ _ Hi Hm Ep) as (t & q1 & Hs). by exists (WPop t), q1. }
  destruct (rank_step _ _ _ (wi_popper _ _ _ Hi) He Hst) as [[Er Hlt]|[r Er]].
  - destruct (IH q1) as (es & q' & r & Hes & Hlen & Hrun & Hres); [|lia|].
    { destruct Hr as [es0 H0]. exists (es0 ++ [e]). rw run_events_app H0. simpl. by rw Hst. }
    exists (e :: es), q', r. simpl. rw He Hst Hes Hrun Hres Er. split_and!; [done|lia|done|done].
  - exists [e], q1, r. simpl. rw He Hst. split_and!; [done|lia|done|done].
Qed.


(** ** A run

    A producer pushes node 2 with payload 10; the first pop still reads the
    [nullptr] that the link overwrote and returns nothing, the second takes
    the node; meanwhile a second producer has exchanged node 3 and not linked
    it. *)
Definition stale_run : list weak_event :=
  [WAlloc 0 2 10; WStore (Producer 0) 1; WExchange (Producer 0) 0; WLink (Producer 0) 1;
   WPop 0; WPop 1; WPop 1; WPop 1;
   WStore Consumer 2; WAlloc 1 3 20; WStore (Producer 1) 1; WExchange (Producer 1) 1;
   WExchange Consumer 2; WLink Consumer 2; WLink (Producer 1) 2; WPop 2].

Definition after_run (es : list weak_event) : weak := default weak_init (run_events weak_step es weak_init).

Definition runs (es : list weak_event) : bool :=
  match run_events weak_step es weak_init with Some _ => true | None => false end.

Lemma after_run_eq es : runs es = true -> run_events weak_step es weak_init = Some (after_run es).
Proof. unfold runs, after_run. by destruct (run_events weak_step es weak_init). Qed.

Lemma after_run_reachable es : runs es = true -> weak_reachable (after_run es).
Proof. intros H%after_run_eq. by exists es. Qed.

Lemma weak_fifo_witness :
  wresults (after_run stale_run) = [None; Some 2%positive]
  /\ wpopped (after_run stale_run) ++ wcontents (after_run stale_run) = [2; 3]%positive
  /\ handed_over (after_run stale_run) 2.
Proof.
  assert (weak_reachable (after_run stale_run)) as Hr by (apply after_run_reachable; by vm_compute).
  destruct (weak_fifo (after_run stale_run) Hr) as (Ho & _ & Hh). split; [by vm_compute|]. split.
  - rw -Ho. by vm_compute.
  - assert (wpopped (after_run stale_run) = [2%positive]) as E by (by vm_compute). rw E in Hh.
    exact (Forall_inv Hh).
Defined.

(** The party that an event concerns. *)
Definition actor (e : weak_event) : party :=
  match e with
  | WAlloc t _ _ => Producer t
  | WStore p _ | WExchange p _ | WLink p _ => p
  | WPop _ => Consumer
  | WSync _ p' => p'
  end.

Lemma untouched_step e q q' p :
  weak_step e q = Some q' -> actor e <> p -> wviews q' p = wviews q p /\ wpushing q' p = wpushing q p.
Proof.
  intros Hs Ha. destruct e as [t n d|p1 a|p1 i|p1 b|t|p1 p2]; simpl in *.
  5: unfold weak_pop, weak_after_load, consumer_load in Hs.
  1-4: unfold weak_alloc, weak_store, weak_exchange, weak_link in Hs.
  all: unfold mbind, option_bind in Hs; repeat case_match; simplify_eq/=; by rw ?fn_lookup_insert_ne.
Qed.

Lemma untouched_run es q q' p :
  run_events weak_step es q = Some q' -> forallb (fun e => bool_decide (actor e <> p)) es = true ->
  wviews q' p = wviews q p /\ wpushing q' p = wpushing q p.
Proof.
  revert q. induction es as [|e es IH]; intros q Hr Hf; simpl in *; [by simplify_eq|].
  apply andb_prop in Hf as [Ha%bool_decide_eq_true Hf]. destruct (weak_step e q) as [q1|] eqn:E; [|done].
  destruct (untouched_step _ _ _ _ E Ha) as [<- <-]. by apply IH.
Qed.

Lemma after_sync es p p' :
  runs es = true ->
  after_run (es ++ [WSync p p'])
  = set_view p' (join (wviews (after_run es) p') (wviews (after_run es) p)) (after_run es).
Proof. intros H%after_run_eq. unfold after_run at 1. by rw run_events_app H. Qed.

(** One push, and the consumer has joined its thread. *)
Definition one_push : list weak_event :=
  [WAlloc 0 2 10; WStore (Producer 0) 1; WExchange (Producer 0) 0; WLink (Producer 0) 1].

Definition joined : weak := after_run (one_push ++ [WSync (Producer 0) Consumer]).

Definition drain_events : list weak_event :=
  [WPop 1; WPop 1; WPop 1; WStore Consumer 2; WExchange Consumer 1; WLink Consumer 2; WPop 2].

Lemma joined_known :
  (forall t, wpushing joined (Producer t) = None) /\ forall p, vle (wviews joined p) (wviews joined Consumer).
Proof.
  assert (runs one_push = true) as Hone by (by vm_compute).
  assert (wpushing (after_run one_push) (Producer 0) = None) as H0 by (by vm_compute).
  assert (forall t, wviews (after_run one_push) (Producer (S t)) = view0
    /\ wpushing (after_run one_push) (Producer (S t)) = None) as Hother.
  { intros t. apply (untouched_run one_push weak_init _ (Producer (S t)) (after_run_eq _ Hone)). reflexivity. }
  unfold joined. rw after_sync //. generalize dependent (after_run one_push). intros q H0 Hother. simpl. split.
  - intros [|t]; [done|]. apply Hother.
  - intros p. rw fn_lookup_insert. destruct p as [[|t]|].
    + rw fn_lookup_insert_ne //. apply join_le_r.
    + rw fn_lookup_insert_ne //. destruct (Hother t) as [-> _]. intros l. apply Nat.le_0_l.
    + by rw fn_lookup_insert.
Qed.

