(* ===== verification/Session.v ===== *)
(** * Server sessions

    Models c++/src/session.cc, session.h and server_context.h: one connection
    of a server.  Three threads of control touch a session: the coroutine
    [Run], the write pump and closures posted to the strand, and callers of
    [Send] and [Close].  A session is a machine whose events resume one of
    them; a coroutine runs from one suspension point ([co_await]) to the next.
    A transport operation takes effect when the coroutine is resumed with its
    result. *)

From stdpp Require Import pretty.
From S2P Require Import Prelude Status Frame Transport.

(** ** ServerContext *)

Record ServerContext := mkContext {
  peer_address_ : string;
  method_id_ : Z;
  call_id_ : Z;
  trace_ : bool;
  method_name_ : string;
  request_text_ : string;
  response_text_ : string
}.

Definition ServerContext_default : ServerContext := mkContext "" 0 0 false "" "" "".

Definition tracing (c : ServerContext) : bool := trace_ c.

Definition set_method_name (name : string) (c : ServerContext) : ServerContext :=
  mkContext (peer_address_ c) (method_id_ c) (call_id_ c) (trace_ c) name
            (request_text_ c) (response_text_ c).

Definition set_request_text (text : string) (c : ServerContext) : ServerContext :=
  mkContext (peer_address_ c) (method_id_ c) (call_id_ c) (trace_ c) (method_name_ c)
            text (response_text_ c).

Definition set_response_text (text : string) (c : ServerContext) : ServerContext :=
  mkContext (peer_address_ c) (method_id_ c) (call_id_ c) (trace_ c) (method_name_ c)
            (request_text_ c) text.

(** ** Configuration

    A handler reads and changes application state [App]; it returns a status,
    the response it wrote and the context it wrote to, or throws.  Of the
    user's callbacks only what the session depends on is kept: whether
    [on_connect_], [on_disconnect_] and [interceptor_] are set, and the answer
    of [on_handshake_]. *)

Inductive handler_result (App : Type) :=
| Returned (app : App) (ctx : ServerContext) (st : Status) (resp : bytes)
| Threw (app : App).
Arguments Returned {App}.
Arguments Threw {App}.

Abbreviation MethodHandler App := (App -> ServerContext -> bytes -> handler_result App).

Record session_config (App : Type) := mkConfig {
  handlers_ : gmap Z (MethodHandler App);
  handshake_header_ : bytes;
  connection_id_ : Z;
  peer_address : string;
  on_connect_ : bool;
  on_disconnect_ : bool;
  on_handshake_ : option (bytes -> bool);
  interceptor_ : bool
}.
Arguments mkConfig {App}.
Arguments handlers_ {App}.
Arguments handshake_header_ {App}.
Arguments connection_id_ {App}.
Arguments peer_address {App}.
Arguments on_connect_ {App}.
Arguments on_disconnect_ {App}.
Arguments on_handshake_ {App}.
Arguments interceptor_ {App}.

(** The address text the constructor keeps: of the remote endpoint, or empty
    when the socket has none ([remote_endpoint] reported an error). *)
Definition session_peer_address (ep : option (string * Z)) : string :=
  match ep with
  | Some (address, port) => address +:+ ":" +:+ pretty port
  | None => ""
  end.

(** What a session lets the outside observe, in order. *)
Inductive session_log :=
| LConnect
| LHandshake (accepted : bool)
| LIntercept (ctx : ServerContext) (code : StatusCode) (req resp : bytes)
| LDisconnect.

(** ** One request

    The body of the frame loop of [Run] between the frame read and
    [EnqueueWrite]: the context, the handler lookup and call, the trace, and
    the response frame.  [None] for the frame: the handler threw. *)
Definition request_context {App} (cfg : session_config App) (req_hdr : FrameHeader)
    : ServerContext :=
  mkContext (peer_address cfg) (method_id req_hdr) (call_id req_hdr) (interceptor_ cfg) "" "" "".

Definition response_header (req_hdr : FrameHeader) (resp_code : StatusCode)
    (resp_payload : bytes) : FrameHeader :=
  {| type := kResponse;
     status_code := u16 (code_to_int resp_code);
     call_id := call_id req_hdr;
     method_id := method_id req_hdr;
     payload_size := u32 (size_of resp_payload) |}.

Definition process_request {App} (cfg : session_config App) (app : App)
    (req_hdr : FrameHeader) (req_payload : bytes)
    : App * list session_log * option (FrameHeader * bytes) :=
  let ctx := request_context cfg req_hdr in
  let finish app ctx resp_code resp_payload :=
    (app,
     if interceptor_ cfg then [LIntercept ctx resp_code req_payload resp_payload] else [],
     Some (response_header req_hdr resp_code resp_payload, resp_payload)) in
  match handlers_ cfg !! method_id req_hdr with
  | None => finish app ctx UNIMPLEMENTED []
  | Some handler =>
    match handler app ctx req_payload with
    | Threw app' => (app', [], None)
    | Returned app' ctx' handler_status resp_payload =>
      if negb (ok handler_status)
      then finish app' ctx' (error_code handler_status) []
      else finish app' ctx' OK resp_payload
    end
  end.

(** ** State *)

Inductive run_pc :=
| RunNotStarted        (* spawned, not resumed yet *)
| RunReadHandshake     (* suspended in ReadHandshakeRaw *)
| RunWriteHandshake    (* suspended in WriteHandshake *)
| RunReadFrame         (* suspended in ReadFrame *)
| RunDone              (* returned *)
| RunThrew.            (* left by an exception *)

Inductive pump_pc :=
| PumpNone
| PumpSpawned                                    (* co_spawned, not resumed yet *)
| PumpWriting (hdr : FrameHeader) (payload : bytes). (* suspended in WriteFrame *)

Inductive strand_task :=
| TaskEnqueue (hdr : FrameHeader) (payload : bytes)
| TaskClose.

(** The last four fields are history: the frames given to [EnqueueWrite], the
    frames written, the requests served with their responses, and whether a
    write of the pump failed. *)
Record session {A : Asio} := mkSession {
  socket_ : socket;
  strand_ : list strand_task;
  write_queue_ : list (FrameHeader * bytes);
  write_pump_active_ : bool;
  pump : pump_pc;
  run : run_pc;
  log : list session_log;
  posted : list (FrameHeader * bytes);
  written : list (FrameHeader * bytes);
  served : list (FrameHeader * bytes * (FrameHeader * bytes));
  write_failed : bool
}.
Arguments mkSession {A}.

Inductive session_event :=
| RunStep
| StrandStep
| PumpStep
| CallSend (method_id : Z) (payload : bytes)
| CallClose.

Section Session.
Context {A : Asio} {App : Type}.
Variable cfg : session_config App.

(** [Session(socket, ...)]. *)
Definition session_init (s : socket) : session :=
  mkSession s [] [] false PumpNone RunNotStarted [] [] [] [] false.

(** ** Operations *)

(** [EnqueueWrite]: posts the closure that queues the frame. *)
Definition EnqueueWrite (hdr : FrameHeader) (payload : bytes) (s : session) : session :=
  mkSession (socket_ s) (strand_ s ++ [TaskEnqueue hdr payload]) (write_queue_ s)
    (write_pump_active_ s) (pump s) (run s) (log s)
    (posted s ++ [(hdr, payload)]) (written s) (served s) (write_failed s).

(** The closure posted by [EnqueueWrite]. *)
Definition enqueue_closure (hdr : FrameHeader) (payload : bytes) (s : session) : session :=
  let q := write_queue_ s ++ [(hdr, payload)] in
  if negb (write_pump_active_ s)
  then mkSession (socket_ s) (strand_ s) q true PumpSpawned (run s) (log s)
         (posted s) (written s) (served s) (write_failed s)
  else mkSession (socket_ s) (strand_ s) q (write_pump_active_ s) (pump s) (run s) (log s)
         (posted s) (written s) (served s) (write_failed s).

(** The closure posted by [Close]. *)
Definition close_closure (s : session) : session :=
  mkSession (asio_close (socket_ s)) (strand_ s) (write_queue_ s) (write_pump_active_ s)
    (pump s) (run s) (log s) (posted s) (written s) (served s) (write_failed s).

Definition Send (method_id : Z) (payload : bytes) (s : session) : session :=
  let hdr := {| type := kPush; status_code := 0; call_id := 0;
                method_id := method_id; payload_size := u32 (size_of payload) |} in
  EnqueueWrite hdr payload s.

Definition Close (s : session) : session :=
  mkSession (socket_ s) (strand_ s ++ [TaskClose]) (write_queue_ s) (write_pump_active_ s)
    (pump s) (run s) (log s) (posted s) (written s) (served s) (write_failed s).

(** [WritePump]: the loop head, up to the next [WriteFrame] or the end. *)
Definition pump_loop (s : session) : session :=
  match write_queue_ s with
  | [] => mkSession (socket_ s) (strand_ s) [] false PumpNone (run s) (log s)
            (posted s) (written s) (served s) (write_failed s)
  | (hdr, payload) :: q =>
    mkSession (socket_ s) (strand_ s) q (write_pump_active_ s) (PumpWriting hdr payload)
      (run s) (log s) (posted s) (written s) (served s) (write_failed s)
  end.

(** [WritePump] resumed. *)
Definition WritePump (s : session) : option session :=
  match pump s with
  | PumpNone => None
  | PumpSpawned => Some (pump_loop s)
  | PumpWriting hdr payload =>
    let '(sock, ws) := AsyncTransport_WriteFrame (socket_ s) hdr payload in
    if negb (ok ws)
    then Some (mkSession sock (strand_ s) [] false PumpNone (run s) (log s)
                 (posted s) (written s) (served s) true)
    else Some (pump_loop (mkSession sock (strand_ s) (write_queue_ s) (write_pump_active_ s)
                 (pump s) (run s) (log s) (posted s) (written s ++ [(hdr, payload)])
                 (served s) (write_failed s)))
  end.

Definition set_run (sock : socket) (pc : run_pc) (l : list session_log) (s : session) : session :=
  mkSession sock (strand_ s) (write_queue_ s) (write_pump_active_ s) (pump s) pc (log s ++ l)
    (posted s) (written s) (served s) (write_failed s).

(** [Run] leaves: the scope guard calls [on_disconnect_]. *)
Definition run_leave (sock : socket) (pc : run_pc) (l : list session_log) (s : session) : session :=
  set_run sock pc (l ++ if on_disconnect_ cfg then [LDisconnect] else []) s.

Definition log_served (req resp : FrameHeader * bytes) (s : session) : session :=
  mkSession (socket_ s) (strand_ s) (write_queue_ s) (write_pump_active_ s) (pump s) (run s)
    (log s) (posted s) (written s) (served s ++ [(req, resp)]) (write_failed s).

(** [Run] resumed, up to its next suspension or its end. *)
Definition Run (app : App) (s : session) : option (App * session) :=
  match run s with
  | RunNotStarted =>
    let l := if on_connect_ cfg then [LConnect] else [] in
    let pc := match handshake_header_ cfg with [] => RunReadFrame | _ => RunReadHandshake end in
    Some (app, set_run (socket_ s) pc l s)
  | RunReadHandshake =>
    let '(sock, received_header, hs) :=
      AsyncTransport_ReadHandshakeRaw (socket_ s) (length (handshake_header_ cfg)) [] in
    if negb (ok hs) then Some (app, run_leave sock RunDone [] s)
    else if bool_decide (received_header <> handshake_header_ cfg)
    then Some (app, run_leave sock RunDone [] s)
    else
      match on_handshake_ cfg with
      | Some cb =>
        if negb (cb received_header)
        then Some (app, run_leave sock RunDone [LHandshake false] s)
        else Some (app, set_run sock RunWriteHandshake [LHandshake true] s)
      | None => Some (app, set_run sock RunWriteHandshake [] s)
      end
  | RunWriteHandshake =>
    let '(sock, hs) := AsyncTransport_WriteHandshake (socket_ s) (handshake_header_ cfg) in
    if negb (ok hs) then Some (app, run_leave sock RunDone [] s)
    else Some (app, set_run sock RunReadFrame [] s)
  | RunReadFrame =>
    let '(sock, req_hdr, req_payload, rs) :=
      AsyncTransport_ReadFrame (socket_ s) FrameHeader_default [] in
    if negb (ok rs) then Some (app, run_leave sock RunDone [] s)
    else if negb (type_eqb (type req_hdr) kRequest)
    then Some (app, run_leave sock RunDone [] s)
    else
      match process_request cfg app req_hdr req_payload with
      | (app', l, None) => Some (app', run_leave sock RunThrew l s)
      | (app', l, Some (resp_hdr, resp_payload)) =>
        Some (app',
          EnqueueWrite resp_hdr resp_payload
            (log_served (req_hdr, req_payload) (resp_hdr, resp_payload)
              (set_run sock RunReadFrame l s)))
      end
  | RunDone | RunThrew => None
  end.

(** The strand runs the oldest posted closure. *)
Definition strand_step (s : session) : option session :=
  match strand_ s with
  | [] => None
  | task :: rest =>
    let s' := mkSession (socket_ s) rest (write_queue_ s) (write_pump_active_ s) (pump s)
                (run s) (log s) (posted s) (written s) (served s) (write_failed s) in
    match task with
    | TaskEnqueue hdr payload => Some (enqueue_closure hdr payload s')
    | TaskClose => Some (close_closure s')
    end
  end.

Definition session_step (e : session_event) (st : App * session) : option (App * session) :=
  let '(app, s) := st in
  match e with
  | RunStep => Run app s
  | StrandStep => option_map (pair app) (strand_step s)
  | PumpStep => option_map (pair app) (WritePump s)
  | CallSend mid payload => Some (app, Send mid payload s)
  | CallClose => Some (app, Close s)
  end.
End Session.

(** ** Specification vocabulary *)

Definition pump_frames (pc : pump_pc) : list (FrameHeader * bytes) :=
  match pc with PumpWriting hdr payload => [(hdr, payload)] | _ => [] end.

Definition task_frames (t : strand_task) : list (FrameHeader * bytes) :=
  match t with TaskEnqueue hdr payload => [(hdr, payload)] | TaskClose => [] end.

Definition strand_frames (ts : list strand_task) : list (FrameHeader * bytes) :=
  concat (task_frames <$> ts).

Definition is_response (f : FrameHeader * bytes) : Prop := type f.1 = kResponse.
#[global] Instance is_response_dec f : Decision (is_response f).
Proof. unfold is_response. apply _. Defined.

(** A response answers its request. *)
Definition answers (f : FrameHeader * bytes * (FrameHeader * bytes)) : Prop :=
  type f.1.1 = kRequest /\ type f.2.1 = kResponse
  /\ call_id f.2.1 = call_id f.1.1 /\ method_id f.2.1 = method_id f.1.1
  /\ payload_size f.2.1 = u32 (size_of f.2.2).

(** The write side: the pump runs exactly while [write_pump_active_] is set,
    no frame waits without a pump, and, until a write fails, every posted
    frame is written, being written, queued or posted, in this order. *)
Record write_inv {A : Asio} (s : session) : Prop := {
  wi_active : write_pump_active_ s = true <-> pump s <> PumpNone;
  wi_queue : pump s = PumpNone -> write_queue_ s = [];
  wi_pipeline : write_failed s = false ->
    posted s = written s ++ pump_frames (pump s) ++ write_queue_ s ++ strand_frames (strand_ s)
}.

(** The read side: the responses among the posted frames are the answers to
    the requests served, in order. *)
Record serve_inv {A : Asio} (s : session) : Prop := {
  vi_order : filter is_response (posted s) = snd <$> served s;
  vi_answers : Forall answers (served s)
}.

(** The bytes on the wire when [hs] was written after the first [k] frames. *)
Definition wire (k : nat) (hs : bytes) (w : list (FrameHeader * bytes)) : bytes :=
  concat (encode_frame <$> take k w) ++ hs ++ concat (encode_frame <$> drop k w).

Definition before_handshake (pc : run_pc) : Prop :=
  pc = RunNotStarted \/ pc = RunReadHandshake.

Definition handshake_pending (pc : run_pc) : Prop :=
  before_handshake pc \/ pc = RunWriteHandshake.

Definition run_over (pc : run_pc) : Prop := pc = RunDone \/ pc = RunThrew.

#[global] Instance run_pc_eq_dec : EqDecision run_pc.
Proof. solve_decision. Defined.
#[global] Instance before_handshake_dec pc : Decision (before_handshake pc).
Proof. unfold before_handshake. apply _. Defined.
#[global] Instance run_over_dec pc : Decision (run_over pc).
Proof. unfold run_over. apply _. Defined.

(** What was transmitted: until a write fails, the frames written so far in
    order, with the handshake reply at one place among them. *)
Record wire_inv {A : Asio} `{!AsioStream A} {App} (cfg : session_config App)
    (out0 : bytes) (s : session) : Prop := {
  wr_wire : exists k hs, hs `prefix_of` handshake_header_ cfg
    /\ k <= length (written s)
    /\ (handshake_pending (run s) -> hs = [])
    /\ (run s = RunReadFrame -> hs = handshake_header_ cfg)
    /\ (write_failed s = false -> outgoing (socket_ s) = out0 ++ wire k hs (written s))
}.

(** The peer passed the handshake. *)
Definition gate {App} (cfg : session_config App) (in0 : bytes) : Prop :=
  handshake_header_ cfg `prefix_of` in0
  /\ (handshake_header_ cfg <> [] ->
      forall cb, on_handshake_ cfg = Some cb -> cb (handshake_header_ cfg) = true).

(** What was received: nothing is consumed before the handshake, and after it
    the served requests are the frames the peer sent, in order. *)
Record read_inv {A : Asio} `{!AsioStream A} {App} (cfg : session_config App)
    (in0 : bytes) (s : session) : Prop := {
  rd_before : before_handshake (run s) -> incoming (socket_ s) = in0;
  rd_pending : handshake_pending (run s) -> served s = [];
  rd_after : ~ before_handshake (run s) ->
    (served s = [] /\ run_over (run s))
    \/ (gate cfg in0 /\ exists raws rest,
         in0 = handshake_header_ cfg ++ concat raws ++ rest
         /\ Forall2 raw_frame raws (fst <$> served s)
         /\ (~ run_over (run s) -> incoming (socket_ s) = rest))
}.

(** The observable log. *)
Definition connect_log {App} (cfg : session_config App) : list session_log :=
  if on_connect_ cfg then [LConnect] else [].
Definition disconnect_log {App} (cfg : session_config App) : list session_log :=
  if on_disconnect_ cfg then [LDisconnect] else [].

Definition is_bracket (l : session_log) : Prop := l = LConnect \/ l = LDisconnect.

Definition is_intercept (l : session_log) : Prop :=
  match l with LIntercept _ _ _ _ => True | _ => False end.
#[global] Instance is_intercept_dec l : Decision (is_intercept l).
Proof. destruct l; apply _. Defined.

(** The trace of a request shows its payload, the payload of its answer and
    the status code the answer carries. *)
Definition traces (l : session_log) (f : FrameHeader * bytes * (FrameHeader * bytes)) : Prop :=
  exists ctx code, l = LIntercept ctx code f.1.2 f.2.2
    /\ status_code f.2.1 = u16 (code_to_int code).

(** What was observed: [on_connect_] first, [on_disconnect_] last and only
    when [Run] is over, and between them one trace for each request. *)
Record log_inv {A : Asio} {App} (cfg : session_config App) (s : session) : Prop := {
  lg_log : exists mid,
    log s = (if decide (run s = RunNotStarted) then [] else connect_log cfg)
            ++ mid ++ (if decide (run_over (run s)) then disconnect_log cfg else [])
    /\ Forall (fun l => ~ is_bracket l) mid
    /\ (run s = RunNotStarted -> mid = [])
    /\ (interceptor_ cfg = true -> Forall2 traces (filter is_intercept mid) (served s))
}.

(** ** Lemmas *)

Lemma strand_frames_cons t ts : strand_frames (t :: ts) = task_frames t ++ strand_frames ts.
Proof. done. Qed.

Lemma strand_frames_snoc ts t : strand_frames (ts ++ [t]) = strand_frames ts ++ task_frames t.
Proof. unfold strand_frames. by rw fmap_app concat_app /= app_nil_r. Qed.

Section Invariants.
Context {A : Asio} {App : Type}.
Variable cfg : session_config App.
Implicit Types (s : session) (app : App).

Lemma write_inv_enqueue hdr payload s : write_inv s -> write_inv (EnqueueWrite hdr payload s).
Proof.
  intros []. constructor; simpl; try done.
  intros Hf. by rw wi_pipeline0 // strand_frames_snoc -!app_assoc.
Qed.

Lemma write_inv_set_run sock pc l s : write_inv s -> write_inv (set_run sock pc l s).
Proof. by intros []. Qed.

Lemma write_inv_log_served req resp s : write_inv s -> write_inv (log_served req resp s).
Proof. by intros []. Qed.

Lemma write_inv_pump_loop s :
  write_pump_active_ s = true ->
  (write_failed s = false ->
   posted s = written s ++ write_queue_ s ++ strand_frames (strand_ s)) ->
  write_inv (pump_loop s).
Proof.
  intros Ha Hp. unfold pump_loop. destruct (write_queue_ s) as [|[h p] q] eqn:Eq;
    constructor; simpl; try done; rw ?Eq // Ha.
Qed.

Lemma write_inv_pump s s' : write_inv s -> WritePump s = Some s' -> write_inv s'.
Proof.
  intros [Ha Hq Hp]. unfold WritePump. destruct (pump s) as [| |h p] eqn:Epc; [done|..].
  - intros; simplify_eq. apply write_inv_pump_loop; [by apply Ha|exact Hp].
  - destruct (AsyncTransport_WriteFrame (socket_ s) h p) as [sock ws].
    destruct (ok ws); simpl; intros; simplify_eq; [|by constructor].
    apply write_inv_pump_loop; simpl; [by apply Ha|].
    intros Hf. by rw Hp // -app_assoc.
Qed.

Lemma write_inv_strand s s' : write_inv s -> strand_step s = Some s' -> write_inv s'.
Proof.
  intros [Ha Hq Hp]. unfold strand_step.
  destruct (strand_ s) as [|[h p|] ts] eqn:Es; intros; simplify_eq.
  - unfold enqueue_closure; simpl. destruct (write_pump_active_ s) eqn:Eact; simpl.
    + constructor; simpl; try done.
      * intros E. by destruct (proj1 Ha eq_refl).
      * intros Hf. by rw Hp // strand_frames_cons -!app_assoc.
    + assert (pump s = PumpNone) as Epc.
      { destruct (pump s); [done|..]; by pose proof (proj2 Ha ltac:(done)). }
      constructor; simpl; try done. intros Hf. rw Hp // Epc Hq //.
  - by constructor.
Qed.

Lemma write_inv_step e app s app' s' :
  write_inv s -> session_step cfg e (app, s) = Some (app', s') -> write_inv s'.
Proof.
  intros Hi. destruct e; simpl.
  - unfold Run, run_leave. repeat case_match; intros; simplify_eq/=;
      auto using write_inv_enqueue, write_inv_set_run, write_inv_log_served.
  - destruct (strand_step s) eqn:E; intros; simplify_eq/=. by eapply write_inv_strand.
  - destruct (WritePump s) eqn:E; intros; simplify_eq/=. by eapply write_inv_pump.
  - intros; simplify_eq. by apply write_inv_enqueue.
  - intros; simplify_eq. destruct Hi. constructor; simpl; try done.
    intros Hf. by rw wi_pipeline0 // strand_frames_snoc app_nil_r.
Qed.

(** What [process_request] answers. *)
Lemma process_request_answers app h p app' l rh rp :
  type h = kRequest ->
  process_request cfg app h p = (app', l, Some (rh, rp)) -> answers ((h, p), (rh, rp)).
Proof.
  intros Ht. unfold process_request, answers. repeat case_match; intros; by simplify_eq/=.
Qed.

Lemma request_type h :
  header_wf h -> negb (type_eqb (type h) kRequest) = false -> type h = kRequest.
Proof. intros Hw H%negb_false_iff. by apply type_eqb_eq in H; [|apply Hw|]. Qed.

(** The frame loop of [Run]: either [Run] leaves, or it answers a request. *)
Lemma Run_frame app s app' s' :
  run s = RunReadFrame -> Run cfg app s = Some (app', s') ->
  exists sock h p st,
    AsyncTransport_ReadFrame (socket_ s) FrameHeader_default [] = (sock, h, p, st) /\
    ((exists pc, run_over pc /\ s' = run_leave cfg sock pc [] s) \/
     (exists rh rp l, ok st = true /\ type h = kRequest
        /\ process_request cfg app h p = (app', l, Some (rh, rp))
        /\ s' = EnqueueWrite rh rp (log_served (h, p) (rh, rp) (set_run sock RunReadFrame l s)))).
Proof.
  intros Er. unfold Run. rw Er.
  destruct (AsyncTransport_ReadFrame _ _ _) as [[[sock h] p] st] eqn:E.
  intros H. exists sock, h, p, st. split; [done|]. revert H.
  destruct (ok st) eqn:Eok; simpl; [|intros; simplify_eq; left; exists RunDone; by split; [left|]].
  destruct (negb (type_eqb _ _)) eqn:Ety;
    [intros; simplify_eq; left; exists RunDone; by split; [left|]|].
  apply request_type in Ety; [|by eapply ReadFrame_header_wf].
  destruct (process_request cfg app h p) as [[app1 l] [[rh rp]|]] eqn:Ep; intros; simplify_eq.
  - right. by exists rh, rp, l.
  - left. exists RunThrew. split; [by right|]. revert Ep. unfold process_request.
    repeat case_match; intros; by simplify_eq.
Qed.

Lemma serve_inv_step e app s app' s' :
  serve_inv s -> session_step cfg e (app, s) = Some (app', s') -> serve_inv s'.
Proof.
  intros [Ho Ha]. destruct e; simpl.
  - destruct (run s) eqn:Er; [..|by rw /Run Er|by rw /Run Er];
      [unfold Run, run_leave; rw Er; repeat case_match; intros; simplify_eq; by constructor..|].
    intros Hr. apply Run_frame in Hr as (sock & h & p & st & _ & [(pc & _ & ->)|Hr]); [by constructor| |done].
    destruct Hr as (rh & rp & l & _ & Ht & Ep & ->).
    apply process_request_answers in Ep; [|done]. constructor; simpl.
    + rw filter_app Ho fmap_app /= filter_cons_True //. apply Ep.
    + apply Forall_app. auto.
  - destruct (strand_step s) as [s1|] eqn:E; intros; simplify_eq/=. revert E.
    unfold strand_step, enqueue_closure. repeat case_match; intros; simplify_eq; by constructor.
  - destruct (WritePump s) as [s1|] eqn:E; intros; simplify_eq/=. revert E.
    unfold WritePump, pump_loop. repeat case_match; intros; simplify_eq; by constructor.
  - intros; simplify_eq. constructor; simpl; [|done].
    by rw filter_app Ho app_nil_r.
  - intros; simplify_eq. by constructor.
Qed.

(** Both invariants hold of every reachable session. *)
Lemma session_invariants sock app0 es app s :
  run_events (session_step cfg) es (app0, session_init sock) = Some (app, s) ->
  write_inv s /\ serve_inv s.
Proof.
  intros Hr.
  apply (run_events_invariant (session_step cfg)
    (fun st => write_inv st.2 /\ serve_inv st.2)) in Hr; [done|..].
  - intros e [a1 s1] [a2 s2] [Hw Hs] Hstep; simpl in *.
    split; [by eapply write_inv_step|by eapply serve_inv_step].
  - simpl. split; by constructor.
Qed.
End Invariants.

Lemma wire_snoc k hs w f :
  k <= length w -> wire k hs (w ++ [f]) = wire k hs w ++ encode_frame f.
Proof.
  intros Hk. unfold wire. rw take_app_le // drop_app_le //.
  by rw fmap_app concat_app /= app_nil_r -!app_assoc.
Qed.

Lemma wire_no_handshake k w : wire k [] w = concat (encode_frame <$> w).
Proof. unfold wire. by rw app_nil_l -concat_app -fmap_app take_drop. Qed.

Lemma wire_handshake_now hs w :
  wire (length w) hs w = concat (encode_frame <$> w) ++ hs.
Proof. unfold wire. by rw take_ge // drop_all /= app_nil_r. Qed.

Section WireInvariant.
Context {A : Asio} `{!AsioStream A} {App : Type}.
Variable cfg : session_config App.
Implicit Types (s : session) (app : App).

(** A step of [Run] that transmits nothing. *)
Lemma wire_inv_set_run out0 sock pc l s :
  wire_inv cfg out0 s -> outgoing sock = outgoing (socket_ s) ->
  (handshake_pending pc -> handshake_pending (run s)) ->
  (pc = RunReadFrame -> run s = RunReadFrame \/ handshake_header_ cfg = []) ->
  wire_inv cfg out0 (set_run sock pc l s).
Proof.
  intros [(k & hs & Hp & Hk & Hb & Hf & Hw)] Ho Hpend Hread. constructor. exists k, hs. simpl.
  split_and!; try done; [by auto|..].
  - intros E. destruct (Hread E) as [?|Hnil]; [by auto|].
    rw Hnil in Hp |- *. by apply prefix_nil_inv in Hp.
  - intros E. by rw Ho Hw.
Qed.

(** The step of [Run] that transmits the handshake reply, or a part of it. *)
Lemma wire_inv_reply out0 sock pc l s :
  wire_inv cfg out0 s -> handshake_pending (run s) -> ~ handshake_pending pc ->
  (exists j, outgoing sock = outgoing (socket_ s) ++ take j (handshake_header_ cfg)) ->
  (pc = RunReadFrame -> outgoing sock = outgoing (socket_ s) ++ handshake_header_ cfg) ->
  wire_inv cfg out0 (set_run sock pc l s).
Proof.
  intros [(k & hs & Hp & Hk & Hb & Hf & Hw)] Hpend Hnp [j Ho] Hall.
  rw (Hb Hpend) wire_no_handshake in Hw. constructor.
  exists (length (written s)), (take j (handshake_header_ cfg)). simpl. split_and!; try done.
  - apply prefix_take.
  - intros E. apply Hall in E. rw Ho in E. by apply app_inv_head in E.
  - intros Hfail. by rw Ho Hw // wire_handshake_now app_assoc.
Qed.

Lemma wire_inv_pump_loop out0 s : wire_inv cfg out0 s -> wire_inv cfg out0 (pump_loop s).
Proof. intros [H]. unfold pump_loop. by repeat case_match. Qed.

Lemma wire_inv_pump out0 s s' :
  wire_inv cfg out0 s -> WritePump s = Some s' -> wire_inv cfg out0 s'.
Proof.
  intros Hi. unfold WritePump. destruct (pump s) as [| |h p]; [done|..].
  - intros; simplify_eq. by apply wire_inv_pump_loop.
  - destruct Hi as [(k & hs & Hp & Hk & Hb & Hf & Hw)].
    destruct (AsyncTransport_WriteFrame (socket_ s) h p) as [sock ws] eqn:E.
    apply WriteFrame_out in E as [_ Ho]. destruct (ok ws); simpl; intros; simplify_eq.
    + apply wire_inv_pump_loop. constructor. exists k, hs. simpl. split_and!; try done.
      * rw length_app. lia.
      * intros Hfail. rw Ho // Hw // wire_snoc // app_assoc //.
    + constructor. exists k, hs. simpl. done.
Qed.

Lemma wire_inv_enqueue out0 hdr payload s :
  wire_inv cfg out0 s -> wire_inv cfg out0 (EnqueueWrite hdr payload s).
Proof. by intros [H]. Qed.

Lemma wire_inv_run out0 app s app' s' :
  wire_inv cfg out0 s -> Run cfg app s = Some (app', s') -> wire_inv cfg out0 s'.
Proof.
  intros Hi Hr. destruct (run s) eqn:Er; [..|by rw /Run Er in Hr|by rw /Run Er in Hr].
  - rw /Run Er in Hr. simplify_eq. apply wire_inv_set_run; try done; rw Er.
    + by left; left.
    + destruct (handshake_header_ cfg); [by auto|done].
  - revert Hr. unfold Run, run_leave. rw Er.
    destruct (AsyncTransport_ReadHandshakeRaw _ _ _) as [[sock o] st] eqn:E.
    apply ReadHandshakeRaw_in in E as [Ho _].
    repeat case_match; intros; simplify_eq; apply wire_inv_set_run; try done; rw Er;
      by left; right.
  - revert Hr. unfold Run, run_leave. rw Er.
    destruct (AsyncTransport_WriteHandshake _ _) as [sock st] eqn:E.
    apply WriteHandshake_out in E as (_ & Ho & Hok).
    destruct (ok st); simpl; intros; simplify_eq; apply wire_inv_reply;
      solve [done | by intros [[?|?]|?] | by rw Er; right | auto].
  - apply Run_frame in Hr as (sock & h & p & st & E & Hr); [|done].
    apply ReadFrame_raw in E as [Ho _].
    destruct Hr as [(pc & Hpc & ->)|(rh & rp & l & _ & _ & _ & ->)].
    + apply wire_inv_set_run; try done; destruct Hpc as [-> | ->]; try done;
        by intros [[?|?]|?].
    + assert (wire_inv cfg out0 (set_run sock RunReadFrame l s)) as [Hw]; [|done].
      apply wire_inv_set_run; try done; [by intros [[?|?]|?]|auto].
Qed.

Lemma wire_inv_step out0 e app s app' s' :
  wire_inv cfg out0 s -> session_step cfg e (app, s) = Some (app', s') ->
  wire_inv cfg out0 s'.
Proof.
  intros Hi. destruct e; simpl.
  - by apply wire_inv_run.
  - destruct (strand_step s) as [s1|] eqn:E; intros; simplify_eq/=. revert E.
    destruct Hi as [(k & hs & Hp & Hk & Hb & Hf & Hw)].
    unfold strand_step, enqueue_closure. repeat case_match; intros; simplify_eq;
      constructor; exists k, hs; simpl; rw ?close_keeps_out; done.
  - destruct (WritePump s) as [s1|] eqn:E; intros; simplify_eq/=. by eapply wire_inv_pump.
  - intros; simplify_eq. by apply wire_inv_enqueue.
  - intros; simplify_eq. by destruct Hi.
Qed.

Lemma wire_inv_init sock : wire_inv cfg (outgoing sock) (session_init sock).
Proof.
  constructor. exists 0, []. simpl. split_and!; try done.
  - apply prefix_nil.
  - intros _. by rw app_nil_r.
Qed.

Lemma wire_invariant sock app0 es app s :
  run_events (session_step cfg) es (app0, session_init sock) = Some (app, s) ->
  wire_inv cfg (outgoing sock) s.
Proof.
  intros Hr.
  apply (run_events_invariant (session_step cfg)
    (fun st => wire_inv cfg (outgoing sock) st.2)) in Hr; [done|..].
  - intros e [a1 s1] [a2 s2] Hw Hstep; simpl in *. by eapply wire_inv_step.
  - apply wire_inv_init.
Qed.
End WireInvariant.

Section ReadInvariant.
Context {A : Asio} `{!AsioStream A} {App : Type}.
Variable cfg : session_config App.
Implicit Types (s : session) (app : App).

Ltac not_before := solve [done | by intros [?|?] | by intros [[?|?]|?]].

(** A step that neither reads nor moves [Run]. *)
Lemma read_inv_frame in0 s s' :
  read_inv cfg in0 s -> run s' = run s -> served s' = served s ->
  incoming (socket_ s') = incoming (socket_ s) -> read_inv cfg in0 s'.
Proof. intros [Hb Hp Ha] Hr Hs Hi. constructor; rw Hr ?Hs ?Hi; done. Qed.

(** [Run] leaves. *)
Lemma read_inv_leave in0 sock pc l s :
  read_inv cfg in0 s -> run_over pc -> read_inv cfg in0 (run_leave cfg sock pc l s).
Proof.
  intros [Hb Hp Ha] Hpc. constructor; simpl.
  - destruct Hpc as [-> | ->]; not_before.
  - destruct Hpc as [-> | ->]; not_before.
  - intros _. destruct (decide (before_handshake (run s))) as [Hbe|Hnb].
    + left. split; [|done]. apply Hp. by left.
    + destruct (Ha Hnb) as [[]|[Hg (raws & rest & ? & ? & _)]]; [by left|right].
      split; [done|]. by exists raws, rest.
Qed.

Lemma read_inv_handshake in0 app s app' s' :
  read_inv cfg in0 s -> run s = RunReadHandshake ->
  Run cfg app s = Some (app', s') -> read_inv cfg in0 s'.
Proof.
  intros Hi Er. unfold Run. rw Er.
  destruct (AsyncTransport_ReadHandshakeRaw _ _ _) as [[sock o] st] eqn:E.
  apply ReadHandshakeRaw_in in E as [_ Hin].
  destruct (ok st); simpl; [|intros; simplify_eq; apply read_inv_leave; [done|by left]].
  case_bool_decide as Ho; [intros; simplify_eq; apply read_inv_leave; [done|by left]|].
  subst o.
  assert (forall l, (forall cb, on_handshake_ cfg = Some cb -> cb (handshake_header_ cfg) = true) ->
    read_inv cfg in0 (set_run sock RunWriteHandshake l s)) as Hgo.
  { intros l Hcb. assert (before_handshake (run s)) as Hbe by (rw Er; by right).
    destruct Hi as [Hb Hp Ha]. rw Hin // in Hb.
    constructor; simpl; [not_before|intros _; apply Hp; by left|intros _; right].
    rw Hp; [by left|]. rw -(Hb Hbe). split.
    - split; [by exists (incoming sock)|done].
    - exists [], (incoming sock). split_and!; [done|constructor|done]. }
  destruct (on_handshake_ cfg) as [cb|] eqn:Ecb.
  - destruct (cb _) eqn:Eacc; simpl; intros; simplify_eq.
    + apply Hgo. intros. by simplify_eq.
    + apply read_inv_leave; [done|by left].
  - intros; simplify_eq. by apply Hgo.
Qed.

Lemma read_inv_run in0 app s app' s' :
  read_inv cfg in0 s -> Run cfg app s = Some (app', s') -> read_inv cfg in0 s'.
Proof.
  intros Hi Hr. destruct (run s) eqn:Er; [..|by rw /Run Er in Hr|by rw /Run Er in Hr].
  - rw /Run Er in Hr. simplify_eq. destruct Hi as [Hb Hp Ha].
    assert (before_handshake (run s)) as Hbe by (rw Er; by left).
    constructor; simpl; rw ?(Hb Hbe); [done|by intros _; apply Hp; left|].
    rw Hp; [by left|]. destruct (handshake_header_ cfg) eqn:Eh; [|by intros []; right].
    intros _. right. split; [split; rw Eh; [apply prefix_nil|done]|].
    exists [], in0. split_and!; [done|constructor|done].
  - by eapply read_inv_handshake.
  - revert Hr. unfold Run. rw Er.
    destruct (AsyncTransport_WriteHandshake _ _) as [sock st] eqn:E.
    apply WriteHandshake_out in E as (Hin & _).
    destruct (ok st); simpl; intros; simplify_eq; [|apply read_inv_leave; [done|by left]].
    destruct Hi as [Hb Hp Ha]. rw Er in Ha. constructor; simpl; [not_before|not_before|].
    intros _. destruct Ha as [[_ [?|?]]|Ha]; [not_before|done|done|right].
    rw Hin. destruct Ha as (? & raws & rest & ? & ? & Hrest). split; [done|].
    exists raws, rest. split_and!; try done. intros _. apply Hrest. not_before.
  - apply Run_frame in Hr as (sock & h & p & st & E & Hr); [|done].
    apply ReadFrame_raw in E as [_ Hin].
    destruct Hr as [(pc & Hpc & ->)|(rh & rp & l & Hok & _ & _ & ->)]; [by apply read_inv_leave|].
    destruct (Hin Hok) as (raw & Hraw & Hraws). destruct Hi as [_ _ Ha]. rw Er in Ha.
    constructor; simpl; [not_before|not_before|]. intros _. right.
    destruct Ha as [[_ [?|?]]|(Hg & raws & rest & Hin0 & Hf & Hrest)]; [not_before|done|done|].
    rw Hrest in Hraws; [not_before|]. split; [done|].
    exists (raws ++ [raw]), (incoming sock). split_and!; [|..|done].
    + by rw Hin0 Hraws concat_app /= app_nil_r -!app_assoc.
    + rw fmap_app. apply Forall2_app; [done|]. by constructor.
Qed.

Lemma read_inv_step in0 e app s app' s' :
  read_inv cfg in0 s -> session_step cfg e (app, s) = Some (app', s') ->
  read_inv cfg in0 s'.
Proof.
  intros Hi. destruct e; simpl.
  - by apply read_inv_run.
  - destruct (strand_step s) as [s1|] eqn:E; intros; simplify_eq/=. revert E.
    unfold strand_step, enqueue_closure. repeat case_match; intros; simplify_eq;
      eapply read_inv_frame; try done. apply close_keeps_in.
  - destruct (WritePump s) as [s1|] eqn:E; intros; simplify_eq/=. revert E.
    unfold WritePump. destruct (pump s) as [| |h p]; [done|..].
    { unfold pump_loop. repeat case_match; intros; simplify_eq; by eapply read_inv_frame. }
    destruct (AsyncTransport_WriteFrame _ _ _) as [sock ws] eqn:E.
    apply WriteFrame_out in E as [Hin _]. unfold pump_loop.
    repeat case_match; intros; simplify_eq; by eapply read_inv_frame.
  - intros; simplify_eq. by eapply read_inv_frame.
  - intros; simplify_eq. by eapply read_inv_frame.
Qed.

Lemma read_inv_init sock : read_inv cfg (incoming sock) (session_init sock).
Proof. constructor; simpl; try done. intros []. by left. Qed.

Lemma read_invariant sock app0 es app s :
  run_events (session_step cfg) es (app0, session_init sock) = Some (app, s) ->
  read_inv cfg (incoming sock) s.
Proof.
  intros Hr.
  apply (run_events_invariant (session_step cfg)
    (fun st => read_inv cfg (incoming sock) st.2)) in Hr; [done|..].
  - intros e [a1 s1] [a2 s2] Hw Hstep; simpl in *. by eapply read_inv_step.
  - apply read_inv_init.
Qed.
End ReadInvariant.

Section LogInvariant.
Context {A : Asio} {App : Type}.
Variable cfg : session_config App.
Implicit Types (s : session) (app : App).

Lemma process_request_log app h p app' l rh rp :
  process_request cfg app h p = (app', l, Some (rh, rp)) ->
  Forall (fun x => ~ is_bracket x) l /\
  (interceptor_ cfg = true -> Forall2 traces (filter is_intercept l) [((h, p), (rh, rp))]).
Proof.
  unfold process_request.
  assert (forall ctx code rp', let l' := if interceptor_ cfg then [LIntercept ctx code p rp'] else [] in
    Forall (fun x => ~ is_bracket x) l' /\
    (interceptor_ cfg = true ->
     Forall2 traces (filter is_intercept l') [((h, p), (response_header h code rp', rp'))])) as Hl.
  { intros ctx code rp'. destruct (interceptor_ cfg); simpl; (split; [|done || intros _]).
    - constructor; [by intros [?|?]|constructor].
    - rw filter_cons_True //. constructor; [by exists ctx, code|constructor].
    - constructor. }
  destruct (handlers_ cfg !! method_id h) as [handler|]; [|intros; simplify_eq; eapply Hl].
  destruct (handler _ _ _) as [app1 ctx st rp1|]; [|done].
  destruct (ok st); simpl; intros; simplify_eq; eapply Hl.
Qed.

(** A step that neither logs nor moves [Run]. *)
Lemma log_inv_frame s s' :
  log_inv cfg s -> run s' = run s -> served s' = served s -> log s' = log s -> log_inv cfg s'.
Proof. intros [H] Hr Hs Hl. constructor. by rw Hr Hs Hl. Qed.

(** A step of [Run] that appends [l] to the log. *)
Lemma log_inv_set_run pc l fs s :
  log_inv cfg s -> ~ run_over (run s) -> pc <> RunNotStarted ->
  Forall (fun x => ~ is_bracket x) l ->
  (interceptor_ cfg = true -> Forall2 traces (filter is_intercept l) fs) ->
  forall s', run s' = pc -> served s' = served s ++ fs ->
  log s' = log s ++ (if decide (run s = RunNotStarted) then connect_log cfg else []) ++ l
           ++ (if decide (run_over pc) then disconnect_log cfg else []) ->
  log_inv cfg s'.
Proof.
  intros [(mid & Hlog & Hbr & Hns & Htr)] Hno Hpc Hl Hi s' Hr Hs Hlog'.
  constructor. exists (mid ++ l). rw Hlog' Hlog Hr Hs. rw (decide_False (P := run_over (run s))) //.
  rw (decide_False (P := pc = RunNotStarted)) //. split_and!.
  - destruct (decide (run s = RunNotStarted)) as [E|_].
    + by rw (Hns E) app_nil_l.
    + by rw app_nil_l app_nil_r -!app_assoc.
  - by apply Forall_app.
  - done.
  - intros Hint. rw filter_app. apply Forall2_app; auto.
Qed.

Lemma log_inv_run app s app' s' :
  log_inv cfg s -> Run cfg app s = Some (app', s') -> log_inv cfg s'.
Proof.
  intros Hi Hr. destruct (run s) eqn:Er; [..|by rw /Run Er in Hr|by rw /Run Er in Hr].
  all: assert (~ run_over (run s)) as Hno by (rw Er; by intros [?|?]).
  4: { apply Run_frame in Hr as (sock & h & p & st & _ & Hr); [|done].
    destruct Hr as [(pc & Hpc & ->)|(rh & rp & l & _ & _ & Ep & ->)].
    - eapply (log_inv_set_run pc [] []); try done; simpl; rw ?app_nil_r ?Er //.
      + by destruct Hpc as [-> | ->].
      + by rw decide_True.
    - apply process_request_log in Ep as [Hb Ht].
      eapply (log_inv_set_run RunReadFrame l _ _ Hi); try done; simpl. by rw Er app_nil_r. }
  all: revert Hr; unfold Run; rw Er; repeat case_match; intros; simplify_eq.
  all: match goal with
    | |- log_inv _ (run_leave _ ?sock ?pc ?l _) => eapply (log_inv_set_run pc l [])
    | |- log_inv _ (set_run ?sock ?pc [LHandshake true] _) =>
        eapply (log_inv_set_run pc [LHandshake true] [])
    | |- log_inv _ (set_run ?sock ?pc _ _) => eapply (log_inv_set_run pc [] [])
    end; try done; simpl; rw ?app_nil_r ?Er //.
  all: first
    [ unfold connect_log; case_decide; try done;
      match goal with H : on_connect_ cfg = _ |- _ => by rw H ?app_nil_r end
    | by case_decide; rw ?app_nil_r
    | apply Forall_singleton; by intros [?|?] ].
Qed.

Lemma log_inv_step e app s app' s' :
  log_inv cfg s -> session_step cfg e (app, s) = Some (app', s') -> log_inv cfg s'.
Proof.
  intros Hi. destruct e; simpl.
  - by apply log_inv_run.
  - destruct (strand_step s) as [s1|] eqn:E; intros; simplify_eq/=. revert E.
    unfold strand_step, enqueue_closure. repeat case_match; intros; simplify_eq;
      by eapply log_inv_frame.
  - destruct (WritePump s) as [s1|] eqn:E; intros; simplify_eq/=. revert E.
    unfold WritePump, pump_loop. repeat case_match; intros; simplify_eq;
      by eapply log_inv_frame.
  - intros; simplify_eq. by eapply log_inv_frame.
  - intros; simplify_eq. by eapply log_inv_frame.
Qed.

Lemma log_invariant sock app0 es app s :
  run_events (session_step cfg) es (app0, session_init sock) = Some (app, s) -> log_inv cfg s.
Proof.
  intros Hr.
  apply (run_events_invariant (session_step cfg) (fun st => log_inv cfg st.2)) in Hr; [done|..].
  - intros e [a1 s1] [a2 s2] Hw Hstep; simpl in *. by eapply log_inv_step.
  - constructor. exists []. simpl. split_and!; done.
Qed.
End LogInvariant.

(** ** A schedule that serves everything

    The requests of a list, one after the other, each processed, queued and
    written before the next is read. *)

Fixpoint process_all {App} (cfg : session_config App) (app : App)
    (reqs : list (FrameHeader * bytes)) : option (App * list (FrameHeader * bytes)) :=
  match reqs with
  | [] => Some (app, [])
  | (h, p) :: reqs =>
    match process_request cfg app h p with
    | (_, _, None) => None
    | (app', _, Some resp) =>
      match process_all cfg app' reqs with
      | Some (app'', resps) => Some (app'', resp :: resps)
      | None => None
      end
    end
  end.

Definition open_events {App} (cfg : session_config App) : list session_event :=
  match handshake_header_ cfg with [] => [RunStep] | _ => [RunStep; RunStep; RunStep] end.

Definition serve_events : list session_event := [RunStep; StrandStep; PumpStep; PumpStep].

(** Waiting for a request with nothing left to write. *)
Definition idle {A : Asio} (s : session) : Prop :=
  run s = RunReadFrame /\ strand_ s = [] /\ write_queue_ s = []
  /\ write_pump_active_ s = false /\ pump s = PumpNone.

Section Schedule.
Context {A : Asio} `{!AsioStream A} `{!AsioReliable A} {App : Type}.
Variable cfg : session_config App.
Implicit Types (s : session) (app : App).

Lemma open_run sock app rest :
  healthy sock -> gate cfg (incoming sock) ->
  incoming sock = handshake_header_ cfg ++ rest ->
  exists s, run_events (session_step cfg) (open_events cfg) (app, session_init sock)
            = Some (app, s)
    /\ idle s /\ served s = [] /\ healthy (socket_ s)
    /\ incoming (socket_ s) = rest
    /\ outgoing (socket_ s) = outgoing sock ++ handshake_header_ cfg.
Proof.
  intros Hh [_ Hcb] Hin. unfold open_events.
  destruct (ReadHandshakeRaw_stream _ _ _ Hh Hin) as (s1 & E1 & Hh1 & Hin1 & Ho1).
  destruct (WriteHandshake_stream s1 (handshake_header_ cfg) Hh1) as (s2 & E2 & Hh2 & Ho2 & Hin2).
  destruct (handshake_header_ cfg) as [|c hs] eqn:Eh.
  { eexists. rw /= /Run /= Eh app_nil_r. split; [done|]. split_and!; done. }
  cbn [length] in E1. rw /= /Run /= ?Eh /= ?Eh E1 /= bool_decide_false; [by intros []|].
  destruct (on_handshake_ cfg) as [cb|] eqn:Ecb; [rw Hcb //|]; rw /= /Run /= ?Eh E2 /=;
    eexists; (split; [done|]); rw /= Hin2 Ho2 Ho1; split_and!; done.
Qed.

Lemma serve_run app s h p rest app' l rh rp :
  idle s -> healthy (socket_ s) -> frame_wf (h, p) -> type h = kRequest ->
  incoming (socket_ s) = encode_frame (h, p) ++ rest ->
  process_request cfg app h p = (app', l, Some (rh, rp)) ->
  exists s', run_events (session_step cfg) serve_events (app, s) = Some (app', s')
    /\ idle s' /\ served s' = served s ++ [((h, p), (rh, rp))] /\ healthy (socket_ s')
    /\ incoming (socket_ s') = rest
    /\ outgoing (socket_ s') = outgoing (socket_ s) ++ encode_frame (rh, rp).
Proof.
  intros (Er & Es & Eq & Ea & Ep) Hh Hwf Ht Hin Hreq.
  destruct (ReadFrame_one _ _ _ FrameHeader_default [] Hh Hwf Hin) as (s1 & E1 & Hh1 & Hin1 & Ho1).
  destruct (WriteFrame_stream s1 rh rp Hh1) as (s2 & E2 & Hh2 & Ho2 & Hin2).
  unfold serve_events. simpl. rw /Run Er E1 /= Ht /= Hreq /= /strand_step /= Es /= /enqueue_closure /=.
  rw Ea Eq /= /WritePump /= /pump_loop /= E2 /=. eexists. split; [done|].
  simpl. rw Hin2 Ho2 Ho1. split_and!; done.
Qed.

Lemma serve_all_run reqs app s rest app' resps :
  idle s -> healthy (socket_ s) -> Forall frame_wf reqs ->
  Forall (fun f => type f.1 = kRequest) reqs ->
  incoming (socket_ s) = concat (encode_frame <$> reqs) ++ rest ->
  process_all cfg app reqs = Some (app', resps) ->
  exists s', run_events (session_step cfg)
      (concat (replicate (length reqs) serve_events)) (app, s) = Some (app', s')
    /\ idle s' /\ served s' = served s ++ zip reqs resps /\ healthy (socket_ s')
    /\ incoming (socket_ s') = rest
    /\ outgoing (socket_ s') = outgoing (socket_ s) ++ concat (encode_frame <$> resps).
Proof.
  revert app s resps. induction reqs as [|[h p] reqs IH]; intros app s resps Hid Hh Hwf Ht Hin Hp.
  { simpl in *. simplify_eq. exists s. by rw /= !app_nil_r. }
  simpl in Hp. destruct (process_request cfg app h p) as [[app1 l] [[rh rp]|]] eqn:E; [|done].
  destruct (process_all cfg app1 reqs) as [[app2 resps']|] eqn:Eall; simplify_eq.
  apply Forall_cons in Hwf as [Hw Hwf]. apply Forall_cons in Ht as [Ht1 Ht].
  rw fmap_cons /= -app_assoc in Hin.
  destruct (serve_run _ _ _ _ _ _ _ _ _ Hid Hh Hw Ht1 Hin E) as (s1 & Hr1 & Hid1 & Hs1 & Hh1 & Hin1 & Ho1).
  destruct (IH _ _ _ Hid1 Hh1 Hwf Ht Hin1 Eall) as (s2 & Hr2 & Hid2 & Hs2 & Hh2 & Hin2 & Ho2).
  exists s2. change (concat (replicate (length ((h, p) :: reqs)) serve_events))
    with (serve_events ++ concat (replicate (length reqs) serve_events)).
  rw run_events_app Hr1 /= Hr2. rw Hs2 Hs1 Ho2 Ho1 -!app_assoc. done.
Qed.
End Schedule.

(** ** Properties *)

(** A server that echoes method 7 and counts its calls, and a client that
    asks twice. *)
Definition echo_config : session_config nat :=
  mkConfig {[ 7%Z := fun n ctx req => Returned (S n) ctx Status_default req ]}
    (bytes_of_string "pc1") 1 "127.0.0.1:5000" true true (Some (fun _ => true)) true.

Definition echo_requests : list (FrameHeader * bytes) :=
  [(mkHeader kRequest 0 1 7 3, bytes_of_string "abc"); (mkHeader kRequest 0 2 8 0, [])].

Definition echo_socket : pipe :=
  mkPipe (bytes_of_string "pc1" ++ concat (encode_frame <$> echo_requests)) [] None true.

(** A schedule in which a push is sent between the two requests. *)
Definition echo_events : list session_event :=
  open_events echo_config ++ serve_events ++ [CallSend 9 []; StrandStep; PumpStep; PumpStep]
  ++ serve_events ++ [RunStep].

Definition echo_final : option (nat * @session pipe_asio) :=
  Eval vm_compute in run_events (session_step echo_config) echo_events (O, session_init (A := pipe_asio) echo_socket).



(** Requests are answered: in every interleaving the responses posted are
    exactly one for each request served, in the order of the requests, each a
    response frame with the call id and the method id of its request. *)
Theorem session_answers {A : Asio} {App} (cfg : session_config App) sock app0 es app s :
  run_events (session_step cfg) es (app0, session_init sock) = Some (app, s) ->
  filter is_response (posted s) = snd <$> served s /\ Forall answers (served s).
Proof. intros Hr. by destruct (session_invariants _ _ _ _ _ _ Hr) as [_ []]. Qed.

Lemma session_answers_witness :
  match echo_final with
  | Some (_, s) => length (filter is_response (posted s)) = 2
  | None => False
  end.
Proof.
  unfold echo_final. cbv beta iota.
  match goal with |- context [posted ?s] =>
    destruct (session_answers (A := pipe_asio) echo_config echo_socket O echo_events 1%nat s)
      as [Hf _]
  end; [by vm_compute|]. by rw Hf.
Defined.

(** The handshake gates the service: a session serves a request only if
    the bytes it received start with its handshake header and [on_handshake_]
    accepted them, and the requests it served are then the frames that
    follow the header in the received bytes, in order and without gaps. *)
Theorem session_handshake_gate {A : Asio} `{!AsioStream A} {App} (cfg : session_config App)
    sock app0 es app s :
  run_events (session_step cfg) es (app0, session_init sock) = Some (app, s) ->
  served s <> [] ->
  gate cfg (incoming sock)
  /\ ~ handshake_pending (run s)
  /\ exists raws rest, incoming sock = handshake_header_ cfg ++ concat raws ++ rest
    /\ Forall2 raw_frame raws (fst <$> served s).
Proof.
  intros Hr Hs. destruct (read_invariant _ _ _ _ _ _ Hr) as [_ Hp Ha].
  assert (~ handshake_pending (run s)) as Hnp by auto.
  destruct Ha as [[]|(Hg & raws & rest & Hin & Hf & _)]; [|done|].
  - intros ?. apply Hnp. by left.
  - split_and!; try done. by exists raws, rest.
Qed.

Lemma session_handshake_gate_witness :
  exists raws rest, p_in echo_socket = bytes_of_string "pc1" ++ concat raws ++ rest
    /\ length raws = 2.
Proof.
  destruct echo_final as [[n s]|] eqn:E; [|done].
  destruct (session_handshake_gate (A := pipe_asio) echo_config echo_socket O echo_events n s)
    as (_ & _ & raws & rest & Hin & Hf).
  - rw -E. by vm_compute.
  - unfold echo_final in E. by simplify_eq.
  - exists raws, rest. split; [done|]. rw (Forall2_length _ _ _ Hf).
    unfold echo_final in E. by simplify_eq.
Defined.

(** The callbacks of a connection: [on_connect_] is called first and once,
    [on_disconnect_] last and once, exactly when [Run] is over however it
    ended (end of stream, refused handshake, exception of a handler), and the
    interceptor is called once for each request served, in order, with the
    payloads and the status code of the answer. *)
Theorem session_callbacks {A : Asio} {App} (cfg : session_config App) sock app0 es app s :
  run_events (session_step cfg) es (app0, session_init sock) = Some (app, s) ->
  run s <> RunNotStarted ->
  exists mid,
    log s = connect_log cfg ++ mid
            ++ (if decide (run_over (run s)) then disconnect_log cfg else [])
    /\ Forall (fun l => ~ is_bracket l) mid
    /\ (interceptor_ cfg = true -> Forall2 traces (filter is_intercept mid) (served s)).
Proof.
  intros Hr Hn. destruct (log_invariant _ _ _ _ _ _ Hr) as [(mid & Hl & Hb & _ & Ht)].
  rw (decide_False (P := run s = RunNotStarted)) // in Hl. by exists mid.
Qed.

Lemma session_callbacks_witness :
  match echo_final with
  | Some (_, s) => exists mid, log s = [LConnect] ++ mid ++ [LDisconnect]
      /\ Forall2 traces (filter is_intercept mid) (served s)
  | None => False
  end.
Proof.
  unfold echo_final. cbv beta iota.
  match goal with |- context [log ?s] =>
    destruct (session_callbacks (A := pipe_asio) echo_config echo_socket O echo_events 1%nat s)
      as (mid & Hl & _ & Ht)
  end; [by vm_compute|done|]. exists mid. by split; [|apply Ht].
Defined.

(** No frame is stranded: a write pump exists exactly while
    [write_pump_active_] is set, so there is never a second one, and whenever
    a frame waits in [write_queue_] a pump is there to write it. *)
Theorem session_pump_active {A : Asio} {App} (cfg : session_config App) sock app0 es app s :
  run_events (session_step cfg) es (app0, session_init sock) = Some (app, s) ->
  (write_pump_active_ s = true <-> pump s <> PumpNone)
  /\ (write_queue_ s <> [] -> exists s', WritePump s = Some s').
Proof.
  intros Hr. destruct (session_invariants _ _ _ _ _ _ Hr) as [[Ha Hq _] _].
  split; [done|]. intros Hne. unfold WritePump. destruct (pump s) as [| |h p].
  - by destruct Hne; apply Hq.
  - eauto.
  - destruct (AsyncTransport_WriteFrame _ _ _). case_match; eauto.
Qed.

Lemma session_pump_active_witness :
  match run_events (session_step echo_config) [CallSend 9 []; CallSend 9 []; StrandStep; StrandStep]
      (O, session_init (A := pipe_asio) echo_socket) with
  | Some (_, s) => write_queue_ s <> [] /\ exists s', WritePump s = Some s'
  | None => False
  end.
Proof.
  match goal with |- context [run_events ?st ?es ?i] =>
    destruct (run_events st es i) as [[n s]|] eqn:E; [|done];
    destruct (session_pump_active (A := pipe_asio) echo_config echo_socket O es n s E) as [_ Hp]
  end.
  simpl in E. simplify_eq. split; [done|by apply Hp].
Defined.

(** The status of an answer: when the handler of a request returns, the
    status code field of the response, read as a status code, is the code the
    handler returned if and only if that code fits in sixteen bits; an error
    carries no payload, a success the handler's bytes; a request without a
    handler is answered UNIMPLEMENTED without a payload and leaves the
    application state alone. *)
Theorem process_request_status {App} (cfg : session_config App) app h p :
  match handlers_ cfg !! method_id h with
  | None => exists l, process_request cfg app h p
      = (app, l, Some (response_header h UNIMPLEMENTED [], []))
  | Some handler =>
    match handler app (request_context cfg h) p with
    | Threw app' => process_request cfg app h p = (app', [], None)
    | Returned app' ctx' st resp => exists l rh rp,
        process_request cfg app h p = (app', l, Some (rh, rp))
        /\ rp = (if ok st then resp else [])
        /\ (code_canonical (error_code st) ->
            code_of_int (status_code rh) = error_code st <-> is_u16 (code_to_int (error_code st)))
    end
  end.
Proof.
  unfold process_request. destruct (handlers_ cfg !! method_id h) as [handler|]; [|by eexists].
  destruct (handler app _ p) as [app' ctx st resp|]; [|done].
  assert (forall c, code_canonical c ->
    code_of_int (u16 (code_to_int c)) = c <-> is_u16 (code_to_int c)) as Hc.
  { intros c Hcan. split; intros H.
    - rw -H code_to_of_int. auto with protocomm.
    - by rw u16_small // code_of_to_int. }
  destruct (ok st) eqn:E; simpl; eexists _, _, _; (split; [done|]); (split; [done|]);
    simpl; [|apply Hc].
  intros Hcan. apply ok_spec in E. unfold error_code in *.
  rw -(code_of_to_int _ Hcan) E /=. done.
Qed.

(** A session does its work: on a healthy connection whose peer sent the
    handshake header and a list of well-formed requests, if the handlers
    return, there is a schedule after which the session has answered every
    one of them: it has transmitted its handshake reply and the responses in
    order, consumed exactly the handshake and the requests, and waits for
    the next request with nothing left to write. *)
Theorem session_serves_requests {A : Asio} `{!AsioStream A} `{!AsioReliable A} {App}
    (cfg : session_config App) sock app reqs rest app' resps :
  healthy sock -> gate cfg (incoming sock) ->
  incoming sock = handshake_header_ cfg ++ concat (encode_frame <$> reqs) ++ rest ->
  Forall frame_wf reqs -> Forall (fun f => type f.1 = kRequest) reqs ->
  process_all cfg app reqs = Some (app', resps) ->
  exists s, run_events (session_step cfg)
      (open_events cfg ++ concat (replicate (length reqs) serve_events))
      (app, session_init sock) = Some (app', s)
    /\ idle s /\ served s = zip reqs resps
    /\ incoming (socket_ s) = rest
    /\ outgoing (socket_ s)
       = outgoing sock ++ handshake_header_ cfg ++ concat (encode_frame <$> resps).
Proof.
  intros Hh Hg Hin Hwf Ht Hp.
  destruct (open_run cfg sock app _ Hh Hg Hin) as (s1 & Hr1 & Hid1 & Hs1 & Hh1 & Hin1 & Ho1).
  destruct (serve_all_run cfg reqs app s1 rest app' resps Hid1 Hh1 Hwf Ht Hin1 Hp)
    as (s2 & Hr2 & Hid2 & Hs2 & _ & Hin2 & Ho2).
  exists s2. rw run_events_app Hr1 /= Hr2 Hs2 Hs1 Ho2 Ho1 app_nil_l app_assoc //.
Qed.

Lemma session_serves_requests_witness :
  exists s, run_events (session_step echo_config)
      (open_events echo_config ++ concat (replicate 2 serve_events))
      (O, session_init (A := pipe_asio) echo_socket) = Some (1%nat, s)
    /\ p_out (socket_ s) = bytes_of_string "pc1"
       ++ encode_frame (mkHeader kResponse 0 1 7 3, bytes_of_string "abc")
       ++ encode_frame (mkHeader kResponse 12 2 8 0, []).
Proof.
  destruct (session_serves_requests (A := pipe_asio) echo_config echo_socket O echo_requests []
    1%nat [(mkHeader kResponse 0 1 7 3, bytes_of_string "abc"); (mkHeader kResponse 12 2 8 0, [])])
    as (s & Hr & _ & _ & _ & Ho).
  - done.
  - split; [by exists (concat (encode_frame <$> echo_requests))|intros _ cb H]. simpl in H. by simplify_eq.
  - by vm_compute.
  - by repeat constructor.
  - by repeat constructor.
  - by vm_compute.
  - exists s. split; [exact Hr|]. etrans; [exact Ho|by vm_compute].
Defined.


