(* ===== verification/SessionSpec.v ===== *)
(** * SessionSpec: a session as a sequential service

    The abstract specification of a session: the requests of the connection
    are processed one after the other, as [process_all] does, whatever the
    strand, the write pump and the senders of pushes do in between.  And the
    types of what it transmits: every frame posted has the fields of its C++
    type and announces the length of its own payload. *)

From S2P Require Import Prelude.
From S2P Require Import Status.
From S2P Require Import Frame.
From S2P Require Import Transport.
From S2P Require Import Session.

Open Scope nat_scope.

(** ** Vocabulary *)

(** Payloads of less than 4 GiB, whose length fits the [payload_size] field. *)
Definition small (p : bytes) : Prop := is_u32 (size_of p).

(** Handlers whose responses are small. *)
Definition small_responses {App} (cfg : session_config App) : Prop :=
  forall mid handler app ctx req app' ctx' st resp,
    handlers_ cfg !! mid = Some handler ->
    handler app ctx req = Returned app' ctx' st resp -> small resp.

(** A push with a [uint32_t] method and a small payload. *)
Definition small_push (e : session_event) : Prop :=
  match e with CallSend mid payload => is_u32 mid /\ small payload | _ => True end.

Section Sequential.
Context {A : Asio} {App : Type}.
Variable cfg : session_config App.
Implicit Types (s : session) (app : App).

Lemma process_all_snoc app reqs app1 resps h p app2 l resp :
  process_all cfg app reqs = Some (app1, resps) ->
  process_request cfg app1 h p = (app2, l, Some resp) ->
  process_all cfg app (reqs ++ [(h, p)]) = Some (app2, resps ++ [resp]).
Proof.
  intros Hall Hp. revert app resps Hall.
  induction reqs as [|[h' p'] reqs IH]; intros app resps Hall; simpl in *.
  - simplify_eq. by rw Hp.
  - destruct (process_request cfg app h' p') as [[app' l'] [r|]]; [|done].
    destruct (process_all cfg app' reqs) as [[app'' resps']|] eqn:E; [|done]. simplify_eq.
    by rw (IH _ _ E).
Qed.

(** The requests served so far are a run of the sequential service. *)
Definition sequential app0 app s : Prop :=
  exists app1, process_all cfg app0 (fst <$> served s) = Some (app1, snd <$> served s)
    /\ (run s <> RunThrew -> app = app1).

Lemma sequential_step app0 e app s app' s' :
  sequential app0 app s -> session_step cfg e (app, s) = Some (app', s') -> sequential app0 app' s'.
Proof.
  intros (app1 & Hall & Happ). destruct e; simpl.
  - destruct (run s) eqn:Er; [..|by rw /Run Er|by rw /Run Er];
      [unfold Run, run_leave; rw Er; repeat case_match; intros; simplify_eq; exists app1;
       (split; [done|]); intros _; by apply Happ..|].
    rw (Happ ltac:(done)) /Run Er.
    destruct (AsyncTransport_ReadFrame _ _ _) as [[[sock h] p] st].
    destruct (negb (ok st)); [intros; simplify_eq; by exists app'|].
    destruct (negb (type_eqb _ _)); [intros; simplify_eq; by exists app'|].
    destruct (process_request cfg app1 h p) as [[app2 l] [[rh rp]|]] eqn:Ep; intros; simplify_eq.
    + exists app'. simpl. rw !fmap_app /=. split; [by eapply process_all_snoc|done].
    + by exists app1.
  - destruct (strand_step s) as [s1|] eqn:E; intros; simplify_eq/=. revert E.
    unfold strand_step, enqueue_closure. repeat case_match; intros; simplify_eq; by exists app1.
  - destruct (WritePump s) as [s1|] eqn:E; intros; simplify_eq/=. revert E.
    unfold WritePump, pump_loop. repeat case_match; intros; simplify_eq; by exists app1.
  - intros; simplify_eq. by exists app1.
  - intros; simplify_eq. by exists app1.
Qed.

Lemma session_sequential sock app0 es app s :
  run_events (session_step cfg) es (app0, session_init sock) = Some (app, s) ->
  sequential app0 app s.
Proof.
  intros Hr. apply (run_events_invariant (session_step cfg) (fun st => sequential app0 st.1 st.2)) in Hr;
    [done| |by exists app0].
  intros e [a1 s1] [a2 s2] H Hstep. by eapply sequential_step.
Qed.

(** ** Types *)

Lemma process_request_wf app h p app' l f :
  small_responses cfg -> header_wf h -> process_request cfg app h p = (app', l, Some f) -> frame_wf f.
Proof.
  intros Hsm Hw. unfold process_request.
  assert (forall code resp, small resp -> frame_wf (response_header h code resp, resp)) as Hf.
  { intros code resp Hr. split; simpl; [|by rw u32_small].
    constructor; simpl; try apply Hw; try by auto with protocomm. }
  assert (small []) as Hnil by done.
  destruct (handlers_ cfg !! method_id h) as [handler|] eqn:Eh; [|intros; simplify_eq; by apply Hf].
  destruct (handler app _ p) as [app1 ctx st resp|] eqn:Er; [|done].
  destruct (ok st); simpl; intros; simplify_eq; apply Hf; [|done]. by eapply Hsm.
Qed.

Lemma posted_typed_step e app s app' s' :
  small_responses cfg -> small_push e ->
  Forall frame_wf (posted s) -> session_step cfg e (app, s) = Some (app', s') ->
  Forall frame_wf (posted s').
Proof.
  intros Hsm He Hp. destruct e as [| | |mid payload|]; simpl in *.
  - destruct (run s) eqn:Er; [..|by rw /Run Er|by rw /Run Er];
      [unfold Run, run_leave; rw Er; repeat case_match; intros; by simplify_eq..|].
    intros Hr. apply Run_frame in Hr as (sock & h & p & st & E & [(pc & Hpc & ->)|Hr]); [done| |done].
    destruct Hr as (rh & rp & l & Hok & Ht & Ep & ->). simpl. apply Forall_app. split; [done|].
    constructor; [|done]. eapply process_request_wf; [done| |exact Ep]. by eapply ReadFrame_header_wf.
  - destruct (strand_step s) as [s1|] eqn:E; intros; simplify_eq/=. revert E.
    unfold strand_step, enqueue_closure. repeat case_match; intros; by simplify_eq.
  - destruct (WritePump s) as [s1|] eqn:E; intros; simplify_eq/=. revert E.
    unfold WritePump, pump_loop. repeat case_match; intros; by simplify_eq.
  - intros; simplify_eq. simpl. destruct He as [Hm Hs]. apply Forall_app. split; [done|].
    constructor; [|done]. split; simpl; [|by rw u32_small].
    by constructor; simpl; auto with protocomm.
  - intros. by simplify_eq.
Qed.

Lemma session_typed sock app0 es app s :
  run_events (session_step cfg) es (app0, session_init sock) = Some (app, s) ->
  small_responses cfg -> Forall small_push es -> Forall frame_wf (posted s).
Proof.
  intros Hr Hsm.
  assert (Forall small_push es -> Forall frame_wf (posted (app, s).2)) as H; [|exact H].
  revert Hr. generalize (app, s). revert es.
  apply (run_events_trace_invariant (session_step cfg) (app0, session_init sock)
    (fun es st => Forall small_push es -> Forall frame_wf (posted st.2))); [done|].
  intros es e [a1 s1] [a2 s2] IH Hstep [Hes [He _]%Forall_cons]%Forall_app.
  eapply posted_typed_step; [done..|by apply IH|done].
Qed.

(** A session transmits responses and pushes only. *)
Definition server_frame (f : FrameHeader * bytes) : Prop := type f.1 = kResponse \/ type f.1 = kPush.

Lemma server_frames_step e app s app' s' :
  Forall server_frame (posted s) -> session_step cfg e (app, s) = Some (app', s') ->
  Forall server_frame (posted s').
Proof.
  intros H. destruct e as [| | |mid payload|]; simpl.
  - destruct (run s) eqn:Er; [..|by rw /Run Er|by rw /Run Er];
      [unfold Run, run_leave; rw Er; repeat case_match; intros; by simplify_eq..|].
    intros Hrun. apply Run_frame in Hrun as (sk & h & p & st & _ & [(pc & _ & ->)|Hrun]); [done| |done].
    destruct Hrun as (rh & rp & l & _ & Ht & Ep & ->). simpl. apply Forall_app. split; [done|].
    constructor; [|done]. left. by apply process_request_answers in Ep as (_ & ? & _).
  - destruct (strand_step s) eqn:E; intros; simplify_eq/=. revert E.
    unfold strand_step, enqueue_closure. repeat case_match; intros; by simplify_eq.
  - destruct (WritePump s) eqn:E; intros; simplify_eq/=. revert E.
    unfold WritePump, pump_loop. repeat case_match; intros; by simplify_eq.
  - intros; simplify_eq. simpl. apply Forall_app. split; [done|]. constructor; [by right|done].
  - intros. by simplify_eq.
Qed.

Lemma server_frames sock app0 es app s :
  run_events (session_step cfg) es (app0, session_init sock) = Some (app, s) ->
  Forall server_frame (posted s).
Proof.
  intros Hr.
  apply (run_events_invariant (session_step cfg) (fun st => Forall server_frame (posted st.2))) in Hr;
    [done| |done].
  intros e [a1 s1] [a2 s2]. by apply server_frames_step.
Qed.
End Sequential.

(** ** Properties *)

(** C12: a session refines the sequential service: in every interleaving of
    [Run] with the strand, the write pump, pushes and [Close], the responses
    posted and the state of the application are those of processing the
    served requests one after the other in the order they arrived; only a
    handler that throws may leave the application in another state, and then
    the session is over. *)
Theorem session_refines_sequential {A : Asio} {App} (cfg : session_config App) sock app0 es app s :
  run_events (session_step cfg) es (app0, session_init sock) = Some (app, s) ->
  exists app1,
    process_all cfg app0 (fst <$> served s) = Some (app1, filter is_response (posted s))
    /\ (run s <> RunThrew -> app = app1).
Proof.
  intros Hr. destruct (session_sequential _ _ _ _ _ _ Hr) as (app1 & Hall & Happ).
  destruct (session_invariants _ _ _ _ _ _ Hr) as [_ [Ho _]]. exists app1. by rw Ho.
Qed.

Lemma session_refines_sequential_witness :
  match echo_final with
  | Some (n, s) => process_all echo_config O (fst <$> served s)
      = Some (1, filter is_response (posted s)) /\ n = 1
  | None => False
  end.
Proof.
  destruct echo_final as [[n s]|] eqn:E; [|done].
  destruct (session_refines_sequential (A := pipe_asio) echo_config echo_socket O echo_events n s)
    as (app1 & Hall & Happ); [rw -E; by vm_compute|].
  assert (n = 1 /\ run s <> RunThrew) as [-> Hn] by (unfold echo_final in E; by simplify_eq).
  by rw Hall -(Happ Hn).
Defined.

(** What a session transmits is well typed: when pushes have a 32-bit
    method and, like the handlers' responses, less than 4 GiB of payload,
    every frame ever posted has fields within their C++ types and announces
    exactly the length of its payload, whatever the peer sends. *)
Theorem session_frames_typed {A : Asio} {App} (cfg : session_config App) sock app0 es app s :
  run_events (session_step cfg) es (app0, session_init sock) = Some (app, s) ->
  small_responses cfg -> Forall small_push es ->
  Forall frame_wf (posted s).
Proof. apply session_typed. Qed.

(** A service with one method, which answers in four bytes. *)
Definition pong_config : session_config nat :=
  mkConfig {[ 7%Z := fun n ctx _ => Returned (S n) ctx Status_default (bytes_of_string "pong") ]}
    (bytes_of_string "pc1") 1 "127.0.0.1:5000" true true None true.

Lemma pong_small : small_responses pong_config.
Proof.
  intros mid handler app ctx req app' ctx' st resp Hh Hr.
  unfold pong_config in Hh. cbn [handlers_] in Hh. apply lookup_singleton_Some in Hh as [_ <-].
  assert (bytes_of_string "pong" = resp) as <- by congruence. clear Hr. by vm_compute.
Qed.

Lemma session_frames_typed_witness :
  match run_events (session_step pong_config) echo_events (O, session_init (A := pipe_asio) echo_socket) with
  | Some (_, s) => Forall frame_wf (posted s) /\ length (posted s) = 3
  | None => False
  end.
Proof.
  destruct (run_events _ _ _) as [[n s]|] eqn:E; [|by vm_compute in E]. split.
  - apply (session_frames_typed _ _ _ _ _ _ E); clear E.
    + apply pong_small.
    + repeat (apply Forall_cons_2; [by vm_compute|]). apply Forall_nil_2.
  - vm_compute in E. by simplify_eq.
Defined.
