(* ===== verification/Server.v ===== *)
(** * Server: accepting, sessions, broadcast, builder

    Model of [c++/src/server.cc], [c++/src/server_impl.h] and
    [c++/src/server_builder.cc].  A server owns a map from connection ids to
    sessions; the sessions themselves are shared objects that outlive their
    entry, so the model keeps them in a heap.  A session refers to the
    server's handler map, not to a copy of it: a step of a session reads the
    handlers registered at that time.  The machine [server_step] interleaves
    the accept loop, the steps of all sessions and the calls on [Server]. *)

From S2P Require Import Prelude.
From S2P Require Import Status.
From S2P Require Import Frame.
From S2P Require Import Transport.
From S2P Require Import Session.

Open Scope nat_scope.

Section Server.
Context {A : Asio} {App : Type} `{!UnorderedIter nat}.

(** A [Session] object: what its constructor copied, its state, and whether
    the coroutine that runs it has come to its end. *)
Record session_object := mkObject {
  o_connection_id : Z;
  o_peer_address : string;
  o_handshake_header : bytes;
  o_on_connect : bool;
  o_on_disconnect : bool;
  o_on_handshake : option (bytes -> bool);
  o_interceptor : bool;
  o_session : session;
  o_finished : bool
}.

(** [Server::Impl], with the heap of sessions. *)
Record server := mkServer {
  bind_address : string;
  bind_port : Z;
  handshake_header : bytes;
  io_thread_count : Z;
  handlers : gmap Z (MethodHandler App);
  on_connect : bool;
  on_disconnect : bool;
  on_handshake : option (bytes -> bool);
  interceptor : bool;
  sessions : gmap Z nat;
  next_connection_id : Z;
  threads : nat;
  running : bool;
  heap : list session_object
}.

Definition server_init : server :=
  mkServer "" 0 [] 1 ∅ false false None false ∅ 1 0 false [].

Definition set_handlers (v : gmap Z (MethodHandler App)) (s : server) : server :=
  mkServer (bind_address s) (bind_port s) (handshake_header s) (io_thread_count s) v
    (on_connect s) (on_disconnect s) (on_handshake s) (interceptor s) (sessions s)
    (next_connection_id s) (threads s) (running s) (heap s).

Definition set_sessions (v : gmap Z nat) (s : server) : server :=
  mkServer (bind_address s) (bind_port s) (handshake_header s) (io_thread_count s) (handlers s)
    (on_connect s) (on_disconnect s) (on_handshake s) (interceptor s) v
    (next_connection_id s) (threads s) (running s) (heap s).

Definition set_heap (v : list session_object) (s : server) : server :=
  mkServer (bind_address s) (bind_port s) (handshake_header s) (io_thread_count s) (handlers s)
    (on_connect s) (on_disconnect s) (on_handshake s) (interceptor s) (sessions s)
    (next_connection_id s) (threads s) (running s) v.

Definition set_threads (n : nat) (run : bool) (s : server) : server :=
  mkServer (bind_address s) (bind_port s) (handshake_header s) (io_thread_count s) (handlers s)
    (on_connect s) (on_disconnect s) (on_handshake s) (interceptor s) (sessions s)
    (next_connection_id s) n run (heap s).

(** ** Registration and callbacks *)

Definition RegisterMethod (method_id : Z) (handler : MethodHandler App) (s : server) : server :=
  set_handlers (<[method_id := handler]> (handlers s)) s.

Definition SetOnConnect (cb : bool) (s : server) : server :=
  mkServer (bind_address s) (bind_port s) (handshake_header s) (io_thread_count s) (handlers s)
    cb (on_disconnect s) (on_handshake s) (interceptor s) (sessions s)
    (next_connection_id s) (threads s) (running s) (heap s).

Definition SetOnDisconnect (cb : bool) (s : server) : server :=
  mkServer (bind_address s) (bind_port s) (handshake_header s) (io_thread_count s) (handlers s)
    (on_connect s) cb (on_handshake s) (interceptor s) (sessions s)
    (next_connection_id s) (threads s) (running s) (heap s).

Definition SetOnHandshake (cb : option (bytes -> bool)) (s : server) : server :=
  mkServer (bind_address s) (bind_port s) (handshake_header s) (io_thread_count s) (handlers s)
    (on_connect s) (on_disconnect s) cb (interceptor s) (sessions s)
    (next_connection_id s) (threads s) (running s) (heap s).

Definition SetInterceptor (cb : bool) (s : server) : server :=
  mkServer (bind_address s) (bind_port s) (handshake_header s) (io_thread_count s) (handlers s)
    (on_connect s) (on_disconnect s) (on_handshake s) cb (sessions s)
    (next_connection_id s) (threads s) (running s) (heap s).

(** ** The accept loop *)

(** What a session runs with: its own copies, and the server's handlers. *)
Definition object_config (s : server) (o : session_object) : session_config App :=
  mkConfig (handlers s) (o_handshake_header o) (o_connection_id o) (o_peer_address o)
    (o_on_connect o) (o_on_disconnect o) (o_on_handshake o) (o_interceptor o).

Definition new_object (s : server) (sock : socket) (ep : option (string * Z)) : session_object :=
  mkObject (next_connection_id s) (session_peer_address ep) (handshake_header s)
    (on_connect s) (on_disconnect s) (on_handshake s) (interceptor s) (session_init sock) false.

(** One round of [AcceptLoop]: a socket with its remote endpoint. *)
Definition AcceptLoop (sock : socket) (ep : option (string * Z)) (s : server) : server :=
  let conn_id := next_connection_id s in
  mkServer (bind_address s) (bind_port s) (handshake_header s) (io_thread_count s) (handlers s)
    (on_connect s) (on_disconnect s) (on_handshake s) (interceptor s)
    (<[conn_id := length (heap s)]> (sessions s))
    (u64 (conn_id + 1)) (threads s) (running s) (heap s ++ [new_object s sock ep]).

Definition set_session (sess : session) (o : session_object) : session_object :=
  mkObject (o_connection_id o) (o_peer_address o) (o_handshake_header o) (o_on_connect o)
    (o_on_disconnect o) (o_on_handshake o) (o_interceptor o) sess (o_finished o).

Definition set_finished (o : session_object) : session_object :=
  mkObject (o_connection_id o) (o_peer_address o) (o_handshake_header o) (o_on_connect o)
    (o_on_disconnect o) (o_on_handshake o) (o_interceptor o) (o_session o) true.

(** A step of session [i]. *)
Definition object_step (i : nat) (e : session_event) (app : App) (s : server) : option (App * server) :=
  match heap s !! i with
  | None => None
  | Some o =>
    match session_step (object_config s o) e (app, o_session o) with
    | None => None
    | Some (app', sess) => Some (app', set_heap (<[i := set_session sess o]> (heap s)) s)
    end
  end.

(** The coroutine [wrapped] after [Run]: it erases the entry; an exception of
    [Run] passes through it. *)
Definition wrapped_end (i : nat) (s : server) : option server :=
  match heap s !! i with
  | None => None
  | Some o =>
    if o_finished o then None
    else
      match run (o_session o) with
      | RunDone => Some (set_sessions (delete (o_connection_id o) (sessions s))
                          (set_heap (<[i := set_finished o]> (heap s)) s))
      | RunThrew => Some (set_heap (<[i := set_finished o]> (heap s)) s)
      | _ => None
      end
  end.

(** ** Connections and broadcast *)

Definition GetConnections (s : server) : list nat := (iter_entries (sessions s)).*2.

(** [session->Send(method_id, payload)] on object [i]. *)
Definition send_to (method_id : Z) (payload : bytes) (h : list session_object) (i : nat)
    : list session_object :=
  match h !! i with
  | Some o => <[i := set_session (Send method_id payload (o_session o)) o]> h
  | None => h
  end.

Definition Broadcast (method_id : Z) (payload : bytes) (s : server) : server :=
  let snapshot := (iter_entries (sessions s)).*2 in
  set_heap (foldl (send_to method_id payload) (heap s) snapshot) s.

(** ** Start, Shutdown *)

(** [for (int i = 0; i < io_thread_count; ++i)]: no thread for a count of
    zero or less. *)
Definition Start (s : server) : server * Status :=
  (set_threads (threads s + Z.to_nat (io_thread_count s)) true s, Status_default).

Definition Shutdown (s : server) : server :=
  if negb (running s) then s else set_threads 0 false s.

(** ** The machine

    While the server runs and has io threads, connections come in and
    sessions make progress; [Shutdown] stops the io context. *)
Inductive server_event :=
| Accept (sock : socket) (ep : option (string * Z))
| SessionStep (i : nat) (e : session_event)
| SessionEnd (i : nat)
| DoBroadcast (method_id : Z) (payload : bytes)
| DoRegister (method_id : Z) (handler : MethodHandler App)
| DoShutdown.

Definition server_step (e : server_event) (st : App * server) : option (App * server) :=
  let '(app, s) := st in
  let io (r : option (App * server)) := if running s && (0 <? threads s) then r else None in
  match e with
  | Accept sock ep => io (Some (app, AcceptLoop sock ep s))
  | SessionStep i e => io (object_step i e app s)
  | SessionEnd i => io (option_map (pair app) (wrapped_end i s))
  | DoBroadcast mid payload => Some (app, Broadcast mid payload s)
  | DoRegister mid h => Some (app, RegisterMethod mid h s)
  | DoShutdown => Some (app, Shutdown s)
  end.

(** ** ServerBuilder *)

(** A service registers its methods one after the other. *)
Abbreviation Service := (list (Z * MethodHandler App)).

Definition RegisterWith (svc : Service) (s : server) : server :=
  foldl (fun s '(mid, h) => RegisterMethod mid h s) s svc.

Record builder_config := mkBuilder {
  b_address : string;
  b_port : Z;
  b_handshake_header : bytes;
  b_services : list Service;
  b_io_thread_count : Z;
  b_on_connect : bool;
  b_on_disconnect : bool;
  b_on_handshake : option (bytes -> bool);
  b_interceptor : bool
}.

Definition ServerBuilder : builder_config :=
  mkBuilder "0.0.0.0" 0 (bytes_of_string "pc1") [] 1 false false None false.

Definition AddListeningPort (address : string) (port : Z) (b : builder_config) : builder_config :=
  mkBuilder address port (b_handshake_header b) (b_services b) (b_io_thread_count b)
    (b_on_connect b) (b_on_disconnect b) (b_on_handshake b) (b_interceptor b).

Definition SetHandshakeHeader (header : bytes) (b : builder_config) : builder_config :=
  mkBuilder (b_address b) (b_port b) header (b_services b) (b_io_thread_count b)
    (b_on_connect b) (b_on_disconnect b) (b_on_handshake b) (b_interceptor b).

Definition RegisterService (svc : Service) (b : builder_config) : builder_config :=
  mkBuilder (b_address b) (b_port b) (b_handshake_header b) (b_services b ++ [svc])
    (b_io_thread_count b) (b_on_connect b) (b_on_disconnect b) (b_on_handshake b) (b_interceptor b).

Definition SetIoThreadCount (count : Z) (b : builder_config) : builder_config :=
  mkBuilder (b_address b) (b_port b) (b_handshake_header b) (b_services b) count
    (b_on_connect b) (b_on_disconnect b) (b_on_handshake b) (b_interceptor b).

Definition Builder_SetOnConnect (cb : bool) (b : builder_config) : builder_config :=
  mkBuilder (b_address b) (b_port b) (b_handshake_header b) (b_services b) (b_io_thread_count b)
    cb (b_on_disconnect b) (b_on_handshake b) (b_interceptor b).

Definition Builder_SetOnDisconnect (cb : bool) (b : builder_config) : builder_config :=
  mkBuilder (b_address b) (b_port b) (b_handshake_header b) (b_services b) (b_io_thread_count b)
    (b_on_connect b) cb (b_on_handshake b) (b_interceptor b).

Definition Builder_SetOnHandshake (cb : option (bytes -> bool)) (b : builder_config)
    : builder_config :=
  mkBuilder (b_address b) (b_port b) (b_handshake_header b) (b_services b) (b_io_thread_count b)
    (b_on_connect b) (b_on_disconnect b) cb (b_interceptor b).

Definition Builder_SetInterceptor (cb : bool) (b : builder_config) : builder_config :=
  mkBuilder (b_address b) (b_port b) (b_handshake_header b) (b_services b) (b_io_thread_count b)
    (b_on_connect b) (b_on_disconnect b) (b_on_handshake b) cb.

Definition BuildAndStart (b : builder_config) : server :=
  let s0 := server_init in
  let s1 := mkServer (b_address b) (b_port b) (b_handshake_header b) (b_io_thread_count b)
              (handlers s0) (on_connect s0) (on_disconnect s0) (on_handshake s0) (interceptor s0)
              (sessions s0) (next_connection_id s0) (threads s0) (running s0) (heap s0) in
  let s2 := if b_on_connect b then SetOnConnect (b_on_connect b) s1 else s1 in
  let s3 := if b_on_disconnect b then SetOnDisconnect (b_on_disconnect b) s2 else s2 in
  let s4 := if b_on_handshake b is Some cb then SetOnHandshake (Some cb) s3 else s3 in
  let s5 := if b_interceptor b then SetInterceptor (b_interceptor b) s4 else s4 in
  let s6 := foldl (fun s svc => RegisterWith svc s) s5 (b_services b) in
  (Start s6).1.
End Server.

(** ** Lemmas *)

(** The id of the [i]-th connection. *)
Definition nth_connection_id (i : nat) : Z := u64 (Z.of_nat i + 1).

Lemma nth_connection_id_inj i j :
  (Z.of_nat i < 2 ^ 64)%Z -> (Z.of_nat j < 2 ^ 64)%Z ->
  nth_connection_id i = nth_connection_id j -> i = j.
Proof. unfold nth_connection_id, u64. intros Hi Hj. by apply counter_inj. Qed.

(** [Run] that is over stays as it is. *)
Lemma run_over_step {A : Asio} {App} (cfg : session_config App) e app s app' s' :
  session_step cfg e (app, s) = Some (app', s') -> run_over (run s) -> run s' = run s.
Proof.
  intros Hstep Ho. destruct e; simpl in Hstep.
  - unfold Run in Hstep. by destruct Ho as [E|E]; rw E in Hstep.
  - revert Hstep. unfold strand_step, enqueue_closure.
    repeat case_match; intros; simplify_option_eq; repeat case_match; by simplify_eq/=.
  - revert Hstep. unfold WritePump, pump_loop.
    repeat case_match; intros; simplify_option_eq; repeat case_match; by simplify_eq/=.
  - by simplify_eq.
  - by simplify_eq.
Qed.

Section Sessions.
Context {A : Asio} {App : Type} `{!UnorderedIter nat}.
Abbreviation server := (server (A := A) (App := App)).
Implicit Types (s : server) (o : session_object (A := A)).

(** Whether a session still has its entry: it runs, or an exception ended it. *)
Definition entered o : Prop := o_finished o = false \/ run (o_session o) = RunThrew.

Record server_inv s : Prop := {
  sv_next : next_connection_id s = nth_connection_id (length (heap s));
  sv_ids i o : heap s !! i = Some o -> o_connection_id o = nth_connection_id i;
  sv_over i o : heap s !! i = Some o -> o_finished o = true -> run_over (run (o_session o));
  sv_entry id i : sessions s !! id = Some i <->
    exists o, heap s !! i = Some o /\ o_connection_id o = id /\ entered o
}.

(** Changing an object without touching its id: its entry must stay right. *)
Lemma server_inv_update i o o' s :
  server_inv s -> heap s !! i = Some o -> o_connection_id o' = o_connection_id o ->
  (o_finished o' = true -> run_over (run (o_session o'))) -> (entered o' <-> entered o) ->
  server_inv (set_heap (<[i := o']> (heap s)) s).
Proof.
  intros [Hn Hid Hov Hen] Ho Hoid Hfin Hent.
  assert (i < length (heap s)) as Hi by (by eapply lookup_lt_Some).
  constructor; simpl.
  - by rw length_insert.
  - intros j oj. rw list_lookup_insert. case_decide as Hd; [|apply Hid].
    destruct Hd as [<- _]. intros; simplify_eq. rw Hoid. by apply Hid.
  - intros j oj. rw list_lookup_insert. case_decide as Hd; [|apply Hov].
    intros E Ef. simplify_eq. by apply Hfin.
  - intros id j. rw Hen list_lookup_insert. case_decide as Hd; [destruct Hd as [<- _]|done].
    split.
    + intros (oj & Hoj & <- & He). rw Ho in Hoj. simplify_eq. exists o'. by rw Hent.
    + intros (oj & Hoj & <- & He). simplify_eq. exists o. by rw -Hent.
Qed.

Lemma server_inv_accept sock ep s :
  server_inv s -> (Z.of_nat (length (heap s)) < 2 ^ 64)%Z -> server_inv (AcceptLoop sock ep s).
Proof.
  intros [Hn Hid Hov Hen] Hl. constructor; simpl.
  - rw length_app Hn /nth_connection_id /u64 Zplus_mod_idemp_l. f_equal. simpl. lia.
  - intros i o [?|[Hge Ho]]%lookup_app_Some; [by apply Hid|].
    apply list_lookup_singleton_Some in Ho as [Ei <-].
    assert (i = length (heap s)) as -> by lia. done.
  - intros i o [?|[_ Ho]]%lookup_app_Some; [by eapply Hov|].
    by apply list_lookup_singleton_Some in Ho as [_ <-].
  - intros id i. rw lookup_insert. case_decide as Hd; [subst id|].
    + split.
      * intros; simplify_eq. eexists. rw lookup_app_r // Nat.sub_diag. split; [done|]. by split; [|left].
      * intros (o & Ho & Eo & _). apply lookup_app_Some in Ho as [Ho|[Hge Ho]].
        -- rw (Hid _ _ Ho) Hn in Eo. apply lookup_lt_Some in Ho as Hlt.
           apply nth_connection_id_inj in Eo; lia.
        -- apply list_lookup_singleton_Some in Ho as [Ei _]. f_equal. lia.
    + rw Hen. split; intros (o & Ho & Eo & Heo).
      * exists o. split; [|done]. by apply lookup_app_l_Some.
      * exists o. split; [|done]. apply lookup_app_Some in Ho as [Ho|[_ Ho]]; [done|].
        apply list_lookup_singleton_Some in Ho as [_ <-]. by destruct Hd.
Qed.

Lemma server_inv_end i s s' :
  server_inv s -> (Z.of_nat (length (heap s)) < 2 ^ 64)%Z -> wrapped_end i s = Some s' -> server_inv s'.
Proof.
  intros Hinv Hl. unfold wrapped_end. destruct (heap s !! i) as [o|] eqn:Ho; [|done].
  destruct (o_finished o) eqn:Hf; [done|]. destruct (run (o_session o)) eqn:Er; try done; intros; simplify_eq.
  - destruct Hinv as [Hn Hid Hov Hen]. assert (i < length (heap s)) as Hi by (by eapply lookup_lt_Some).
    constructor; simpl.
    + by rw length_insert.
    + intros j oj. rw list_lookup_insert. case_decide as Hd; [|apply Hid].
      destruct Hd as [<- _]. intros; simplify_eq. exact (Hid _ _ Ho).
    + intros j oj. rw list_lookup_insert. case_decide as Hd; [|apply Hov]. intros; simplify_eq. by left.
    + intros id j. rw lookup_delete list_lookup_insert. case_decide as Hd1; case_decide as Hd2.
      * split; [done|]. intros (oj & ? & _ & [?|?]); simplify_eq/=. congruence.
      * split; [done|]. intros (oj & Hoj & Eo & _). subst id. rw (Hid _ _ Ho) (Hid _ _ Hoj) in Eo.
        apply lookup_lt_Some in Hoj as Hj. apply nth_connection_id_inj in Eo; [|lia..]. subst. by destruct Hd2.
      * destruct Hd2 as [<- _]. rw Hen. split; intros (oj & ? & Eo & ?); simplify_eq.
      * apply Hen.
  - eapply server_inv_update; try done; [by right|]. unfold entered. simpl. rw Er Hf. tauto.
Qed.

Lemma server_inv_object_step i e app s app' s' :
  server_inv s -> object_step i e app s = Some (app', s') -> server_inv s'.
Proof.
  intros H. unfold object_step. destruct (heap s !! i) as [o|] eqn:Ho; [|done].
  destruct (session_step _ e _) as [[app1 sess]|] eqn:E; [|done]. intros; simplify_eq.
  assert (o_finished o = true -> run sess = run (o_session o)) as Hrun.
  { intros Hf. eapply run_over_step; [done|]. by eapply sv_over. }
  eapply server_inv_update; try done; simpl.
  - intros Hf. rw Hrun //. by eapply sv_over.
  - unfold entered. simpl. destruct (o_finished o); [|tauto]. by rw Hrun.
Qed.

(** Sending to a list of different objects. *)
Lemma send_all_lookup mid p (l : list nat) (h : list (session_object (A := A))) i :
  NoDup l ->
  foldl (send_to mid p) h l !! i
  = (fun o => if decide (i ∈ l) then set_session (Send mid p (o_session o)) o else o) <$> (h !! i).
Proof.
  intros Hnd. revert h. induction Hnd as [|j l Hj Hnd IH]; intros h; simpl.
  { by destruct (h !! i). }
  rw IH. unfold send_to. destruct (decide (j = i)) as [->|Hne].
  - destruct (h !! i) as [o|] eqn:E; [|by rw E].
    rw list_lookup_insert_eq; [by eapply lookup_lt_Some|]. simpl.
    repeat case_decide; try done; set_solver.
  - assert ((match h !! j with
      | Some o => <[j := set_session (Send mid p (o_session o)) o]> h | None => h end) !! i = h !! i) as ->.
    { destruct (h !! j); [by rw list_lookup_insert_ne|done]. }
    destruct (h !! i); simpl; [|done]. repeat case_decide; try done; set_solver.
Qed.

Lemma send_all_length mid p (l : list nat) (h : list (session_object (A := A))) :
  length (foldl (send_to mid p) h l) = length h.
Proof.
  revert h. induction l as [|j l IH]; intros h; simpl; [done|]. rw IH. unfold send_to.
  case_match; [apply length_insert|done].
Qed.

(** Different entries lead to different sessions. *)
Lemma connections_NoDup s : server_inv s -> NoDup (GetConnections s).
Proof.
  intros H. unfold GetConnections. rw (fmap_Permutation snd _ _ (iter_entries_perm (sessions s))).
  apply NoDup_fmap_2_strong; [|apply NoDup_map_to_list].
  intros [id i] [id' i'] Hin Hin' E. simpl in E. subst i'.
  apply elem_of_map_to_list in Hin, Hin'.
  apply (sv_entry _ H) in Hin as (o & Ho & <- & _). apply (sv_entry _ H) in Hin' as (o' & Ho' & <- & _).
  by simplify_eq.
Qed.

Lemma connections_listed s i :
  i ∈ GetConnections s <-> exists id, sessions s !! id = Some i.
Proof.
  unfold GetConnections. rw list_elem_of_fmap. split.
  - intros ([id j] & -> & Hin). exists id. by apply iter_entries_elem.
  - intros [id Hid]. exists (id, i). by rw iter_entries_elem.
Qed.

Lemma Broadcast_lookup mid p s i :
  server_inv s ->
  heap (Broadcast mid p s) !! i
  = (fun o => if decide (i ∈ GetConnections s) then set_session (Send mid p (o_session o)) o else o)
    <$> (heap s !! i).
Proof. intros H. apply send_all_lookup. by apply connections_NoDup. Qed.

Lemma server_inv_broadcast mid p s : server_inv s -> server_inv (Broadcast mid p s).
Proof.
  intros H.
  assert (forall i o, heap (Broadcast mid p s) !! i = Some o -> exists o', heap s !! i = Some o'
    /\ o_connection_id o = o_connection_id o' /\ o_finished o = o_finished o'
    /\ run (o_session o) = run (o_session o')) as Hb.
  { intros i o. rw Broadcast_lookup //. destruct (heap s !! i) as [o'|]; [|done]. simpl.
    intros E. exists o'. case_decide; by simplify_eq. }
  pose proof H as [Hn Hid Hov Hen]. constructor.
  - by rw /= send_all_length.
  - intros i o (o' & Ho & -> & _)%Hb. by apply Hid.
  - intros i o (o' & Ho & _ & Hf & ->)%Hb. rw Hf. by eapply Hov.
  - intros id i. change (sessions (Broadcast mid p s)) with (sessions s). rw Hen. split.
    + intros (o & Ho & Eo & He).
      exists (if decide (i ∈ GetConnections s) then set_session (Send mid p (o_session o)) o else o).
      rw Broadcast_lookup // Ho /=. split; [done|]. by case_decide.
    + intros (o & (o' & Ho & Eo & Ef & Er)%Hb & <- & He). exists o'. rw -Eo. unfold entered in *.
      by rw -Ef -Er.
Qed.

Lemma heap_grows e app s app' s' :
  server_step e (app, s) = Some (app', s') -> length (heap s) <= length (heap s').
Proof.
  intros Hstep.
  assert (forall r, (if running s && (0 <? threads s) then r else None) = Some (app', s') ->
    r = Some (app', s')) as Hio by (intros r; by case_match).
  destruct e; simpl in Hstep; try apply Hio in Hstep.
  - simplify_eq. rw /= length_app. lia.
  - revert Hstep. unfold object_step. repeat case_match; intros; simplify_eq; rw /= ?length_insert //.
  - destruct (wrapped_end i s) as [s1|] eqn:E; simplify_eq/=. revert E. unfold wrapped_end.
    repeat case_match; intros; simplify_eq; by rw /= length_insert.
  - simplify_eq. by rw /= send_all_length.
  - by simplify_eq.
  - simplify_eq. unfold Shutdown. destruct (running s); simpl; lia.
Qed.

Lemma server_inv_step e app s app' s' :
  server_inv s -> server_step e (app, s) = Some (app', s') ->
  (Z.of_nat (length (heap s')) < 2 ^ 64)%Z -> server_inv s'.
Proof.
  intros H Hstep Hl. pose proof (heap_grows _ _ _ _ _ Hstep) as Hle.
  assert (forall r, (if running s && (0 <? threads s) then r else None) = Some (app', s') ->
    r = Some (app', s')) as Hio by (intros r; by case_match).
  destruct e; simpl in Hstep; try apply Hio in Hstep.
  - simplify_eq. apply server_inv_accept; [done|lia].
  - by eapply server_inv_object_step.
  - destruct (wrapped_end i s) as [s1|] eqn:E; simplify_eq/=.
    eapply server_inv_end; [done| |done]. lia.
  - simplify_eq. by apply server_inv_broadcast.
  - simplify_eq. by destruct H.
  - simplify_eq. unfold Shutdown. destruct (running s); simpl; by destruct H.
Qed.

Lemma server_inv_run es app s app' s' :
  server_inv s -> run_events server_step es (app, s) = Some (app', s') ->
  (Z.of_nat (length (heap s')) < 2 ^ 64)%Z -> server_inv s' /\ length (heap s) <= length (heap s').
Proof.
  intros H Hr. apply run_events_reaches in Hr. remember (app', s') as st eqn:Est.
  revert app' s' Est. induction Hr as [|es e st1 st2 Hr IH Hstep]; intros app' s' Est Hl.
  { by simplify_eq. }
  subst st2. destruct st1 as [app1 s1].
  pose proof (heap_grows _ _ _ _ _ Hstep) as Hle.
  destruct (IH app1 s1 eq_refl) as [H1 Hle1]; [lia|].
  split; [by eapply server_inv_step|lia].
Qed.

Lemma server_init_inv (s : server) :
  heap s = [] -> sessions s = ∅ -> next_connection_id s = 1%Z -> server_inv s.
Proof.
  intros Hh Hs Hn. constructor; rw ?Hh ?Hs ?Hn //. intros id i. rw lookup_empty.
  split; [done|]. by intros (o & ? & _).
Qed.
End Sessions.

(** ** Properties *)

(** The registrations of a list of services, in order, and the one that
    counts for a method. *)
Definition last_handler {App} (mid : Z) (regs : list (Z * MethodHandler App))
    : option (MethodHandler App) :=
  snd <$> last (filter (fun r => r.1 = mid) regs).

Lemma register_all {A : Asio} {App} (regs : list (Z * MethodHandler App)) (s : server (A := A)) :
  foldl (fun s '(mid, h) => RegisterMethod mid h s) s regs
  = set_handlers (foldl (fun m '(mid, h) => <[mid := h]> m) (handlers s) regs) s.
Proof.
  revert s. induction regs as [|[mid h] regs IH]; intros s; simpl; [by destruct s|]. by rw IH.
Qed.

Lemma insert_all_lookup {V} (regs : list (Z * V)) (m : gmap Z V) mid :
  foldl (fun m '(mid, h) => <[mid := h]> m) m regs !! mid
  = match snd <$> last (filter (fun r => r.1 = mid) regs) with Some h => Some h | None => m !! mid end.
Proof.
  induction regs as [|[k h] regs IH] using rev_ind; [done|].
  rw foldl_app /= filter_app. destruct (decide (k = mid)) as [->|Hne].
  - rw lookup_insert_eq filter_cons_True //= last_snoc //.
  - rw lookup_insert_ne // IH filter_cons_False //= app_nil_r //.
Qed.

(** A built server is configured as the builder was: address, port,
    handshake header, callbacks; for every method the handler registered
    last, over all services in the order they were added; as many io threads
    as asked for, none for a count of zero or less, and it runs without
    connections, the first of which will get the id 1. *)
Theorem BuildAndStart_configures {A : Asio} {App} (b : builder_config (App := App)) mid :
  let s := BuildAndStart (A := A) b in
  handlers s !! mid = last_handler mid (concat (b_services b))
  /\ bind_address s = b_address b /\ bind_port s = b_port b
  /\ handshake_header s = b_handshake_header b
  /\ on_connect s = b_on_connect b /\ on_disconnect s = b_on_disconnect b
  /\ on_handshake s = b_on_handshake b /\ interceptor s = b_interceptor b
  /\ threads s = Z.to_nat (b_io_thread_count b) /\ running s = true
  /\ sessions s = ∅ /\ next_connection_id s = 1%Z.
Proof.
  intros s. subst s. unfold BuildAndStart.
  set (s5 := if b_interceptor b then _ else _).
  assert (forall svcs (s : server (A := A) (App := App)), foldl (fun s svc => RegisterWith svc s) s svcs
    = foldl (fun s '(mid, h) => RegisterMethod mid h s) s (concat svcs)) as Hfold.
  { induction svcs as [|svc svcs IH]; intros s; simpl; [done|]. by rw IH foldl_app. }
  rw Hfold register_all /=. unfold last_handler. rw insert_all_lookup.
  subst s5. destruct b as [? ? ? ? ? [] [] [] []]; simpl; split_and!; try done; by case_match.
Qed.

Lemma BuildAndStart_empty {A : Asio} {App} (b : builder_config (App := App)) :
  let s := BuildAndStart (A := A) b in
  heap s = [] /\ sessions s = ∅ /\ next_connection_id s = 1%Z.
Proof.
  assert (forall svcs (s : server (A := A) (App := App)),
    heap (foldl (fun s svc => RegisterWith svc s) s svcs) = heap s
    /\ sessions (foldl (fun s svc => RegisterWith svc s) s svcs) = sessions s
    /\ next_connection_id (foldl (fun s svc => RegisterWith svc s) s svcs) = next_connection_id s) as H.
  { induction svcs as [|svc svcs IH]; intros s; simpl; [done|].
    destruct (IH (RegisterWith svc s)) as (-> & -> & ->). unfold RegisterWith. by rw register_all. }
  unfold BuildAndStart. simpl. set (s5 := if b_interceptor b then _ else _).
  destruct (H (b_services b) s5) as (-> & -> & ->). subst s5. by destruct b as [? ? ? ? ? [] [] [] []].
Qed.

Lemma BuildAndStart_heap {A : Asio} {App} (b : builder_config (App := App)) :
  heap (BuildAndStart (A := A) b) = [].
Proof. apply BuildAndStart_empty. Qed.

Lemma BuildAndStart_inv {A : Asio} {App} (b : builder_config (App := App)) :
  server_inv (BuildAndStart (A := A) b).
Proof. destruct (BuildAndStart_empty (A := A) b) as (? & ? & ?). by apply server_init_inv. Qed.

(** C28: the session table is exact: in every run of a built server with fewer
    than [2 ^ 64] connections, connection id [id] leads to the [i]-th accepted
    session if and only if that session was given this id and its coroutine
    has not come to an end, or came to it by an exception; ids are given out
    in order from 1. *)
Theorem server_sessions_exact {A : Asio} {App} `{!UnorderedIter nat} (b : builder_config (App := App))
    app0 es app (s : server (A := A)) :
  run_events server_step es (app0, BuildAndStart b) = Some (app, s) ->
  (Z.of_nat (length (heap s)) < 2 ^ 64)%Z ->
  forall id i, sessions s !! id = Some i <->
    exists o, heap s !! i = Some o /\ o_connection_id o = id /\ id = (Z.of_nat i + 1)%Z /\ entered o.
Proof.
  intros Hr Hl id i.
  destruct (server_inv_run _ _ _ _ _ (BuildAndStart_inv b) Hr Hl) as [H _].
  rw (sv_entry _ H). split.
  - intros (o & Ho & E & He). exists o. split_and!; try done.
    rw -E (sv_ids _ H _ _ Ho). apply u64_small. apply lookup_lt_Some in Ho. unfold is_u64.
    unfold nth_connection_id. lia.
  - intros (o & Ho & E & _ & He). by exists o.
Qed.

(** A server with one method, whose handler throws. *)
Definition bomb_builder : builder_config (App := nat) :=
  RegisterService [(7%Z, fun n _ _ => Threw n)] (SetHandshakeHeader [] ServerBuilder).

Definition bomb_events : list (server_event (A := pipe_asio) (App := nat)) :=
  [Accept (A := pipe_asio)
     (mkPipe (encode_frame (mkHeader kRequest 0 1 7 0, [])) [] None true) (Some ("10.0.0.1", 5000%Z));
   Accept (A := pipe_asio) (mkPipe [] [] None true) None;
   SessionStep 0 RunStep; SessionStep 1 RunStep; SessionStep 0 RunStep; SessionStep 1 RunStep;
   SessionEnd 1; SessionEnd 0].

Lemma server_sessions_exact_witness :
  match run_events server_step bomb_events (O, BuildAndStart (A := pipe_asio) bomb_builder) with
  | Some (_, s) => sessions s !! 1%Z = Some O
  | None => False
  end.
Proof.
  destruct (run_events _ _ _) as [[n s]|] eqn:E; [|by vm_compute in E].
  assert (length (heap s) = 2) as Hl by (vm_compute in E; by simplify_eq).
  assert (exists o, heap s !! O = Some o /\ o_connection_id o = 1%Z /\ 1%Z = (Z.of_nat 0 + 1)%Z /\ entered o)
    as H.
  { vm_compute in E. simplify_eq. eexists. split; [done|]. split; [done|]. split; [done|]. by right. }
  apply (server_sessions_exact _ _ _ _ _ E); [rw Hl; lia|done].
Defined.

(** A broadcast reaches exactly the connections listed at that time: every
    listed session has the push posted once, after whatever it had posted
    before, and no other session is touched, in whatever order the hash map
    is visited. *)
Theorem broadcast_exact {A : Asio} {App} `{!UnorderedIter nat} (b : builder_config (App := App))
    app0 es app (s : server (A := A)) mid payload i :
  run_events server_step es (app0, BuildAndStart b) = Some (app, s) ->
  (Z.of_nat (length (heap s)) < 2 ^ 64)%Z ->
  let push := (mkHeader kPush 0 0 mid (u32 (size_of payload)), payload) in
  sessions (Broadcast mid payload s) = sessions s
  /\ ((exists id, sessions s !! id = Some i) ->
      exists o o', heap s !! i = Some o /\ heap (Broadcast mid payload s) !! i = Some o'
        /\ o' = set_session (EnqueueWrite push.1 push.2 (o_session o)) o
        /\ posted (o_session o') = posted (o_session o) ++ [push])
  /\ (~ (exists id, sessions s !! id = Some i) ->
      heap (Broadcast mid payload s) !! i = heap s !! i).
Proof.
  intros Hr Hl push.
  destruct (server_inv_run _ _ _ _ _ (BuildAndStart_inv b) Hr Hl) as [H _].
  split; [done|]. rw !Broadcast_lookup // -!connections_listed. split; intros Hi.
  - pose proof Hi as [id Hid]%connections_listed. apply (sv_entry _ H) in Hid as (o & Ho & _).
    exists o. rw Ho /= decide_True //. by eexists.
  - destruct (heap s !! i); simpl; [|done]. by rw decide_False.
Qed.

Lemma broadcast_exact_witness :
  match run_events server_step [Accept (A := pipe_asio) (mkPipe [] [] None true) None] (O, BuildAndStart (A := pipe_asio) bomb_builder) with
  | Some (_, s) => exists o', heap (Broadcast 9 [] s) !! O = Some o'
      /\ posted (o_session o') = [(mkHeader kPush 0 0 9 0, [])]
  | None => False
  end.
Proof.
  destruct (run_events _ _ _) as [[n s]|] eqn:E; [|by vm_compute in E].
  assert (length (heap s) = 1 /\ sessions s !! 1%Z = Some O
    /\ posted (A := pipe_asio) <$> (o_session <$> heap s !! O) = Some []) as (Hl & Hs & Hp)
    by (vm_compute in E; by simplify_eq).
  destruct (broadcast_exact _ _ _ _ _ 9 [] O E) as (_ & Hb & _); [rw Hl; lia|].
  destruct Hb as (o & o' & Ho & Ho' & _ & Hpo); [by exists 1%Z|]. exists o'. split; [done|].
  rw Ho /= in Hp. injection Hp as Hp. by rw Hpo Hp.
Defined.
