(* ===== verification/Proto.v ===== *)
(** * Proto: messages, and the code generated for a service

    Model of [c++/include/protocomm/protobuf.h] and [async_call.h], and of the
    code that [c++/protoc/generator.cpp] emits for a method: the stub's
    synchronous and asynchronous calls and the handler that [RegisterWith]
    registers.  The protobuf library is the parameter [Protobuf]. *)

From S2P Require Import Prelude.
From S2P Require Import Status.
From S2P Require Import Session.

Open Scope nat_scope.

(** ** The protobuf library

    [SerializeToArray] writes into a buffer of the given size and
    [ParseFromArray] reads from one; both take the size as an [int] and report
    failure with [false]. *)
Class Protobuf (M : Type) := {
  default_message : M;
  ByteSizeLong : M -> nat;
  SerializeToArray : M -> bytes -> Z -> bool * bytes;
  ParseFromArray : M -> bytes -> Z -> bool * M;
  PrintToString : M -> option bytes
}.

(** What is documented of it: a message that can be serialized
    ([serializable]: its required fields are set and it is smaller than
    2 GiB) is written as [ByteSizeLong] bytes, and parsing those bytes
    replaces a message by it. *)
Class ProtobufLaws (M : Type) `{!Protobuf M} := {
  serializable : M -> Prop;
  wire_bytes : M -> bytes;
  serializable_size m : serializable m -> (Z.of_nat (ByteSizeLong m) < 2 ^ 31)%Z;
  wire_size m : serializable m -> length (wire_bytes m) = ByteSizeLong m;
  serialize_wire m buf :
    serializable m -> length buf = ByteSizeLong m ->
    SerializeToArray m buf (Z.of_nat (ByteSizeLong m)) = (true, wire_bytes m);
  parse_wire m m0 :
    serializable m ->
    ParseFromArray m0 (wire_bytes m) (Z.of_nat (length (wire_bytes m))) = (true, m)
}.

Section Proto.
Context {M : Type} `{!Protobuf M}.

(** [out] is a string that is resized and written to. *)
Definition SerializeProto (msg : M) (out : bytes) : Status * bytes :=
  let size := ByteSizeLong msg in
  let out1 := resize_bytes size out in
  if 0 <? size then
    let '(written, out2) := SerializeToArray msg out1 (i32 (Z.of_nat size)) in
    if negb written then (mkStatus INTERNAL "protobuf serialization failed", out2)
    else (Status_default, out2)
  else (Status_default, out1).

Definition ParseProto (data : bytes) (msg : M) : Status * M :=
  let '(parsed, msg1) := ParseFromArray msg data (i32 (size_of data)) in
  if negb parsed then (mkStatus INTERNAL "protobuf deserialization failed", msg1)
  else (Status_default, msg1).

Definition kBodyMax : nat := 1024.

(** The ellipsis character in UTF-8. *)
Definition truncation_marker : bytes := byte_of <$> [226; 128; 166]%Z.

Definition RenderProto (msg : M) : bytes :=
  match PrintToString msg with
  | None => []
  | Some out =>
    if kBodyMax <? length out then resize_bytes kBodyMax out ++ truncation_marker else out
  end.

(** [AsyncUnaryCall::get] once the future has its value. *)
Definition AsyncUnaryCall_get (raw : Status * bytes) : Status * M :=
  let '(st, b) := raw in
  if negb (ok st) then (st, default_message)
  else
    let '(ps, resp) := ParseProto b default_message in
    if negb (ok ps) then (ps, default_message) else (Status_default, resp).
End Proto.

(** ** The generated code

    [Req] and [Resp] are the message types of the method, [full] its name
    ["Service.Method"]. *)

Section Generated.
Context {Req Resp : Type} `{!Protobuf Req} `{!Protobuf Resp}.

(** A trace given to the channel's interceptor. *)
Record stub_trace := mkTrace {
  t_method : string; t_request : bytes; t_response : bytes; t_status : Status
}.

(** What a stub uses of [ChannelInterface]: [UnaryCall] with the response
    string it may overwrite, and [Tracing]. *)
Record ChannelInterface := mkChannelInterface {
  ci_UnaryCall : Z -> bytes -> bytes -> Status * bytes;
  ci_Tracing : bool
}.

(** [Stub::Method(request, response)]: the status, the response afterwards,
    the traces given. *)
Definition Stub_call (ch : ChannelInterface) (mid : Z) (full : string) (request : Req)
    (response : Resp) : Status * Resp * list stub_trace :=
  let '(s, req_bytes) := SerializeProto request [] in
  if negb (ok s) then (s, response, [])
  else
    let trace := ci_Tracing ch in
    let '(s, resp_bytes) := ci_UnaryCall ch mid req_bytes [] in
    if negb (ok s)
    then (s, response, if trace then [mkTrace full (RenderProto request) [] s] else [])
    else
      let '(ps, response1) := ParseProto resp_bytes response in
      (ps, response1,
       if trace
       then [mkTrace full (RenderProto request) (if ok ps then RenderProto response1 else []) ps]
       else []).

(** [Stub::AsyncMethod(request)]: the value its future has at once, or the
    call whose result it will have. *)
Definition Stub_async_future (mid : Z) (request : Req) : (Status * bytes) + (Z * bytes) :=
  let '(ser, req_bytes) := SerializeProto request [] in
  if negb (ok ser) then inl (ser, []) else inr (mid, req_bytes).

(** [Stub::AsyncMethod(request, on_response)]: what [on_response], if there
    is one, is called with at once, or the call to the channel and the text of
    the request its callback keeps. *)
Definition Stub_async (ch : ChannelInterface) (mid : Z) (request : Req)
    : (Status * Resp) + (Z * bytes * bytes) :=
  let '(ser, req_bytes) := SerializeProto request [] in
  if negb (ok ser) then inl (ser, default_message)
  else
    let req_text := if ci_Tracing ch then RenderProto request else [] in
    inr (mid, req_bytes, req_text).

(** The callback [Stub::AsyncMethod] hands to the channel: what it calls the
    user's callback with, if there is one, and the traces. *)
Definition Stub_async_callback (cb trace : bool) (full : string) (req_text : bytes)
    (st : Status) (b : bytes) : option (Status * Resp) * list stub_trace :=
  let '(ps, resp) := if ok st then ParseProto b default_message else (st, default_message) in
  ((if negb cb then None
    else if negb (ok st) then Some (st, default_message)
    else if negb (ok ps) then Some (ps, default_message)
    else Some (Status_default, resp)),
   if trace
   then [mkTrace full req_text (if ok st && ok ps then RenderProto resp else [])
           (if ok ps then st else ps)]
   else []).

(** A method of a service: it may change the application, the context and
    the response, or throw. *)
Inductive method_result (App : Type) :=
| MethodReturned (app : App) (ctx : ServerContext) (st : Status) (resp : Resp)
| MethodThrew (app : App).
#[local] Arguments MethodReturned {App}.
#[local] Arguments MethodThrew {App}.

(** Text of a rendered message in the context. *)
Definition text_of (b : bytes) : string := String.string_of_list_byte b.

(** The handler [RegisterWith] registers.  The response string is empty when
    the session calls it. *)
Definition service_handler {App} (full : string)
    (method : App -> ServerContext -> Req -> Resp -> method_result App) : MethodHandler App :=
  fun app ctx req_bytes =>
    let ctx1 := set_method_name full ctx in
    let '(ps, req) := ParseProto req_bytes default_message in
    if negb (ok ps) then Returned app ctx1 ps []
    else
      let ctx2 := if tracing ctx1 then set_request_text (text_of (RenderProto req)) ctx1 else ctx1 in
      match method app ctx2 req default_message with
      | MethodThrew app' => Threw app'
      | MethodReturned app' ctx3 s resp =>
        if negb (ok s) then Returned app' ctx3 s []
        else
          let ctx4 := if tracing ctx3 then set_response_text (text_of (RenderProto resp)) ctx3
                      else ctx3 in
          let '(ss, resp_bytes) := SerializeProto resp [] in
          Returned app' ctx4 ss resp_bytes
      end.
End Generated.
Arguments MethodReturned {Resp App}.
Arguments MethodThrew {Resp App}.

(** ** Lemmas *)

Section Facts.
Context {M : Type} `{!Protobuf M} `{!ProtobufLaws M}.
Implicit Types m : M.

Lemma SerializeProto_wire m out :
  serializable m -> SerializeProto m out = (Status_default, wire_bytes m).
Proof.
  intros H. unfold SerializeProto. pose proof (serializable_size m H) as Hs.
  pose proof (wire_size m H) as Hw. destruct (Nat.ltb_spec 0 (ByteSizeLong m)) as [Hp|Hz].
  - rw i32_small; [lia|]. rw serialize_wire //. by rw length_resize_bytes.
  - assert (ByteSizeLong m = 0) as E by lia. rw E in Hw. rw E.
    apply nil_length_inv in Hw. rw Hw. unfold resize_bytes. simpl. by rw /zeros.
Qed.

Lemma ParseProto_wire m m0 :
  serializable m -> ParseProto (wire_bytes m) m0 = (Status_default, m).
Proof.
  intros H. unfold ParseProto, size_of. pose proof (serializable_size m H) as Hs.
  rw i32_small; [rw wire_size //; lia|]. by rw parse_wire.
Qed.
End Facts.

(** Bytes that [ParseProto] reads as [m], whatever the message held before. *)
Definition parses {M} `{!Protobuf M} (b : bytes) (m : M) : Prop :=
  forall m0, ParseProto b m0 = (Status_default, m).

Lemma parses_wire {M} `{!Protobuf M} `{!ProtobufLaws M} (m : M) :
  serializable m -> parses (wire_bytes m) m.
Proof. intros H m0. by apply ParseProto_wire. Qed.

(** ** Properties *)

(** A protobuf of one field, for the witnesses: a message is the list of its
    bytes, of which there must be fewer than 2 GiB. *)
#[export] Instance blob_protobuf : Protobuf bytes := {
  default_message := [];
  ByteSizeLong := length;
  SerializeToArray m buf size :=
    if bool_decide (size = Z.of_nat (length m)) then (true, m) else (false, buf);
  ParseFromArray _ data size :=
    if bool_decide (size = Z.of_nat (length data)) then (true, data) else (false, []);
  PrintToString m := Some m
}.

#[export, refine] Instance blob_laws : ProtobufLaws bytes := {
  serializable m := (Z.of_nat (length m) < 2 ^ 31)%Z;
  wire_bytes := id
}.
Proof.
  - done.
  - done.
  - intros m buf Hm Hl. simpl. by rw bool_decide_true.
  - intros m m0 Hm. simpl. by rw bool_decide_true.
Defined.

(** Messages survive the trip: what [SerializeProto] writes for a message
    that can be serialized, into any string, is read back by [ParseProto],
    over any message, as that message; both report OK. *)
Theorem proto_roundtrip {M} `{!Protobuf M} `{!ProtobufLaws M} (m m0 : M) out :
  serializable m ->
  exists b, SerializeProto m out = (Status_default, b) /\ ParseProto b m0 = (Status_default, m).
Proof.
  intros H. exists (wire_bytes m). split; [by apply SerializeProto_wire|by apply ParseProto_wire].
Qed.

Lemma proto_roundtrip_witness :
  exists b, SerializeProto (M := bytes) (bytes_of_string "hi") (bytes_of_string "old!")
    = (Status_default, b) /\ ParseProto b (bytes_of_string "x") = (Status_default, bytes_of_string "hi").
Proof. apply proto_roundtrip. by vm_compute. Defined.

(** The text shown to interceptors is bounded: at most 1024 bytes of the
    printed message, with a three-byte marker exactly when something was cut
    off. *)
Theorem RenderProto_bounded {M} `{!Protobuf M} (m : M) out :
  PrintToString m = Some out ->
  length (RenderProto m) <= 1027
  /\ (if decide (length out <= 1024) then RenderProto m = out
      else RenderProto m = take 1024 out ++ truncation_marker).
Proof.
  intros E. unfold RenderProto. rw E. unfold kBodyMax.
  destruct (Nat.ltb_spec 1024 (length out)); case_decide; try lia.
  - assert (resize_bytes 1024 out = take 1024 out) as ->.
    { unfold resize_bytes. assert (1024 - length out = 0) as -> by lia. by rw /zeros app_nil_r. }
    split; [|done]. rw length_app length_take. change (length truncation_marker) with 3. lia.
  - split; [lia|done].
Qed.

Lemma RenderProto_bounded_witness :
  length (RenderProto (M := bytes) (zeros 2000)) <= 1027.
Proof. by destruct (RenderProto_bounded (M := bytes) (zeros 2000) (zeros 2000)). Defined.
