(* ===== verification/Generator.v ===== *)
(** * Generator: the protoc plugin

    Model of [c++/protoc]: the naming functions of [generator_utils.cpp], the
    emitters of [generator.cpp] that write the header of a service, and
    [plugin.cpp], which refuses method names whose 32-bit identifiers collide
    and writes one header per service.  What the emitted code does is modelled
    in [Proto]; here it is text. *)

From Stdlib Require Import Ascii.
From S2P Require Import Prelude.
From S2P Require Import Frame.
From S2P Require Import MethodHash.

Open Scope string_scope.

(** ** Descriptors

    The fields the plugin reads of protoc's request, and those it sets in the
    response. *)

Record MethodDescriptorProto := mkMethod {
  m_name : string; input_type : string; output_type : string
}.
Record ServiceDescriptorProto := mkService { s_name : string; s_method : list MethodDescriptorProto }.
Record FileDescriptorProto := mkFile {
  f_name : string; f_package : string; f_service : list ServiceDescriptorProto
}.
Record CodeGeneratorResponse := mkResponse {
  resp_error : option string;
  resp_file : list (string * string)
}.

(** ** Names: [generator_utils.cpp] *)

Definition char (c : ascii) : string := String c EmptyString.

Fixpoint ns_from_pkg (pkg : string) : string :=
  match pkg with
  | EmptyString => EmptyString
  | String c s => (if Ascii.eqb c "." then "::" else char c) +:+ ns_from_pkg s
  end.

Definition service_full_name (pkg svc : string) : string :=
  match pkg with EmptyString => svc | _ => pkg +:+ "." +:+ svc end.

Definition method_full_name (pkg svc method : string) : string :=
  "/" +:+ service_full_name pkg svc +:+ "/" +:+ method.

Definition output_path (pkg svc : string) : string :=
  match pkg with
  | EmptyString => "protocomm/" +:+ svc +:+ ".h"
  | _ => "protocomm/" +:+ pkg +:+ "/" +:+ svc +:+ ".h"
  end.

(** The two loops of [proto_type_to_cpp]. *)
Fixpoint dots_to_colons (type : string) : string :=
  match type with
  | EmptyString => EmptyString
  | String c s => String (if Ascii.eqb c "." then ":"%char else c) (dots_to_colons s)
  end.

Fixpoint double_colons (type : string) : string :=
  match type with
  | EmptyString => EmptyString
  | String c s => (if Ascii.eqb c ":" then "::" else char c) +:+ double_colons s
  end.

Definition proto_type_to_cpp (type : string) : string :=
  let type1 := match type with
               | String c s => if Ascii.eqb c "." then s else type
               | EmptyString => type
               end in
  double_colons (dots_to_colons type1).

(** ** The emitters: [generator.cpp] *)

Record ServiceContext := mkContext {
  ctx_file : FileDescriptorProto;
  ctx_svc : ServiceDescriptorProto;
  ctx_pkg : string;
  ctx_ns : string;
  ctx_svc_name : string;
  has_ns : bool
}.

Definition InputTypeCpp (m : MethodDescriptorProto) : string := proto_type_to_cpp (input_type m).
Definition OutputTypeCpp (m : MethodDescriptorProto) : string := proto_type_to_cpp (output_type m).

Definition nl : string := char (ascii_of_nat 10).
Definition dq : string := char (ascii_of_nat 34).

(** Consecutive [code += line] statements, each ending the line. *)
Fixpoint emit (code : string) (ls : list string) : string :=
  match ls with
  | [] => code
  | l :: ls => emit (code +:+ l +:+ nl) ls
  end.

(** [find_last_of(c)]: the position of the last [c], from position [i]. *)
Fixpoint find_last_of (c : ascii) (i : nat) (s : string) : option nat :=
  match s with
  | EmptyString => None
  | String d s =>
    match find_last_of c (S i) s with
    | Some j => Some j
    | None => if Ascii.eqb d c then Some i else None
    end
  end.

(** [substr(0, pos)], the whole string for [npos]. *)
Definition prefix_to (pos : option nat) (s : string) : string :=
  match pos with Some n => String.substring 0 n s | None => s end.

Definition EmitPreamble (code : string) (ctx : ServiceContext) : string :=
  let file_name := f_name (ctx_file ctx) in
  let pb_header := prefix_to (find_last_of "." 0 file_name) file_name +:+ ".pb.h" in
  let code := emit code
    [ "// Generated by protoc-gen-protocomm.  DO NOT EDIT!";
      "// source: " +:+ file_name;
      EmptyString;
      "#pragma once";
      EmptyString;
      "#include <cstdint>";
      "#include <functional>";
      "#include <future>";
      "#include <memory>";
      "#include <string>";
      "#include <utility>";
      EmptyString;
      "#include " +:+ dq +:+ pb_header +:+ dq;
      "#include " +:+ dq +:+ "protocomm/async_call.h" +:+ dq;
      "#include " +:+ dq +:+ "protocomm/channel.h" +:+ dq;
      "#include " +:+ dq +:+ "protocomm/connection.h" +:+ dq;
      "#include " +:+ dq +:+ "protocomm/method_hash.h" +:+ dq;
      "#include " +:+ dq +:+ "protocomm/protobuf.h" +:+ dq;
      "#include " +:+ dq +:+ "protocomm/server.h" +:+ dq;
      "#include " +:+ dq +:+ "protocomm/server_context.h" +:+ dq;
      "#include " +:+ dq +:+ "protocomm/service.h" +:+ dq;
      "#include " +:+ dq +:+ "protocomm/status.h" +:+ dq;
      EmptyString ] in
  if has_ns ctx then emit code [ "namespace " +:+ ctx_ns ctx +:+ " {"; EmptyString ] else code.

Definition EmitMethodConstants (code : string) (ctx : ServiceContext) : string :=
  let code := foldl (fun code m =>
    let key := method_full_name (ctx_pkg ctx) (ctx_svc_name ctx) (m_name m) in
    emit code
      [ "    static constexpr uint32_t k" +:+ m_name m +:+ "MethodId = ::protocomm::Fnv1a32(" +:+ dq +:+ key +:+ dq +:+ ");" ])
    code (s_method (ctx_svc ctx)) in
  emit code [ EmptyString ].

(** One method of the stub: the synchronous call, the call with a future, the
    call with a callback. *)
Definition EmitStubMethod (ctx : ServiceContext) (code : string) (m : MethodDescriptorProto) : string :=
  let in_ := InputTypeCpp m in
  let out := OutputTypeCpp m in
  let method := m_name m in
  let mid := "k" +:+ method +:+ "MethodId" in
  let full := ctx_svc_name ctx +:+ "." +:+ method in
  let code := emit code
    [ "        ::protocomm::Status " +:+ method +:+ "(";
      "                const " +:+ in_ +:+ "& request,";
      "                " +:+ out +:+ "* response) {";
      "            std::string req_bytes, resp_bytes;";
      "            ::protocomm::Status s = ::protocomm::SerializeProto(request, req_bytes);";
      "            if (!s.ok()) return s;";
      "            const bool trace = channel_->Tracing();";
      "            s = channel_->UnaryCall(" +:+ mid +:+ ", req_bytes, &resp_bytes);";
      "            if (!s.ok()) {";
      "                if (trace) channel_->OnTrace(" +:+ dq +:+ full +:+ dq +:+ ", ::protocomm::RenderProto(request), {}, s);";
      "                return s;";
      "            }";
      "            ::protocomm::Status ps = ::protocomm::ParseProto(resp_bytes, *response);";
      "            if (trace)";
      "                channel_->OnTrace(" +:+ dq +:+ full +:+ dq +:+ ", ::protocomm::RenderProto(request),";
      "                                  ps.ok() ? ::protocomm::RenderProto(" +:+ "*response) : std::string{}, ps);";
      "            return ps;";
      "        }";
      EmptyString ] in
  let code := emit code
    [ "        ::protocomm::AsyncUnaryCall<" +:+ out +:+ "> Async" +:+ method +:+ "(";
      "                const " +:+ in_ +:+ "& request) {";
      "            std::string req_bytes;";
      "            ::protocomm::Status ser = ::protocomm::SerializeProto(request, req_bytes);";
      "            if (!ser.ok()) {";
      "                std::promise<std::pair<::protocomm::Status, std::string>> p;";
      "                p.set_value({ser, {}});";
      "                return ::protocomm::AsyncUnaryCall<" +:+ out +:+ ">(p.get_future());";
      "            }";
      "            return ::protocomm::AsyncUnaryCall<" +:+ out +:+ ">(";
      "                channel_->AsyncUnaryCall(" +:+ mid +:+ ", std::move(req_bytes)));";
      "        }";
      EmptyString ] in
  emit code
    [ "        void Async" +:+ method +:+ "(";
      "                const " +:+ in_ +:+ "& request,";
      "                std::function<void(::protocomm::Status, " +:+ out +:+ ")> on_response) {";
      "            std::string req_bytes;";
      "            ::protocomm::Status ser = ::protocomm::SerializeProto(request, req_bytes);";
      "            if (!ser.ok()) {";
      "                if (on_response) on_response(ser, " +:+ out +:+ "{});";
      "                return;";
      "            }";
      "            auto ch = channel_;";
      "            const bool trace = ch->Tracing();";
      "            std::string req_text = trace ? ::protocomm::RenderProto(request) : std::string{};";
      "            ch->AsyncUnaryCall(" +:+ mid +:+ ", std::move(req_bytes),";
      "                [ch, cb = std::move(on_response), trace, req_text = std::move(req_text)]";
      "                (::protocomm::Status st, std::string bytes) {";
      "                    " +:+ out +:+ " resp;";
      "                    ::protocomm::Status ps = st;";
      "                    if (st.ok()) ps = ::protocomm::ParseProto(bytes, resp);";
      "                    if (trace)";
      "                        ch->OnTrace(" +:+ dq +:+ full +:+ dq +:+ ", req_text,";
      "                                    (st.ok() && ps.ok()) ? ::protocomm::RenderProto(resp) : std::string{},";
      "                                    ps.ok() ? st : ps);";
      "                    if (!cb) return;";
      "                    if (!st.ok()) { cb(st, " +:+ out +:+ "{}); return; }";
      "                    if (!ps.ok()) { cb(ps, " +:+ out +:+ "{}); return; }";
      "                    cb(::protocomm::Status{}, std::move(resp));";
      "                });";
      "        }";
      EmptyString ].

Definition EmitStubClass (code : string) (ctx : ServiceContext) : string :=
  let code := emit code
    [ "    class Stub {";
      "    public:";
      "        explicit Stub(std::shared_ptr<::protocomm::ChannelInterface> channel)";
      "            : channel_(std::move(channel)) {}";
      EmptyString ] in
  let code := foldl (EmitStubMethod ctx) code (s_method (ctx_svc ctx)) in
  emit code
    [ "    private:";
      "        std::shared_ptr<::protocomm::ChannelInterface> channel_;";
      "    };";
      EmptyString ].

Definition EmitPeerWriterClass (code : string) (ctx : ServiceContext) : string :=
  let code := emit code
    [ "    class PeerWriter {";
      "    public:";
      "        explicit PeerWriter(std::shared_ptr<::protocomm::Peer> peer)";
      "            : peer_(std::move(peer)) {}";
      EmptyString;
      "        uint64_t id() const { return peer_->id(); }";
      "        const std::string& peer_address() const { return peer_->peer_address(); }";
      "        void Close() { peer_->Close(); }";
      "        const std::shared_ptr<::protocomm::Peer>& peer() const { return peer_; }";
      EmptyString ] in
  let code := foldl (fun code m =>
    let out := OutputTypeCpp m in
    let method := m_name m in
    let mid := "k" +:+ method +:+ "MethodId" in
    emit code
      [ "        void Send" +:+ method +:+ "(const " +:+ out +:+ "& message) {";
        "            std::string bytes;";
        "            ::protocomm::SerializeProto(message, bytes);";
        "            peer_->Send(" +:+ mid +:+ ", bytes);";
        "        }";
        EmptyString ])
    code (s_method (ctx_svc ctx)) in
  emit code
    [ "    private:";
      "        std::shared_ptr<::protocomm::Peer> peer_;";
      "    };";
      EmptyString ].

Definition EmitBroadcasterClass (code : string) (ctx : ServiceContext) : string :=
  let code := emit code
    [ "    class Broadcaster {";
      "    public:";
      "        explicit Broadcaster(::protocomm::Server* server)";
      "            : server_(server) {}";
      EmptyString ] in
  let code := foldl (fun code m =>
    let out := OutputTypeCpp m in
    let method := m_name m in
    let mid := "k" +:+ method +:+ "MethodId" in
    emit code
      [ "        void Broadcast" +:+ method +:+ "(const " +:+ out +:+ "& message) {";
        "            std::string bytes;";
        "            ::protocomm::SerializeProto(message, bytes);";
        "            server_->Broadcast(" +:+ mid +:+ ", bytes);";
        "        }";
        EmptyString ])
    code (s_method (ctx_svc ctx)) in
  emit code
    [ "    private:";
      "        ::protocomm::Server* server_;";
      "    };";
      EmptyString ].

(** The virtual method of the service, and its registration. *)
Definition EmitServiceMethod (code : string) (m : MethodDescriptorProto) : string :=
  let in_ := InputTypeCpp m in
  let out := OutputTypeCpp m in
  emit code
    [ "        virtual ::protocomm::Status " +:+ m_name m +:+ "(";
      "                ::protocomm::ServerContext* /*ctx*/,";
      "                const " +:+ in_ +:+ "* /*request*/,";
      "                " +:+ out +:+ "* /*response*/) {";
      "            return {::protocomm::StatusCode::UNIMPLEMENTED, " +:+ dq +:+ m_name m +:+ " not implemented" +:+ dq +:+ "};";
      "        }";
      EmptyString ].

Definition EmitRegistration (svc code : string) (m : MethodDescriptorProto) : string :=
  let in_ := InputTypeCpp m in
  let out := OutputTypeCpp m in
  let mid := "k" +:+ m_name m +:+ "MethodId" in
  let full := svc +:+ "." +:+ m_name m in
  emit code
    [ "            server->RegisterMethod(" +:+ mid +:+ ",";
      "                [this](::protocomm::ServerContext* ctx,";
      "                       const std::string& req_bytes,";
      "                       std::string* resp_bytes) -> ::protocomm::Status {";
      "                    ctx->set_method_name(" +:+ dq +:+ full +:+ dq +:+ ");";
      "                    " +:+ in_ +:+ " req;";
      "                    ::protocomm::Status ps = ::protocomm::ParseProto(req_bytes, req);";
      "                    if (!ps.ok()) return ps;";
      "                    if (ctx->tracing())";
      "                        ctx->set_request_text(::protocomm::RenderProto(req));";
      "                    " +:+ out +:+ " resp;";
      "                    ::protocomm::Status s = this->" +:+ m_name m +:+ "(ctx, &req, &resp);";
      "                    if (!s.ok()) return s;";
      "                    if (ctx->tracing())";
      "                        ctx->set_response_text(::protocomm::RenderProto(resp));";
      "                    return ::protocomm::SerializeProto(resp, *resp_bytes);";
      "                });" ].

Definition EmitServiceClass (code : string) (ctx : ServiceContext) : string :=
  let code := emit code
    [ "    class Service : public ::protocomm::Service {";
      "    public:" ] in
  let code := foldl EmitServiceMethod code (s_method (ctx_svc ctx)) in
  let code := emit code
    [ "        void RegisterWith(::protocomm::Server* server) override {" ] in
  let code := foldl (EmitRegistration (ctx_svc_name ctx)) code (s_method (ctx_svc ctx)) in
  emit code
    [ "        }";
      "    };" ].

Definition EmitFooter (code : string) (ctx : ServiceContext) : string :=
  let code := emit code [ "};"; EmptyString ] in
  if has_ns ctx then emit code [ "}  // namespace " +:+ ctx_ns ctx ] else code.

Definition GenerateServiceFile (code : string) (ctx : ServiceContext) : string :=
  let code := EmitPreamble code ctx in
  let code := emit code
    [ "class " +:+ ctx_svc_name ctx +:+ " final {";
      "public:" ] in
  let code := EmitMethodConstants code ctx in
  let code := EmitPeerWriterClass code ctx in
  let code := EmitBroadcasterClass code ctx in
  let code := EmitStubClass code ctx in
  let code := EmitServiceClass code ctx in
  EmitFooter code ctx.

(** ** The plugin: [plugin.cpp] *)

(** The full names of the methods, in the order of the three loops. *)
Definition request_methods (files : list FileDescriptorProto) : list string :=
  flat_map (fun file =>
    flat_map (fun svc =>
      (fun m => method_full_name (f_package file) (s_name svc) (m_name m)) <$> s_method svc)
      (f_service file)) files.

Definition collision_error (first second : string) : string :=
  "protocomm: FNV1a32 method-ID collision between '" +:+ first +:+ "' and '" +:+ second
  +:+ "'. " +:+ "Rename one of the methods.".

(** [Fnv1a32(full.c_str())]. *)
Definition method_hash (full : string) : Z := Fnv1a32 (c_str (bytes_of_string full)).

(** The body of the loops, until the first collision. *)
Fixpoint scan_methods (seen : gmap Z string) (fulls : list string) : option string :=
  match fulls with
  | [] => None
  | full :: fulls =>
    let h := method_hash full in
    match seen !! h with
    | Some other =>
      if bool_decide (other = full) then scan_methods seen fulls
      else Some (collision_error other full)
    | None => scan_methods (<[h := full]> seen) fulls
    end
  end.

Definition service_output (file : FileDescriptorProto) (svc : ServiceDescriptorProto)
    : string * string :=
  let pkg := f_package file in
  let ns := ns_from_pkg pkg in
  let ctx := mkContext file svc pkg ns (s_name svc) (negb (bool_decide (ns = EmptyString))) in
  (output_path pkg (s_name svc), GenerateServiceFile EmptyString ctx).

(** The response to a request. *)
Definition plugin (files : list FileDescriptorProto) : CodeGeneratorResponse :=
  match scan_methods ∅ (request_methods files) with
  | Some e => mkResponse (Some e) []
  | None =>
    let out := flat_map (fun file => service_output file <$> f_service file) files in
    mkResponse
      (match out with
       | [] => Some "No output files generated. Check that .proto contains services and methods."
       | _ => None
       end) out
  end.

(** [main]: the request, if it could be parsed, and whether standard output
    takes the response; the exit code and what was written. *)
Definition plugin_main (req : option (list FileDescriptorProto)) (cout_ok : bool)
    : Z * option CodeGeneratorResponse :=
  match req with
  | None => (1%Z, None)
  | Some files =>
    let resp := plugin files in
    match scan_methods ∅ (request_methods files) with
    | Some _ => (0%Z, if cout_ok then Some resp else None)
    | None => if cout_ok then (0%Z, Some resp) else (1%Z, None)
    end
  end.

(** ** Brackets

    The brackets of a text, with the stack of those that are open. *)

Inductive bracket := Brace | Paren | Square.
#[export] Instance bracket_eq_dec : EqDecision bracket.
Proof. solve_decision. Defined.

Definition opening (c : ascii) : option bracket :=
  if Ascii.eqb c "{" then Some Brace else if Ascii.eqb c "(" then Some Paren
  else if Ascii.eqb c "[" then Some Square else None.
Definition closing (c : ascii) : option bracket :=
  if Ascii.eqb c "}" then Some Brace else if Ascii.eqb c ")" then Some Paren
  else if Ascii.eqb c "]" then Some Square else None.

Fixpoint brackets (s : string) (stack : list bracket) : option (list bracket) :=
  match s with
  | EmptyString => Some stack
  | String c s =>
    match opening c, closing c with
    | Some b, _ => brackets s (b :: stack)
    | None, Some b =>
      match stack with
      | b' :: stack' => if bool_decide (b = b') then brackets s stack' else None
      | [] => None
      end
    | None, None => brackets s stack
    end
  end.

(** Every bracket is closed by its match, nothing is left open. *)
Definition balanced_text (s : string) : Prop := brackets s [] = Some [].

(** A name without brackets. *)
Fixpoint plain (s : string) : bool :=
  match s with
  | EmptyString => true
  | String c s =>
    match opening c, closing c with None, None => plain s | _, _ => false end
  end.

Definition plain_method (m : MethodDescriptorProto) : bool :=
  plain (m_name m) && plain (input_type m) && plain (output_type m).

Definition plain_file (file : FileDescriptorProto) : bool :=
  plain (f_name file) && plain (f_package file)
  && forallb (fun svc => plain (s_name svc) && forallb plain_method (s_method svc)) (f_service file).

(** ** Lemmas *)

Lemma brackets_app s t stack :
  brackets (s +:+ t) stack = brackets s stack ≫= brackets t.
Proof.
  revert stack. induction s as [|c s IH]; intros stack; [done|]. simpl.
  destruct (opening c), (closing c); try apply IH. destruct stack; [done|]. by case_bool_decide.
Qed.

Lemma brackets_plain s stack : plain s = true -> brackets s stack = Some stack.
Proof.
  revert stack. induction s as [|c s IH]; intros stack; [done|]. simpl.
  destruct (opening c), (closing c); try done. apply IH.
Qed.

Lemma plain_app s t : plain (s +:+ t) = plain s && plain t.
Proof. induction s as [|c s IH]; [done|]. simpl. by destruct (opening c), (closing c). Qed.

Lemma plain_ns_from_pkg pkg : plain pkg = true -> plain (ns_from_pkg pkg) = true.
Proof.
  induction pkg as [|c s IH]; [done|]. simpl. rw plain_app.
  destruct (Ascii.eqb_spec c "."); simpl; destruct (opening c), (closing c); try done; auto.
Qed.

Lemma plain_double_colons s : plain s = true -> plain (double_colons s) = true.
Proof.
  induction s as [|c s IH]; [done|]. simpl. rw plain_app.
  destruct (Ascii.eqb_spec c ":"); simpl; destruct (opening c), (closing c); try done; auto.
Qed.

Lemma plain_dots_to_colons s : plain s = true -> plain (dots_to_colons s) = true.
Proof.
  induction s as [|c s IH]; [done|]. simpl.
  destruct (Ascii.eqb_spec c ".") as [->|]; simpl; [auto|].
  destruct (opening c), (closing c); try done; auto.
Qed.

Lemma plain_proto_type t : plain t = true -> plain (proto_type_to_cpp t) = true.
Proof.
  intros H. apply plain_double_colons, plain_dots_to_colons. destruct t as [|c s]; [done|].
  simpl in H. destruct (Ascii.eqb c "."); [|done]. by destruct (opening c), (closing c).
Qed.

Lemma plain_substring n m s : plain s = true -> plain (String.substring n m s) = true.
Proof.
  revert n m. induction s as [|c s IH]; intros n m H; [by destruct n, m|].
  simpl in *. destruct (opening c) eqn:Eo, (closing c) eqn:Ec; try done.
  destruct n, m; simpl; auto. rw Eo Ec. by apply IH.
Qed.

Lemma plain_prefix_to p s : plain s = true -> plain (prefix_to p s) = true.
Proof. destruct p; [apply plain_substring|done]. Qed.

Lemma plain_method_full_name pkg svc m :
  plain pkg = true -> plain svc = true -> plain m = true -> plain (method_full_name pkg svc m) = true.
Proof.
  intros Hp Hs Hm. unfold method_full_name, service_full_name. rw !plain_app /=.
  destruct pkg; rw ?plain_app ?Hp /= Hs Hm //.
Qed.

(** The brackets of consecutive lines. *)
Fixpoint line_brackets (ls : list string) (stack : list bracket) : option (list bracket) :=
  match ls with
  | [] => Some stack
  | l :: ls => brackets l stack ≫= line_brackets ls
  end.

Lemma brackets_emit code ls s0 s1 s2 :
  brackets code s0 = Some s1 -> line_brackets ls s1 = Some s2 ->
  brackets (emit code ls) s0 = Some s2.
Proof.
  revert code s1. induction ls as [|l ls IH]; intros code s1 Hc Hl; simpl in *; [congruence|].
  destruct (brackets l s1) as [s|] eqn:E; [|done].
  apply (IH _ s); [|done]. by rw brackets_app Hc /= brackets_app E.
Qed.

Lemma brackets_foldl {X} (f : string -> X -> string) xs code s0 s1 :
  brackets code s0 = Some s1 ->
  (forall x code, x ∈ xs -> brackets code s0 = Some s1 -> brackets (f code x) s0 = Some s1) ->
  brackets (foldl f code xs) s0 = Some s1.
Proof.
  revert code. induction xs as [|x xs IH]; intros code Hc Hf; [done|]. simpl. apply IH.
  - apply Hf; [left|done].
  - intros y code' Hy. apply Hf. by right.
Qed.

Ltac lines :=
  repeat first [progress simpl | rw brackets_app | rw brackets_plain; [done|]]; try done.

Record plain_ctx (ctx : ServiceContext) : Prop := {
  pc_file : plain (f_name (ctx_file ctx)) = true;
  pc_pkg : plain (ctx_pkg ctx) = true;
  pc_ns : plain (ctx_ns ctx) = true;
  pc_svc : plain (ctx_svc_name ctx) = true;
  pc_methods m : m ∈ s_method (ctx_svc ctx) -> plain_method m = true
}.

Lemma plain_method_parts m :
  plain_method m = true ->
  plain (m_name m) = true /\ plain (InputTypeCpp m) = true /\ plain (OutputTypeCpp m) = true.
Proof.
  unfold plain_method. intros [[Hn Hi]%andb_prop Ho]%andb_prop. split; [done|].
  split; by apply plain_proto_type.
Qed.

Section Emitters.
Variable ctx : ServiceContext.
Hypothesis Hctx : plain_ctx ctx.
Implicit Types (code : string) (s : list bracket).

(** An emitter that leaves the brackets as it found them. *)
Definition closed_emitter (f : string -> string) : Prop :=
  forall code s0 s1, brackets code s0 = Some s1 -> brackets (f code) s0 = Some s1.

Lemma EmitPreamble_brackets code s0 s1 :
  brackets code s0 = Some s1 ->
  brackets (EmitPreamble code ctx) s0 = Some (if has_ns ctx then Brace :: s1 else s1).
Proof.
  intros Hc. destruct Hctx as [Hf Hp Hn Hs Hm]. unfold EmitPreamble.
  pose proof (plain_prefix_to (find_last_of "." 0 (f_name (ctx_file ctx))) _ Hf) as Hf'.
  revert Hf'. generalize (prefix_to (find_last_of "." 0 (f_name (ctx_file ctx))) (f_name (ctx_file ctx))).
  intros pb Hpb. destruct (has_ns ctx).
  - eapply brackets_emit; [eapply brackets_emit; [exact Hc|]|]; lines.
  - eapply brackets_emit; [exact Hc|]. lines.
Qed.

Lemma EmitMethodConstants_closed : closed_emitter (fun code => EmitMethodConstants code ctx).
Proof.
  intros code s0 s1 Hc. destruct Hctx as [Hf Hp Hn Hs Hm].
  eapply brackets_emit; [|done]. apply brackets_foldl; [done|].
  intros m code' [Hn' _]%Hm%plain_method_parts Hc'. eapply brackets_emit; [done|].
  pose proof (plain_method_full_name _ _ _ Hp Hs Hn') as Hk. revert Hk.
  generalize (method_full_name (ctx_pkg ctx) (ctx_svc_name ctx) (m_name m)). intros key Hk. lines.
Qed.

Lemma EmitStubMethod_closed m :
  m ∈ s_method (ctx_svc ctx) -> closed_emitter (fun code => EmitStubMethod ctx code m).
Proof.
  intros (Hn' & Hi & Ho)%(pc_methods _ Hctx)%plain_method_parts code s0 s1 Hc.
  pose proof (pc_svc _ Hctx) as Hs. unfold EmitStubMethod.
  eapply brackets_emit; [eapply brackets_emit; [eapply brackets_emit; [exact Hc|]|]|]; lines.
Qed.

Lemma EmitStubClass_closed : closed_emitter (fun code => EmitStubClass code ctx).
Proof.
  intros code s0 s1 Hc. unfold EmitStubClass.
  apply (brackets_emit _ _ _ (Brace :: s1)); [|lines].
  apply brackets_foldl; [eapply brackets_emit; [exact Hc|]; lines|].
  intros m code' Hm. by apply EmitStubMethod_closed.
Qed.

Lemma EmitPeerWriterClass_closed : closed_emitter (fun code => EmitPeerWriterClass code ctx).
Proof.
  intros code s0 s1 Hc. unfold EmitPeerWriterClass.
  apply (brackets_emit _ _ _ (Brace :: s1)); [|lines].
  apply brackets_foldl; [eapply brackets_emit; [exact Hc|]; lines|].
  intros m code' (Hn & _ & Ho)%(pc_methods _ Hctx)%plain_method_parts Hc'.
  eapply brackets_emit; [exact Hc'|]. lines.
Qed.

Lemma EmitBroadcasterClass_closed : closed_emitter (fun code => EmitBroadcasterClass code ctx).
Proof.
  intros code s0 s1 Hc. unfold EmitBroadcasterClass.
  apply (brackets_emit _ _ _ (Brace :: s1)); [|lines].
  apply brackets_foldl; [eapply brackets_emit; [exact Hc|]; lines|].
  intros m code' (Hn & _ & Ho)%(pc_methods _ Hctx)%plain_method_parts Hc'.
  eapply brackets_emit; [exact Hc'|]. lines.
Qed.

Lemma EmitServiceMethod_closed m :
  m ∈ s_method (ctx_svc ctx) -> closed_emitter (fun code => EmitServiceMethod code m).
Proof.
  intros (Hn & Hi & Ho)%(pc_methods _ Hctx)%plain_method_parts code s0 s1 Hc.
  eapply brackets_emit; [exact Hc|]. lines.
Qed.

Lemma EmitRegistration_closed m :
  m ∈ s_method (ctx_svc ctx) ->
  closed_emitter (fun code => EmitRegistration (ctx_svc_name ctx) code m).
Proof.
  intros (Hn & Hi & Ho)%(pc_methods _ Hctx)%plain_method_parts code s0 s1 Hc.
  pose proof (pc_svc _ Hctx) as Hs. eapply brackets_emit; [exact Hc|]. lines.
Qed.

Lemma EmitServiceClass_closed : closed_emitter (fun code => EmitServiceClass code ctx).
Proof.
  intros code s0 s1 Hc. unfold EmitServiceClass.
  apply (brackets_emit _ _ _ (Brace :: Brace :: s1)); [|lines].
  apply brackets_foldl; [|intros m code' Hm; by apply EmitRegistration_closed].
  apply (brackets_emit _ _ _ (Brace :: s1)); [|lines].
  apply brackets_foldl; [eapply brackets_emit; [exact Hc|]; lines|].
  intros m code' Hm. by apply EmitServiceMethod_closed.
Qed.

Lemma EmitFooter_brackets code s0 s1 :
  brackets code s0 = Some (Brace :: (if has_ns ctx then Brace :: s1 else s1)) ->
  brackets (EmitFooter code ctx) s0 = Some s1.
Proof.
  pose proof (pc_ns _ Hctx) as Hn. unfold EmitFooter. destruct (has_ns ctx); intros Hc.
  - apply (brackets_emit _ _ _ (Brace :: s1)); [eapply brackets_emit; [exact Hc|]|]; lines.
  - eapply brackets_emit; [exact Hc|]. lines.
Qed.

Lemma GenerateServiceFile_closed : closed_emitter (fun code => GenerateServiceFile code ctx).
Proof.
  intros code s0 s1 Hc. unfold GenerateServiceFile. apply EmitFooter_brackets.
  apply EmitServiceClass_closed, EmitStubClass_closed, EmitBroadcasterClass_closed,
    EmitPeerWriterClass_closed, EmitMethodConstants_closed.
  eapply brackets_emit; [by apply EmitPreamble_brackets|].
  pose proof (pc_svc _ Hctx) as Hs. lines.
Qed.
End Emitters.

Lemma plain_service_ctx file svc :
  plain_file file = true -> svc ∈ f_service file ->
  plain_ctx (mkContext file svc (f_package file) (ns_from_pkg (f_package file)) (s_name svc)
    (negb (bool_decide (ns_from_pkg (f_package file) = EmptyString)))).
Proof.
  unfold plain_file. intros [[Hf Hp]%andb_prop Hs]%andb_prop Hin.
  rw forallb_forall in Hs. apply list_elem_of_In in Hin.
  apply Hs, andb_prop in Hin as [Hn Hm]. rw forallb_forall in Hm.
  constructor; simpl; [done|done|by apply plain_ns_from_pkg|done|].
  intros m Hin'. by apply Hm, list_elem_of_In.
Qed.

(** *** The collision scan *)

Open Scope list_scope.

(** The identifiers tell the methods of a list apart. *)
Definition ids_distinct (fulls : list string) : Prop :=
  forall a b, a ∈ fulls -> b ∈ fulls -> method_hash a = method_hash b -> a = b.

(** What the scan has seen: every name under its identifier. *)
Definition seen_names (seen : gmap Z string) (names : list string) : Prop :=
  (forall h full, seen !! h = Some full -> h = method_hash full /\ full ∈ names)
  /\ (forall full, full ∈ names -> seen !! method_hash full = Some full).

Lemma scan_methods_spec fulls seen names :
  seen_names seen names ->
  match scan_methods seen fulls with
  | None => ids_distinct (names ++ fulls)
  | Some e => exists a b, a ∈ names ++ fulls /\ b ∈ names ++ fulls /\ a <> b
      /\ method_hash a = method_hash b /\ e = collision_error a b
  end.
Proof.
  revert seen names. induction fulls as [|f fulls IH]; intros seen names [Hs Hd]; simpl.
  { rw app_nil_r. intros a b Ha%Hd Hb%Hd E. rw E in Ha. congruence. }
  destruct (seen !! method_hash f) as [o|] eqn:E; [case_bool_decide as Ho|].
  - subst o. apply Hs in E as [_ Hin]. specialize (IH seen (names ++ [f])).
    rw -app_assoc in IH. apply IH. split.
    + intros h full [? ?]%Hs. set_solver.
    + intros full [H|H]%elem_of_app; [by apply Hd|]. apply list_elem_of_singleton in H as ->. by apply Hd.
  - apply Hs in E as [E Hin]. exists o, f. set_solver.
  - specialize (IH (<[method_hash f := f]> seen) (names ++ [f])). rw -app_assoc in IH. apply IH. split.
    + intros h full [[<- <-]|[_ [? ?]%Hs]]%lookup_insert_Some; set_solver.
    + intros full [H|H]%elem_of_app; [|apply list_elem_of_singleton in H as ->; apply lookup_insert_eq].
      pose proof (Hd _ H) as Hf. rw lookup_insert_ne //. intros Heq. rw Heq in E. congruence.
Qed.

Lemma scan_methods_empty fulls :
  match scan_methods ∅ fulls with
  | None => ids_distinct fulls
  | Some e => exists a b, a ∈ fulls /\ b ∈ fulls /\ a <> b
      /\ method_hash a = method_hash b /\ e = collision_error a b
  end.
Proof. apply (scan_methods_spec fulls ∅ []). split; [done|]. set_solver. Qed.

(** ** Properties *)

(** C30: the plugin refuses exactly the requests with a collision.  Either the
    32-bit identifiers of the methods tell all their full names apart, and the
    response has one header for every service, in order, under the path of its
    package and name (an error only when there is none); or two different
    methods share an identifier, and the response is an error that names such
    a pair, without any file. *)
Theorem plugin_collisions files :
  let fulls := request_methods files in
  let outputs := flat_map (fun file => service_output file <$> f_service file) files in
  (ids_distinct fulls /\ resp_file (plugin files) = outputs
   /\ (resp_error (plugin files) = None <-> outputs <> []))
  \/ (exists a b, a ∈ fulls /\ b ∈ fulls /\ a <> b /\ method_hash a = method_hash b
      /\ plugin files = mkResponse (Some (collision_error a b)) []).
Proof.
  simpl. pose proof (scan_methods_empty (request_methods files)) as H. unfold plugin.
  destruct (scan_methods ∅ _) as [e|].
  - right. destruct H as (a & b & Ha & Hb & Hn & Hh & ->). by exists a, b.
  - left. split; [done|]. split; [done|]. by destruct (flat_map _ _).
Qed.

(** The generated headers are well bracketed: when the names in the
    request contain no brackets, every brace, parenthesis and square bracket
    of every file in the response is closed by its match. *)
Theorem generated_headers_balanced files :
  forallb plain_file files = true ->
  Forall (fun out => balanced_text out.2) (resp_file (plugin files)).
Proof.
  rw forallb_forall. intros Hf. unfold plugin. destruct (scan_methods ∅ _); [constructor|]. simpl.
  apply Forall_forall. intros out Hout%list_elem_of_In.
  apply in_flat_map in Hout as (file & Hfile & Hsvc). apply list_elem_of_In in Hsvc.
  apply list_elem_of_fmap in Hsvc as (svc & -> & Hin).
  by apply (GenerateServiceFile_closed _ (plain_service_ctx _ _ (Hf _ Hfile) Hin)).
Qed.

(** A request with one service of two methods. *)
Definition greeter_proto (method : string) : FileDescriptorProto :=
  mkFile "demo/greeter.proto" "demo.v1"
    [mkService "Greeter" [mkMethod "Hello" ".demo.v1.HelloRequest" ".demo.v1.HelloReply";
                          mkMethod method ".demo.v1.ByeRequest" ".demo.v1.ByeReply"]].

Lemma generated_headers_balanced_witness :
  map fst (resp_file (plugin [greeter_proto "Bye"])) = ["protocomm/demo.v1/Greeter.h"]
  /\ Forall (fun out => balanced_text out.2) (resp_file (plugin [greeter_proto "Bye"])).
Proof. split; [by vm_compute|]. apply generated_headers_balanced. by vm_compute. Defined.
