(* ===== verification/Channel.v ===== *)
(** * Channel: the client side of a connection

    Model of [c++/src/channel.cc] and [c++/include/protocomm/channel.h].

    A channel is shared by three kinds of threads: the io thread, which runs
    the closures posted to the strand and the coroutines [ConnectCoro],
    [ReadLoop] and [WritePump] one at a time; the callers, which may block in
    [EnsureConnected]; and the owner that calls [RunCallbacks].  The machine
    [channel_step] interleaves them: one event is a closure, a coroutine from
    one suspension to the next, a caller from one access of the shared state
    to the next, or one round of the loop of [RunCallbacks].

    User callbacks are identities (numbers); calling one appends to the
    history [log], with the kind of thread it ran on.  The callback queue is
    any [Fifo], and Boost.Asio's sockets are the parameters [Asio] and
    [AsioClient]. *)

From S2P Require Import Prelude.
From S2P Require Import Status.
From S2P Require Import Frame.
From S2P Require Import Transport.
From S2P Require Import Mpsc.

Open Scope nat_scope.

(** ** Boost.Asio, the client's part

    [async_connect] tries the endpoints of a resolver result in turn; a
    connection it establishes has transmitted nothing yet. *)
Class AsioClient (A : Asio) := {
  endpoint : Type;
  asio_connect : socket -> list endpoint -> socket * option ErrorCode
}.

Class AsioClientStream (A : Asio) `{!AsioClient A} `{!AsioStream A} := {
  connect_fresh s eps s' : asio_connect s eps = (s', None) -> outgoing s' = []
}.

(** ** Configuration *)

Inductive Dispatch := Inline | Manual.

(** Of [on_push] it matters here whether it is set. *)
Record ChannelConfig := mkChannelConfig {
  handshake_header : bytes;
  dispatch : Dispatch;
  on_push : bool
}.

Definition ChannelConfig_default : ChannelConfig :=
  mkChannelConfig (bytes_of_string "pc1") Inline false.

(** ** Callbacks

    A [std::function] may be empty: a [ResponseCallback] is an option.  A
    [ConnectCallback] is the user's, or the one [EnsureConnected] makes, which
    sets the promise its thread waits for. *)

Abbreviation thread := nat.
Abbreviation ResponseCallback := (option nat).

Inductive ConnectCallback :=
| UserConnect (cb : nat)
| PromiseConnect (t : thread).

(** The closures given to [post_deferred]. *)
Inductive thunk :=
| ThunkConnect (cb : ConnectCallback) (st : Status)
| ThunkPush (mid : Z) (payload : bytes).

Inductive Completion :=
| Response (resp_cb : nat) (status : Status) (payload : bytes)
| Deferred (fn : thunk).

(** The thread a user callback ran on: inside the strand of the io thread, in
    a call made by another thread, or in [RunCallbacks]. *)
Inductive place := OnIo | OnCaller | OnRunCallbacks.

Inductive channel_log :=
| LResponse (pl : place) (cb : nat) (st : Status) (payload : bytes)
| LConnect (pl : place) (cb : nat) (st : Status)
| LPush (pl : place) (mid : Z) (payload : bytes)
| LReturn (t : thread) (st : Status)
| LTrace (method request response : string) (st : Status).

(** ** State *)

Inductive ConnState := Idle | Connecting | Connected | Closed.

Inductive connect_pc {A : Asio} `{!AsioClient A} :=
| CoNone
| CoResolve                           (* suspended in async_resolve *)
| CoConnect (endpoints : list endpoint) (* suspended in async_connect *)
| CoWriteHandshake
| CoReadHandshake.

Inductive pump_pc :=
| PumpNone
| PumpSpawned
| PumpWriting (hdr : FrameHeader) (payload : bytes).

(** The closures posted to the strand. *)
Inductive strand_task :=
| TaskConnect (cb : option ConnectCallback)
| TaskCall (method_id : Z) (request : bytes) (callback : ResponseCallback)
| TaskShutdown.

(** What a caller thread is doing: [Connect] or [AsyncUnaryCall], and how far
    it got, or [ConnectAsync]. *)
Inductive caller_op :=
| OpConnect
| OpCall (method_id : Z) (request : bytes) (callback : ResponseCallback).

Inductive caller_pc :=
| CallEnsure (on_strand : bool) (op : caller_op)    (* entering EnsureConnected *)
| CallRequest (on_strand : bool) (op : caller_op)   (* entering RequestConnect *)
| CallWait (on_strand : bool) (op : caller_op)      (* blocked in f.get() *)
| CallEnsured (on_strand : bool) (op : caller_op) (st : Status) (* EnsureConnected returned *)
| CallConnectAsync (on_strand : bool) (cb : option nat).  (* entering RequestConnect *)

(** Whether a caller runs inside the strand ([strand.running_in_this_thread()]):
    a callback that calls the channel does. *)
Definition caller_place (on_strand : bool) : place := if on_strand then OnIo else OnCaller.

Inductive shutdown_pc := ShutNone | ShutJoin | ShutDone.
#[global] Instance shutdown_pc_eq_dec : EqDecision shutdown_pc.
Proof. solve_decision. Defined.

(** The fields of [Channel::Impl], where the threads are, and the history:
    what was called back; the callbacks handed to the channel; those
    destroyed without being called; the call ids issued with their callbacks;
    the request frames queued and written; the response frames that found
    their callback; whether a write failed. *)
Record channel {A : Asio} `{!AsioClient A} {Q : Type} := mkChannel {
  socket_ : socket;
  io_thread_started : bool;
  connected : bool;
  stopped : bool;
  next_call_id : Z;
  pending : gmap Z ResponseCallback;
  write_queue : list (FrameHeader * bytes);
  write_pump_active : bool;
  conn_state : ConnState;
  connect_waiters : list ConnectCallback;
  cb_queue : Q;
  interceptor : bool;
  strand : list strand_task;
  connector : connect_pc;
  reader : bool;
  pump : pump_pc;
  callers : gmap thread caller_pc;
  shutdown : shutdown_pc;
  log : list channel_log;
  given : list nat;
  dropped : list nat;
  issued : list (Z * ResponseCallback);
  queued : list (FrameHeader * bytes);
  written : list (FrameHeader * bytes);
  answered : list (FrameHeader * bytes * nat);
  write_failed : bool
}.
Arguments channel A {_} Q.
Arguments mkChannel {A _ Q}.

(** ** Field updates *)

Section Updates.
Context {A : Asio} `{!AsioClient A} {Q : Type}.
Implicit Types c : channel A Q.

Definition set_socket (v : socket) c : channel A Q :=
  mkChannel v (io_thread_started c) (connected c) (stopped c) (next_call_id c) (pending c) (write_queue c)
    (write_pump_active c) (conn_state c) (connect_waiters c) (cb_queue c) (interceptor c) (strand
    c) (connector c) (reader c) (pump c) (callers c) (shutdown c) (log c) (given c) (dropped c)
    (issued c) (queued c) (written c) (answered c) (write_failed c).

Definition set_io_thread_started (v : bool) c : channel A Q :=
  mkChannel (socket_ c) v (connected c) (stopped c) (next_call_id c) (pending c) (write_queue c)
    (write_pump_active c) (conn_state c) (connect_waiters c) (cb_queue c) (interceptor c) (strand
    c) (connector c) (reader c) (pump c) (callers c) (shutdown c) (log c) (given c) (dropped c)
    (issued c) (queued c) (written c) (answered c) (write_failed c).

Definition set_connected (v : bool) c : channel A Q :=
  mkChannel (socket_ c) (io_thread_started c) v (stopped c) (next_call_id c) (pending c) (write_queue c)
    (write_pump_active c) (conn_state c) (connect_waiters c) (cb_queue c) (interceptor c) (strand
    c) (connector c) (reader c) (pump c) (callers c) (shutdown c) (log c) (given c) (dropped c)
    (issued c) (queued c) (written c) (answered c) (write_failed c).

Definition set_stopped (v : bool) c : channel A Q :=
  mkChannel (socket_ c) (io_thread_started c) (connected c) v (next_call_id c) (pending c) (write_queue c)
    (write_pump_active c) (conn_state c) (connect_waiters c) (cb_queue c) (interceptor c) (strand
    c) (connector c) (reader c) (pump c) (callers c) (shutdown c) (log c) (given c) (dropped c)
    (issued c) (queued c) (written c) (answered c) (write_failed c).

Definition set_next_call_id (v : Z) c : channel A Q :=
  mkChannel (socket_ c) (io_thread_started c) (connected c) (stopped c) v (pending c) (write_queue c)
    (write_pump_active c) (conn_state c) (connect_waiters c) (cb_queue c) (interceptor c) (strand
    c) (connector c) (reader c) (pump c) (callers c) (shutdown c) (log c) (given c) (dropped c)
    (issued c) (queued c) (written c) (answered c) (write_failed c).

Definition set_pending (v : gmap Z ResponseCallback) c : channel A Q :=
  mkChannel (socket_ c) (io_thread_started c) (connected c) (stopped c) (next_call_id c) v (write_queue c)
    (write_pump_active c) (conn_state c) (connect_waiters c) (cb_queue c) (interceptor c) (strand
    c) (connector c) (reader c) (pump c) (callers c) (shutdown c) (log c) (given c) (dropped c)
    (issued c) (queued c) (written c) (answered c) (write_failed c).

Definition set_write_queue (v : list (FrameHeader * bytes)) c : channel A Q :=
  mkChannel (socket_ c) (io_thread_started c) (connected c) (stopped c) (next_call_id c) (pending c) v
    (write_pump_active c) (conn_state c) (connect_waiters c) (cb_queue c) (interceptor c) (strand
    c) (connector c) (reader c) (pump c) (callers c) (shutdown c) (log c) (given c) (dropped c)
    (issued c) (queued c) (written c) (answered c) (write_failed c).

Definition set_write_pump_active (v : bool) c : channel A Q :=
  mkChannel (socket_ c) (io_thread_started c) (connected c) (stopped c) (next_call_id c) (pending c)
    (write_queue c) v (conn_state c) (connect_waiters c) (cb_queue c) (interceptor c) (strand c)
    (connector c) (reader c) (pump c) (callers c) (shutdown c) (log c) (given c) (dropped c)
    (issued c) (queued c) (written c) (answered c) (write_failed c).

Definition set_conn_state (v : ConnState) c : channel A Q :=
  mkChannel (socket_ c) (io_thread_started c) (connected c) (stopped c) (next_call_id c) (pending c)
    (write_queue c) (write_pump_active c) v (connect_waiters c) (cb_queue c) (interceptor c)
    (strand c) (connector c) (reader c) (pump c) (callers c) (shutdown c) (log c) (given c)
    (dropped c) (issued c) (queued c) (written c) (answered c) (write_failed c).

Definition set_connect_waiters (v : list ConnectCallback) c : channel A Q :=
  mkChannel (socket_ c) (io_thread_started c) (connected c) (stopped c) (next_call_id c) (pending c)
    (write_queue c) (write_pump_active c) (conn_state c) v (cb_queue c) (interceptor c) (strand c)
    (connector c) (reader c) (pump c) (callers c) (shutdown c) (log c) (given c) (dropped c)
    (issued c) (queued c) (written c) (answered c) (write_failed c).

Definition set_cb_queue (v : Q) c : channel A Q :=
  mkChannel (socket_ c) (io_thread_started c) (connected c) (stopped c) (next_call_id c) (pending c)
    (write_queue c) (write_pump_active c) (conn_state c) (connect_waiters c) v (interceptor c)
    (strand c) (connector c) (reader c) (pump c) (callers c) (shutdown c) (log c) (given c)
    (dropped c) (issued c) (queued c) (written c) (answered c) (write_failed c).

Definition set_interceptor (v : bool) c : channel A Q :=
  mkChannel (socket_ c) (io_thread_started c) (connected c) (stopped c) (next_call_id c) (pending c)
    (write_queue c) (write_pump_active c) (conn_state c) (connect_waiters c) (cb_queue c) v
    (strand c) (connector c) (reader c) (pump c) (callers c) (shutdown c) (log c) (given c)
    (dropped c) (issued c) (queued c) (written c) (answered c) (write_failed c).

Definition set_strand (v : list strand_task) c : channel A Q :=
  mkChannel (socket_ c) (io_thread_started c) (connected c) (stopped c) (next_call_id c) (pending c)
    (write_queue c) (write_pump_active c) (conn_state c) (connect_waiters c) (cb_queue c)
    (interceptor c) v (connector c) (reader c) (pump c) (callers c) (shutdown c) (log c) (given c)
    (dropped c) (issued c) (queued c) (written c) (answered c) (write_failed c).

Definition set_connector (v : connect_pc) c : channel A Q :=
  mkChannel (socket_ c) (io_thread_started c) (connected c) (stopped c) (next_call_id c) (pending c)
    (write_queue c) (write_pump_active c) (conn_state c) (connect_waiters c) (cb_queue c)
    (interceptor c) (strand c) v (reader c) (pump c) (callers c) (shutdown c) (log c) (given c)
    (dropped c) (issued c) (queued c) (written c) (answered c) (write_failed c).

Definition set_reader (v : bool) c : channel A Q :=
  mkChannel (socket_ c) (io_thread_started c) (connected c) (stopped c) (next_call_id c) (pending c)
    (write_queue c) (write_pump_active c) (conn_state c) (connect_waiters c) (cb_queue c)
    (interceptor c) (strand c) (connector c) v (pump c) (callers c) (shutdown c) (log c) (given c)
    (dropped c) (issued c) (queued c) (written c) (answered c) (write_failed c).

Definition set_pump (v : pump_pc) c : channel A Q :=
  mkChannel (socket_ c) (io_thread_started c) (connected c) (stopped c) (next_call_id c) (pending c)
    (write_queue c) (write_pump_active c) (conn_state c) (connect_waiters c) (cb_queue c)
    (interceptor c) (strand c) (connector c) (reader c) v (callers c) (shutdown c) (log c) (given
    c) (dropped c) (issued c) (queued c) (written c) (answered c) (write_failed c).

Definition set_callers (v : gmap thread caller_pc) c : channel A Q :=
  mkChannel (socket_ c) (io_thread_started c) (connected c) (stopped c) (next_call_id c) (pending c)
    (write_queue c) (write_pump_active c) (conn_state c) (connect_waiters c) (cb_queue c)
    (interceptor c) (strand c) (connector c) (reader c) (pump c) v (shutdown c) (log c) (given c)
    (dropped c) (issued c) (queued c) (written c) (answered c) (write_failed c).

Definition set_shutdown (v : shutdown_pc) c : channel A Q :=
  mkChannel (socket_ c) (io_thread_started c) (connected c) (stopped c) (next_call_id c) (pending c)
    (write_queue c) (write_pump_active c) (conn_state c) (connect_waiters c) (cb_queue c)
    (interceptor c) (strand c) (connector c) (reader c) (pump c) (callers c) v (log c) (given c)
    (dropped c) (issued c) (queued c) (written c) (answered c) (write_failed c).

Definition set_log (v : list channel_log) c : channel A Q :=
  mkChannel (socket_ c) (io_thread_started c) (connected c) (stopped c) (next_call_id c) (pending c)
    (write_queue c) (write_pump_active c) (conn_state c) (connect_waiters c) (cb_queue c)
    (interceptor c) (strand c) (connector c) (reader c) (pump c) (callers c) (shutdown c) v (given
    c) (dropped c) (issued c) (queued c) (written c) (answered c) (write_failed c).

Definition set_given (v : list nat) c : channel A Q :=
  mkChannel (socket_ c) (io_thread_started c) (connected c) (stopped c) (next_call_id c) (pending c)
    (write_queue c) (write_pump_active c) (conn_state c) (connect_waiters c) (cb_queue c)
    (interceptor c) (strand c) (connector c) (reader c) (pump c) (callers c) (shutdown c) (log c)
    v (dropped c) (issued c) (queued c) (written c) (answered c) (write_failed c).

Definition set_dropped (v : list nat) c : channel A Q :=
  mkChannel (socket_ c) (io_thread_started c) (connected c) (stopped c) (next_call_id c) (pending c)
    (write_queue c) (write_pump_active c) (conn_state c) (connect_waiters c) (cb_queue c)
    (interceptor c) (strand c) (connector c) (reader c) (pump c) (callers c) (shutdown c) (log c)
    (given c) v (issued c) (queued c) (written c) (answered c) (write_failed c).

Definition set_issued (v : list (Z * ResponseCallback)) c : channel A Q :=
  mkChannel (socket_ c) (io_thread_started c) (connected c) (stopped c) (next_call_id c) (pending c)
    (write_queue c) (write_pump_active c) (conn_state c) (connect_waiters c) (cb_queue c)
    (interceptor c) (strand c) (connector c) (reader c) (pump c) (callers c) (shutdown c) (log c)
    (given c) (dropped c) v (queued c) (written c) (answered c) (write_failed c).

Definition set_queued (v : list (FrameHeader * bytes)) c : channel A Q :=
  mkChannel (socket_ c) (io_thread_started c) (connected c) (stopped c) (next_call_id c) (pending c)
    (write_queue c) (write_pump_active c) (conn_state c) (connect_waiters c) (cb_queue c)
    (interceptor c) (strand c) (connector c) (reader c) (pump c) (callers c) (shutdown c) (log c)
    (given c) (dropped c) (issued c) v (written c) (answered c) (write_failed c).

Definition set_written (v : list (FrameHeader * bytes)) c : channel A Q :=
  mkChannel (socket_ c) (io_thread_started c) (connected c) (stopped c) (next_call_id c) (pending c)
    (write_queue c) (write_pump_active c) (conn_state c) (connect_waiters c) (cb_queue c)
    (interceptor c) (strand c) (connector c) (reader c) (pump c) (callers c) (shutdown c) (log c)
    (given c) (dropped c) (issued c) (queued c) v (answered c) (write_failed c).

Definition set_answered (v : list (FrameHeader * bytes * nat)) c : channel A Q :=
  mkChannel (socket_ c) (io_thread_started c) (connected c) (stopped c) (next_call_id c) (pending c)
    (write_queue c) (write_pump_active c) (conn_state c) (connect_waiters c) (cb_queue c)
    (interceptor c) (strand c) (connector c) (reader c) (pump c) (callers c) (shutdown c) (log c)
    (given c) (dropped c) (issued c) (queued c) (written c) v (write_failed c).

Definition set_write_failed (v : bool) c : channel A Q :=
  mkChannel (socket_ c) (io_thread_started c) (connected c) (stopped c) (next_call_id c) (pending c)
    (write_queue c) (write_pump_active c) (conn_state c) (connect_waiters c) (cb_queue c)
    (interceptor c) (strand c) (connector c) (reader c) (pump c) (callers c) (shutdown c) (log c)
    (given c) (dropped c) (issued c) (queued c) (written c) (answered c) v.

End Updates.

Definition conn_state_eqb (a b : ConnState) : bool :=
  match a, b with
  | Idle, Idle | Connecting, Connecting | Connected, Connected | Closed, Closed => true
  | _, _ => false
  end.

Definition channel_stopped : Status := mkStatus UNAVAILABLE "channel stopped".
Definition channel_shutdown : Status := mkStatus CANCELLED "channel shutdown".

Section Channel.
Context {A : Asio} `{!AsioClient A} {Q : Type} `{!Fifo Q Completion}.
Context `{!UnorderedIter ResponseCallback}.
Variable config : ChannelConfig.
Implicit Types c : channel A Q.

(** [Channel(host, port, config)] with a fresh socket.  The host and the port
    only reach the resolver, whose answers are events. *)
Definition channel_init (sock : socket) : channel A Q :=
  mkChannel sock false false false 1 ∅ [] false Idle [] fifo_empty false [] CoNone false
    PumpNone ∅ ShutNone [] [] [] [] [] [] [] false.

(** ** Calling back *)

Definition log_event (l : channel_log) c : channel A Q := set_log (log c ++ [l]) c.

(** [p->set_value(s)]: the thread that waits for the promise goes on. *)
Definition set_value (t : thread) (st : Status) c : channel A Q :=
  match callers c !! t with
  | Some (CallWait on_strand op) =>
    set_callers (<[t := CallEnsured on_strand op st]> (callers c)) c
  | _ => c
  end.

Definition call_connect (pl : place) (cb : ConnectCallback) (st : Status) c : channel A Q :=
  match cb with
  | UserConnect n => log_event (LConnect pl n st) c
  | PromiseConnect t => set_value t st c
  end.

Definition run_thunk (pl : place) (fn : thunk) c : channel A Q :=
  match fn with
  | ThunkConnect cb st => call_connect pl cb st c
  | ThunkPush mid payload => log_event (LPush pl mid payload) c
  end.

Definition post_response (pl : place) (cb : ResponseCallback) (st : Status) (payload : bytes) c
    : channel A Q :=
  match cb with
  | None => c
  | Some n =>
    match dispatch config with
    | Inline => log_event (LResponse pl n st payload) c
    | Manual => set_cb_queue (fifo_push (Response n st payload) (cb_queue c)) c
    end
  end.

Definition post_deferred (pl : place) (fn : thunk) c : channel A Q :=
  match dispatch config with
  | Inline => run_thunk pl fn c
  | Manual => set_cb_queue (fifo_push (Deferred fn) (cb_queue c)) c
  end.

(** ** Connecting *)

Definition post (task : strand_task) c : channel A Q := set_strand (strand c ++ [task]) c.

Definition EnsureIoThread c : channel A Q :=
  if io_thread_started c then c
  else if stopped c then c
  else set_io_thread_started true c.

Definition RequestConnect (pl : place) (cb : option ConnectCallback) c : channel A Q :=
  let refuse c := match cb with Some k => call_connect pl k channel_stopped c | None => c end in
  if stopped c then refuse c
  else
    let c1 := EnsureIoThread c in
    if negb (io_thread_started c1) then refuse c1
    else post (TaskConnect cb) c1.

(** The closure [RequestConnect] posts. *)
Definition connect_closure (cb : option ConnectCallback) c : channel A Q :=
  if conn_state_eqb (conn_state c) Closed || stopped c then
    match cb with Some k => call_connect OnIo k channel_stopped c | None => c end
  else if conn_state_eqb (conn_state c) Connected then
    match cb with Some k => call_connect OnIo k Status_default c | None => c end
  else
    let c1 := match cb with
              | Some k => set_connect_waiters (connect_waiters c ++ [k]) c
              | None => c
              end in
    if conn_state_eqb (conn_state c1) Idle
    then set_connector CoResolve (set_conn_state Connecting c1)
    else c1.

Definition finish (st : Status) c : channel A Q :=
  let c1 := if negb (ok st) && negb (conn_state_eqb (conn_state c) Closed)
            then set_conn_state Idle c else c in
  let waiters := connect_waiters c1 in
  foldl (fun c cb => post_deferred OnIo (ThunkConnect cb st) c)
    (set_connect_waiters [] c1) waiters.

Definition StartReader c : channel A Q := set_reader true c.

(** The end of [ConnectCoro], after the handshake. *)
Definition connect_done c : channel A Q :=
  if conn_state_eqb (conn_state c) Closed || stopped c
  then finish channel_shutdown c
  else finish Status_default (set_connected true (StartReader (set_conn_state Connected c))).

(** [ConnectCoro] resumed by the resolver. *)
Definition ConnectCoro_resolved (r : list endpoint + ErrorCode) c : option (channel A Q) :=
  match connector c with
  | CoResolve =>
    match r with
    | inl endpoints => Some (set_connector (CoConnect endpoints) c)
    | inr e =>
      Some (finish (mkStatus UNAVAILABLE ("connect: " +:+ ec_message e)) (set_connector CoNone c))
    end
  | _ => None
  end.

(** [ConnectCoro] resumed by the socket. *)
Definition ConnectCoro c : option (channel A Q) :=
  match connector c with
  | CoConnect endpoints =>
    let '(sock, ec) := asio_connect (socket_ c) endpoints in
    match ec with
    | Some e =>
      Some (finish (mkStatus UNAVAILABLE ("connect: " +:+ ec_message e))
             (set_connector CoNone (set_socket sock c)))
    | None =>
      match handshake_header config with
      | [] => Some (connect_done (set_connector CoNone (set_socket sock c)))
      | _ => Some (set_connector CoWriteHandshake (set_socket sock c))
      end
    end
  | CoWriteHandshake =>
    let '(sock, hs) := AsyncTransport_WriteHandshake (socket_ c) (handshake_header config) in
    if negb (ok hs) then Some (finish hs (set_connector CoNone (set_socket sock c)))
    else Some (set_connector CoReadHandshake (set_socket sock c))
  | CoReadHandshake =>
    let '(sock, hs) := AsyncTransport_ReadHandshake (socket_ c) (handshake_header config) in
    if negb (ok hs) then Some (finish hs (set_connector CoNone (set_socket sock c)))
    else Some (connect_done (set_connector CoNone (set_socket sock c)))
  | CoNone | CoResolve => None
  end.

(** ** Reading and writing *)

Definition FailAllPending (st : Status) (defer : bool) c : channel A Q :=
  let snapshot := pending c in
  foldl (fun c '(_, cb) =>
           match cb with
           | None => c
           | Some n => if defer then post_response OnIo (Some n) st [] c
                       else log_event (LResponse OnIo n st []) c
           end)
    (set_pending ∅ c) (iter_entries snapshot).

(** [ReadLoop]: what it does with a frame it read. *)
Definition read_frame (hdr : FrameHeader) (payload : bytes) c : channel A Q :=
  if type_eqb (type hdr) kPush then
    if on_push config then post_deferred OnIo (ThunkPush (method_id hdr) payload) c else c
  else if negb (type_eqb (type hdr) kResponse) then
    set_reader false (FailAllPending (mkStatus INTERNAL "unexpected frame type") true c)
  else
    match pending c !! call_id hdr with
    | None => c
    | Some None => set_pending (delete (call_id hdr) (pending c)) c
    | Some (Some n) =>
      let c1 := set_answered (answered c ++ [((hdr, payload), n)])
                  (set_pending (delete (call_id hdr) (pending c)) c) in
      let code := code_of_int (status_code hdr) in
      if negb (code_eqb code OK)
      then post_response OnIo (Some n) (mkStatus code "remote error") [] c1
      else post_response OnIo (Some n) Status_default payload c1
    end.

Definition ReadLoop c : option (channel A Q) :=
  if reader c then
    let '(sock, hdr, payload, rs) :=
      AsyncTransport_ReadFrame (socket_ c) FrameHeader_default [] in
    let c1 := set_socket sock c in
    if negb (ok rs) then Some (set_reader false (FailAllPending rs true c1))
    else Some (read_frame hdr payload c1)
  else None.

(** [WritePump]: the loop head, up to the next [WriteFrame] or the end. *)
Definition pump_loop c : channel A Q :=
  match write_queue c with
  | [] => set_pump PumpNone (set_write_pump_active false c)
  | (hdr, payload) :: q => set_pump (PumpWriting hdr payload) (set_write_queue q c)
  end.

Definition WritePump c : option (channel A Q) :=
  match pump c with
  | PumpNone => None
  | PumpSpawned => Some (pump_loop c)
  | PumpWriting hdr payload =>
    let '(sock, ws) := AsyncTransport_WriteFrame (socket_ c) hdr payload in
    let c1 := set_socket sock c in
    if negb (ok ws)
    then Some (set_pump PumpNone (set_write_pump_active false (set_write_failed true
                (FailAllPending ws true (set_write_queue [] c1)))))
    else Some (pump_loop (set_written (written c1 ++ [(hdr, payload)]) c1))
  end.

(** ** Calls *)

Definition request_header (call_id method_id : Z) (request : bytes) : FrameHeader :=
  {| type := kRequest; status_code := 0; call_id := call_id; method_id := method_id;
     payload_size := u32 (size_of request) |}.

(** [pending.emplace(call_id, callback)] leaves an entry that is there alone;
    the callback given to it is destroyed. *)
Definition pending_emplace (id : Z) (cb : ResponseCallback) c : channel A Q :=
  match pending c !! id with
  | None => set_pending (<[id := cb]> (pending c)) c
  | Some _ => set_dropped (dropped c ++ option_list cb) c
  end.

(** The closure [AsyncUnaryCall] posts. *)
Definition call_closure (method_id : Z) (request : bytes) (callback : ResponseCallback) c
    : channel A Q :=
  if stopped c then post_response OnIo callback channel_shutdown [] c
  else
    let id := next_call_id c in
    let c1 := pending_emplace id callback (set_next_call_id (u32 (id + 1)) c) in
    let frame := (request_header id method_id request, request) in
    let c2 := set_issued (issued c1 ++ [(id, callback)])
                (set_queued (queued c1 ++ [frame])
                  (set_write_queue (write_queue c1 ++ [frame]) c1)) in
    if negb (write_pump_active c2)
    then set_pump PumpSpawned (set_write_pump_active true c2)
    else c2.

(** A thread enters [Connect] or [AsyncUnaryCall], or [ConnectAsync]. *)
Definition op_callback (op : caller_op) : option nat :=
  match op with
  | OpConnect => None
  | OpCall _ _ callback => callback
  end.

Definition start_call (t : thread) (pc : caller_pc) (cb : option nat) c : option (channel A Q) :=
  match callers c !! t with
  | Some _ => None
  | None => Some (set_given (given c ++ option_list cb) (set_callers (<[t := pc]> (callers c)) c))
  end.

Definition set_caller (t : thread) (pc : caller_pc) c : channel A Q :=
  set_callers (<[t := pc]> (callers c)) c.

(** [EnsureConnected] up to [RequestConnect]. *)
Definition EnsureConnected (t : thread) (on_strand : bool) (op : caller_op) c : channel A Q :=
  if connected c then set_caller t (CallEnsured on_strand op Status_default) c
  else if on_strand then
    set_caller t (CallEnsured on_strand op (mkStatus FAILED_PRECONDITION
      "synchronous connect attempted from io thread; channel not yet connected")) c
  else if stopped c then set_caller t (CallEnsured on_strand op channel_stopped) c
  else set_caller t (CallRequest on_strand op) c.

(** What follows [EnsureConnected] in [Connect] and [AsyncUnaryCall]. *)
Definition ensured (t : thread) (on_strand : bool) (op : caller_op) (cs : Status) c : channel A Q :=
  let c1 := set_callers (delete t (callers c)) c in
  match op with
  | OpConnect => log_event (LReturn t cs) c1
  | OpCall method_id request callback =>
    if negb (ok cs) then post_response (caller_place on_strand) callback cs [] c1
    else post (TaskCall method_id request callback) c1
  end.

Definition caller_step (t : thread) c : option (channel A Q) :=
  match callers c !! t with
  | None => None
  | Some (CallEnsure on_strand op) => Some (EnsureConnected t on_strand op c)
  | Some (CallRequest on_strand op) =>
    Some (RequestConnect (caller_place on_strand) (Some (PromiseConnect t)) (set_caller t (CallWait on_strand op) c))
  | Some (CallWait _ _) => None
  | Some (CallEnsured on_strand op cs) => Some (ensured t on_strand op cs c)
  | Some (CallConnectAsync on_strand cb) =>
    Some (RequestConnect (caller_place on_strand) (UserConnect <$> cb) (set_callers (delete t (callers c)) c))
  end.

(** What [UnaryCall] returns once its future has a value: the status, and
    [*response] afterwards. *)
Definition UnaryCall_result (value : Status * bytes) (response : bytes) : Status * bytes :=
  let '(st, b) := value in
  if negb (ok st) then (st, response) else (Status_default, b).

(** ** RunCallbacks *)

Definition run_completion (k : Completion) c : channel A Q :=
  match k with
  | Response n st payload => log_event (LResponse OnRunCallbacks n st payload) c
  | Deferred fn => run_thunk OnRunCallbacks fn c
  end.

(** One round of the loop: the popped completion is run and freed. *)
Definition callback_step c : option (channel A Q) :=
  let '(k, q) := fifo_pop (cb_queue c) in
  match k with
  | None => None
  | Some k => Some (run_completion k (set_cb_queue q c))
  end.

(** The loop when nothing else runs: the number of callbacks run. *)
Fixpoint RunCallbacks (max : nat) c : nat * channel A Q :=
  match max with
  | O => (O, c)
  | S max =>
    match callback_step c with
    | None => (O, c)
    | Some c1 => let '(ran, c2) := RunCallbacks max c1 in (S ran, c2)
    end
  end.

(** ** Shutdown *)

(** [delete c]: a callback that is destroyed without having been called is
    dropped; a promise that is destroyed is broken, and [EnsureConnected]
    turns that into a status. *)
Definition delete_completion (k : Completion) c : channel A Q :=
  match k with
  | Response n _ _ => set_dropped (dropped c ++ [n]) c
  | Deferred (ThunkConnect (UserConnect n) _) => set_dropped (dropped c ++ [n]) c
  | Deferred (ThunkConnect (PromiseConnect t) _) => set_value t channel_stopped c
  | Deferred (ThunkPush _ _) => c
  end.

Fixpoint drain (fuel : nat) c : channel A Q :=
  match fuel with
  | O => c
  | S fuel =>
    let '(k, q) := fifo_pop (cb_queue c) in
    match k with
    | None => set_cb_queue q c
    | Some k => drain fuel (delete_completion k (set_cb_queue q c))
    end
  end.

(** The loop at the end of [Shutdown]: it stops at the first [nullptr]. *)
Definition drain_all c : channel A Q := drain (S (length (fifo_list (cb_queue c)))) c.

(** The closure [Shutdown] posts. *)
Definition shutdown_closure c : channel A Q :=
  let c1 := set_socket (asio_close (socket_ c)) (set_conn_state Closed c) in
  let c2 := FailAllPending channel_shutdown false c1 in
  let waiters := connect_waiters c2 in
  foldl (fun c cb => call_connect OnIo cb channel_shutdown c)
    (set_connect_waiters [] c2) waiters.

(** [connect_waiters.clear()]. *)
Definition drop_waiter (cb : ConnectCallback) c : channel A Q :=
  match cb with
  | UserConnect n => set_dropped (dropped c ++ [n]) c
  | PromiseConnect t => set_value t channel_stopped c
  end.

(** [Shutdown] up to [io_thread.join()]; it runs in the destructor. *)
Definition Shutdown c : option (channel A Q) :=
  if stopped c then None
  else
    let c1 := set_stopped true c in
    if io_thread_started c1
    then Some (set_shutdown ShutJoin (post TaskShutdown c1))
    else
      let c2 := FailAllPending channel_shutdown false (set_conn_state Closed c1) in
      let c3 := foldl (fun c cb => drop_waiter cb c)
                  (set_connect_waiters [] c2) (connect_waiters c2) in
      Some (set_shutdown ShutDone (drain_all c3)).

(** The io thread has no work left: [io_context.run()] returns. *)
Definition io_finished c : bool :=
  match strand c, connector c, reader c, pump c with
  | [], CoNone, false, PumpNone => true
  | _, _, _, _ => false
  end.

(** [Shutdown] after [io_thread.join()]. *)
Definition shutdown_joined c : option (channel A Q) :=
  match shutdown c with
  | ShutJoin => if io_finished c then Some (set_shutdown ShutDone (drain_all c)) else None
  | _ => None
  end.

(** ** Tracing *)

Definition SetInterceptor (cb : bool) c : channel A Q := set_interceptor cb c.
Definition Tracing c : bool := interceptor c.
Definition OnTrace (method request_text response_text : string) (status : Status) c
    : channel A Q :=
  if interceptor c then log_event (LTrace method request_text response_text status) c else c.

(** ** The machine *)

Definition strand_step c : option (channel A Q) :=
  match strand c with
  | [] => None
  | task :: rest =>
    let c1 := set_strand rest c in
    Some (match task with
          | TaskConnect cb => connect_closure cb c1
          | TaskCall method_id request callback => call_closure method_id request callback c1
          | TaskShutdown => shutdown_closure c1
          end)
  end.

Inductive channel_event :=
| StartCall (t : thread) (on_strand : bool) (op : caller_op)
| StartConnectAsync (t : thread) (on_strand : bool) (cb : option nat)
| CallerStep (t : thread)
| StrandStep
| Resolved (r : list endpoint + ErrorCode)
| ConnectStep
| ReadStep
| PumpStep
| CallbackStep
| DoShutdown
| Joined
| DoSetInterceptor (b : bool)
| DoTrace (method request_text response_text : string) (status : Status).

(** Nothing happens to a channel that is destroyed, and the io thread works
    from its start on. *)
Definition channel_step (e : channel_event) c : option (channel A Q) :=
  match shutdown c with
  | ShutDone => None
  | _ =>
    let io r := if io_thread_started c then r else None in
    match e with
    | StartCall t on_strand op => start_call t (CallEnsure on_strand op) (op_callback op) c
    | StartConnectAsync t on_strand cb => start_call t (CallConnectAsync on_strand cb) cb c
    | CallerStep t => caller_step t c
    | StrandStep => io (strand_step c)
    | Resolved r => io (ConnectCoro_resolved r c)
    | ConnectStep => io (ConnectCoro c)
    | ReadStep => io (ReadLoop c)
    | PumpStep => io (WritePump c)
    | CallbackStep => callback_step c
    | DoShutdown => Shutdown c
    | Joined => shutdown_joined c
    | DoSetInterceptor b => Some (SetInterceptor b c)
    | DoTrace method req resp st => Some (OnTrace method req resp st c)
    end
  end.
End Channel.
Arguments post_response : simpl never.
Arguments post_deferred : simpl never.
Arguments FailAllPending : simpl never.
Arguments finish : simpl never.
Arguments StartCall {A _}.
Arguments StartConnectAsync {A _}.
Arguments CallerStep {A _}.
Arguments StrandStep {A _}.
Arguments Resolved {A _}.
Arguments ConnectStep {A _}.
Arguments ReadStep {A _}.
Arguments PumpStep {A _}.
Arguments CallbackStep {A _}.
Arguments DoShutdown {A _}.
Arguments Joined {A _}.
Arguments DoSetInterceptor {A _}.
Arguments DoTrace {A _}.
