(* ===== verification/ChannelCallbacks.v ===== *)
(** * ChannelCallbacks: every callback is called once

    The conservation invariant of [Channel]: a callback handed to a channel,
    and the promise of every blocked thread, is at exactly one place at any
    time.  From it: no callback is called twice, none is forgotten, and where
    callbacks run under each dispatch mode. *)

From S2P Require Import Prelude.
From S2P Require Import Status.
From S2P Require Import Frame.
From S2P Require Import Transport.
From S2P Require Import Mpsc.
From S2P Require Import Channel.

Open Scope nat_scope.

(** The connecting end of the scripted connection: an endpoint is the pipe a
    connection to it gives. *)
#[export] Instance pipe_client : AsioClient pipe_asio := {
  endpoint := pipe;
  asio_connect s eps :=
    match eps with
    | [] => (s, Some pipe_closed)
    | p :: _ => (mkPipe (p_in p) [] (p_writes p) true, None)
    end
}.

#[export, refine] Instance pipe_client_stream : AsioClientStream pipe_asio := {}.
Proof. intros s [|p eps] s' H; simpl in *; by simplify_eq. Qed.

(** ** Identities

    [inl n] is the user's callback [n], [inr t] the promise of thread [t]. *)

Abbreviation cb_id := (nat + nat)%type.

Definition connect_ids (k : ConnectCallback) : list cb_id :=
  match k with UserConnect n => [inl n] | PromiseConnect t => [inr t] end.

Definition completion_ids (k : Completion) : list cb_id :=
  match k with
  | Response n _ _ => [inl n]
  | Deferred (ThunkConnect k _) => connect_ids k
  | Deferred (ThunkPush _ _) => []
  end.

Definition user_ids (cb : option nat) : list cb_id := inl <$> option_list cb.

Definition task_ids (t : strand_task) : list cb_id :=
  match t with
  | TaskConnect (Some k) => connect_ids k
  | TaskConnect None => []
  | TaskCall _ _ cb => user_ids cb
  | TaskShutdown => []
  end.

Definition log_ids (l : channel_log) : list cb_id :=
  match l with
  | LResponse _ n _ _ | LConnect _ n _ => [inl n]
  | _ => []
  end.

Definition pc_callback (pc : caller_pc) : option nat :=
  match pc with
  | CallEnsure _ op | CallRequest _ op | CallWait _ op | CallEnsured _ op _ => op_callback op
  | CallConnectAsync _ cb => cb
  end.

Definition caller_ids (pc : caller_pc) : list cb_id := user_ids (pc_callback pc).

Section Conservation.
Context {A : Asio} `{!AsioClient A} {Q : Type} `{!Fifo Q Completion}.
Context `{!UnorderedIter ResponseCallback}.
Variable config : ChannelConfig.
Implicit Types (c : channel A Q) (hand : list cb_id).

Definition waiting (t : thread) c : nat :=
  match callers c !! t with Some (CallWait _ _) => 1 | _ => 0 end.

(** How often [x] must be somewhere: as often as it was handed over, and once
    for the promise of a waiting thread. *)
Definition owed (x : cb_id) c : nat :=
  match x with inl n => occ n (given c) | inr t => waiting t c end.

(** How often [x] is somewhere: called, held by a caller, by a closure on the
    strand, by a pending call, by the connection attempt, by the callback
    queue, or destroyed. *)
Definition places (x : cb_id) c : nat :=
  occ x (log c ≫= log_ids)
  + map_occ caller_ids x (callers c)
  + occ x (strand c ≫= task_ids)
  + map_occ user_ids x (pending c)
  + occ x (connect_waiters c ≫= connect_ids)
  + occ x (fifo_list (cb_queue c) ≫= completion_ids)
  + occ x (inl <$> dropped c).

(** How often [x] is held by the channel: neither called nor destroyed. *)
Definition held (x : cb_id) c : nat :=
  map_occ caller_ids x (callers c)
  + occ x (strand c ≫= task_ids)
  + map_occ user_ids x (pending c)
  + occ x (connect_waiters c ≫= connect_ids)
  + occ x (fifo_list (cb_queue c) ≫= completion_ids).

(** The callbacks called so far. *)
Definition log_callback (l : channel_log) : option nat :=
  match l with LResponse _ n _ _ | LConnect _ n _ => Some n | _ => None end.
Definition called c : list nat := omap log_callback (log c).

(** The books balance, with [hand] still in hand. *)
Definition balanced hand c : Prop := forall x, owed x c = places x c + occ x hand.

Ltac book :=
  unfold balanced, owed, places, waiting in *; simpl in *;
  intros x; repeat match goal with
    | H : forall x : cb_id, _ |- _ => specialize (H x); rw ?bind_cons ?bind_app ?fmap_app ?occ_app /= in H
    end;
  rw ?bind_app ?fmap_app ?fifo_list_push ?bind_app ?bind_cons ?occ_app /=;
  destruct x; simpl in *; repeat case_decide; simplify_eq/=; try lia.

Lemma balanced_log_response hand pl n st p c :
  balanced (inl n :: hand) c -> balanced hand (log_event (LResponse pl n st p) c).
Proof. intros H. book. Qed.

Lemma balanced_log_connect hand pl n st c :
  balanced (inl n :: hand) c -> balanced hand (log_event (LConnect pl n st) c).
Proof. intros H. book. Qed.

Lemma balanced_log_other hand l c :
  log_ids l = [] -> balanced hand c -> balanced hand (log_event l c).
Proof. intros Hl H. book; rw Hl /=; lia. Qed.

Lemma balanced_drop hand n c :
  balanced (inl n :: hand) c -> balanced hand (set_dropped (dropped c ++ [n]) c).
Proof. intros H. book. Qed.

Lemma balanced_set_value hand t st c :
  balanced (inr t :: hand) c -> balanced hand (set_value t st c).
Proof.
  intros H. pose proof (H (inr t)) as Ht. unfold owed, waiting in Ht. simpl in Ht.
  rw decide_True // in Ht. unfold set_value. revert Ht.
  destruct (callers c !! t) as [[| |pl op| |]|] eqn:E; intros Ht; try lia.
  intros x. specialize (H x).
  pose proof (map_occ_update caller_ids x (callers c) t _ (CallEnsured pl op st) E) as Hm.
  change (caller_ids (CallEnsured pl op st)) with (caller_ids (CallWait pl op)) in Hm.
  unfold owed, places, waiting in *. simpl in *. destruct x as [n|t'].
  { case_decide; simplify_eq; lia. }
  destruct (decide (t' = t)) as [->|Hne].
  - rw lookup_insert_eq. rw E decide_True // in H. lia.
  - rw lookup_insert_ne //. case_decide; [by simplify_eq|]. lia.
Qed.

Lemma balanced_call_connect hand pl k st c :
  balanced (connect_ids k ++ hand) c -> balanced hand (call_connect pl k st c).
Proof. destruct k; [apply balanced_log_connect|apply balanced_set_value]. Qed.

Lemma balanced_enqueue hand k c :
  balanced (completion_ids k ++ hand) c ->
  balanced hand (set_cb_queue (fifo_push k (cb_queue c)) c).
Proof. intros H. book. Qed.

Lemma balanced_post_response hand pl cb st p c :
  balanced (user_ids cb ++ hand) c -> balanced hand (post_response config pl cb st p c).
Proof.
  unfold post_response. destruct cb as [n|]; [|done].
  destruct (dispatch config); [apply balanced_log_response|].
  apply (balanced_enqueue _ (Response n st p)).
Qed.

Lemma balanced_post_deferred hand pl fn c :
  balanced (completion_ids (Deferred fn) ++ hand) c ->
  balanced hand (post_deferred config pl fn c).
Proof.
  unfold post_deferred. destruct (dispatch config); [|by apply balanced_enqueue].
  destruct fn as [k st|mid p]; [apply balanced_call_connect|by apply balanced_log_other].
Qed.

Lemma balanced_post hand task c :
  balanced (task_ids task ++ hand) c -> balanced hand (post task c).
Proof. intros H. book. Qed.

Lemma balanced_RequestConnect hand pl cb c :
  balanced (task_ids (TaskConnect cb) ++ hand) c -> balanced hand (RequestConnect pl cb c).
Proof.
  intros H. assert (balanced (task_ids (TaskConnect cb) ++ hand) (EnsureIoThread c)) as H1
    by (unfold EnsureIoThread; by repeat case_match).
  unfold RequestConnect. repeat case_match; first
    [ exact H | exact H1 | apply balanced_post; exact H1
    | apply balanced_call_connect; first [exact H | exact H1] ].
Qed.

Lemma balanced_connect_closure hand cb c :
  balanced (task_ids (TaskConnect cb) ++ hand) c -> balanced hand (connect_closure cb c).
Proof.
  intros H. unfold connect_closure.
  assert (balanced hand match cb with
    | Some k => set_connect_waiters (connect_waiters c ++ [k]) c | None => c end) as H1.
  { destruct cb as [k|]; [|done]. book. }
  repeat case_match; first [exact H1 | exact H | apply balanced_call_connect; exact H].
Qed.

(** Loops over callbacks in hand. *)
Lemma balanced_foldl {B} (f : channel A Q -> B -> channel A Q) (ids : B -> list cb_id) :
  (forall hand b c, balanced (ids b ++ hand) c -> balanced hand (f c b)) ->
  forall bs hand c, balanced ((bs ≫= ids) ++ hand) c -> balanced hand (foldl f c bs).
Proof.
  intros Hf bs. induction bs as [|b bs IH]; intros hand c H; simpl; [done|].
  apply IH, Hf. by rw app_assoc.
Qed.

Lemma balanced_take_waiters hand c :
  balanced hand c ->
  balanced ((connect_waiters c ≫= connect_ids) ++ hand) (set_connect_waiters [] c).
Proof. intros H. book. Qed.

Lemma balanced_finish hand st c : balanced hand c -> balanced hand (finish config st c).
Proof.
  intros H. unfold finish. apply (balanced_foldl _ connect_ids).
  - intros h k c' H'. by apply balanced_post_deferred.
  - apply balanced_take_waiters. by case_match.
Qed.

Lemma balanced_FailAllPending hand st defer c :
  balanced hand c -> balanced hand (FailAllPending config st defer c).
Proof.
  intros H. unfold FailAllPending. apply (balanced_foldl _ (fun e => user_ids e.2)).
  - intros h [id [n|]] c' H'; [|done]. destruct defer.
    + by apply balanced_post_response.
    + by apply balanced_log_response.
  - intros x. specialize (H x). unfold owed, places, waiting in *. simpl.
    rw map_occ_empty occ_app.
    rw (map_occ_iter user_ids x (pending c)). lia.
Qed.

Lemma balanced_take_pending hand id cb c :
  pending c !! id = Some cb -> balanced hand c ->
  balanced (user_ids cb ++ hand) (set_pending (delete id (pending c)) c).
Proof.
  intros E H x. specialize (H x). pose proof (map_occ_delete user_ids x _ _ _ E).
  unfold owed, places, waiting in *. simpl in *. rw occ_app. lia.
Qed.

Lemma balanced_read_frame hand h p c : balanced hand c -> balanced hand (read_frame config h p c).
Proof.
  intros H. unfold read_frame. destruct (type_eqb (type h) kPush).
  { case_match; [|done]. by apply balanced_post_deferred. }
  destruct (type_eqb (type h) kResponse); simpl; [|by apply balanced_FailAllPending].
  destruct (pending c !! call_id h) as [cb|] eqn:E; [|done].
  pose proof (balanced_take_pending hand _ _ _ E H) as H1. destruct cb as [n|]; [|done].
  case_match; by apply balanced_post_response.
Qed.

Lemma balanced_pump_loop hand c : balanced hand c -> balanced hand (pump_loop c).
Proof. intros H. unfold pump_loop. by repeat case_match. Qed.

Lemma balanced_emplace hand id cb c :
  balanced (user_ids cb ++ hand) c -> balanced hand (pending_emplace id cb c).
Proof.
  intros H. unfold pending_emplace. destruct (pending c !! id) as [cb'|] eqn:E.
  - destruct cb as [n|]; [by apply balanced_drop|]. simpl. intros x. specialize (H x).
    unfold owed, places, waiting in *. simpl in *. by rw app_nil_r.
  - intros x. specialize (H x). rw occ_app in H. unfold owed, places, waiting in *. simpl in *.
    rw map_occ_insert //. lia.
Qed.

Lemma balanced_call_closure hand mid req cb c :
  balanced (user_ids cb ++ hand) c -> balanced hand (call_closure config mid req cb c).
Proof.
  intros H. unfold call_closure. destruct (stopped c); [by apply balanced_post_response|].
  assert (balanced hand (pending_emplace (next_call_id c) cb
    (set_next_call_id (u32 (next_call_id c + 1)) c))) as H1 by (by apply balanced_emplace).
  by case_match.
Qed.

Lemma balanced_start_call hand t pc c c' :
  (forall pl op, pc <> CallWait pl op) ->
  balanced hand c -> start_call t pc (pc_callback pc) c = Some c' -> balanced hand c'.
Proof.
  intros Hpc H. unfold start_call. destruct (callers c !! t) eqn:E; intros; simplify_eq.
  intros x. specialize (H x). unfold owed, places, waiting in *. simpl.
  rw map_occ_insert //. change (caller_ids pc) with (user_ids (pc_callback pc)).
  destruct x as [n|t']; simpl in *.
  - rw occ_app. destruct (pc_callback pc); simpl; repeat case_decide; simplify_eq; lia.
  - assert (occ (inr t') (user_ids (pc_callback pc)) = 0) as -> by (by destruct (pc_callback pc)).
    destruct (decide (t' = t)) as [->|?]; [|rw lookup_insert_ne //; lia].
    rw lookup_insert_eq. rw E in H. destruct pc; try lia. by destruct (Hpc on_strand op).
Qed.

(** A thread moves on. *)
Lemma balanced_move_caller hand t pc pc' c :
  callers c !! t = Some pc -> caller_ids pc' = caller_ids pc ->
  (forall pl op, pc <> CallWait pl op) ->
  balanced hand c ->
  balanced ((if pc' is CallWait _ _ then [inr t] else []) ++ hand) (set_caller t pc' c).
Proof.
  intros E Hids Hpc H x. specialize (H x).
  pose proof (map_occ_update caller_ids x _ _ _ pc' E) as Hm. rw Hids in Hm.
  unfold owed, places, waiting in *. simpl in *. rw occ_app.
  destruct x as [n|t'].
  { assert (occ (inl n) (if pc' is CallWait _ _ then [inr t] else []) = 0) as -> by (by destruct pc').
    lia. }
  destruct (decide (t' = t)) as [->|?].
  - rw lookup_insert_eq. rw E in H. destruct pc; [| |by destruct (Hpc on_strand op)| |];
      destruct pc'; simpl; rw ?decide_True //; lia.
  - rw lookup_insert_ne //. destruct pc'; simpl; rw ?decide_False //; try lia. intros ?. by simplify_eq.
Qed.

Lemma balanced_remove_caller hand t pc c :
  callers c !! t = Some pc -> (forall pl op, pc <> CallWait pl op) ->
  balanced hand c -> balanced (caller_ids pc ++ hand) (set_callers (delete t (callers c)) c).
Proof.
  intros E Hpc H x. specialize (H x). pose proof (map_occ_delete caller_ids x _ _ _ E).
  unfold owed, places, waiting in *. simpl in *. rw occ_app.
  destruct x as [n|t']; [lia|].
  destruct (decide (t' = t)) as [->|?]; [|rw lookup_delete_ne //; lia].
  rw lookup_delete_eq. rw E in H. destruct pc; try lia. by destruct (Hpc on_strand op).
Qed.

Lemma balanced_caller_step hand t c c' :
  balanced hand c -> caller_step config t c = Some c' -> balanced hand c'.
Proof.
  intros H. unfold caller_step. destruct (callers c !! t) as [pc|] eqn:E; [|done].
  assert (forall pc', caller_ids pc' = caller_ids pc -> (forall pl op, pc <> CallWait pl op) ->
    balanced ((if pc' is CallWait _ _ then [inr t] else []) ++ hand) (set_caller t pc' c)) as Hmove.
  { intros. by eapply balanced_move_caller. }
  destruct pc as [pl op|pl op|pl op|pl op cs|pl cb].
  - intros; simplify_eq. unfold EnsureConnected.
    repeat case_match; by apply (Hmove (CallEnsured _ _ _)) || by apply (Hmove (CallRequest _ _)).
  - intros; simplify_eq. apply balanced_RequestConnect. by apply (Hmove (CallWait pl op)).
  - done.
  - intros; simplify_eq. pose proof (balanced_remove_caller _ _ _ _ E ltac:(done) H) as H1.
    unfold ensured. destruct op as [|mid req cb]; [by apply balanced_log_other|].
    case_match; [by apply balanced_post_response|by apply balanced_post].
  - intros; simplify_eq. apply balanced_RequestConnect.
    pose proof (balanced_remove_caller _ _ _ _ E ltac:(done) H) as H1. by destruct cb.
Qed.

Lemma balanced_pop hand k q c :
  fifo_pop (cb_queue c) = (Some k, q) -> balanced hand c ->
  balanced (completion_ids k ++ hand) (set_cb_queue q c).
Proof.
  intros E%fifo_pop_some H x. specialize (H x). unfold owed, places, waiting in *. simpl.
  rw E bind_cons occ_app in H. rw occ_app. lia.
Qed.

Lemma balanced_callback_step hand c c' :
  balanced hand c -> callback_step c = Some c' -> balanced hand c'.
Proof.
  intros H. unfold callback_step. destruct (fifo_pop (cb_queue c)) as [[k|] q] eqn:E; [|done].
  intros; simplify_eq. pose proof (balanced_pop _ _ _ _ E H) as H1.
  destruct k as [n st p|[k st|mid p]]; simpl.
  - by apply balanced_log_response.
  - by apply balanced_call_connect.
  - by apply balanced_log_other.
Qed.

Lemma balanced_delete hand k c :
  balanced (completion_ids k ++ hand) c -> balanced hand (delete_completion k c).
Proof.
  destruct k as [n st p|[[n|t] st|mid p]]; simpl;
    [apply balanced_drop|apply balanced_drop|apply balanced_set_value|done].
Qed.

Lemma balanced_drain hand fuel c : balanced hand c -> balanced hand (drain fuel c).
Proof.
  revert c. induction fuel as [|fuel IH]; intros c H; simpl; [done|].
  destruct (fifo_pop (cb_queue c)) as [[k|] q] eqn:E.
  - by apply IH, balanced_delete, balanced_pop.
  - apply fifo_pop_none in E as [E1 E2]. intros x. specialize (H x).
    unfold owed, places, waiting in *. simpl. by rw E2 -E1.
Qed.

Lemma balanced_shutdown_closure hand c :
  balanced hand c -> balanced hand (shutdown_closure config c).
Proof.
  intros H. unfold shutdown_closure. apply (balanced_foldl _ connect_ids).
  - intros. by apply balanced_call_connect.
  - by apply balanced_take_waiters, balanced_FailAllPending.
Qed.

Lemma balanced_Shutdown hand c c' :
  balanced hand c -> Shutdown config c = Some c' -> balanced hand c'.
Proof.
  intros H. unfold Shutdown. destruct (stopped c); [done|]. simpl.
  destruct (io_thread_started c); intros; simplify_eq.
  - by apply (balanced_post hand TaskShutdown).
  - apply balanced_drain. apply (balanced_foldl _ connect_ids).
    + intros h k c' H'. destruct k; [by apply balanced_drop|by apply balanced_set_value].
    + by apply balanced_take_waiters, balanced_FailAllPending.
Qed.

Lemma balanced_strand_step hand c c' :
  balanced hand c -> strand_step config c = Some c' -> balanced hand c'.
Proof.
  intros H. unfold strand_step. destruct (strand c) as [|task rest] eqn:E; [done|].
  assert (balanced (task_ids task ++ hand) (set_strand rest c)) as H1.
  { intros x. specialize (H x). unfold owed, places, waiting in *. simpl.
    rw E bind_cons occ_app in H. rw occ_app. lia. }
  intros; simplify_eq. destruct task as [cb|mid req cb|].
  - by apply balanced_connect_closure.
  - by apply balanced_call_closure.
  - by apply balanced_shutdown_closure.
Qed.

Lemma balanced_ConnectCoro hand c c' :
  balanced hand c -> ConnectCoro config c = Some c' -> balanced hand c'.
Proof.
  intros H. unfold ConnectCoro, connect_done.
  repeat case_match; intros; simplify_eq; solve [done | by apply balanced_finish].
Qed.

Lemma balanced_step e c c' :
  balanced [] c -> channel_step config e c = Some c' -> balanced [] c'.
Proof.
  intros H. unfold channel_step. destruct (shutdown c); [..|done];
    destruct (io_thread_started c); destruct e; simpl; try done;
    try (intros; simplify_eq; done).
  all: try by apply (balanced_start_call [] t (CallEnsure on_strand op)).
  all: try by apply (balanced_start_call [] t (CallConnectAsync on_strand cb)).
  all: try by apply balanced_caller_step.
  all: try by apply balanced_strand_step.
  all: try by apply balanced_ConnectCoro.
  all: try by apply balanced_callback_step.
  all: try by apply balanced_Shutdown.
  all: try (unfold ConnectCoro_resolved; repeat case_match; intros; simplify_eq;
            solve [done | by apply balanced_finish]).
  all: try (unfold ReadLoop; repeat case_match; intros; simplify_eq;
            by apply balanced_FailAllPending || by apply balanced_read_frame).
  all: try (unfold WritePump; repeat case_match; intros; simplify_eq;
            by apply balanced_pump_loop || by apply balanced_FailAllPending).
  all: try (unfold shutdown_joined; repeat case_match; intros; simplify_eq;
            by apply balanced_drain).
  all: unfold OnTrace; case_match; intros; simplify_eq; [by apply balanced_log_other|done].
Qed.

Lemma occ_called n c : occ (inl n) (log c ≫= log_ids) = occ n (called c).
Proof.
  unfold called. induction (log c) as [|l ls IH]; [done|].
  rw bind_cons occ_app. destruct l; simpl; rw IH //; repeat case_decide; by simplify_eq.
Qed.

Lemma occ_inl n (l : list nat) : occ (inl n : cb_id) (inl <$> l) = occ n l.
Proof. induction l as [|m l IH]; simpl; [done|]. rw IH. repeat case_decide; by simplify_eq. Qed.

Lemma channel_balanced sock es c :
  run_events (channel_step config) es (channel_init sock) = Some c -> balanced [] c.
Proof.
  apply (run_events_invariant (channel_step config) (balanced [])).
  - intros. by eapply balanced_step.
  - intros x. unfold owed, places, waiting. simpl. rw !map_occ_empty fifo_list_empty.
    by destruct x; rw /= ?lookup_empty.
Qed.
End Conservation.

(** ** Where callbacks run *)

Section Dispatch.
Context {A : Asio} `{!AsioClient A} {Q : Type} `{!Fifo Q Completion}.
Context `{!UnorderedIter ResponseCallback}.
Variable config : ChannelConfig.
Implicit Types c : channel A Q.

(** In the manual mode a response or push callback runs in [RunCallbacks],
    but for the cancellations of [Shutdown], which run on the io thread. *)
Definition manual_entry (l : channel_log) : Prop :=
  match l with
  | LResponse pl _ st _ => pl = OnRunCallbacks \/ (pl = OnIo /\ st = channel_shutdown)
  | LPush pl _ _ => pl = OnRunCallbacks
  | _ => True
  end.

(** In the inline mode nothing is queued, and callbacks run where the result
    is found. *)
Definition inline_entry (l : channel_log) : Prop :=
  match l with
  | LResponse pl _ _ _ => pl <> OnRunCallbacks
  | LConnect pl _ _ => pl <> OnRunCallbacks
  | LPush pl _ _ => pl = OnIo
  | _ => True
  end.

Definition entry (l : channel_log) : Prop :=
  match dispatch config with Inline => inline_entry l | Manual => manual_entry l end.

Definition placed c : Prop :=
  Forall entry (log c) /\ (dispatch config = Inline -> fifo_list (cb_queue c) = []).

Lemma placed_log l c : entry l -> placed c -> placed (log_event l c).
Proof. intros He [Hl Hq]. split; [|done]. apply Forall_app. auto. Qed.

Lemma placed_set_value t st c : placed c -> placed (set_value t st c).
Proof. unfold set_value. by repeat case_match. Qed.

Lemma placed_call_connect pl k st c :
  (dispatch config = Inline -> pl <> OnRunCallbacks) -> placed c -> placed (call_connect pl k st c).
Proof.
  intros Hpl H. destruct k; [|by apply placed_set_value].
  apply placed_log; [|done]. unfold entry. by case_match; simpl; auto.
Qed.

Lemma placed_enqueue k c :
  dispatch config = Manual -> placed c -> placed (set_cb_queue (fifo_push k (cb_queue c)) c).
Proof. intros Hd [Hl Hq]. split; [done|]. by rw Hd. Qed.

Lemma placed_post_response pl cb st p c :
  pl <> OnRunCallbacks -> placed c -> placed (post_response config pl cb st p c).
Proof.
  intros Hpl H. unfold post_response. destruct cb; [|done].
  destruct (dispatch config) eqn:E; [|by apply placed_enqueue].
  apply placed_log; [|done]. unfold entry. by rw E.
Qed.

Lemma placed_post_deferred fn c : placed c -> placed (post_deferred config OnIo fn c).
Proof.
  intros H. unfold post_deferred.
  destruct (dispatch config) eqn:E; [|by apply placed_enqueue].
  destruct fn; simpl; [by apply placed_call_connect|].
  apply placed_log; [|done]. unfold entry. by rw E.
Qed.

Lemma placed_foldl {B} (f : channel A Q -> B -> channel A Q) bs c :
  (forall b c, placed c -> placed (f c b)) -> placed c -> placed (foldl f c bs).
Proof. intros Hf. revert c. induction bs; simpl; auto. Qed.

Lemma placed_FailAllPending st defer c :
  (defer = false -> st = channel_shutdown) -> placed c ->
  placed (FailAllPending config st defer c).
Proof.
  intros Hst H. apply placed_foldl; [|done]. intros [id [n|]] c' H'; [|done].
  destruct defer; [by apply placed_post_response|]. rw (Hst eq_refl).
  apply placed_log; [|done]. unfold entry. case_match; simpl; auto.
Qed.

Lemma placed_finish st c : placed c -> placed (finish config st c).
Proof.
  intros H. apply placed_foldl; [|by case_match].
  intros. by apply placed_post_deferred.
Qed.

Lemma placed_RequestConnect pl cb c :
  pl <> OnRunCallbacks -> placed c -> placed (RequestConnect pl cb c).
Proof.
  intros Hpl H. unfold RequestConnect, EnsureIoThread.
  repeat case_match; solve [done | by apply placed_call_connect].
Qed.

Lemma placed_read_frame h p c : placed c -> placed (read_frame config h p c).
Proof.
  intros H. unfold read_frame. repeat case_match;
    solve [done | by apply placed_post_deferred | by apply placed_post_response
          | by apply placed_FailAllPending].
Qed.

Lemma placed_call_closure mid req cb c : placed c -> placed (call_closure config mid req cb c).
Proof.
  intros H. unfold call_closure, pending_emplace. repeat case_match;
    solve [done | by apply placed_post_response].
Qed.

Lemma placed_drop_completion k q c :
  fifo_pop (cb_queue c) = (Some k, q) -> placed c ->
  dispatch config = Manual /\ placed (set_cb_queue q c).
Proof.
  intros E%fifo_pop_some [Hl Hq]. unfold placed. destruct (dispatch config).
  - rw E in Hq. by specialize (Hq eq_refl).
  - by split_and!.
Qed.

Lemma placed_callback_step c c' : placed c -> callback_step c = Some c' -> placed c'.
Proof.
  intros H. unfold callback_step. destruct (fifo_pop (cb_queue c)) as [[k|] q] eqn:E; [|done].
  intros; simplify_eq. destruct (placed_drop_completion _ _ _ E H) as [Hm H1].
  assert (forall n st p, entry (LResponse OnRunCallbacks n st p)) by (intros; rw /entry Hm; by left).
  assert (forall mid p, entry (LPush OnRunCallbacks mid p)) by (intros; by rw /entry Hm).
  destruct k as [n st p|[k st|mid p]]; simpl.
  - by apply placed_log.
  - apply placed_call_connect; [by rw Hm|done].
  - by apply placed_log.
Qed.

Lemma placed_drain fuel c : placed c -> placed (drain fuel c).
Proof.
  revert c. induction fuel as [|fuel IH]; intros c H; simpl; [done|].
  destruct (fifo_pop (cb_queue c)) as [[k|] q] eqn:E.
  - destruct (placed_drop_completion _ _ _ E H) as [Hm H1]. apply IH.
    unfold delete_completion. repeat case_match; solve [done | by apply placed_set_value].
  - apply fifo_pop_none in E as [_ E]. split; [apply H|by rw /= E].
Qed.

Lemma placed_shutdown_closure c : placed c -> placed (shutdown_closure config c).
Proof.
  intros H. apply placed_foldl; [intros; by apply placed_call_connect|].
  by apply placed_FailAllPending.
Qed.

Lemma placed_Shutdown c c' : placed c -> Shutdown config c = Some c' -> placed c'.
Proof.
  intros H. unfold Shutdown. repeat case_match; intros; simplify_eq; [done|].
  apply placed_drain, placed_foldl; [|by apply placed_FailAllPending].
  intros [n|t] c' H'; [done|by apply placed_set_value].
Qed.

Lemma placed_caller_step t c c' : placed c -> caller_step config t c = Some c' -> placed c'.
Proof.
  intros H. unfold caller_step, EnsureConnected, ensured.
  assert (forall b, caller_place b <> OnRunCallbacks) as Hpl by (by intros []).
  repeat case_match; intros; simplify_eq;
    solve [done | by apply placed_RequestConnect | by apply placed_post_response
          | apply placed_log; [rw /entry; by case_match|done] ].
Qed.

Lemma placed_step e c c' : placed c -> channel_step config e c = Some c' -> placed c'.
Proof.
  intros H. unfold channel_step. destruct (shutdown c); [..|done];
    destruct (io_thread_started c); destruct e; simpl; try done;
    try (intros; simplify_eq; done).
  all: try by apply placed_caller_step.
  all: try by apply placed_callback_step.
  all: try by apply placed_Shutdown.
  all: try (unfold start_call; case_match; intros; by simplify_eq).
  all: try (unfold strand_step, connect_closure; repeat case_match; intros; simplify_eq;
            solve [done | by apply placed_call_connect | by apply placed_call_closure
                  | by apply placed_shutdown_closure]).
  all: try (unfold ConnectCoro_resolved; repeat case_match; intros; simplify_eq;
            solve [done | by apply placed_finish]).
  all: try (unfold ConnectCoro, connect_done; repeat case_match; intros; simplify_eq;
            solve [done | by apply placed_finish]).
  all: try (unfold ReadLoop; repeat case_match; intros; simplify_eq;
            by apply placed_FailAllPending || by apply placed_read_frame).
  all: try (unfold WritePump, pump_loop; repeat case_match; intros; simplify_eq;
            solve [done | by apply placed_FailAllPending]).
  all: try (unfold shutdown_joined; repeat case_match; intros; simplify_eq; by apply placed_drain).
  all: unfold OnTrace; case_match; intros; simplify_eq; [|done];
    apply placed_log; [rw /entry; by case_match|done].
Qed.

Lemma channel_placed sock es c :
  run_events (channel_step config) es (channel_init sock) = Some c -> placed c.
Proof.
  apply (run_events_invariant (channel_step config) placed).
  - intros. by eapply placed_step.
  - split; [constructor|]. intros _. apply fifo_list_empty.
Qed.
End Dispatch.

(** ** Properties *)

(** A client that connects, is pushed to, calls method 7 and is answered. *)
Definition demo_config (d : Dispatch) : ChannelConfig :=
  mkChannelConfig (bytes_of_string "pc1") d true.

Definition demo_peer : pipe :=
  mkPipe (bytes_of_string "pc1"
    ++ encode_frame (mkHeader kPush 0 0 9 0, [])
    ++ encode_frame (mkHeader kResponse 0 1 7 3, bytes_of_string "xyz")) [] None true.

Definition demo_socket : pipe := mkPipe [] [] None false.

Definition connect_events (p : pipe) : list (channel_event (A := pipe_asio)) :=
  [StartConnectAsync 1 false (Some 10); CallerStep 1; StrandStep; Resolved (inl [p]);
   ConnectStep; ConnectStep; ConnectStep].

Definition demo_events : list (channel_event (A := pipe_asio)) :=
  connect_events demo_peer
  ++ [StartCall 2 false (OpCall 7 (bytes_of_string "abc") (Some 20));
      StartCall 3 false (OpCall 8 [] (Some 30)); CallerStep 2; CallerStep 3; CallerStep 2;
      CallerStep 3; StrandStep; StrandStep; PumpStep; PumpStep; PumpStep; ReadStep; ReadStep].

(** The runs of the witnesses, with a list for the callback queue. *)
Definition demo_run (d : Dispatch) (es : list (channel_event (A := pipe_asio)))
    : option (channel pipe_asio (list Completion)) :=
  run_events (channel_step (demo_config d)) es (channel_init (A := pipe_asio) demo_socket).

(** C11: every callback is called at most once and none is forgotten: in every
    interleaving of callers, io thread and owner, if the callbacks handed to
    the channel are different, those called are different, and every
    callback handed over has been called, is held by the channel, or was
    destroyed with the call it belongs to, exactly one of the three. *)
Theorem callbacks_called_once {A : Asio} `{!AsioClient A} {Q} `{!Fifo Q Completion}
    `{!UnorderedIter ResponseCallback} config sock es (c : channel A Q) :
  run_events (channel_step config) es (channel_init sock) = Some c ->
  NoDup (given c) ->
  NoDup (called c)
  /\ (forall n, n ∈ given c <-> n ∈ called c \/ 1 <= held (inl n) c \/ n ∈ dropped c)
  /\ (forall n, occ n (called c) + held (inl n) c + occ n (dropped c) <= 1).
Proof.
  intros Hr Hnd. pose proof (channel_balanced _ _ _ _ Hr) as Hb.
  assert (forall n, occ n (given c) = occ n (called c) + held (inl n) c + occ n (dropped c)) as H.
  { intros n. specialize (Hb (inl n)). simpl in Hb. unfold places in Hb.
    rw occ_called occ_inl in Hb. unfold held. lia. }
  rw NoDup_occ in Hnd. split_and!.
  - apply NoDup_occ. intros n. specialize (Hnd n). rw H in Hnd. lia.
  - intros n. rw !occ_pos H. lia.
  - intros n. by rw -H.
Qed.

Lemma callbacks_called_once_witness :
  match demo_run Manual (demo_events ++ [CallbackStep; CallbackStep; CallbackStep]) with
  | Some c => NoDup (called c) /\ called c = [10; 20] /\ 1 <= held (inl 30) c
  | None => False
  end.
Proof.
  destruct (demo_run Manual _) as [c|] eqn:E; [|by vm_compute in E].
  assert (given c = [10; 20; 30] /\ called c = [10; 20] /\ dropped c = []) as (Hg & Hc & Hd)
    by (vm_compute in E; by simplify_eq).
  destruct (callbacks_called_once _ _ _ _ E) as (Hnd & Hall & _); [rw Hg; by_decision|].
  split_and!; [done|done|].
  specialize (Hall 30). rw Hg Hc Hd in Hall. clear E Hnd Hg Hc Hd.
  destruct (proj1 Hall) as [H|[H|H]]; set_solver.
Defined.

(** C35: where callbacks run.  In the inline mode nothing is ever queued and no
    callback runs in [RunCallbacks]; in the manual mode response and push
    callbacks run in [RunCallbacks] only, with one exception: the pending
    calls that [Shutdown] cancels are called back on the io thread. *)
Theorem callbacks_dispatch {A : Asio} `{!AsioClient A} {Q} `{!Fifo Q Completion}
    `{!UnorderedIter ResponseCallback} config sock es (c : channel A Q) :
  run_events (channel_step config) es (channel_init sock) = Some c ->
  match dispatch config with
  | Inline => fifo_list (cb_queue c) = [] /\ Forall inline_entry (log c)
  | Manual => Forall manual_entry (log c)
  end.
Proof.
  intros Hr. destruct (channel_placed _ _ _ _ Hr) as [Hl Hq]. unfold entry in Hl.
  destruct (dispatch config); auto.
Qed.

(** The exception happens: a call pending at shutdown. *)
Lemma callbacks_dispatch_witness :
  match demo_run Manual (demo_events ++ [DoShutdown; StrandStep; ReadStep]) with
  | Some c => Forall manual_entry (log c) /\ LResponse OnIo 30 channel_shutdown [] ∈ log c
  | None => False
  end.
Proof.
  destruct (demo_run Manual _) as [c|] eqn:E; [|by vm_compute in E].
  split; [exact (callbacks_dispatch _ _ _ _ E)|].
  vm_compute in E. simplify_eq. simpl. set_solver.
Defined.
