(* ===== verification/ChannelCore.v ===== *)
(** * ChannelCore: the operations of a channel and its connection invariant

    What the operations of [Channel] do to the state of the connection
    ([core]), the invariant of that state, and that a success is reported to a
    caller only on an established connection.  The operations are treated here
    one by one, the whole machine in [ChannelConnection]. *)

From S2P Require Import Prelude.
From S2P Require Import Status.
From S2P Require Import Frame.
From S2P Require Import Transport.
From S2P Require Import Mpsc.
From S2P Require Import Channel.
From S2P Require Import ChannelCallbacks.

Open Scope nat_scope.

#[global] Instance ConnState_eq_dec : EqDecision ConnState.
Proof. solve_decision. Defined.

Lemma conn_state_eqb_eq a b : conn_state_eqb a b = true <-> a = b.
Proof. by destruct a, b. Qed.

Lemma conn_state_eqb_neq a b : conn_state_eqb a b = false <-> a <> b.
Proof. by destruct a, b. Qed.

(** ** What calling back leaves alone

    [kept c] forgets the log, the callback queue and the callers, which is what
    [post_response] and [post_deferred] may change; [core c] forgets the
    dropped callbacks as well. *)

Section Core.
Context {A : Asio} `{!AsioClient A} {Q : Type} `{!Fifo Q Completion}.
Context `{!UnorderedIter ResponseCallback}.
Variable config : ChannelConfig.
Implicit Types c : channel A Q.

Definition kept c : channel A Q := set_log [] (set_cb_queue fifo_empty (set_callers ∅ c)).
Definition core c : channel A Q := set_dropped [] (kept c).

Lemma kept_core c1 c2 : kept c1 = kept c2 -> core c1 = core c2.
Proof. exact (f_equal (set_dropped []) (x := kept c1) (y := kept c2)). Qed.

Lemma kept_set_value t st c : kept (set_value t st c) = kept c.
Proof. unfold set_value. by repeat case_match. Qed.

Lemma kept_call_connect pl k st c : kept (call_connect pl k st c) = kept c.
Proof. destruct k; [done|apply kept_set_value]. Qed.

Lemma kept_post_response pl cb st p c : kept (post_response config pl cb st p c) = kept c.
Proof. unfold post_response. by repeat case_match. Qed.

Lemma kept_post_deferred pl fn c : kept (post_deferred config pl fn c) = kept c.
Proof.
  unfold post_deferred, run_thunk. repeat case_match; [apply kept_call_connect|done|done].
Qed.

Lemma forget_foldl {B C} (g : channel A Q -> C) (f : channel A Q -> B -> channel A Q) bs c :
  (forall b c, g (f c b) = g c) -> g (foldl f c bs) = g c.
Proof.
  intros Hf. revert c. induction bs as [|b bs IH]; intros c; simpl; [done|]. by rw IH Hf.
Qed.

Lemma kept_FailAllPending st defer c :
  kept (FailAllPending config st defer c) = kept (set_pending ∅ c).
Proof.
  apply forget_foldl. intros [id [n|]] c'; [|done].
  destruct defer; [apply kept_post_response|done].
Qed.

(** [finish] as far as the connection is concerned. *)
Definition finished (st : Status) c : channel A Q :=
  set_connect_waiters []
    (if negb (ok st) && negb (conn_state_eqb (conn_state c) Closed)
     then set_conn_state Idle c else c).

Lemma kept_finish st c : kept (finish config st c) = kept (finished st c).
Proof. apply forget_foldl. intros k c'. apply kept_post_deferred. Qed.

Lemma kept_shutdown_closure c :
  kept (shutdown_closure config c) =
  kept (set_connect_waiters [] (set_pending ∅
    (set_socket (asio_close (socket_ c)) (set_conn_state Closed c)))).
Proof.
  unfold shutdown_closure.
  rw forget_foldl; [intros; apply kept_call_connect|].
  set (c1 := set_socket _ _).
  exact (f_equal (fun c => set_connect_waiters [] c) (kept_FailAllPending channel_shutdown false c1)).
Qed.

Lemma core_set_value t st c : core (set_value t st c) = core c.
Proof. apply kept_core, kept_set_value. Qed.
Lemma core_call_connect pl k st c : core (call_connect pl k st c) = core c.
Proof. apply kept_core, kept_call_connect. Qed.
Lemma core_post_response pl cb st p c : core (post_response config pl cb st p c) = core c.
Proof. apply kept_core, kept_post_response. Qed.
Lemma core_post_deferred pl fn c : core (post_deferred config pl fn c) = core c.
Proof. apply kept_core, kept_post_deferred. Qed.
Lemma core_FailAllPending st defer c :
  core (FailAllPending config st defer c) = core (set_pending ∅ c).
Proof. apply kept_core, kept_FailAllPending. Qed.
Lemma core_finish st c : core (finish config st c) = core (finished st c).
Proof. apply kept_core, kept_finish. Qed.
Lemma core_shutdown_closure c :
  core (shutdown_closure config c) =
  core (set_connect_waiters [] (set_pending ∅
    (set_socket (asio_close (socket_ c)) (set_conn_state Closed c)))).
Proof. apply kept_core, kept_shutdown_closure. Qed.

Lemma answered_core c1 c2 : core c1 = core c2 -> answered c1 = answered c2.
Proof. exact (f_equal answered (x := core c1) (y := core c2)). Qed.

(** Updates of the connection respect [core]. *)
Lemma core_set_connect_waiters v c1 c2 :
  core c1 = core c2 -> core (set_connect_waiters v c1) = core (set_connect_waiters v c2).
Proof. exact (f_equal (fun c => set_connect_waiters v c) (x := core c1) (y := core c2)). Qed.

Lemma core_set_shutdown v c1 c2 :
  core c1 = core c2 -> core (set_shutdown v c1) = core (set_shutdown v c2).
Proof. exact (f_equal (fun c => set_shutdown v c) (x := core c1) (y := core c2)). Qed.

Lemma core_set_reader v c1 c2 :
  core c1 = core c2 -> core (set_reader v c1) = core (set_reader v c2).
Proof. exact (f_equal (fun c => set_reader v c) (x := core c1) (y := core c2)). Qed.

(** The end of a pump whose write failed. *)
Definition pump_failed c : channel A Q :=
  set_pump PumpNone (set_write_pump_active false (set_write_failed true c)).

Lemma core_pump_failed c1 c2 : core c1 = core c2 -> core (pump_failed c1) = core (pump_failed c2).
Proof. exact (f_equal pump_failed (x := core c1) (y := core c2)). Qed.

Lemma core_drain fuel c : core (drain fuel c) = core c.
Proof.
  revert c. induction fuel as [|fuel IH]; intros c; simpl; [done|].
  destruct (fifo_pop (cb_queue c)) as [[k|] q]; [|done]. rw IH.
  unfold delete_completion. repeat case_match; try done. by rw core_set_value.
Qed.
(** [drain_all] empties the queue. *)
Lemma drain_empties fuel c :
  length (fifo_list (cb_queue c)) < fuel -> fifo_list (cb_queue (drain fuel c)) = [].
Proof.
  revert c. induction fuel as [|fuel IH]; intros c Hl; simpl; [lia|].
  destruct (fifo_pop (cb_queue c)) as [[k|] q] eqn:E.
  - apply fifo_pop_some in E. rw E /= in Hl.
    assert (cb_queue (delete_completion k (set_cb_queue q c)) = q) as Hq.
    { unfold delete_completion, set_value. by repeat case_match. }
    apply IH. rw Hq. lia.
  - apply fifo_pop_none in E as [_ E]. by rw /= E.
Qed.

Lemma drain_all_empties c : fifo_list (cb_queue (drain_all c)) = [].
Proof. apply drain_empties. lia. Qed.

(** With an empty queue it does nothing else. *)
Lemma drain_nothing fuel c :
  fifo_list (cb_queue c) = [] -> dropped (drain fuel c) = dropped c.
Proof.
  intros H. destruct fuel as [|fuel]; simpl; [done|].
  destruct (fifo_pop (cb_queue c)) as [[k|] q] eqn:E; [|done].
  apply fifo_pop_some in E. by rw H in E.
Qed.

End Core.

(** ** The connection invariant *)

Record conn_inv {A : Asio} `{!AsioClient A} {Q} (c : channel A Q) : Prop := {
  ki_connecting : conn_state c = Connecting -> connector c <> CoNone;
  ki_connector : connector c <> CoNone -> conn_state c = Connecting \/ conn_state c = Closed;
  ki_waiters : connect_waiters c <> [] -> conn_state c = Connecting;
  ki_is_connected : conn_state c = Connected -> connected c = true;
  ki_connected : connected c = true -> conn_state c = Connected \/ conn_state c = Closed;
  ki_reader : reader c = true -> connected c = true;
  ki_closed : conn_state c = Closed -> stopped c = true;
  ki_started : io_thread_started c = false ->
    strand c = [] /\ connected c = false /\ connector c = CoNone /\ pump c = PumpNone;
  ki_active : write_pump_active c = true <-> pump c <> PumpNone;
  ki_queue : pump c = PumpNone -> write_queue c = [];
  ki_task : TaskShutdown ∈ strand c -> stopped c = true;
  ki_running : shutdown c = ShutNone -> stopped c = false;
  ki_joining : shutdown c = ShutJoin ->
    io_thread_started c = true /\ stopped c = true
    /\ (TaskShutdown ∈ strand c \/ (conn_state c = Closed /\ pending c = ∅));
  ki_done : shutdown c = ShutDone ->
    stopped c = true /\ pending c = ∅ /\ connect_waiters c = [] /\ strand c = []
}.

Section ConnInvariant.
Context {A : Asio} `{!AsioClient A} {Q : Type} `{!Fifo Q Completion}.
Context `{!UnorderedIter ResponseCallback}.
Variable config : ChannelConfig.
Implicit Types c : channel A Q.

Lemma conn_inv_core c1 c2 : core c1 = core c2 -> conn_inv c2 -> conn_inv c1.
Proof.
  intros E H. assert (conn_inv (core c1)) as H1; [|by destruct H1].
  rw E. by destruct H.
Qed.

Ltac conn_auto :=
  match goal with H : conn_inv _ |- _ => destruct H end;
  constructor; simpl in *; intros; simplify_eq; try done;
  repeat match goal with
  | H : _ <-> _ |- _ => destruct H
  | H : ?P -> _, H' : ?P |- _ => specialize (H H')
  end; try assumption; try congruence; try (by split_and!); intuition (try congruence).

(** The attempt ends without a connection. *)
Lemma conn_inv_failed st c :
  conn_inv c -> connector c <> CoNone -> ok st = false ->
  conn_inv (finish config st (set_connector CoNone c)).
Proof.
  intros H Hc Hst. apply (conn_inv_core _ _ (core_finish _ _ _)).
  unfold finished. rw Hst. simpl.
  destruct (conn_state_eqb (conn_state c) Closed) eqn:E; simpl.
  - apply conn_state_eqb_eq in E. conn_auto.
  - apply conn_state_eqb_neq in E. conn_auto.
Qed.

Lemma conn_inv_connect_done c :
  conn_inv c -> connector c <> CoNone -> io_thread_started c = true ->
  conn_inv (connect_done config (set_connector CoNone c)).
Proof.
  intros H Hc Hst. unfold connect_done. simpl.
  destruct (conn_state_eqb (conn_state c) Closed || stopped c) eqn:E.
  { by apply conn_inv_failed. }
  apply orb_false_iff in E as [E Es]. apply conn_state_eqb_neq in E.
  apply (conn_inv_core _ _ (core_finish _ _ _)). unfold finished. simpl. conn_auto.
Qed.

Lemma conn_inv_FailAllPending st defer c :
  conn_inv c -> conn_inv (FailAllPending config st defer c).
Proof.
  intros H. apply (conn_inv_core _ _ (core_FailAllPending _ _ _ _)). conn_auto.
Qed.

Lemma conn_inv_post task c :
  conn_inv c -> io_thread_started c = true -> shutdown c <> ShutDone -> task <> TaskShutdown ->
  conn_inv (post task c).
Proof.
  intros H Hs Hd Htask. destruct H. constructor; simpl in *; try done.
  - by rw Hs.
  - rw elem_of_app list_elem_of_singleton. intros [?|?]; [by auto|by subst].
  - intros E. destruct (ki_joining0 E) as (? & ? & [?|?]); split_and!; try done; [left|by right].
    apply elem_of_app. by left.
Qed.

Lemma conn_inv_RequestConnect pl cb c :
  conn_inv c -> shutdown c <> ShutDone -> conn_inv (RequestConnect pl cb c).
Proof.
  intros H Hd. unfold RequestConnect, EnsureIoThread.
  assert (forall c1, conn_inv c1 -> conn_inv
    match cb with Some k => call_connect pl k channel_stopped c1 | None => c1 end) as Hrefuse.
  { intros c1 H1. destruct cb; [|done]. by apply (conn_inv_core _ _ (core_call_connect _ _ _ _)). }
  destruct (stopped c) eqn:Es; [by apply Hrefuse|].
  destruct (io_thread_started c) eqn:Et; rw /= ?Et /=.
  - by apply conn_inv_post.
  - apply conn_inv_post; [|done|done|done]. conn_auto.
Qed.

Lemma conn_inv_connect_closure cb c :
  conn_inv c -> io_thread_started c = true -> conn_inv (connect_closure cb c).
Proof.
  intros H Ht. unfold connect_closure.
  destruct (conn_state_eqb (conn_state c) Closed || stopped c) eqn:E1.
  { destruct cb; [|done]. by apply (conn_inv_core _ _ (core_call_connect _ _ _ _)). }
  apply orb_false_iff in E1 as [E1 Es]. apply conn_state_eqb_neq in E1.
  destruct (conn_state_eqb (conn_state c) Connected) eqn:E2.
  { destruct cb; [|done]. by apply (conn_inv_core _ _ (core_call_connect _ _ _ _)). }
  apply conn_state_eqb_neq in E2.
  set (c1 := match cb with Some _ => _ | None => c end).
  assert (conn_state c1 = conn_state c) as Hs by (by destruct cb).
  rw Hs. destruct (conn_state c) eqn:E; simpl; try done.
  - subst c1. destruct cb; conn_auto.
  - subst c1. destruct cb; [|done]. conn_auto.
Qed.

Lemma conn_inv_call_closure mid req cb c :
  conn_inv c -> io_thread_started c = true -> conn_inv (call_closure config mid req cb c).
Proof.
  intros H Ht. unfold call_closure. destruct (stopped c) eqn:Es.
  { by apply (conn_inv_core _ _ (core_post_response _ _ _ _ _ _)). }
  unfold pending_emplace. simpl.
  destruct (pending c !! next_call_id c); simpl; destruct (write_pump_active c) eqn:Ea; simpl; conn_auto.
Qed.

Lemma conn_inv_shutdown_closure rest c :
  conn_inv c -> strand c = TaskShutdown :: rest -> io_thread_started c = true ->
  shutdown c <> ShutDone ->
  conn_inv (shutdown_closure config (set_strand rest c)).
Proof.
  intros H Es Ht Hd. apply (conn_inv_core _ _ (core_shutdown_closure _ _)).
  assert (stopped c = true) as Hs by (apply (ki_task _ H); rw Es; by left).
  destruct H. constructor; simpl in *; try done; try tauto.
  by rw Ht.
Qed.
End ConnInvariant.

(** ** A success is only reported on a connection *)

Section Reported.
Context {A : Asio} `{!AsioClient A} {Q : Type} `{!Fifo Q Completion}.
Context `{!UnorderedIter ResponseCallback}.
Variable config : ChannelConfig.
Implicit Types c : channel A Q.

Definition reports (st : Status) c : Prop := ok st = true -> connected c = true.

Record report_inv c : Prop := {
  rp_caller t b op st : callers c !! t = Some (CallEnsured b op st) -> reports st c;
  rp_queue k st : Deferred (ThunkConnect k st) ∈ fifo_list (cb_queue c) -> reports st c
}.

Lemma connected_core c1 c2 : core c1 = core c2 -> connected c1 = connected c2.
Proof. exact (f_equal connected (x := core c1) (y := core c2)). Qed.

Lemma report_set_value t st c : report_inv c -> reports st c -> report_inv (set_value t st c).
Proof.
  intros [Hc Hq] Hst. unfold set_value. repeat case_match; try done. constructor; [|done].
  intros t' b' op' st'. simpl. destruct (decide (t' = t)) as [->|?].
  - rw lookup_insert_eq. intros; by simplify_eq.
  - rw lookup_insert_ne //. apply Hc.
Qed.

Lemma report_call_connect pl k st c :
  report_inv c -> reports st c -> report_inv (call_connect pl k st c).
Proof. intros H Hst. destruct k; [by destruct H|by apply report_set_value]. Qed.

Lemma report_enqueue k c :
  report_inv c -> (forall k' st, k = Deferred (ThunkConnect k' st) -> reports st c) ->
  report_inv (set_cb_queue (fifo_push k (cb_queue c)) c).
Proof.
  intros [Hc Hq] Hk. constructor; [done|]. intros k' st. simpl. rw fifo_list_push.
  rw elem_of_app list_elem_of_singleton. intros [?|<-]; [by eapply Hq|by eapply Hk].
Qed.

Lemma report_post_response pl cb st p c :
  report_inv c -> report_inv (post_response config pl cb st p c).
Proof.
  intros H. unfold post_response. repeat case_match; [by destruct H| |done].
  by apply report_enqueue.
Qed.

Lemma report_post_deferred pl fn c :
  report_inv c -> (forall k st, fn = ThunkConnect k st -> reports st c) ->
  report_inv (post_deferred config pl fn c).
Proof.
  intros H Hfn. unfold post_deferred. destruct (dispatch config).
  - destruct fn as [k st|mid p]; [|by destruct H]. apply report_call_connect; [done|]. by eapply Hfn.
  - apply report_enqueue; [done|]. intros k st E. simplify_eq. by eapply Hfn.
Qed.

(** A loop of callbacks, each with a status the connection warrants. *)
Lemma report_foldl {B} (f : channel A Q -> B -> channel A Q) st bs c :
  (forall b c, report_inv c -> reports st c -> report_inv (f c b)) ->
  (forall b c, core (f c b) = core c) ->
  report_inv c -> reports st c -> report_inv (foldl f c bs).
Proof.
  intros Hf Hcore. revert c. induction bs as [|b bs IH]; intros c H Hst; simpl; [done|].
  apply IH; [by apply Hf|]. intros E. rw (connected_core _ _ (Hcore b c)). by apply Hst.
Qed.

Lemma report_FailAllPending st defer c :
  report_inv c -> report_inv (FailAllPending config st defer c).
Proof.
  intros H. apply (report_foldl _ channel_stopped); [| |by destruct H|done].
  - intros [id [n|]] c' H' _; [|done]. destruct defer; [by apply report_post_response|by destruct H'].
  - intros [id [n|]] c'; [|done]. destruct defer; [apply core_post_response|done].
Qed.

Lemma report_finish st c : report_inv c -> reports st c -> report_inv (finish config st c).
Proof.
  intros H Hst. apply (report_foldl _ st).
  - intros k c' H' Hst'. apply report_post_deferred; [done|]. intros; by simplify_eq.
  - intros. apply core_post_deferred.
  - case_match; by destruct H.
  - by case_match.
Qed.

Lemma report_RequestConnect pl cb c : report_inv c -> report_inv (RequestConnect pl cb c).
Proof.
  intros H. unfold RequestConnect, EnsureIoThread.
  repeat case_match; try (by destruct H); try (by apply report_call_connect).
Qed.

Lemma report_connect_closure cb c :
  report_inv c -> conn_inv c -> report_inv (connect_closure cb c).
Proof.
  intros H Hi. unfold connect_closure.
  destruct (conn_state_eqb (conn_state c) Closed || stopped c).
  { destruct cb; [by apply report_call_connect|done]. }
  destruct (conn_state_eqb (conn_state c) Connected) eqn:E.
  { destruct cb; [|done]. apply report_call_connect; [done|]. intros _.
    by apply Hi, conn_state_eqb_eq. }
  destruct H. repeat case_match; by constructor.
Qed.

Lemma report_connect_done c : report_inv c -> report_inv (connect_done config c).
Proof.
  intros [Hc Hq]. unfold connect_done. case_match; apply report_finish; try done.
Qed.

Lemma report_read_frame h p c : report_inv c -> report_inv (read_frame config h p c).
Proof.
  intros H. unfold read_frame. case_match.
  { case_match; [|done]. by apply report_post_deferred. }
  case_match; [destruct (report_FailAllPending (mkStatus INTERNAL "unexpected frame type") true c H);
               by constructor|].
  destruct H. repeat case_match; try apply report_post_response; by constructor.
Qed.

Lemma report_call_closure mid req cb c :
  report_inv c -> report_inv (call_closure config mid req cb c).
Proof.
  intros H. unfold call_closure, pending_emplace. case_match; [by apply report_post_response|].
  destruct H. repeat case_match; by constructor.
Qed.

Lemma report_pop k q c :
  fifo_pop (cb_queue c) = (k, q) -> report_inv c -> report_inv (set_cb_queue q c).
Proof.
  intros E [Hc Hq]. constructor; [done|]. intros k' st. simpl. destruct k as [k|].
  - apply fifo_pop_some in E. intros Hin. eapply (Hq k'). rw E. by right.
  - apply fifo_pop_none in E as [_ ->]. by intros ?%elem_of_nil.
Qed.

Lemma report_callback_step c c' : report_inv c -> callback_step c = Some c' -> report_inv c'.
Proof.
  intros H. unfold callback_step. destruct (fifo_pop (cb_queue c)) as [[k|] q] eqn:E; [|done].
  intros; simplify_eq. pose proof (report_pop _ _ _ E H) as H1. apply fifo_pop_some in E.
  destruct k as [n st p|[k st|mid p]]; simpl; [by destruct H1| |by destruct H1].
  apply report_call_connect; [done|]. apply (rp_queue _ H k). rw E. by left.
Qed.

Lemma report_drain fuel c : report_inv c -> report_inv (drain fuel c).
Proof.
  revert c. induction fuel as [|fuel IH]; intros c H; simpl; [done|].
  destruct (fifo_pop (cb_queue c)) as [[k|] q] eqn:E; pose proof (report_pop _ _ _ E H) as H1; [|done].
  apply IH. unfold delete_completion. repeat case_match; try (by destruct H1).
  by apply report_set_value.
Qed.

Lemma report_shutdown_closure c : report_inv c -> report_inv (shutdown_closure config c).
Proof.
  intros H. apply (report_foldl _ channel_shutdown); [| | |done].
  - intros. by apply report_call_connect.
  - intros. apply core_call_connect.
  - set (c1 := set_socket _ _). assert (report_inv c1) as H1 by (by destruct H).
    by destruct (report_FailAllPending channel_shutdown false c1 H1).
Qed.

Lemma core_drop_waiter k c : core (drop_waiter k c) = core c.
Proof. destruct k; [done|apply core_set_value]. Qed.

Lemma report_Shutdown c c' : report_inv c -> Shutdown config c = Some c' -> report_inv c'.
Proof.
  intros H. unfold Shutdown. destruct (stopped c); [done|]. simpl.
  destruct (io_thread_started c); intros; simplify_eq; [by destruct H|].
  set (c1 := set_conn_state _ _). assert (report_inv c1) as H1 by (by destruct H).
  pose proof (report_FailAllPending channel_shutdown false c1 H1) as H2.
  set (c2 := FailAllPending _ _ _ c1) in *.
  assert (report_inv (foldl (fun c k => drop_waiter k c) (set_connect_waiters [] c2) (connect_waiters c2))) as H3.
  { apply (report_foldl _ channel_stopped); [| |by destruct H2|done].
    - intros [n|t] c' H' Hs; [by destruct H'|by apply report_set_value].
    - intros. apply core_drop_waiter. }
  by destruct (report_drain (S (length (fifo_list (cb_queue (foldl (fun c k => drop_waiter k c)
    (set_connect_waiters [] c2) (connect_waiters c2)))))) _ H3).
Qed.
End Reported.
