(* ===== verification/ChannelConnection.v ===== *)
(** * ChannelConnection: the life of a channel's connection

    The machine of [Channel] besides its callbacks: one connection attempt at
    a time, one reader and one writer on the connection, requests numbered and
    transmitted in order, shutdown; and what follows for the threads that
    wait. *)

From S2P Require Import Prelude.
From S2P Require Import Status.
From S2P Require Import Frame.
From S2P Require Import Transport.
From S2P Require Import Mpsc.
From S2P Require Import Channel.
From S2P Require Import ChannelCallbacks.
From S2P Require Import ChannelCore.

Open Scope nat_scope.

Section ConnStep.
Context {A : Asio} `{!AsioClient A} {Q : Type} `{!Fifo Q Completion}.
Context `{!UnorderedIter ResponseCallback}.
Variable config : ChannelConfig.
Implicit Types c : channel A Q.

Definition sound c : Prop := conn_inv c /\ report_inv c.

Lemma connected_started c : conn_inv c -> connected c = true -> io_thread_started c = true.
Proof.
  intros H Hc. destruct (io_thread_started c) eqn:E; [done|].
  destruct (ki_started _ H E) as (_ & E' & _). congruence.
Qed.

Lemma sound_caller_step t c c' :
  shutdown c <> ShutDone -> sound c -> caller_step config t c = Some c' -> sound c'.
Proof.
  intros Hd [Hc Hr]. unfold caller_step. destruct (callers c !! t) as [pc|] eqn:E; [|done].
  assert (forall pc', (forall b op st, pc' = CallEnsured b op st -> reports st c) ->
    sound (set_caller t pc' c)) as Hmove.
  { intros pc' Hpc. split; [by destruct Hc|]. destruct Hr as [Hr Hq]. constructor; [|done].
    intros t' b op st. simpl. destruct (decide (t' = t)) as [->|?].
    - rw lookup_insert_eq. intros; simplify_eq. by eapply Hpc.
    - rw lookup_insert_ne //. apply Hr. }
  assert (sound (set_callers (delete t (callers c)) c)) as Hdel.
  { split; [by destruct Hc|]. destruct Hr as [Hr Hq]. constructor; [|done].
    intros t' b op st H'. simpl in H'. apply lookup_delete_Some in H' as [_ ?]. by eapply Hr. }
  destruct pc as [b op|b op|b op|b op cs|b cb]; intros; simplify_eq.
  - unfold EnsureConnected. repeat case_match; apply Hmove; intros; simplify_eq; by intros ?.
  - destruct (Hmove (CallWait b op)) as [H1 H2]; [done|].
    split; [by apply conn_inv_RequestConnect|by apply report_RequestConnect].
  - unfold ensured. destruct Hdel as [H1 H2]. destruct op as [|mid req cb]; [by split; destruct H1, H2|].
    destruct (ok cs) eqn:Ecs; simpl.
    + pose proof (rp_caller _ Hr _ _ _ _ E Ecs) as Hcon.
      split; [|by destruct H2]. apply conn_inv_post; [done| |done|done].
      by apply connected_started.
    + split; [by apply (conn_inv_core _ _ (core_post_response _ _ _ _ _ _))|by apply report_post_response].
  - destruct Hdel as [H1 H2].
    split; [by apply conn_inv_RequestConnect|by apply report_RequestConnect].
Qed.

Lemma conn_inv_pop_task task rest c :
  conn_inv c -> io_thread_started c = true -> strand c = task :: rest -> task <> TaskShutdown ->
  shutdown c <> ShutDone -> conn_inv (set_strand rest c).
Proof.
  intros Hc Ht E Hne Hd. destruct Hc. constructor; simpl; try done; [by rw Ht| |].
  { intros Hin. apply ki_task. rw E. by right. }
  intros Hj. destruct (ki_joining Hj) as (? & ? & [Hin|?]); split_and!; try done; [left|by right].
  rw E in Hin. by apply elem_of_cons in Hin as [?|?].
Qed.

Lemma sound_strand_step c c' :
  io_thread_started c = true -> shutdown c <> ShutDone -> sound c ->
  strand_step config c = Some c' -> sound c'.
Proof.
  intros Ht Hd [Hc Hr]. unfold strand_step. destruct (strand c) as [|task rest] eqn:E; [done|].
  assert (report_inv (set_strand rest c)) as Hr1 by (by destruct Hr).
  assert (task <> TaskShutdown -> conn_inv (set_strand rest c)) as Hc1.
  { intros. by eapply conn_inv_pop_task. }
  intros; simplify_eq. destruct task as [cb|mid req cb|].
  - split; [by apply conn_inv_connect_closure; [apply Hc1|]|apply report_connect_closure; [done|by apply Hc1]].
  - split; [by apply conn_inv_call_closure; [apply Hc1|]|by apply report_call_closure].
  - split; [by apply conn_inv_shutdown_closure|by apply report_shutdown_closure].
Qed.
End ConnStep.

Section ConnReachable.
Context {A : Asio} `{!AsioClient A} {Q : Type} `{!Fifo Q Completion}.
Context `{!UnorderedIter ResponseCallback}.
Variable config : ChannelConfig.
Implicit Types c : channel A Q.

Lemma sound_ConnectCoro c c' :
  io_thread_started c = true -> sound c ->
  (ConnectCoro config c = Some c' \/ exists r, ConnectCoro_resolved config r c = Some c') -> sound c'.
Proof.
  intros Ht [Hc Hr] Hstep.
  assert (connector c <> CoNone -> forall sock st, ok st = false ->
    sound (finish config st (set_connector CoNone (set_socket sock c)))) as Hfail.
  { intros Hn sock st Hst. assert (reports st c) by (by rw /reports Hst). split.
    - apply conn_inv_failed; [by destruct Hc|done|done].
    - apply report_finish; [by destruct Hr|done]. }
  assert (connector c <> CoNone -> forall sock,
    sound (connect_done config (set_connector CoNone (set_socket sock c)))) as Hdone.
  { intros Hn sock. split; [|apply report_connect_done; by destruct Hr].
    apply conn_inv_connect_done; [by destruct Hc|done|done]. }
  assert (connector c <> CoNone -> forall sock pc, pc <> CoNone ->
    sound (set_connector pc (set_socket sock c))) as Hgo.
  { intros Hn sock pc Hpc. destruct (ki_connector _ Hc Hn) as [E|E];
      (split; [|by destruct Hr]); destruct Hc; constructor; simpl; try done; try (by rw Ht); auto. }
  destruct Hstep as [Hstep|[r Hstep]]; revert Hstep.
  - unfold ConnectCoro. destruct (connector c) eqn:Epc; try done.
    + destruct (asio_connect _ _) as [sock [e|]]; intros; simplify_eq; [by apply Hfail|].
      case_match; simplify_eq; [by apply Hdone|by apply Hgo].
    + destruct (AsyncTransport_WriteHandshake _ _) as [sock hs].
      destruct (ok hs) eqn:E; simpl; intros; simplify_eq; [by apply Hgo|by apply Hfail].
    + destruct (AsyncTransport_ReadHandshake _ _) as [sock hs].
      destruct (ok hs) eqn:E; simpl; intros; simplify_eq; [by apply Hdone|by apply Hfail].
  - unfold ConnectCoro_resolved. destruct (connector c) eqn:Epc; try done.
    destruct r; intros; simplify_eq; [by apply (Hgo ltac:(done) (socket_ c))|].
    by apply (Hfail ltac:(done) (socket_ c)).
Qed.

Lemma sound_FailAllPending st c : sound c -> sound (FailAllPending config st true c).
Proof. intros [Hc Hr]. split; [by apply conn_inv_FailAllPending|by apply report_FailAllPending]. Qed.

Lemma sound_set_reader_false c : sound c -> sound (set_reader false c).
Proof. intros [[] []]. by split; constructor. Qed.

Lemma conn_inv_delete_pending id c :
  conn_inv c -> conn_inv (set_pending (delete id (pending c)) c).
Proof.
  intros []. constructor; simpl; try done; intros E.
  - destruct (ki_joining E) as (? & ? & [?|[? Hp]]); split_and!; auto.
    right. split; [done|]. by rw Hp delete_empty.
  - destruct (ki_done E) as (? & Hp & ? & ?). by rw Hp delete_empty.
Qed.

Lemma sound_ReadLoop c c' : sound c -> ReadLoop config c = Some c' -> sound c'.
Proof.
  intros H. unfold ReadLoop. destruct (reader c); [|done].
  destruct (AsyncTransport_ReadFrame _ _ _) as [[[sock h] p] st].
  assert (sound (set_socket sock c)) as H1 by (by destruct H as [[] []]; split; constructor).
  case_match; intros; simplify_eq; [by apply sound_set_reader_false, sound_FailAllPending|].
  destruct H1 as [Hc Hr]. split; [|by apply report_read_frame]. unfold read_frame.
  repeat case_match; try done; try by apply (conn_inv_core _ _ (core_post_deferred _ _ _ _)).
  - apply (sound_set_reader_false _), sound_FailAllPending. by split.
  - apply (conn_inv_core _ _ (core_post_response _ _ _ _ _ _)).
    by destruct (conn_inv_delete_pending (call_id h) _ Hc).
  - apply (conn_inv_core _ _ (core_post_response _ _ _ _ _ _)).
    by destruct (conn_inv_delete_pending (call_id h) _ Hc).
  - by apply conn_inv_delete_pending.
Qed.

Lemma sound_pump_loop c :
  sound c -> pump c <> PumpNone -> io_thread_started c = true -> sound (pump_loop c).
Proof.
  intros [Hc Hr] Hp Ht. unfold pump_loop.
  destruct (write_queue c) as [|[h p] q] eqn:E; (split; [|by destruct Hr]);
    destruct Hc; constructor; simpl; try done; try (by rw Ht).
  split; [done|]. intros _. by apply ki_active.
Qed.

Lemma sound_WritePump c c' :
  io_thread_started c = true -> sound c -> WritePump config c = Some c' -> sound c'.
Proof.
  intros Ht H. unfold WritePump. destruct (pump c) as [| |h p] eqn:Ep; [done|..].
  { intros; simplify_eq. apply sound_pump_loop; [done|by rw Ep|done]. }
  destruct (AsyncTransport_WriteFrame _ _ _) as [sock ws].
  destruct (ok ws); simpl; intros; simplify_eq.
  - apply sound_pump_loop; [|by rw /= Ep|done]. by destruct H as [[] []]; split; constructor.
  - set (c1 := set_write_queue [] (set_socket sock c)).
    assert (sound c1) as H1 by (by destruct H as [[] []]; split; constructor).
    destruct (sound_FailAllPending ws c1 H1) as [Hc Hr].
    assert (write_queue (FailAllPending config ws true c1) = []) as Hq.
    { exact (f_equal write_queue (core_FailAllPending config ws true c1)). }
    assert (io_thread_started (FailAllPending config ws true c1) = true) as Ht1.
    { etrans; [exact (f_equal io_thread_started (core_FailAllPending config ws true c1))|done]. }
    split; [|by destruct Hr]. destruct Hc. constructor; simpl; try done. by rw Ht1.
Qed.

Lemma sound_drain_all c : sound c -> sound (drain_all c).
Proof.
  intros [Hc Hr]. split; [by apply (conn_inv_core _ _ (core_drain _ _))|by apply report_drain].
Qed.

Lemma sound_Shutdown c c' : sound c -> Shutdown config c = Some c' -> sound c'.
Proof.
  intros [Hc Hr] Hs. split; [|by eapply report_Shutdown]. revert Hs.
  unfold Shutdown. destruct (stopped c) eqn:Es; [done|]. simpl.
  destruct (io_thread_started c) eqn:Et; intros; simplify_eq.
  - destruct Hc. constructor; simpl; try done.
    + by rw Et.
    + intros _. split_and!; try done. left. apply elem_of_app. right. by left.
  - set (c1 := set_conn_state _ _). set (c2 := FailAllPending _ _ _ c1).
    set (c3 := foldl _ _ _).
    assert (core (drain_all c3) = core (set_connect_waiters [] (set_pending ∅ c1))) as Hcore.
    { unfold drain_all. rw core_drain. unfold c3. rw (forget_foldl core); [intros; apply core_drop_waiter|].
      apply core_set_connect_waiters, core_FailAllPending. }
    apply (conn_inv_core _ _ (core_set_shutdown ShutDone _ _ Hcore)).
    destruct (ki_started _ Hc Et) as (Hst & Hcon & Hco & Hp).
    destruct Hc. constructor; simpl; try done.
    + by rw Hcon.
Qed.

Lemma sound_joined c c' : sound c -> shutdown_joined c = Some c' -> sound c'.
Proof.
  intros H. unfold shutdown_joined. destruct (shutdown c) eqn:Es; [done| |done].
  destruct (io_finished c) eqn:Ef; [|done]. intros; simplify_eq.
  destruct (sound_drain_all c H) as [_ Hr]. destruct H as [Hc _].
  split; [|by destruct Hr].
  apply (conn_inv_core _ _ (core_set_shutdown ShutDone _ _ (core_drain _ _))).
  unfold io_finished in Ef. destruct (strand c) eqn:Est; [|done].
  destruct (ki_joining _ Hc Es) as (Ht & Hst & [Hin|[Hcl Hpe]]); [by rw Est in Hin; apply elem_of_nil in Hin|].
  pose proof (ki_waiters _ Hc) as Hw.
  destruct Hc. constructor; simpl; try done; try (by rw Ht). intros _. split_and!; try done.
  destruct (connect_waiters c); [done|]. rw Hcl in Hw. by specialize (Hw ltac:(done)).
Qed.

Lemma sound_step e c c' : sound c -> channel_step config e c = Some c' -> sound c'.
Proof.
  intros H. unfold channel_step.
  destruct (decide (shutdown c = ShutDone)) as [->|Hd]; [done|].
  assert (forall r, match shutdown c with ShutDone => None | _ => r end = Some c' -> r = Some c') as Hsh
    by (by destruct (shutdown c)).
  intros Hstep%Hsh. clear Hsh. destruct (io_thread_started c) eqn:Et; destruct e; simpl in Hstep;
    try done; try (by eapply sound_caller_step); try (by eapply sound_Shutdown);
    try (by eapply sound_joined); try (by eapply sound_strand_step);
    try (eapply sound_ConnectCoro; by eauto); try (by eapply sound_ReadLoop);
    try (by eapply sound_WritePump).
  all: try (simplify_eq; by destruct H as [[] []]; split; constructor).
  all: try (unfold OnTrace in Hstep; case_match; simplify_eq; [|done];
            by destruct H as [[] []]; split; constructor).
  all: try (destruct H as [Hc Hr]; split; [|by eapply report_callback_step]; revert Hstep;
    unfold callback_step, run_completion, run_thunk; repeat case_match; intros; simplify_eq;
    try (by destruct Hc); by apply (conn_inv_core _ _ (core_call_connect _ _ _ _)); destruct Hc).
  all: unfold start_call in Hstep; case_match; simplify_eq; destruct H as [Hc [Hr Hq]];
    (split; [by destruct Hc|]); constructor; [|done]; simpl;
    intros t' b' op' st'; rw lookup_insert; case_match; [done|apply Hr].
Qed.

Lemma channel_sound sock es c :
  run_events (channel_step config) es (channel_init sock) = Some c -> sound c.
Proof.
  apply (run_events_invariant (channel_step config) sound).
  - intros. by eapply sound_step.
  - split; constructor; simpl; try done.
    + by intros ?%elem_of_nil.
    + intros k st. rw fifo_list_empty. by intros ?%elem_of_nil.
Qed.
End ConnReachable.
