(* ===== verification/ChannelRequests.v ===== *)
(** * ChannelRequests: the requests of a channel on the wire

    Call identifiers, the order of the requests and the bytes a channel
    transmits, and that a response reaches the callback of the request it
    answers. *)

From S2P Require Import Prelude.
From S2P Require Import Status.
From S2P Require Import Frame.
From S2P Require Import Transport.
From S2P Require Import Mpsc.
From S2P Require Import Channel.
From S2P Require Import ChannelCallbacks.
From S2P Require Import ChannelCore.
From S2P Require Import ChannelConnection.

Open Scope nat_scope.

Definition pump_frames (pc : pump_pc) : list (FrameHeader * bytes) :=
  match pc with PumpWriting hdr payload => [(hdr, payload)] | _ => [] end.

(** The frame of a call. *)
Definition request_of (i : Z * ResponseCallback) (f : FrameHeader * bytes) : Prop :=
  exists mid, f.1 = request_header i.1 mid f.2.

(** The invariant of the requests.  [ri_wire]: the connection carries the
    handshake header and then whole request frames. *)
Record request_inv {A : Asio} `{!AsioClient A} `{!AsioStream A} {Q}
    (config : ChannelConfig) (c : channel A Q) : Prop := {
  ri_ids : (issued c).*1 = nth_call_id <$> seq 0 (length (issued c));
  ri_next : next_call_id c = nth_call_id (length (issued c));
  ri_pending id cb : pending c !! id = Some cb -> (id, cb) ∈ issued c;
  ri_queued : Forall2 request_of (issued c) (queued c);
  ri_answered : Forall (fun a => (call_id a.1.1, Some a.2) ∈ issued c /\ type a.1.1 = kResponse)
    (answered c);
  ri_pipeline : write_failed c = false ->
    queued c = written c ++ pump_frames (pump c) ++ write_queue c;
  ri_task mid req cb : TaskCall mid req cb ∈ strand c -> connected c = true;
  ri_unconnected : connected c = false ->
    queued c = [] /\ written c = [] /\ pump c = PumpNone /\ write_failed c = false;
  ri_connector : connected c = true -> connector c = CoNone;
  ri_write : connector c = CoWriteHandshake -> outgoing (socket_ c) = [];
  ri_read : connector c = CoReadHandshake -> outgoing (socket_ c) = handshake_header config;
  ri_wire : connected c = true -> write_failed c = false ->
    outgoing (socket_ c) = handshake_header config ++ concat (encode_frame <$> written c)
}.

Section RequestInvariant.
Context {A : Asio} `{!AsioClient A} `{!AsioStream A} `{!AsioClientStream A}.
Context {Q : Type} `{!Fifo Q Completion} `{!UnorderedIter ResponseCallback}.
Variable config : ChannelConfig.
Implicit Types c : channel A Q.
Abbreviation rinv := (request_inv config).

Lemma rinv_core c1 c2 : core c1 = core c2 -> rinv c2 -> rinv c1.
Proof.
  intros E H. assert (rinv (core c1)) as H1; [|by destruct H1].
  rw E. by destruct H.
Qed.

Lemma rinv_FailAllPending st defer c : rinv c -> rinv (FailAllPending config st defer c).
Proof.
  intros []. apply (rinv_core _ _ (core_FailAllPending _ _ _ _)). by constructor.
Qed.

Lemma rinv_post task c :
  rinv c -> (forall mid req cb, task = TaskCall mid req cb -> connected c = true) -> rinv (post task c).
Proof.
  intros [] Ht. constructor; simpl; try done. intros mid req cb.
  rw elem_of_app list_elem_of_singleton. intros [?|<-]; [by eapply ri_task0|by eapply Ht].
Qed.

Lemma rinv_RequestConnect pl cb c : rinv c -> rinv (RequestConnect pl cb c).
Proof.
  intros H. unfold RequestConnect, EnsureIoThread. repeat case_match; try done;
    try (by apply (rinv_core _ _ (core_call_connect _ _ _ _)));
    try (by apply rinv_post).
  apply rinv_post; [by destruct H|done].
Qed.

(** The attempt ends. *)
Lemma rinv_finish st c : rinv c -> rinv (finish config st c).
Proof.
  intros []. apply (rinv_core _ _ (core_finish _ _ _)). unfold finished.
  case_match; by constructor.
Qed.

Lemma rinv_set_socket sock c :
  rinv c -> outgoing sock = outgoing (socket_ c) -> rinv (set_socket sock c).
Proof. intros [] E. by constructor; simpl; rw ?E. Qed.

Lemma rinv_connect_closure cb c : rinv c -> conn_inv c -> rinv (connect_closure cb c).
Proof.
  intros H Hc. unfold connect_closure.
  destruct (conn_state_eqb (conn_state c) Closed || stopped c) eqn:E1.
  { destruct cb; [|done]. by apply (rinv_core _ _ (core_call_connect _ _ _ _)). }
  destruct (conn_state_eqb (conn_state c) Connected) eqn:E2.
  { destruct cb; [|done]. by apply (rinv_core _ _ (core_call_connect _ _ _ _)). }
  assert (connected c = false) as Hn.
  { apply orb_false_iff in E1 as [E1 _]. apply conn_state_eqb_neq in E1, E2.
    destruct (connected c) eqn:E; [|done]. by destruct (ki_connected _ Hc E). }
  assert (rinv match cb with
    | Some k => set_connect_waiters (connect_waiters c ++ [k]) c | None => c end) as H1.
  { destruct cb; [|done]. by destruct H. }
  set (c1 := match cb with Some _ => _ | None => c end) in *.
  destruct (conn_state_eqb (conn_state c1) Idle); [|done]. destruct H1.
  assert (connected c1 = false) as Hn1 by (by subst c1; destruct cb).
  constructor; simpl; try done. by rw Hn1.
Qed.

Lemma rinv_pump_loop c : rinv (set_pump PumpSpawned c) -> rinv (pump_loop c).
Proof.
  intros []. simpl in *. unfold pump_loop.
  destruct (write_queue c) as [|[h p] q] eqn:E; constructor; simpl; try done; try (by rw ?E);
    intros Hn; by destruct (ri_unconnected0 Hn) as (? & ? & ? & ?).
Qed.

Lemma rinv_WritePump c c' : rinv c -> WritePump config c = Some c' -> rinv c'.
Proof.
  intros H. unfold WritePump. destruct (pump c) as [| |h p] eqn:Ep; [done|..].
  { intros; simplify_eq. apply rinv_pump_loop. destruct H. rw Ep in ri_pipeline0 ri_unconnected0.
    by constructor. }
  assert (connected c = true) as Hcon.
  { destruct (connected c) eqn:E; [done|]. destruct (ri_unconnected _ _ H E) as (_ & _ & ? & _). congruence. }
  destruct (AsyncTransport_WriteFrame _ _ _) as [sock ws] eqn:E.
  apply WriteFrame_out in E as [_ Ho]. destruct (ok ws); simpl; intros; simplify_eq.
  - apply rinv_pump_loop. destruct H. rw Ep in ri_pipeline0. constructor; simpl; try done.
    + intros Hf. by rw ri_pipeline0 // -app_assoc.
    + by rw Hcon.
    + by rw ri_connector0.
    + by rw ri_connector0.
    + intros _ Hf. rw Ho // ri_wire0 // fmap_app concat_app /= app_nil_r -app_assoc //.
  - set (c1 := set_write_queue [] (set_socket sock c)).
    apply (rinv_core _ _ (core_pump_failed _ _ (core_FailAllPending config ws true c1))).
    destruct H. constructor; simpl; try done.
    + by rw Hcon.
    + by rw ri_connector0.
    + by rw ri_connector0.
Qed.

Lemma rinv_call_closure mid req cb c :
  rinv c -> connected c = true -> conn_inv c -> rinv (call_closure config mid req cb c).
Proof.
  intros H Hcon Hc. unfold call_closure. destruct (stopped c).
  { by apply (rinv_core _ _ (core_post_response _ _ _ _ _ _)). }
  set (id := next_call_id c). set (fr := (request_header id mid req, req)).
  assert (rinv (set_issued (issued c ++ [(id, cb)]) (set_queued (queued c ++ [fr])
    (set_write_queue (write_queue c ++ [fr]) (set_next_call_id (u32 (id + 1)) c))))) as H1.
  { destruct H. constructor; simpl; try done.
    - rw fmap_app length_app /= seq_app fmap_app -ri_ids0 /=. by rw /id ri_next0.
    - by rw length_app /id ri_next0 nth_call_id_S Nat.add_1_r.
    - intros id' cb' ?%ri_pending0. apply elem_of_app. by left.
    - apply Forall2_app; [done|]. constructor; [by exists mid|constructor].
    - eapply Forall_impl; [done|]. intros a [? ?]. split; [|done]. apply elem_of_app. by left.
    - intros Hf. by rw ri_pipeline0 // -!app_assoc.
    - by rw Hcon. }
  assert (write_pump_active c = false -> pump c = PumpNone) as Hpump.
  { intros E. pose proof (ki_active _ Hc) as Ha. rw E in Ha. revert Ha.
    destruct (pump c); [done|..]; intros Ha; by pose proof (proj2 Ha ltac:(done)). }
  unfold pending_emplace. simpl. fold id fr.
  destruct (pending c !! id) eqn:Ep; simpl; destruct (write_pump_active c) eqn:Ea; simpl;
    destruct H1; simpl in *; constructor; simpl; try done;
    try (by rw Hpump // in ri_pipeline0); try (by rw Hcon);
    intros id' cb' [[<- <-]|[_ ?]]%lookup_insert_Some; auto;
    apply elem_of_app; right; by left.
Qed.

Lemma rinv_shutdown_closure c : rinv c -> rinv (shutdown_closure config c).
Proof.
  intros []. apply (rinv_core _ _ (core_shutdown_closure _ _)).
  by constructor; simpl; rw ?close_keeps_out.
Qed.

Lemma rinv_strand_step c c' :
  rinv c -> sound c -> io_thread_started c = true -> shutdown c <> ShutDone ->
  strand_step config c = Some c' -> rinv c'.
Proof.
  intros H [Hc Hr] Ht Hd. unfold strand_step. destruct (strand c) as [|task rest] eqn:E; [done|].
  assert (rinv (set_strand rest c)) as H1.
  { destruct H. constructor; simpl; try done. intros mid req cb Hin. eapply ri_task0.
    rw E. right. exact Hin. }
  assert (task <> TaskShutdown -> conn_inv (set_strand rest c)) as Hc1.
  { intros. by eapply conn_inv_pop_task. }
  intros; simplify_eq. destruct task as [cb|mid req cb|].
  - apply rinv_connect_closure; [done|by apply Hc1].
  - apply rinv_call_closure; [done| |by apply Hc1]. simpl.
    eapply (ri_task _ _ H mid req cb). rw E. by left.
  - by apply rinv_shutdown_closure.
Qed.

Lemma rinv_caller_step t c c' : rinv c -> sound c -> caller_step config t c = Some c' -> rinv c'.
Proof.
  intros H [Hc Hr]. unfold caller_step. destruct (callers c !! t) as [pc|] eqn:E; [|done].
  assert (forall m, rinv (set_callers m c)) as Hset by (intros; by destruct H).
  destruct pc as [b op|b op|b op|b op cs|b cb]; intros; simplify_eq.
  - unfold EnsureConnected. repeat case_match; apply Hset.
  - apply rinv_RequestConnect, Hset.
  - unfold ensured. destruct op as [|mid req cb]; [by destruct (Hset (delete t (callers c)))|].
    destruct (ok cs) eqn:Ecs; simpl.
    + apply rinv_post; [apply Hset|]. intros. by apply (rp_caller _ Hr _ _ _ _ E).
    + apply (rinv_core _ _ (core_post_response _ _ _ _ _ _)), Hset.
  - apply rinv_RequestConnect, Hset.
Qed.

(** The connection is made: nothing was transmitted but the header. *)
Lemma rinv_connect_done c :
  rinv c -> connected c = false -> connector c = CoNone ->
  outgoing (socket_ c) = handshake_header config -> rinv (connect_done config c).
Proof.
  intros H Hn Hcn Ho. unfold connect_done. case_match; [by apply rinv_finish|].
  apply (rinv_core _ _ (core_finish _ _ _)). unfold finished. simpl.
  destruct H. destruct (ri_unconnected0 Hn) as (Hq & Hw & Hp & Hf).
  constructor; simpl; try done. intros _ _. by rw Ho Hw app_nil_r.
Qed.

Lemma rinv_connecting pc sock c :
  rinv c -> connected c = false ->
  (pc = CoWriteHandshake -> outgoing sock = []) ->
  (pc = CoReadHandshake -> outgoing sock = handshake_header config) ->
  rinv (set_connector pc (set_socket sock c)).
Proof. intros [] Hn Hw Hr. constructor; simpl; try done; by rw Hn. Qed.

Lemma rinv_ConnectCoro c c' :
  rinv c -> ConnectCoro config c = Some c' \/ (exists r, ConnectCoro_resolved config r c = Some c') ->
  rinv c'.
Proof.
  intros H Hstep.
  assert (connected c = false \/ connector c = CoNone) as [Hn|E].
  { destruct (connected c) eqn:E; [right; by apply H|by left]. }
  2: { rw /ConnectCoro /ConnectCoro_resolved E in Hstep. by destruct Hstep as [?|[??]]. }
  destruct Hstep as [Hstep|[r Hstep]]; revert Hstep.
  - unfold ConnectCoro. destruct (connector c) as [| |eps| |] eqn:Epc; try done.
    + destruct (asio_connect _ _) as [sock [e|]] eqn:E; intros; simplify_eq.
      { by apply rinv_finish, rinv_connecting. }
      apply connect_fresh in E. destruct (handshake_header config) eqn:Eh; simplify_eq.
      * apply rinv_connect_done; try done; [by apply rinv_connecting|by rw Eh].
      * by apply rinv_connecting.
    + destruct (AsyncTransport_WriteHandshake _ _) as [sock hs] eqn:E.
      apply WriteHandshake_out in E as (_ & _ & Ho). rw (ri_write _ _ H Epc) app_nil_l in Ho.
      destruct (ok hs) eqn:Ehs; simpl; intros; simplify_eq; [|by apply rinv_finish, rinv_connecting].
      apply rinv_connecting; try done. intros _. by apply Ho.
    + destruct (AsyncTransport_ReadHandshake _ _) as [sock hs] eqn:E.
      apply ReadHandshake_out in E. rw (ri_read _ _ H Epc) in E.
      destruct (ok hs) eqn:Ehs; simpl; intros; simplify_eq; [|by apply rinv_finish, rinv_connecting].
      apply rinv_connect_done; try done. by apply rinv_connecting.
  - unfold ConnectCoro_resolved. destruct (connector c) eqn:Epc; try done.
    destruct r; intros; simplify_eq; [by apply (rinv_connecting _ (socket_ c))|].
    by apply rinv_finish, (rinv_connecting _ (socket_ c)).
Qed.

Lemma rinv_read_frame h p c : header_wf h -> rinv c -> rinv (read_frame config h p c).
Proof.
  intros Hwf H.
  assert (rinv (set_pending (delete (call_id h) (pending c)) c)) as H2.
  { destruct H. constructor; simpl; try done. intros id cb [_ ?]%lookup_delete_Some. auto. }
  unfold read_frame. destruct (type_eqb (type h) kPush).
  { case_match; [|done]. by apply (rinv_core _ _ (core_post_deferred _ _ _ _)). }
  destruct (type_eqb (type h) kResponse) eqn:Ety; simpl.
  2: { by destruct (rinv_FailAllPending (mkStatus INTERNAL "unexpected frame type") true c H). }
  destruct (pending c !! call_id h) as [[n|]|] eqn:Ep; [|done|done].
  assert (rinv (set_answered (answered c ++ [((h, p), n)])
    (set_pending (delete (call_id h) (pending c)) c))) as H3.
  { apply (ri_pending _ _ H) in Ep. apply type_eqb_eq in Ety; [|apply Hwf|done].
    destruct H2. constructor; simpl; try done. apply Forall_app. split; [done|].
    by apply Forall_singleton. }
  case_match; by apply (rinv_core _ _ (core_post_response _ _ _ _ _ _)).
Qed.

Lemma rinv_ReadLoop c c' : rinv c -> ReadLoop config c = Some c' -> rinv c'.
Proof.
  intros H. unfold ReadLoop. destruct (reader c); [|done].
  destruct (AsyncTransport_ReadFrame _ _ _) as [[[sock h] p] st] eqn:E.
  pose proof (ReadFrame_header_wf _ _ _ _ _ _ _ E) as Hwf.
  apply ReadFrame_raw in E as [Ho _].
  pose proof (rinv_set_socket sock c H Ho) as H1.
  destruct (ok st); simpl; intros; simplify_eq; [apply rinv_read_frame; auto|].
  by destruct (rinv_FailAllPending st true _ H1).
Qed.

Lemma rinv_Shutdown c c' : rinv c -> Shutdown config c = Some c' -> rinv c'.
Proof.
  intros H. unfold Shutdown. destruct (stopped c); [done|]. simpl.
  destruct (io_thread_started c); intros; simplify_eq.
  - destruct (rinv_post TaskShutdown c H ltac:(done)). by constructor.
  - set (c1 := set_conn_state _ _). set (c3 := foldl _ _ _).
    assert (core (drain_all c3) = core (set_connect_waiters [] (set_pending ∅ c1))) as Hcore.
    { unfold drain_all. rw core_drain. unfold c3. rw (forget_foldl core); [intros; apply core_drop_waiter|].
      apply core_set_connect_waiters, core_FailAllPending. }
    apply (rinv_core _ _ (core_set_shutdown ShutDone _ _ Hcore)). destruct H. by constructor.
Qed.

Lemma rinv_step e c c' : rinv c -> sound c -> channel_step config e c = Some c' -> rinv c'.
Proof.
  intros H Hs. unfold channel_step.
  destruct (decide (shutdown c = ShutDone)) as [->|Hd]; [done|].
  assert (forall r, match shutdown c with ShutDone => None | _ => r end = Some c' -> r = Some c') as Hsh
    by (by destruct (shutdown c)).
  intros Hstep%Hsh. clear Hsh. destruct (io_thread_started c) eqn:Et; destruct e; simpl in Hstep;
    try done; try (by eapply rinv_caller_step); try (by eapply rinv_Shutdown);
    try (by eapply rinv_strand_step); try (eapply rinv_ConnectCoro; by eauto);
    try (by eapply rinv_ReadLoop); try (by eapply rinv_WritePump).
  all: try (simplify_eq; by destruct H).
  all: try (unfold OnTrace in Hstep; case_match; simplify_eq; [|done]; by destruct H).
  all: try (unfold start_call in Hstep; case_match; simplify_eq; by destruct H).
  all: try (unfold shutdown_joined in Hstep; repeat case_match; simplify_eq;
    apply (rinv_core _ _ (core_set_shutdown ShutDone _ _ (core_drain _ _))); by destruct H).
  all: revert Hstep; unfold callback_step, run_completion, run_thunk;
    repeat case_match; intros; simplify_eq;
    try (by destruct H); by apply (rinv_core _ _ (core_call_connect _ _ _ _)); destruct H.
Qed.

Lemma channel_requests sock es c :
  run_events (channel_step config) es (channel_init sock) = Some c -> rinv c.
Proof.
  intros Hr.
  apply (run_events_invariant (channel_step config) (fun c => rinv c /\ sound c)) in Hr; [by destruct Hr|..].
  - intros e c1 c2 [H1 H2] Hstep. split; [by eapply rinv_step|by eapply sound_step].
  - split; [|apply (channel_sound config sock []); done].
    constructor; simpl; try done; by intros ??? ?%elem_of_nil.
Qed.

(** Up to [2 ^ 32] calls have different identifiers. *)
Lemma issued_NoDup c :
  rinv c -> (Z.of_nat (length (issued c)) <= 2 ^ 32)%Z -> NoDup (issued c).*1.
Proof.
  intros H Hl. rw (ri_ids _ _ H). by apply nth_call_ids_NoDup.
Qed.
End RequestInvariant.

(** ** What a callback is given *)

(** The status and the payload a response frame stands for. *)
Definition response_of (f : FrameHeader * bytes) : Status * bytes :=
  let code := code_of_int (status_code f.1) in
  if negb (code_eqb code OK) then (mkStatus code "remote error", []) else (Status_default, f.2).

Section Delivery.
Context {A : Asio} `{!AsioClient A} {Q : Type} `{!Fifo Q Completion}.
Context `{!UnorderedIter ResponseCallback}.
Variable config : ChannelConfig.
Implicit Types (c : channel A Q) (a : list (FrameHeader * bytes * nat)).

(** Callback [n] is given the response that found it, or an error. *)
Definition delivers a (n : nat) (st : Status) (p : bytes) : Prop :=
  (exists f, (f, n) ∈ a /\ (st, p) = response_of f) \/ (ok st = false /\ p = []).

Definition log_delivers a (l : channel_log) : Prop :=
  match l with LResponse _ n st p => delivers a n st p | _ => True end.

Definition queue_delivers a (k : Completion) : Prop :=
  match k with Response n st p => delivers a n st p | _ => True end.

Definition dinv a c : Prop :=
  Forall (log_delivers a) (log c) /\ Forall (queue_delivers a) (fifo_list (cb_queue c)).

Lemma dinv_mono a a' c : dinv a c -> a ⊆ a' -> dinv a' c.
Proof.
  intros [Hl Hq] Ha.
  assert (forall n st p, delivers a n st p -> delivers a' n st p) as Hd.
  { intros n st p [(f & ? & ?)|?]; [left; exists f; split; [by apply Ha|done]|by right]. }
  split; (eapply Forall_impl; [done|]).
  - intros []; simpl; auto.
  - intros []; simpl; auto.
Qed.

Lemma dinv_log a l c : dinv a c -> log_delivers a l -> dinv a (log_event l c).
Proof. intros [Hl Hq] H. split; [|done]. apply Forall_app. auto. Qed.

Lemma dinv_set_value a t st c : dinv a c -> dinv a (set_value t st c).
Proof. unfold set_value. by repeat case_match. Qed.

Lemma dinv_call_connect a pl k st c : dinv a c -> dinv a (call_connect pl k st c).
Proof. intros H. destruct k; [by apply dinv_log|by apply dinv_set_value]. Qed.

Lemma dinv_enqueue a k c :
  dinv a c -> queue_delivers a k -> dinv a (set_cb_queue (fifo_push k (cb_queue c)) c).
Proof. intros [Hl Hq] Hk. split; [done|]. rw /= fifo_list_push. apply Forall_app. auto. Qed.

Lemma dinv_post_response a pl cb st p c :
  dinv a c -> (forall n, cb = Some n -> delivers a n st p) ->
  dinv a (post_response config pl cb st p c).
Proof.
  intros H Hd. unfold post_response. destruct cb as [n|]; [|done].
  specialize (Hd n eq_refl). destruct (dispatch config); [by apply dinv_log|by apply dinv_enqueue].
Qed.

Lemma dinv_post_deferred a pl fn c : dinv a c -> dinv a (post_deferred config pl fn c).
Proof.
  intros H. unfold post_deferred. destruct (dispatch config); [|by apply dinv_enqueue].
  destruct fn; [by apply dinv_call_connect|by apply dinv_log].
Qed.

Lemma dinv_foldl {B} a (f : channel A Q -> B -> channel A Q) bs c :
  (forall b c, dinv a c -> dinv a (f c b)) -> dinv a c -> dinv a (foldl f c bs).
Proof. intros Hf. revert c. induction bs; simpl; auto. Qed.

Lemma dinv_FailAllPending a st defer c :
  dinv a c -> ok st = false -> dinv a (FailAllPending config st defer c).
Proof.
  intros H Hst. apply dinv_foldl; [|done]. intros [id [n|]] c' H'; [|done].
  destruct defer; [apply dinv_post_response|apply dinv_log]; try done; by right.
Qed.

Lemma dinv_finish a st c : dinv a c -> dinv a (finish config st c).
Proof.
  intros H. apply dinv_foldl; [intros; by apply dinv_post_deferred|]. by case_match.
Qed.

Lemma dinv_pop a k q c :
  fifo_pop (cb_queue c) = (k, q) -> dinv a c ->
  dinv a (set_cb_queue q c) /\ (forall k', k = Some k' -> queue_delivers a k').
Proof.
  intros E [Hl Hq]. destruct k as [k|].
  - apply fifo_pop_some in E. rw E in Hq. apply Forall_cons in Hq as [Hk Hq].
    split; [done|]. intros; by simplify_eq.
  - apply fifo_pop_none in E as [_ E]. split; [split; [done|by rw /= E]|done].
Qed.

Lemma dinv_drain a fuel c : dinv a c -> dinv a (drain fuel c).
Proof.
  revert c. induction fuel as [|fuel IH]; intros c H; simpl; [done|].
  destruct (fifo_pop (cb_queue c)) as [[k|] q] eqn:E; apply (dinv_pop a) in E as [H1 _]; try done.
  apply IH. unfold delete_completion. repeat case_match; try done. by apply dinv_set_value.
Qed.

Lemma dinv_RequestConnect a pl cb c : dinv a c -> dinv a (RequestConnect pl cb c).
Proof.
  intros H. unfold RequestConnect, EnsureIoThread.
  repeat case_match; try done; by apply dinv_call_connect.
Qed.

(** The invariant of deliveries. *)
Definition delivery c : Prop := dinv (answered c) c.

Lemma delivery_keep c c' : dinv (answered c) c' -> answered c' = answered c -> delivery c'.
Proof. unfold delivery. by intros H ->. Qed.

Lemma delivery_core c c1 c' :
  dinv (answered c) c' -> core c' = core c1 -> answered c1 = answered c -> delivery c'.
Proof. intros H E1 E2. eapply delivery_keep; [done|]. rw -E2. by apply answered_core. Qed.

Lemma delivery_read_frame h p c : delivery c -> delivery (read_frame config h p c).
Proof.
  intros H. unfold read_frame. destruct (type_eqb (type h) kPush).
  { case_match; [|done]. eapply delivery_core; [by apply dinv_post_deferred|apply core_post_deferred|done]. }
  destruct (type_eqb (type h) kResponse); simpl.
  2: { eapply delivery_core; [|apply core_set_reader, core_FailAllPending|done].
       by apply (dinv_FailAllPending _ (mkStatus INTERNAL "unexpected frame type") true). }
  destruct (pending c !! call_id h) as [[n|]|] eqn:Ep; [|done|done].
  set (c1 := set_answered _ _).
  assert (dinv (answered c1) c1) as H1.
  { eapply (dinv_mono (answered c) _ c); [done|]. subst c1. simpl. set_solver. }
  assert (((h, p), n) ∈ answered c1) as Hin by (subst c1; simpl; set_solver).
  destruct (negb (code_eqb _ OK)) eqn:Ec;
    (eapply delivery_core; [|apply core_post_response|done]); apply dinv_post_response; try done;
    intros n' ?; simplify_eq; left; exists (h, p); split; try done;
    unfold response_of; simpl; by rw Ec.
Qed.

Lemma delivery_caller_step t c c' : delivery c -> caller_step config t c = Some c' -> delivery c'.
Proof.
  intros H. unfold caller_step, EnsureConnected, ensured.
  repeat case_match; intros; simplify_eq; try done;
    try (by apply dinv_log);
    try (eapply delivery_keep; [by apply dinv_RequestConnect|];
         unfold RequestConnect, EnsureIoThread; repeat case_match; try done;
         by rw (answered_core _ _ (core_call_connect _ _ _ _))).
  eapply delivery_core; [|apply core_post_response|done]. breflect.
  apply dinv_post_response; [done|]. intros n _. by right.
Qed.

Lemma delivery_strand_step c c' : delivery c -> strand_step config c = Some c' -> delivery c'.
Proof.
  intros H. unfold strand_step. destruct (strand c) as [|task rest]; [done|].
  assert (forall pl k st c1, dinv (answered c) c1 -> answered c1 = answered c ->
    delivery (call_connect pl k st c1)) as Hcall.
  { intros. eapply delivery_core; [by apply dinv_call_connect|apply core_call_connect|done]. }
  intros; simplify_eq. destruct task as [cb|mid req cb|].
  - unfold connect_closure. repeat case_match; try done; by apply Hcall.
  - unfold call_closure, pending_emplace. repeat case_match; try done.
    eapply delivery_core; [|apply core_post_response|done]. apply dinv_post_response; [done|].
    by right.
  - eapply delivery_core; [|apply core_shutdown_closure|done].
    apply dinv_foldl; [intros; by apply dinv_call_connect|]. by apply dinv_FailAllPending.
Qed.

Lemma delivery_ConnectCoro c c' :
  delivery c -> ConnectCoro config c = Some c' \/ (exists r, ConnectCoro_resolved config r c = Some c') ->
  delivery c'.
Proof.
  intros H Hstep.
  assert (forall st c1, dinv (answered c) c1 -> answered c1 = answered c -> delivery (finish config st c1))
    as Hfin.
  { intros. eapply delivery_core; [by apply dinv_finish|apply core_finish|].
    unfold finished. by case_match. }
  destruct Hstep as [Hstep|[r Hstep]]; revert Hstep; unfold ConnectCoro, ConnectCoro_resolved, connect_done;
    repeat case_match; intros; simplify_eq; try done; by apply Hfin.
Qed.

Lemma delivery_io c c' :
  delivery c -> ReadLoop config c = Some c' \/ WritePump config c = Some c' -> delivery c'.
Proof.
  intros H [Hstep|Hstep]; revert Hstep.
  - unfold ReadLoop. destruct (reader c); [|done].
    destruct (AsyncTransport_ReadFrame _ _ _) as [[[sock h] p] st].
    destruct (ok st) eqn:E; simpl; intros; simplify_eq; [by apply delivery_read_frame|].
    eapply delivery_core; [|apply core_set_reader, core_FailAllPending|done].
    by apply (dinv_FailAllPending _ st true (set_socket sock c)).
  - unfold WritePump, pump_loop. destruct (pump c) as [| |h p]; [done|by repeat case_match; intros; simplify_eq|].
    destruct (AsyncTransport_WriteFrame _ _ _) as [sock ws].
    destruct (ok ws) eqn:E; simpl; [by repeat case_match; intros; simplify_eq|]. intros; simplify_eq.
    eapply delivery_core; [|apply core_pump_failed, core_FailAllPending|done].
    by apply (dinv_FailAllPending _ ws true (set_write_queue [] (set_socket sock c))).
Qed.

Lemma delivery_callback_step c c' : delivery c -> callback_step c = Some c' -> delivery c'.
Proof.
  intros H. unfold callback_step. destruct (fifo_pop (cb_queue c)) as [[k|] q] eqn:E; [|done].
  apply (dinv_pop (answered c)) in E as [H1 Hk]; [|done]. intros; simplify_eq.
  specialize (Hk k eq_refl). destruct k as [n st p|[k st|mid p]]; simpl.
  - by apply dinv_log.
  - eapply delivery_core; [by apply dinv_call_connect|apply core_call_connect|done].
  - by apply dinv_log.
Qed.

Lemma delivery_Shutdown c c' : delivery c -> Shutdown config c = Some c' -> delivery c'.
Proof.
  intros H. unfold Shutdown. repeat case_match; intros; simplify_eq; [done|].
  set (c1 := set_conn_state _ _). set (c3 := foldl _ _ _).
  assert (core (drain_all c3) = core (set_connect_waiters [] (set_pending ∅ c1))) as Hcore.
  { unfold drain_all. rw core_drain. unfold c3. rw (forget_foldl core); [intros; apply core_drop_waiter|].
    apply core_set_connect_waiters, core_FailAllPending. }
  eapply delivery_core; [|apply core_set_shutdown, Hcore|done].
  apply dinv_drain, dinv_foldl; [|by apply dinv_FailAllPending].
  intros [n|t] c' H'; [done|by apply dinv_set_value].
Qed.

Lemma delivery_step e c c' : delivery c -> channel_step config e c = Some c' -> delivery c'.
Proof.
  intros H. unfold channel_step. destruct (shutdown c); [..|done];
    destruct (io_thread_started c); destruct e; simpl; try done;
    try (intros; simplify_eq; done).
  all: try by apply delivery_caller_step.
  all: try by apply delivery_callback_step.
  all: try by apply delivery_Shutdown.
  all: try by apply delivery_strand_step.
  all: try (intros; eapply delivery_ConnectCoro; by eauto).
  all: try (intros; eapply delivery_io; by eauto).
  all: try (unfold start_call; case_match; intros; by simplify_eq).
  all: try (unfold OnTrace; case_match; intros; simplify_eq; [by apply dinv_log|done]).
  all: unfold shutdown_joined; repeat case_match; intros; simplify_eq;
    (eapply delivery_core; [|apply core_set_shutdown, core_drain|done]); by apply dinv_drain.
Qed.

Lemma channel_delivery sock es c :
  run_events (channel_step config) es (channel_init sock) = Some c -> delivery c.
Proof.
  apply (run_events_invariant (channel_step config) delivery).
  - intros. by eapply delivery_step.
  - split; [constructor|]. rw /= fifo_list_empty. constructor.
Qed.
End Delivery.

(** ** No callback is dropped while the channel runs *)

Section Dropped.
Context {A : Asio} `{!AsioClient A} `{!AsioStream A} `{!AsioClientStream A}.
Context {Q : Type} `{!Fifo Q Completion} `{!UnorderedIter ResponseCallback}.
Variable config : ChannelConfig.
Implicit Types c : channel A Q.

(** A step that neither drops, nor numbers, nor stops. *)
Record frugal c c' : Prop := {
  fr_dropped : dropped c' = dropped c;
  fr_issued : issued c' = issued c;
  fr_stopped : stopped c' = stopped c;
  fr_failed : write_failed c = true -> write_failed c' = true
}.

Lemma frugal_kept c c1 c' : kept c' = kept c1 -> frugal c c1 -> frugal c c'.
Proof.
  intros E []. assert (frugal c (kept c')) as []; [|done]. rw E. by constructor.
Qed.

Lemma frugal_RequestConnect pl cb c c1 : frugal c c1 -> frugal c (RequestConnect pl cb c1).
Proof.
  intros H. unfold RequestConnect, EnsureIoThread. repeat case_match; try (by destruct H);
    by apply (frugal_kept _ _ _ (kept_call_connect _ _ _ _)); destruct H.
Qed.

Lemma frugal_finish st c c1 : frugal c c1 -> frugal c (finish config st c1).
Proof.
  intros []. apply (frugal_kept _ _ _ (kept_finish _ _ _)). unfold finished. by case_match.
Qed.

Lemma frugal_FailAllPending st c c1 : frugal c c1 -> frugal c (FailAllPending config st true c1).
Proof. intros []. by apply (frugal_kept _ _ _ (kept_FailAllPending _ _ _ _)). Qed.

Lemma frugal_read_frame h p c c1 : frugal c c1 -> frugal c (read_frame config h p c1).
Proof.
  intros H. unfold read_frame. repeat case_match; try (by destruct H);
    try (by apply (frugal_kept _ _ _ (kept_post_deferred _ _ _ _)));
    try (apply (frugal_kept _ _ _ (kept_post_response _ _ _ _ _ _)); by destruct H).
  by destruct (frugal_FailAllPending (mkStatus INTERNAL "unexpected frame type") c c1 H).
Qed.

(** No identifier is pending when it is issued, as long as the counter has
    not come round. *)
Lemma fresh_call_id c :
  request_inv config c -> (Z.of_nat (length (issued c)) < 2 ^ 32)%Z ->
  pending c !! next_call_id c = None.
Proof.
  intros H Hl. destruct (pending c !! next_call_id c) as [cb|] eqn:E; [|done].
  apply (ri_pending _ _ H) in E. assert (next_call_id c ∈ (issued c).*1) as Hin.
  { apply list_elem_of_fmap. by exists (next_call_id c, cb). }
  rw (ri_ids _ _ H) (ri_next _ _ H) in Hin. by apply nth_call_id_fresh in Hin.
Qed.

Lemma drop_call_closure mid req cb c :
  request_inv config c -> stopped c = false ->
  (Z.of_nat (length (issued (call_closure config mid req cb c))) <= 2 ^ 32)%Z ->
  dropped (call_closure config mid req cb c) = dropped c.
Proof.
  intros H Hs. unfold call_closure. rw Hs. unfold pending_emplace. simpl.
  destruct (pending c !! next_call_id c) eqn:E; simpl; destruct (write_pump_active c); simpl; try done;
    rw length_app /=; intros Hl; rw fresh_call_id // in E; lia.
Qed.

Lemma frugal_caller_step t c c' : caller_step config t c = Some c' -> frugal c c'.
Proof.
  unfold caller_step, EnsureConnected, ensured. repeat case_match; intros; simplify_eq; try done;
    first [ by apply frugal_RequestConnect
          | by apply (frugal_kept _ _ _ (kept_post_response _ _ _ _ _ _)) ].
Qed.

Lemma frugal_ConnectCoro c c' :
  ConnectCoro config c = Some c' \/ (exists r, ConnectCoro_resolved config r c = Some c') -> frugal c c'.
Proof.
  intros [Hstep|[r Hstep]]; revert Hstep; unfold ConnectCoro, ConnectCoro_resolved, connect_done;
    repeat case_match; intros; simplify_eq; try done; by apply frugal_finish.
Qed.

Lemma frugal_io c c' : ReadLoop config c = Some c' \/ WritePump config c = Some c' -> frugal c c'.
Proof.
  intros [Hstep|Hstep]; revert Hstep.
  - unfold ReadLoop. destruct (reader c); [|done].
    destruct (AsyncTransport_ReadFrame _ _ _) as [[[sock h] p] st].
    case_match; intros; simplify_eq; [|by apply frugal_read_frame].
    by destruct (frugal_FailAllPending st c (set_socket sock c)).
  - unfold WritePump, pump_loop. destruct (pump c) as [| |h p]; [done|by repeat case_match; intros; simplify_eq|].
    destruct (AsyncTransport_WriteFrame _ _ _) as [sock ws].
    destruct (ok ws); simpl; [by repeat case_match; intros; simplify_eq|]. intros; simplify_eq.
    by destruct (frugal_FailAllPending ws c (set_write_queue [] (set_socket sock c))).
Qed.

Lemma frugal_callback_step c c' : callback_step c = Some c' -> frugal c c'.
Proof.
  unfold callback_step, run_completion, run_thunk. repeat case_match; intros; simplify_eq; try done.
  by apply (frugal_kept _ _ _ (kept_call_connect _ _ _ _)).
Qed.

Lemma stopped_core c1 c2 : core c1 = core c2 -> stopped c1 = stopped c2.
Proof. exact (f_equal stopped (x := core c1) (y := core c2)). Qed.

Lemma drop_strand_step c c' :
  request_inv config c -> strand_step config c = Some c' ->
  (Z.of_nat (length (issued c')) <= 2 ^ 32)%Z ->
  dropped c' = dropped c /\ stopped c' = stopped c /\ length (issued c) <= length (issued c').
Proof.
  intros H. unfold strand_step. destruct (strand c) as [|task rest] eqn:E; [done|].
  assert (request_inv config (set_strand rest c)) as H1.
  { destruct H. constructor; simpl; try done. intros mid req cb Hin. eapply ri_task0.
    rw E. right. exact Hin. }
  intros; simplify_eq. destruct task as [cb|mid req cb|].
  - assert (frugal c (connect_closure cb (set_strand rest c))) as [-> -> -> _]; [|done].
    unfold connect_closure. repeat case_match; try done;
      by apply (frugal_kept _ _ _ (kept_call_connect _ _ _ _)).
  - destruct (stopped c) eqn:Es.
    + assert (frugal c (call_closure config mid req cb (set_strand rest c))) as [-> -> -> _]; [|done].
      unfold call_closure. simpl. rw Es.
      by apply (frugal_kept _ _ _ (kept_post_response _ _ _ _ _ _)).
    + split; [by apply (drop_call_closure mid req cb (set_strand rest c))|].
      unfold call_closure, pending_emplace. simpl. rw Es.
      repeat case_match; simpl; rw length_app; split; try done; lia.
  - assert (frugal c (shutdown_closure config (set_strand rest c))) as [-> -> -> _]; [|done].
    by apply (frugal_kept _ _ _ (kept_shutdown_closure _ _)).
Qed.

(** [Shutdown] drops nothing when nothing is queued. *)
Lemma drop_Shutdown c c' :
  sound c -> Shutdown config c = Some c' ->
  stopped c' = true /\ issued c' = issued c
  /\ (dispatch config = Inline -> placed config c -> dropped c' = dropped c).
Proof.
  intros [Hc _]. unfold Shutdown. destruct (stopped c); [done|]. simpl.
  destruct (io_thread_started c) eqn:Et; intros; simplify_eq; [done|].
  assert (connect_waiters c = []) as Hw.
  { destruct (connect_waiters c) eqn:E; [done|]. pose proof (ki_waiters _ Hc) as Hw.
    rw E in Hw. pose proof (ki_connecting _ Hc (Hw ltac:(done))).
    by destruct (ki_started _ Hc Et) as (_ & _ & ? & _). }
  set (c1 := set_conn_state Closed (set_stopped true c)).
  pose proof (kept_FailAllPending config channel_shutdown false c1) as Hk.
  set (c2 := FailAllPending _ _ _ c1) in *.
  assert (frugal c1 c2) as Hf by (by apply (frugal_kept _ _ _ Hk)).
  assert (connect_waiters c2 = []) as Hw2.
  { etrans; [exact (f_equal connect_waiters Hk)|done]. }
  rw Hw2. simpl. unfold drain_all. set (c3 := set_connect_waiters [] c2). split_and!.
  - rw (stopped_core _ _ (core_drain _ _)). by rw (fr_stopped _ _ Hf).
  - etrans; [exact (f_equal issued (core_drain _ _))|]. by rw /= (fr_issued _ _ Hf).
  - intros Hd Hpl. rw drain_nothing; [|by apply Hf].
    apply (placed_FailAllPending config channel_shutdown false c1) in Hpl as [_ Hq]; auto.
Qed.

Lemma drop_joined c c' :
  sound c -> shutdown_joined c = Some c' ->
  stopped c' = true /\ issued c' = issued c
  /\ (dispatch config = Inline -> placed config c -> dropped c' = dropped c).
Proof.
  intros [Hc _]. unfold shutdown_joined. destruct (shutdown c) eqn:E; [done| |done].
  case_match; [|done]. intros; simplify_eq. simpl. unfold drain_all. split_and!.
  - rw (stopped_core _ _ (core_drain _ _)). by apply (ki_joining _ Hc E).
  - exact (f_equal issued (core_drain _ _)).
  - intros Hd [_ Hq]. apply drain_nothing. auto.
Qed.

Lemma drop_step e c c' :
  request_inv config c -> sound c -> placed config c -> channel_step config e c = Some c' ->
  stopped c' = false \/ dispatch config = Inline ->
  (Z.of_nat (length (issued c')) <= 2 ^ 32)%Z ->
  dropped c' = dropped c /\ (stopped c' = false -> stopped c = false)
  /\ length (issued c) <= length (issued c').
Proof.
  intros H Hs Hpl. unfold channel_step.
  destruct (decide (shutdown c = ShutDone)) as [->|Hd]; [done|].
  assert (forall r, match shutdown c with ShutDone => None | _ => r end = Some c' -> r = Some c') as Hsh
    by (by destruct (shutdown c)).
  intros Hstep%Hsh Hst Hlen. clear Hsh.
  assert (frugal c c' -> dropped c' = dropped c /\ (stopped c' = false -> stopped c = false)
    /\ length (issued c) <= length (issued c')) as Hfr.
  { by intros [-> -> -> _]. }
  assert (stopped c' = true /\ issued c' = issued c
    /\ (dispatch config = Inline -> placed config c -> dropped c' = dropped c) ->
    dropped c' = dropped c /\ (stopped c' = false -> stopped c = false)
    /\ length (issued c) <= length (issued c')) as Hend.
  { intros (Es & -> & Hdr). rw Es. destruct Hst; [congruence|]. split_and!; [by auto|done|done]. }
  destruct (io_thread_started c) eqn:Et; destruct e; simpl in Hstep; try done.
  all: try (destruct (drop_strand_step c c' H) as (? & <- & ?); by auto).
  all: try (apply Hend; by apply drop_Shutdown).
  all: try (apply Hend; by apply drop_joined).
  all: apply Hfr; try (simplify_eq; done).
  all: try by eapply frugal_caller_step.
  all: try by apply frugal_callback_step.
  all: try (apply frugal_ConnectCoro; by eauto).
  all: try (apply frugal_io; by eauto).
  all: try (unfold start_call in Hstep; case_match; simplify_eq; done).
  all: unfold OnTrace in Hstep; case_match; simplify_eq; done.
Qed.

Lemma channel_dropped sock es c :
  run_events (channel_step config) es (channel_init sock) = Some c ->
  stopped c = false \/ dispatch config = Inline ->
  (Z.of_nat (length (issued c)) <= 2 ^ 32)%Z -> dropped c = [].
Proof.
  intros Hr. apply (run_events_invariant (channel_step config)
    (fun c => request_inv config c /\ sound c /\ placed config c
      /\ (stopped c = false \/ dispatch config = Inline ->
      (Z.of_nat (length (issued c)) <= 2 ^ 32)%Z -> dropped c = []))) in Hr;
    [by destruct Hr as (_ & _ & _ & ?)|..].
  - intros e c1 c2 (H1 & H2 & H3 & H4) Hstep.
    split_and!; [by eapply rinv_step|by eapply sound_step|by eapply placed_step|].
    intros Hst Hlen. destruct (drop_step e c1 c2) as (-> & ? & ?); try done.
    apply H4; [|lia]. destruct Hst; auto.
  - split_and!; [by apply (channel_requests config sock [])|by apply (channel_sound config sock [])
      |by apply (channel_placed config sock [])|done].
Qed.

(** A failed write is not forgotten. *)
Lemma write_failed_core c1 c2 : core c1 = core c2 -> write_failed c1 = write_failed c2.
Proof. exact (f_equal write_failed (x := core c1) (y := core c2)). Qed.

Lemma write_failed_strand c c' : strand_step config c = Some c' -> write_failed c' = write_failed c.
Proof.
  unfold strand_step. destruct (strand c) as [|task rest]; [done|]. intros; simplify_eq.
  destruct task as [cb|mid req cb|].
  - unfold connect_closure. repeat case_match; try done;
      by rw (write_failed_core _ _ (core_call_connect _ _ _ _)).
  - unfold call_closure, pending_emplace. repeat case_match; try done;
      by rw (write_failed_core _ _ (core_post_response _ _ _ _ _ _)).
  - by rw (write_failed_core _ _ (core_shutdown_closure _ _)).
Qed.

Lemma write_failed_Shutdown c c' : Shutdown config c = Some c' -> write_failed c' = write_failed c.
Proof.
  unfold Shutdown. repeat case_match; intros; simplify_eq; [done|]. simpl. unfold drain_all.
  rw (write_failed_core _ _ (core_drain _ _)).
  rw (write_failed_core _ _ (forget_foldl core (fun c k => drop_waiter k c) _ _ (fun k c => core_drop_waiter k c))).
  by rw (write_failed_core _ _ (core_set_connect_waiters _ _ _ (core_FailAllPending _ _ _ _))).
Qed.

Lemma write_failed_step e c c' :
  channel_step config e c = Some c' -> write_failed c = true -> write_failed c' = true.
Proof.
  unfold channel_step. destruct (shutdown c) eqn:Esh; try done;
    destruct (io_thread_started c) eqn:Et; destruct e; simpl; try done; intros Hstep.
  all: try (apply frugal_caller_step in Hstep; by apply Hstep).
  all: try (apply frugal_callback_step in Hstep; by apply Hstep).
  all: try (eapply fr_failed, frugal_ConnectCoro; by eauto).
  all: try (eapply fr_failed, frugal_io; by eauto).
  all: try (simplify_eq; done).
  all: try (unfold start_call in Hstep; case_match; simplify_eq; done).
  all: try (unfold OnTrace in Hstep; case_match; simplify_eq; done).
  all: try (unfold shutdown_joined in Hstep; rw Esh in Hstep; try done; case_match; simplify_eq;
    simpl; by rw (write_failed_core _ _ (core_drain _ _))).
  all: try (apply write_failed_strand in Hstep; congruence).
  all: try (apply write_failed_Shutdown in Hstep; congruence).
Qed.
End Dropped.
