(* ===== verification/ChannelReceive.v ===== *)
(** * ChannelReceive: what a channel reads

    The frames the reader of a channel has taken from its connection, as a
    prefix of the byte stream the peer sends: the handshake header, then the
    frames one after the other. *)

From S2P Require Import Prelude.
From S2P Require Import Status.
From S2P Require Import Frame.
From S2P Require Import Transport.
From S2P Require Import Mpsc.
From S2P Require Import SessionSpec.
From S2P Require Import Channel.
From S2P Require Import ChannelCallbacks.
From S2P Require Import ChannelCore.
From S2P Require Import ChannelConnection.
From S2P Require Import ChannelRequests.

Open Scope nat_scope.

(** ** Vocabulary *)

(** The connections that can come of an event carry a stream in [net]. *)
Definition streams_from {A : Asio} `{!AsioClient A} `{!AsioStream A} (net : bytes -> Prop)
    (e : channel_event (A := A)) : Prop :=
  match e with
  | Resolved (inl eps) => forall s s', asio_connect s eps = (s', None) -> net (incoming s')
  | _ => True
  end.

(** What was read of a stream in [net]: the header, then frames, among them
    all those that answered a call. *)
Record received {A : Asio} `{!AsioClient A} `{!AsioStream A} {Q} (config : ChannelConfig)
    (net : bytes -> Prop) (c : channel A Q) : Prop := {
  rx_connect eps : connector c = CoConnect eps ->
    forall s s', asio_connect s eps = (s', None) -> net (incoming s');
  rx_handshake : connector c = CoWriteHandshake \/ connector c = CoReadHandshake ->
    net (incoming (socket_ c));
  rx_before : connected c = false -> reader c = false /\ answered c = [];
  rx_stream : connected c = true -> exists raws fs rest,
    net (handshake_header config ++ concat raws ++ rest)
    /\ Forall2 raw_frame raws fs
    /\ Forall (fun a => a.1 ∈ fs) (answered c)
    /\ (reader c = true -> incoming (socket_ c) = rest)
}.

Lemma ReadHandshake_in {A : Asio} `{!AsioStream A} s hs s' st :
  AsyncTransport_ReadHandshake s hs = (s', st) -> ok st = true -> incoming s = hs ++ incoming s'.
Proof.
  unfold AsyncTransport_ReadHandshake. destruct hs as [|b hs]; [by intros; simplify_eq|].
  destruct (asio_read _ _) as [[s1 buf] [e|]] eqn:E; [intros; by simplify_eq|].
  apply read_fills in E as [_ Hin].
  destruct (decide (buf = b :: hs)) as [-> |Hne];
    [rw bool_decide_false; [by intros []|]|rw bool_decide_true //]; intros; by simplify_eq.
Qed.

Section Receive.
Context {A : Asio} `{!AsioClient A} `{!AsioStream A}.
Context {Q : Type} `{!Fifo Q Completion} `{!UnorderedIter ResponseCallback}.
Variable config : ChannelConfig.
Variable net : bytes -> Prop.
Implicit Types c : channel A Q.
Abbreviation rx := (received config net).

Lemma rx_core c1 c2 : core c1 = core c2 -> rx c2 -> rx c1.
Proof.
  intros E H. assert (rx (core c1)) as H1; [|by destruct H1]. rw E. by destruct H.
Qed.

(** The attempt is over. *)
Lemma rx_finish st c : rx c -> connector c = CoNone -> rx (finish config st c).
Proof.
  intros [] Hn. apply (rx_core _ _ (core_finish _ _ _)). unfold finished.
  case_match; by constructor.
Qed.

Lemma rx_no_connector sock c :
  rx c -> connected c = false -> rx (set_connector CoNone (set_socket sock c)).
Proof.
  intros [] Hn. constructor; simpl; try done; [by intros []|]. by rw Hn.
Qed.

Lemma rx_connect_done sock c :
  rx c -> connected c = false ->
  net (handshake_header config ++ incoming sock) ->
  rx (connect_done config (set_connector CoNone (set_socket sock c))).
Proof.
  intros H Hn Hnet. unfold connect_done. simpl.
  case_match; [by apply rx_finish; [apply rx_no_connector|]|].
  apply rx_finish; [|done]. destruct H. destruct (rx_before0 Hn) as [Hr Ha].
  constructor; simpl; try done; [by intros []|]. intros _. exists [], [], (incoming sock).
  rw Ha. split_and!; try done; constructor.
Qed.

Lemma rx_ConnectCoro c c' :
  rx c -> request_inv config c -> ConnectCoro config c = Some c' -> rx c'.
Proof.
  intros H Hq. pose proof (ri_connector _ _ Hq) as Hco. unfold ConnectCoro.
  assert (connector c <> CoNone -> connected c = false) as Hn.
  { intros Hne. destruct (connected c); [by destruct Hne; apply Hco|done]. }
  destruct (connector c) as [| |eps| |] eqn:Ec; [done|done|..]; specialize (Hn ltac:(done)).
  - destruct (asio_connect (socket_ c) eps) as [sock [e|]] eqn:E.
    { intros; simplify_eq. by apply rx_finish; [apply rx_no_connector|]. }
    pose proof (rx_connect _ _ _ H _ Ec _ _ E) as Hnet.
    destruct (handshake_header config) as [|b hs] eqn:Eh; intros; simplify_eq.
    { apply rx_connect_done; [done|done|]. by rw Eh. }
    destruct H. constructor; simpl; try done. by rw Hn.
  - destruct (AsyncTransport_WriteHandshake _ _) as [sock hs] eqn:E.
    apply WriteHandshake_out in E as [Hin _].
    destruct (negb (ok hs)); intros; simplify_eq; [by apply rx_finish; [apply rx_no_connector|]|].
    pose proof (rx_handshake _ _ _ H (or_introl Ec)) as Hnet.
    destruct H. constructor; simpl; try done; [|by rw Hn]. by rw Hin.
  - destruct (AsyncTransport_ReadHandshake _ _) as [sock hs] eqn:E.
    destruct (ok hs) eqn:Ok; simpl; intros; simplify_eq; [|by apply rx_finish; [apply rx_no_connector|]].
    apply rx_connect_done; [done|done|]. rw -(ReadHandshake_in _ _ _ _ E Ok).
    apply (rx_handshake _ _ _ H). by right.
Qed.

(** One frame more. *)
Lemma rx_read_frame sock raw h p c :
  rx c -> connector c = CoNone -> connected c = true -> reader c = true ->
  incoming (socket_ c) = raw ++ incoming sock -> raw_frame raw (h, p) ->
  rx (read_frame config h p (set_socket sock c)).
Proof.
  intros [Hco Hhs Hbe Hst] Hnone Hcn Hrd Hin Hraw.
  destruct (Hst Hcn) as (raws & fs & rest & Hnet & Hf & Ha & Hrest). specialize (Hrest Hrd).
  rw Hin in Hrest. subst rest.
  assert (forall c', socket_ c' = sock -> connector c' = CoNone -> connected c' = true ->
    (forall a, a ∈ answered c' -> a ∈ answered c \/ a.1 = (h, p)) -> rx c') as Hrx.
  { intros c' Es En Ecn Hsub. constructor; rw ?En ?Ecn //; [by intros []|]. intros _.
    exists (raws ++ [raw]), (fs ++ [(h, p)]), (incoming sock).
    rw concat_app /= app_nil_r -app_assoc. split; [done|].
    split; [by apply Forall2_app; [|constructor]|]. split; [|by rw Es].
    apply Forall_forall. intros a [Hin'|Eq]%Hsub; [|rw Eq; set_solver].
    apply elem_of_app. left. by apply (proj1 (Forall_forall _ _) Ha). }
  unfold read_frame. destruct (type_eqb (type h) kPush).
  { case_match; [apply (rx_core _ _ (core_post_deferred _ _ _ _))|]; apply Hrx; try done; by left. }
  destruct (type_eqb (type h) kResponse); simpl.
  2: { apply (rx_core _ _ (core_set_reader _ _ _ (core_FailAllPending _ _ _ _))).
       apply Hrx; try done; by left. }
  destruct (pending c !! call_id h) as [[n|]|]; [|by apply Hrx; try done; left..].
  case_match; apply (rx_core _ _ (core_post_response _ _ _ _ _ _)); apply Hrx; try done; simpl;
    intros a [?| ->%list_elem_of_singleton]%elem_of_app; [by left|by right|by left|by right].
Qed.

Lemma rx_ReadLoop c c' :
  rx c -> request_inv config c -> ReadLoop config c = Some c' -> rx c'.
Proof.
  intros H Hq. unfold ReadLoop. destruct (reader c) eqn:Er; [|done].
  assert (connected c = true) as Hcn.
  { destruct (connected c) eqn:Ecn; [done|]. by destruct (rx_before _ _ _ H Ecn) as [? _]; congruence. }
  destruct (AsyncTransport_ReadFrame _ _ _) as [[[sock h] p] rs] eqn:E.
  apply ReadFrame_raw in E as [_ Hraw]. destruct (ok rs); simpl; intros; simplify_eq.
  - destruct (Hraw eq_refl) as (raw & Hf & Hin). by eapply rx_read_frame; try done; apply Hq.
  - apply (rx_core _ _ (core_set_reader _ _ _ (core_FailAllPending _ _ _ _))).
    destruct H. pose proof (ri_connector _ _ Hq Hcn) as Hnone.
    constructor; simpl; rw ?Hnone //; [by intros []|by rw Hcn|]. intros _.
    destruct (rx_stream0 Hcn) as (raws & fs & rest & ? & ? & ? & _). by exists raws, fs, rest.
Qed.

(** The other operations leave alone what the invariant speaks of, or close
    the socket. *)
Lemma rx_same c c' :
  rx c -> incoming (socket_ c') = incoming (socket_ c) -> connected c' = connected c ->
  connector c' = connector c -> reader c' = reader c -> answered c' = answered c -> rx c'.
Proof. intros [] E1 E2 E3 E4 E5. by constructor; rw ?E1 ?E2 ?E3 ?E4 ?E5. Qed.

Lemma rx_WritePump c c' : rx c -> WritePump config c = Some c' -> rx c'.
Proof.
  intros H. unfold WritePump, pump_loop. destruct (pump c) as [| |h p]; [done|..].
  { intros; simplify_eq. case_match; [|case_match]; by apply (rx_same c). }
  destruct (AsyncTransport_WriteFrame _ _ _) as [sock ws] eqn:E. apply WriteFrame_out in E as [Hin _].
  destruct (negb (ok ws)); intros; simplify_eq.
  - apply (rx_core _ _ (core_pump_failed _ _ (core_FailAllPending _ _ _ _))). by apply (rx_same c).
  - simpl. case_match; [|case_match]; by apply (rx_same c).
Qed.

Lemma rx_call_connect pl k st c : rx c -> rx (call_connect pl k st c).
Proof. apply rx_core, core_call_connect. Qed.

Lemma rx_RequestConnect pl cb c : rx c -> rx (RequestConnect pl cb c).
Proof.
  intros H. unfold RequestConnect, EnsureIoThread.
  repeat case_match; try apply rx_call_connect; by apply (rx_same c).
Qed.

Lemma rx_strand_step c c' : rx c -> strand_step config c = Some c' -> rx c'.
Proof.
  intros H. unfold strand_step. destruct (strand c) as [|task rest]; [done|].
  intros; simplify_eq. destruct task as [cb|mid req cb|].
  - unfold connect_closure. repeat case_match; try apply rx_call_connect; try by apply (rx_same c).
    all: destruct H; constructor; simpl; try done; by intros [].
  - unfold call_closure, pending_emplace. case_match; [|repeat case_match; by apply (rx_same c)].
    apply (rx_core _ _ (core_post_response _ _ _ _ _ _)). by apply (rx_same c).
  - apply (rx_core _ _ (core_shutdown_closure _ _)). apply (rx_same c); try done. apply close_keeps_in.
Qed.

Lemma rx_caller_step t c c' : rx c -> caller_step config t c = Some c' -> rx c'.
Proof.
  intros H. unfold caller_step, EnsureConnected, ensured.
  repeat case_match; intros; simplify_eq; try (apply rx_RequestConnect);
    try (apply (rx_core _ _ (core_post_response _ _ _ _ _ _))); by apply (rx_same c).
Qed.

Lemma rx_Shutdown c c' : rx c -> Shutdown config c = Some c' -> rx c'.
Proof.
  intros H. unfold Shutdown. destruct (stopped c); [done|]. simpl.
  destruct (io_thread_started c); intros; simplify_eq; [by apply (rx_same c)|].
  set (c1 := set_conn_state _ _). set (c3 := foldl _ _ _).
  assert (core (drain_all c3) = core (set_connect_waiters [] (set_pending ∅ c1))) as Hcore.
  { unfold drain_all. rw core_drain. unfold c3. rw (forget_foldl core); [intros; apply core_drop_waiter|].
    apply core_set_connect_waiters, core_FailAllPending. }
  apply (rx_core _ _ (core_set_shutdown ShutDone _ _ Hcore)). by apply (rx_same c).
Qed.

Lemma rx_resolved r c c' :
  rx c -> streams_from net (Resolved r) -> ConnectCoro_resolved config r c = Some c' -> rx c'.
Proof.
  intros H He. unfold ConnectCoro_resolved. destruct (connector c) eqn:Ec; [done| |done..].
  destruct r as [eps|e]; intros; simplify_eq.
  - destruct H. constructor; simpl; try done; [|by intros []]. by intros ? [= <-].
  - apply rx_finish; [|done]. destruct H. constructor; simpl; try done. by intros [].
Qed.

Lemma rx_step e c c' :
  rx c -> request_inv config c -> streams_from net e -> channel_step config e c = Some c' -> rx c'.
Proof.
  intros H Hq He. unfold channel_step.
  destruct (decide (shutdown c = ShutDone)) as [->|Hd]; [done|].
  assert (forall r, match shutdown c with ShutDone => None | _ => r end = Some c' -> r = Some c') as Hsh
    by (by destruct (shutdown c)).
  intros Hstep%Hsh. clear Hsh. destruct (io_thread_started c) eqn:Et; destruct e; simpl in Hstep;
    try done; try (by eapply rx_caller_step); try (by eapply rx_Shutdown);
    try (by eapply rx_strand_step); try (by eapply rx_ConnectCoro); try (by eapply rx_resolved);
    try (by eapply rx_ReadLoop); try (by eapply rx_WritePump).
  all: try (simplify_eq; by apply (rx_same c)).
  all: try (unfold OnTrace in Hstep; case_match; simplify_eq; [|done]; by apply (rx_same c)).
  all: try (unfold start_call in Hstep; case_match; simplify_eq; by apply (rx_same c)).
  all: try (unfold shutdown_joined in Hstep; repeat case_match; simplify_eq;
    apply (rx_core _ _ (core_set_shutdown ShutDone _ _ (core_drain _ _))); by apply (rx_same c)).
  all: revert Hstep; unfold callback_step, run_completion, run_thunk;
    repeat case_match; intros; simplify_eq; try apply rx_call_connect; try by apply (rx_same c).
Qed.

Lemma channel_received `{!AsioClientStream A} sock es c :
  run_events (channel_step config) es (channel_init sock) = Some c ->
  Forall (streams_from net) es -> rx c.
Proof.
  intros Hr%run_events_reaches. induction Hr as [|es e c1 c2 Hr IH Hstep]; intros Hes.
  - constructor; simpl; try done. by intros [].
  - apply Forall_app in Hes as [Hes [He _]%Forall_cons].
    eapply rx_step; [by apply IH| |done|done]. by eapply channel_requests, run_events_reaches.
Qed.
End Receive.
