(* ===== verification/ChannelTypes.v ===== *)
(** * ChannelTypes: the requests of a channel are its calls

    The operation a thread is in is followed through the places where it may
    be: entering, waiting for the connection, posted to the strand, queued as
    a frame.  So every request frame has the method and the payload of a call
    that was made, with the callback of that call registered under its id.
    When the calls have 32-bit methods and less than 4 GiB of payload, every
    frame has fields within their C++ types and announces the length of its
    own payload. *)

From S2P Require Import Prelude.
From S2P Require Import Status.
From S2P Require Import Frame.
From S2P Require Import Transport.
From S2P Require Import Mpsc.
From S2P Require Import SessionSpec.
From S2P Require Import Channel.
From S2P Require Import ChannelCallbacks.
From S2P Require Import ChannelCore.
From S2P Require Import ChannelConnection.
From S2P Require Import ChannelRequests.

Open Scope nat_scope.

(** A call with a [uint32_t] method and a small payload. *)
Definition small_op (op : caller_op) : Prop :=
  match op with OpCall mid req _ => is_u32 mid /\ small req | OpConnect => True end.

Definition small_call {A : Asio} `{!AsioClient A} (e : channel_event (A := A)) : Prop :=
  match e with StartCall _ _ op => small_op op | _ => True end.

(** The operation a thread is in. *)
Definition pc_op (pc : caller_pc) : option caller_op :=
  match pc with
  | CallEnsure _ op | CallRequest _ op | CallWait _ op | CallEnsured _ op _ => Some op
  | CallConnectAsync _ _ => None
  end.

Definition caller_ops {A : Asio} `{!AsioClient A} {Q} (c : channel A Q) : gmap thread (option caller_op) :=
  pc_op <$> callers c.

(** The frame of a call that [P] holds of, issued under an id with a callback. *)
Definition call_frame (P : caller_op -> Prop) (i : Z * ResponseCallback) (f : FrameHeader * bytes) : Prop :=
  exists mid req, P (OpCall mid req i.2) /\ f = (request_header i.1 mid req, req).

(** All operations under way satisfy [P]. *)
Record typed {A : Asio} `{!AsioClient A} {Q} (P : caller_op -> Prop) (c : channel A Q) : Prop := {
  ty_queued : Forall2 (call_frame P) (issued c) (queued c);
  ty_task mid req cb : TaskCall mid req cb ∈ strand c -> P (OpCall mid req cb);
  ty_callers t op : caller_ops c !! t = Some (Some op) -> P op
}.

Definition starts {A : Asio} `{!AsioClient A} (P : caller_op -> Prop) (e : channel_event (A := A)) : Prop :=
  match e with StartCall _ _ op => P op | _ => True end.

Section Types.
Context {A : Asio} `{!AsioClient A}.
Context {Q : Type} `{!Fifo Q Completion} `{!UnorderedIter ResponseCallback}.
Variables (config : ChannelConfig) (P : caller_op -> Prop).
Implicit Types c : channel A Q.
#[local] Abbreviation typed := (typed P).

(** ** Calling back leaves the threads in their operations *)

Lemma ops_set_value t st c : caller_ops (set_value t st c) = caller_ops c.
Proof.
  unfold set_value, caller_ops. destruct (callers c !! t) as [[]|] eqn:E; try done.
  simpl. rw fmap_insert. apply insert_id. by rw lookup_fmap E.
Qed.

Lemma ops_call_connect pl k st c : caller_ops (call_connect pl k st c) = caller_ops c.
Proof. destruct k; [done|apply ops_set_value]. Qed.

Lemma ops_post_response pl cb st p c : caller_ops (post_response config pl cb st p c) = caller_ops c.
Proof. unfold post_response. by repeat case_match. Qed.

Lemma ops_run_thunk pl fn c : caller_ops (run_thunk pl fn c) = caller_ops c.
Proof. destruct fn; [apply ops_call_connect|done]. Qed.

Lemma ops_post_deferred pl fn c : caller_ops (post_deferred config pl fn c) = caller_ops c.
Proof. unfold post_deferred. case_match; [apply ops_run_thunk|done]. Qed.

Lemma ops_FailAllPending st defer c : caller_ops (FailAllPending config st defer c) = caller_ops c.
Proof.
  unfold FailAllPending. rw forget_foldl; [|done]. intros [id [n|]] c'; [|done].
  destruct defer; [apply ops_post_response|done].
Qed.

Lemma ops_finish st c : caller_ops (finish config st c) = caller_ops c.
Proof.
  unfold finish. rw forget_foldl; [intros k c'; apply ops_post_deferred|]. by case_match.
Qed.

Lemma ops_drop_waiter k c : caller_ops (drop_waiter k c) = caller_ops c.
Proof. destruct k; [done|apply ops_set_value]. Qed.

Lemma ops_drain fuel c : caller_ops (drain fuel c) = caller_ops c.
Proof.
  revert c. induction fuel as [|fuel IH]; intros c; simpl; [done|].
  destruct (fifo_pop (cb_queue c)) as [[k|] q]; [|done]. rw IH.
  unfold delete_completion. repeat case_match; try done. by rw ops_set_value.
Qed.

Lemma ops_shutdown_closure c : caller_ops (shutdown_closure config c) = caller_ops c.
Proof.
  unfold shutdown_closure. rw forget_foldl; [intros; apply ops_call_connect|].
  etrans; [exact (ops_FailAllPending channel_shutdown false
    (set_socket (asio_close (socket_ c)) (set_conn_state Closed c)))|done].
Qed.

Lemma ops_RequestConnect pl cb c : caller_ops (RequestConnect pl cb c) = caller_ops c.
Proof.
  unfold RequestConnect, EnsureIoThread. repeat case_match; try done; by rw ops_call_connect.
Qed.

(** ** The invariant *)

Lemma typed_core c1 c2 : core c1 = core c2 -> caller_ops c1 = caller_ops c2 -> typed c2 -> typed c1.
Proof.
  intros E Eo []. assert (strand c1 = strand c2 /\ queued c1 = queued c2 /\ issued c1 = issued c2) as (Es & Eq & Ei).
  { split; [exact (f_equal strand E)|split; [exact (f_equal queued E)|exact (f_equal issued E)]]. }
  constructor; by rw ?Es ?Eq ?Ei ?Eo.
Qed.

Lemma typed_call_connect pl k st c : typed c -> typed (call_connect pl k st c).
Proof. apply typed_core; [apply core_call_connect|apply ops_call_connect]. Qed.

Lemma typed_post_response pl cb st p c : typed c -> typed (post_response config pl cb st p c).
Proof. apply typed_core; [apply core_post_response|apply ops_post_response]. Qed.

Lemma typed_post_deferred pl fn c : typed c -> typed (post_deferred config pl fn c).
Proof. apply typed_core; [apply core_post_deferred|apply ops_post_deferred]. Qed.

Lemma typed_FailAllPending st defer c : typed c -> typed (FailAllPending config st defer c).
Proof.
  intros H. apply (typed_core _ (set_pending ∅ c)); [apply core_FailAllPending| |by destruct H].
  by rw ops_FailAllPending.
Qed.

Lemma typed_finish st c : typed c -> typed (finish config st c).
Proof.
  intros H. apply (typed_core _ (finished st c)); [apply core_finish| |].
  - rw ops_finish. unfold finished. by case_match.
  - unfold finished. case_match; by destruct H.
Qed.

Lemma typed_post task c :
  typed c -> (forall mid req cb, task = TaskCall mid req cb -> P (OpCall mid req cb)) ->
  typed (post task c).
Proof.
  intros [] Ht. constructor; simpl; try done. intros mid req cb.
  rw elem_of_app list_elem_of_singleton. intros [?|<-]; [by eapply ty_task0|by eapply Ht].
Qed.

Lemma typed_RequestConnect pl cb c : typed c -> typed (RequestConnect pl cb c).
Proof.
  intros H. unfold RequestConnect, EnsureIoThread. repeat case_match; try done;
    try (by apply typed_call_connect); try (by apply typed_post).
  apply typed_post; [by destruct H|done].
Qed.

Lemma typed_call_closure mid req cb c :
  typed c -> P (OpCall mid req cb) -> typed (call_closure config mid req cb c).
Proof.
  intros H Hp. unfold call_closure, pending_emplace.
  destruct (stopped c); [by apply typed_post_response|].
  assert (Forall2 (call_frame P) (issued c ++ [(next_call_id c, cb)])
    (queued c ++ [(request_header (next_call_id c) mid req, req)])) as Hq.
  { apply Forall2_app; [apply H|]. constructor; [|done]. by exists mid, req. }
  destruct H. repeat case_match; by constructor.
Qed.

Lemma typed_set_callers ts c :
  typed c -> (forall t op, pc_op <$> ts !! t = Some (Some op) -> P op) -> typed (set_callers ts c).
Proof.
  intros [] Hts. constructor; simpl; try done. intros t op. unfold caller_ops. simpl.
  rw lookup_fmap. apply Hts.
Qed.

Lemma typed_move t pc c :
  typed c -> (forall op, pc_op pc = Some op -> P op) -> typed (set_caller t pc c).
Proof.
  intros H Hpc. apply typed_set_callers; [done|]. intros t' op.
  rw lookup_insert. case_decide; simpl; [intros [= ?]; by apply Hpc|].
  intros Hl. apply (ty_callers _ _ H t'). unfold caller_ops. by rw lookup_fmap.
Qed.

Lemma typed_leave t c : typed c -> typed (set_callers (delete t (callers c)) c).
Proof.
  intros H. apply typed_set_callers; [done|]. intros t' op. rw lookup_delete.
  case_decide; [done|]. intros Hl. apply (ty_callers _ _ H t'). unfold caller_ops. by rw lookup_fmap.
Qed.

Lemma typed_caller_step t c c' : typed c -> caller_step config t c = Some c' -> typed c'.
Proof.
  intros H. unfold caller_step. destruct (callers c !! t) as [pc|] eqn:Et; [|done].
  assert (forall op, pc_op pc = Some op -> P op) as Hop.
  { intros op E. apply (ty_callers _ _ H t). unfold caller_ops. by rw lookup_fmap Et /= E. }
  destruct pc as [b op|b op|b op|b op cs|b cb]; intros; simplify_eq.
  - unfold EnsureConnected. repeat case_match; by apply typed_move.
  - apply typed_RequestConnect. by apply typed_move.
  - pose proof (typed_leave t c H) as Hl. unfold ensured. destruct op as [|mid req cb].
    { by destruct Hl. }
    case_match; [by apply typed_post_response|]. apply typed_post; [done|].
    intros ??? [= <- <- <-]. by apply (Hop (OpCall mid req cb)).
  - by apply typed_RequestConnect, typed_leave.
Qed.

Lemma typed_strand_step c c' :
  typed c -> strand_step config c = Some c' -> typed c'.
Proof.
  intros H. unfold strand_step. destruct (strand c) as [|task rest] eqn:Es; [done|].
  assert (typed (set_strand rest c)) as H1.
  { destruct H. rw Es in ty_task0. constructor; simpl; try done.
    intros mid req cb Hin. apply (ty_task0 mid req cb). by right. }
  intros; simplify_eq. destruct task as [cb|mid req cb|].
  - unfold connect_closure. repeat case_match; try done; try (by apply typed_call_connect); by destruct H1.
  - apply typed_call_closure; [done|]. apply (ty_task _ _ H). rw Es. left.
  - eapply typed_core; [apply core_shutdown_closure| |]; [|by destruct H1].
    by rw ops_shutdown_closure.
Qed.

Lemma typed_ConnectCoro c c' : typed c -> ConnectCoro config c = Some c' -> typed c'.
Proof.
  intros H. unfold ConnectCoro, connect_done.
  repeat case_match; intros; simplify_eq; try apply typed_finish; by destruct H.
Qed.

Lemma typed_resolved r c c' : typed c -> ConnectCoro_resolved config r c = Some c' -> typed c'.
Proof.
  intros H. unfold ConnectCoro_resolved.
  repeat case_match; intros; simplify_eq; try apply typed_finish; by destruct H.
Qed.

Lemma typed_ReadLoop c c' : typed c -> ReadLoop config c = Some c' -> typed c'.
Proof.
  intros H. unfold ReadLoop, read_frame. destruct (reader c); [|done].
  destruct (AsyncTransport_ReadFrame _ _ _) as [[[sock h] p] rs].
  assert (typed (set_socket sock c)) as H1 by (by destruct H).
  assert (forall st, typed (set_reader false (FailAllPending config st true (set_socket sock c)))) as Hf.
  { intros st. destruct (typed_FailAllPending st true _ H1). by constructor. }
  repeat case_match; intros; simplify_eq; try done;
    try (by apply typed_post_deferred); try apply typed_post_response; by destruct H.
Qed.

Lemma typed_WritePump c c' : typed c -> WritePump config c = Some c' -> typed c'.
Proof.
  intros H. unfold WritePump, pump_loop. destruct (pump c) as [| |h p]; [done|..].
  { intros; simplify_eq. repeat case_match; by destruct H. }
  destruct (AsyncTransport_WriteFrame _ _ _) as [sock ws].
  destruct (negb (ok ws)); intros; simplify_eq; [|simpl; repeat case_match; by destruct H].
  assert (typed (set_write_queue [] (set_socket sock c))) as H1 by (by destruct H).
  destruct (typed_FailAllPending ws true _ H1). by constructor.
Qed.

Lemma typed_callback_step c c' : typed c -> callback_step c = Some c' -> typed c'.
Proof.
  intros H. unfold callback_step, run_completion, run_thunk.
  repeat case_match; intros; simplify_eq; try (apply typed_call_connect); by destruct H.
Qed.

Lemma typed_drain fuel c : typed c -> typed (drain fuel c).
Proof. apply typed_core; [apply core_drain|apply ops_drain]. Qed.

Lemma typed_Shutdown c c' : typed c -> Shutdown config c = Some c' -> typed c'.
Proof.
  intros H. unfold Shutdown. destruct (stopped c); [done|]. simpl.
  destruct (io_thread_started c); intros; simplify_eq.
  { destruct (typed_post TaskShutdown c H ltac:(done)). by constructor. }
  set (c1 := FailAllPending _ _ _ _).
  assert (typed c1) as H1 by (apply typed_FailAllPending; by destruct H).
  assert (typed (foldl (fun c cb => drop_waiter cb c) (set_connect_waiters [] c1) (connect_waiters c1)))
    as H2.
  { eapply typed_core; [rw (forget_foldl core); [intros; apply core_drop_waiter|done]
      |rw (forget_foldl caller_ops); [intros; apply ops_drop_waiter|done]|by destruct H1]. }
  destruct (typed_drain (S (length (fifo_list (cb_queue
    (foldl (fun c cb => drop_waiter cb c) (set_connect_waiters [] c1) (connect_waiters c1)))))) _ H2).
  by constructor.
Qed.

Lemma typed_step e c c' :
  typed c -> starts P e -> channel_step config e c = Some c' -> typed c'.
Proof.
  intros H He. unfold channel_step.
  destruct (decide (shutdown c = ShutDone)) as [->|Hd]; [done|].
  assert (forall r, match shutdown c with ShutDone => None | _ => r end = Some c' -> r = Some c') as Hsh
    by (by destruct (shutdown c)).
  intros Hstep%Hsh. clear Hsh. destruct (io_thread_started c) eqn:Et; destruct e; simpl in Hstep;
    try done; try (by eapply typed_caller_step); try (by eapply typed_Shutdown);
    try (by eapply typed_strand_step); try (by eapply typed_ConnectCoro); try (by eapply typed_resolved);
    try (by eapply typed_ReadLoop); try (by eapply typed_WritePump); try (by eapply typed_callback_step).
  all: try (simplify_eq; by destruct H).
  all: try (unfold OnTrace in Hstep; case_match; simplify_eq; [|done]; by destruct H).
  all: try (unfold start_call in Hstep; case_match; simplify_eq;
    match goal with |- context [<[?t := ?pc]> _] => destruct (typed_move t pc c H) as [] end;
    [intros ? [= <-]; exact He|by constructor]).
  all: try (unfold start_call in Hstep; case_match; simplify_eq;
    match goal with |- context [<[?t := ?pc]> _] => destruct (typed_move t pc c H) as [] end;
    [done|by constructor]).
  all: unfold shutdown_joined in Hstep; repeat case_match; simplify_eq;
    destruct (typed_drain (S (length (fifo_list (cb_queue c)))) c H); by constructor.
Qed.

Lemma channel_ops sock es c :
  run_events (channel_step config) es (channel_init sock) = Some c ->
  Forall (starts P) es -> typed c.
Proof.
  intros Hr%run_events_reaches. induction Hr as [|es e c1 c2 Hr IH Hstep]; intros Hes.
  - constructor; simpl; [done|by intros ??? ?%elem_of_nil|]. intros t op.
    unfold caller_ops. by rw /= fmap_empty lookup_empty.
  - apply Forall_app in Hes as [Hes [He _]%Forall_cons]. eapply typed_step; [by apply IH|done|done].
Qed.
End Types.

(** The frame of a call. *)
Lemma request_header_wf id mid req :
  is_u32 id -> is_u32 mid -> small req -> frame_wf (request_header id mid req, req).
Proof. intros Hi Hm Hs. split; simpl; [|by rw u32_small]. by constructor; simpl; rw ?u32_small. Qed.

(** ** What was called *)

Section Calls.
Context {A : Asio} `{!AsioClient A} `{!AsioStream A} `{!AsioClientStream A}.
Context {Q : Type} `{!Fifo Q Completion} `{!UnorderedIter ResponseCallback}.
Variables (config : ChannelConfig) (sock : socket).
Implicit Types (c : channel A Q) (es : list (channel_event (A := A))).

(** An operation that was started. *)
Definition started es (op : caller_op) : Prop := exists t b, StartCall t b op ∈ es.

(** Every request frame is that of a call. *)
Lemma channel_calls es c :
  run_events (channel_step config) es (channel_init sock) = Some c ->
  Forall2 (call_frame (started es)) (issued c) (queued c).
Proof.
  intros Hr. apply (channel_ops config (started es) _ _ _ Hr).
  apply Forall_forall. intros [t b op| | | | | | | | | | | |] He; try done. by exists t, b.
Qed.

Lemma channel_typed es c :
  run_events (channel_step config) es (channel_init sock) = Some c ->
  Forall small_call es -> Forall frame_wf (queued c).
Proof.
  intros Hr Hes. pose proof (channel_requests config _ _ _ Hr) as Hq.
  destruct (channel_ops config small_op _ _ _ Hr Hes) as [Hf _ _].
  apply Forall_lookup_2. intros i f Hi.
  destruct (Forall2_lookup_r _ _ _ _ _ Hf Hi) as ([id cb] & Hid & mid & req & [Hm Hs] & ->).
  apply request_header_wf; [|done|done]. simpl.
  assert (id ∈ (issued c).*1) as Hin by (apply list_elem_of_fmap; exists (id, cb); split; [done|];
    by eapply list_elem_of_lookup_2).
  rw (ri_ids _ _ Hq) in Hin. apply list_elem_of_fmap in Hin as (k & -> & _). apply u32_range.
Qed.
End Calls.

(** ** Properties *)

(** C34: what a channel transmits is well typed: when the calls made have
    32-bit methods and less than 4 GiB of payload, every request frame ever
    queued has fields within their C++ types and announces exactly the length
    of its payload, in every interleaving. *)
Theorem channel_frames_typed {A : Asio} `{!AsioClient A} `{!AsioStream A} `{!AsioClientStream A}
    {Q} `{!Fifo Q Completion} `{!UnorderedIter ResponseCallback} config sock es (c : channel A Q) :
  run_events (channel_step config) es (channel_init sock) = Some c ->
  Forall small_call es -> Forall frame_wf (queued c).
Proof. apply channel_typed. Qed.

Lemma channel_frames_typed_witness :
  match demo_run Inline demo_events with
  | Some c => Forall frame_wf (queued c) /\ length (queued c) = 2
  | None => False
  end.
Proof.
  destruct (demo_run Inline _) as [c|] eqn:E; [|by vm_compute in E].
  assert (length (queued c) = 2) as Hl by (vm_compute in E; by simplify_eq).
  split; [|done]. apply (channel_frames_typed _ _ _ _ E). clear.
  repeat (apply Forall_cons_2; [by vm_compute|]). apply Forall_nil_2.
Defined.
