(* ===== verification/ChannelProperties.v ===== *)
(** * ChannelProperties: what a channel promises

    The properties of [Channel] that follow from its invariants: order and
    content of the requests, which callback gets which response, progress of
    blocked threads, shutdown; and the situations in which a call or a thread
    waits for ever. *)

From S2P Require Import Prelude.
From S2P Require Import Status.
From S2P Require Import Frame.
From S2P Require Import Transport.
From S2P Require Import Mpsc.
From S2P Require Import Channel.
From S2P Require Import ChannelCallbacks.
From S2P Require Import ChannelCore.
From S2P Require Import ChannelConnection.
From S2P Require Import ChannelRequests.

Open Scope nat_scope.

(** ** Lemmas *)

Section Facts.
Context {A : Asio} `{!AsioClient A} {Q : Type} `{!Fifo Q Completion}.
Context `{!UnorderedIter ResponseCallback}.
Variable config : ChannelConfig.
Implicit Types c : channel A Q.

Lemma occ_inr_user t cb : occ (inr t : cb_id) (user_ids cb) = 0.
Proof. by destruct cb. Qed.

Lemma occ_bind_zero {B} (f : B -> list cb_id) x (l : list B) :
  (forall b, occ x (f b) = 0) -> occ x (l ≫= f) = 0.
Proof.
  intros H. induction l as [|b l IH]; [done|]. rw bind_cons occ_app IH H. done.
Qed.

Lemma occ_inr_inl t (l : list nat) : occ (inr t : cb_id) (inl <$> l) = 0.
Proof. by induction l. Qed.

(** The promise of a blocked thread is in a closure on the strand, with the
    connection attempt, or in the callback queue. *)
Lemma promise_somewhere t c :
  balanced [] c -> waiting t c
  = occ (inr t) (strand c ≫= task_ids) + occ (inr t) (connect_waiters c ≫= connect_ids)
    + occ (inr t) (fifo_list (cb_queue c) ≫= completion_ids).
Proof.
  intros H. specialize (H (inr t)). simpl in H. rw H. unfold places, map_occ.
  rw (occ_bind_zero log_ids); [by intros []|].
  rw (occ_bind_zero caller_ids); [by intros; apply occ_inr_user|].
  rw (occ_bind_zero user_ids); [by intros; apply occ_inr_user|].
  rw occ_inr_inl. lia.
Qed.


(** In the manual mode calling back only queues. *)
Lemma manual_post_response pl cb st p c :
  dispatch config = Manual ->
  callers (post_response config pl cb st p c) = callers c.
Proof. intros Hm. unfold post_response. rw Hm. by case_match. Qed.

Lemma manual_post_deferred pl fn c :
  dispatch config = Manual -> callers (post_deferred config pl fn c) = callers c.
Proof. intros Hm. unfold post_deferred. by rw Hm. Qed.

Lemma manual_FailAllPending st c :
  dispatch config = Manual -> callers (FailAllPending config st true c) = callers c.
Proof.
  intros Hm. etrans; [apply (forget_foldl callers)|done]. intros [id [n|]] c'; [|done].
  by apply manual_post_response.
Qed.

Lemma manual_finish st c :
  dispatch config = Manual -> callers (finish config st c) = callers c.
Proof.
  intros Hm. etrans; [apply (forget_foldl callers)|by case_match].
  intros. by apply manual_post_deferred.
Qed.
End Facts.

(** ** A channel whose reader is gone *)

Section Deaf.
Context {A : Asio} `{!AsioClient A} `{!AsioStream A} `{!AsioClientStream A}.
Context {Q : Type} `{!Fifo Q Completion} `{!UnorderedIter ResponseCallback}.
Variable config : ChannelConfig.
Implicit Types c : channel A Q.

(** Connected, and nobody reads. *)
Definition deaf c : Prop := connected c = true /\ reader c = false /\ stopped c = false.

Definition not_shutdown (e : channel_event (A := A)) : Prop := e <> DoShutdown.

(** [c'] is deaf as [c] is, and still waits for whatever [c] waits for. *)
Definition still_waits c c' : Prop :=
  deaf c' /\ forall id cb, pending c !! id = Some cb -> pending c' !! id = Some cb.

Lemma deaf_core c c1 c' : core c' = core c1 -> still_waits c c1 -> still_waits c c'.
Proof.
  intros E H. assert (still_waits c (core c')) as H'; [|done]. rw E. done.
Qed.

Lemma deaf_RequestConnect pl cb c c1 : still_waits c c1 -> still_waits c (RequestConnect pl cb c1).
Proof.
  intros H. unfold RequestConnect, EnsureIoThread. repeat case_match; try done;
    by apply (deaf_core _ _ _ (core_call_connect _ _ _ _)).
Qed.

Lemma deaf_call_closure mid req cb c c1 :
  still_waits c c1 -> still_waits c (call_closure config mid req cb c1).
Proof.
  intros [(Hcn & Hr & Hst) Hp]. unfold call_closure, pending_emplace. rw Hst. simpl.
  destruct (pending c1 !! next_call_id c1) eqn:E; simpl; destruct (write_pump_active c1); simpl;
    (split; [done|]); simpl; try done; intros id cb' Hid; apply Hp in Hid;
    rw lookup_insert_ne //; intros <-; congruence.
Qed.

Lemma deaf_step e c c' :
  request_inv config c -> sound c -> deaf c -> not_shutdown e ->
  channel_step config e c = Some c' -> write_failed c' = false -> still_waits c c'.
Proof.
  intros H [Hc Hr] (Hcn & Hrd & Hst) He Hstep Hwf.
  assert (still_waits c c) as Hself by done.
  assert (connector c = CoNone) as Hco by (by apply H).
  assert (conn_state c = Connected) as Hs.
  { destruct (ki_connected _ Hc Hcn) as [?|E]; [done|]. apply (ki_closed _ Hc) in E. congruence. }
  unfold channel_step in Hstep. destruct (decide (shutdown c = ShutDone)) as [Hd|Hd]; [by rw Hd in Hstep|].
  assert (forall r, match shutdown c with ShutDone => None | _ => r end = Some c' -> r = Some c') as Hsh
    by (by destruct (shutdown c)).
  apply Hsh in Hstep. clear Hsh.
  rw (connected_started _ Hc Hcn) in Hstep. destruct e; simpl in Hstep; try done.
  - unfold start_call in Hstep. case_match; by simplify_eq.
  - unfold start_call in Hstep. case_match; by simplify_eq.
  - revert Hstep. unfold caller_step, EnsureConnected, ensured.
    repeat case_match; intros; simplify_eq; try done; try by apply deaf_RequestConnect.
    by apply (deaf_core _ _ _ (core_post_response _ _ _ _ _ _)).
  - revert Hstep. unfold strand_step. destruct (strand c) as [|task rest] eqn:E; [done|].
    intros; simplify_eq. destruct task as [cb|mid req cb|].
    + unfold connect_closure. rw /= Hs Hst /=. case_match; [|done].
      by apply (deaf_core _ _ _ (core_call_connect _ _ _ _)).
    + by apply deaf_call_closure.
    + assert (stopped c = true); [|congruence]. apply (ki_task _ Hc). rw E. by left.
  - unfold ConnectCoro_resolved in Hstep. by rw Hco in Hstep.
  - unfold ConnectCoro in Hstep. by rw Hco in Hstep.
  - unfold ReadLoop in Hstep. by rw Hrd in Hstep.
  - revert Hstep. unfold WritePump, pump_loop. destruct (pump c) as [| |h p]; [done|..].
    { repeat case_match; intros; by simplify_eq. }
    destruct (AsyncTransport_WriteFrame _ _ _) as [sock ws].
    destruct (ok ws); simpl; [repeat case_match; intros; by simplify_eq|]. intros; by simplify_eq.
  - revert Hstep. unfold callback_step, run_completion, run_thunk.
    repeat case_match; intros; simplify_eq; try done.
    by apply (deaf_core _ _ _ (core_call_connect _ _ _ _)).
  - unfold shutdown_joined in Hstep. destruct (shutdown c) eqn:E; try done.
    destruct (ki_joining _ Hc E) as (_ & ? & _). congruence.
  - by simplify_eq.
  - unfold OnTrace in Hstep. case_match; by simplify_eq.
Qed.

Lemma deaf_run es c c' :
  request_inv config c -> sound c -> deaf c -> Forall not_shutdown es ->
  run_events (channel_step config) es c = Some c' -> write_failed c' = false -> still_waits c c'.
Proof.
  intros H Hs Hd Hes Hr Hwf.
  apply run_events_reaches in Hr. induction Hr as [|es e c1 c2 Hr IH Hstep]; [done|].
  apply Forall_app in Hes as [Hes He%Forall_cons]. destruct He as [He _].
  assert (write_failed c1 = false) as Hwf1.
  { destruct (write_failed c1) eqn:E; [|done]. eapply write_failed_step in Hstep; [|done]. congruence. }
  destruct (IH Hes Hwf1) as [Hd1 Hp1]. apply run_events_reaches in Hr.
  assert (request_inv config c1 /\ sound c1) as [H1 Hs1].
  { apply (run_events_invariant (channel_step config) (fun c => request_inv config c /\ sound c)) in Hr;
      [done| |done].
    intros e' c3 c4 [? ?] ?. split; [by eapply rinv_step|by eapply sound_step]. }
  destruct (deaf_step e c1 c2 H1 Hs1 Hd1 He Hstep Hwf) as [Hd2 Hp2]. split; auto.
Qed.
End Deaf.

(** ** A single thread that owns a channel in the manual mode *)

Section Alone.
Context {A : Asio} `{!AsioClient A} {Q : Type} `{!Fifo Q Completion}.
Context `{!UnorderedIter ResponseCallback}.
Variable config : ChannelConfig.
Hypothesis manual : dispatch config = Manual.
Implicit Types c : channel A Q.

(** What can happen while the thread is inside its call: its own steps, and
    the io thread's. *)
Definition while_inside (e : channel_event (A := A)) : Prop :=
  match e with
  | CallerStep _ | StrandStep | Resolved _ | ConnectStep | ReadStep | PumpStep => True
  | _ => False
  end.

(** Thread [t] has not come back from [EnsureConnected]: it is entering it,
    has posted its request, or waits. *)
Inductive alone (t : thread) (op : caller_op) c : Prop :=
| alone_entering :
    callers c = {[t := CallEnsure false op]} \/ callers c = {[t := CallRequest false op]} ->
    stopped c = false -> strand c = [] -> connected c = false -> conn_state c = Idle ->
    connector c = CoNone -> reader c = false -> pump c = PumpNone -> alone t op c
| alone_posted :
    callers c = {[t := CallWait false op]} ->
    stopped c = false -> strand c = [TaskConnect (Some (PromiseConnect t))] -> conn_state c = Idle ->
    connector c = CoNone -> reader c = false -> pump c = PumpNone -> alone t op c
| alone_waiting :
    callers c = {[t := CallWait false op]} -> stopped c = false -> strand c = [] -> alone t op c.

(** The io thread at work while [t] waits. *)
Lemma alone_io t op c c1 c' :
  callers c = {[t := CallWait false op]} -> stopped c = false -> strand c = [] ->
  core c' = core c1 -> callers c' = callers c -> stopped c1 = stopped c -> strand c1 = strand c ->
  alone t op c'.
Proof.
  intros Hc Hst Hs Hcore Hc' Hst1 Hs1. apply alone_waiting; [congruence|..].
  - etrans; [exact (f_equal stopped Hcore)|]. simpl. congruence.
  - etrans; [exact (f_equal strand Hcore)|]. simpl. congruence.
Qed.

Lemma waiting_io t op c c' :
  callers c = {[t := CallWait false op]} -> stopped c = false -> strand c = [] ->
  ConnectCoro config c = Some c' \/ (exists r, ConnectCoro_resolved config r c = Some c')
  \/ ReadLoop config c = Some c' \/ WritePump config c = Some c' ->
  alone t op c'.
Proof.
  intros Hc Hst Hs Hstep.
  assert (forall st c1, callers c1 = callers c -> stopped c1 = stopped c -> strand c1 = strand c ->
    alone t op (finish config st c1)) as Hfin.
  { intros st c1 E1 E2 E3. apply (alone_io t op c _ _ Hc Hst Hs (core_finish _ _ _)).
    - by rw manual_finish.
    - unfold finished. by case_match.
    - unfold finished. by case_match. }
  assert (forall st c1, callers c1 = callers c -> stopped c1 = stopped c -> strand c1 = strand c ->
    callers (FailAllPending config st true c1) = callers c
    /\ stopped (FailAllPending config st true c1) = stopped c
    /\ strand (FailAllPending config st true c1) = strand c) as Hfail.
  { intros st c1 E1 E2 E3. pose proof (core_FailAllPending config st true c1) as Hk.
    split_and!; [by rw manual_FailAllPending| |].
    - etrans; [exact (f_equal stopped Hk)|done].
    - etrans; [exact (f_equal strand Hk)|done]. }
  destruct Hstep as [Hstep|[[r Hstep]|[Hstep|Hstep]]]; revert Hstep.
  - unfold ConnectCoro, connect_done. repeat case_match; intros; simplify_eq; try (by apply Hfin);
      by apply alone_waiting.
  - unfold ConnectCoro_resolved. repeat case_match; intros; simplify_eq; try (by apply Hfin);
      by apply alone_waiting.
  - unfold ReadLoop, read_frame. repeat case_match; intros; simplify_eq; try (by apply alone_waiting).
    all: try (apply (alone_io t op c _ _ Hc Hst Hs (core_post_deferred _ _ _ _));
              [by rw manual_post_deferred|done|done]).
    all: try (apply (alone_io t op c _ _ Hc Hst Hs (core_post_response _ _ _ _ _ _));
              [by rw manual_post_response|done|done]).
    all: match goal with |- alone _ _ (set_reader _ (FailAllPending _ ?st _ ?c1)) =>
           destruct (Hfail st c1) as (? & ? & ?); [done..|]; apply alone_waiting; simpl; congruence end.
  - unfold WritePump, pump_loop. repeat case_match; intros; simplify_eq; try (by apply alone_waiting).
    destruct (Hfail s0 (set_write_queue [] (set_socket s c))) as (? & ? & ?); [done..|].
    apply alone_waiting; simpl; congruence.
Qed.

(** The thread posts its request and starts to wait. *)
Lemma alone_post t op c c1 :
  callers c = {[t := CallRequest false op]} -> stopped c = false -> strand c = [] -> conn_state c = Idle ->
  connector c = CoNone -> reader c = false -> pump c = PumpNone ->
  callers c1 = callers (set_caller t (CallWait false op) c) ->
  core c1 = core (set_io_thread_started (io_thread_started c1) c) ->
  alone t op (post (TaskConnect (Some (PromiseConnect t))) c1).
Proof.
  intros Hc Hst Hs Hi Hco Hr Hp E Hcore. apply alone_posted; simpl.
  - by rw E /= Hc insert_singleton_eq.
  - etrans; [exact (f_equal stopped Hcore)|done].
  - assert (strand c1 = []) as ->; [|done]. etrans; [exact (f_equal strand Hcore)|done].
  - etrans; [exact (f_equal conn_state Hcore)|done].
  - etrans; [exact (f_equal connector Hcore)|done].
  - etrans; [exact (f_equal reader Hcore)|done].
  - etrans; [exact (f_equal pump Hcore)|done].
Qed.

(** The thread's own steps on its way to the wait. *)
Lemma entering_caller t op t0 c c' :
  callers c = {[t := CallEnsure false op]} \/ callers c = {[t := CallRequest false op]} ->
  stopped c = false -> strand c = [] -> connected c = false -> conn_state c = Idle ->
  connector c = CoNone -> reader c = false -> pump c = PumpNone ->
  caller_step config t0 c = Some c' -> alone t op c'.
Proof.
  intros Hc Hst Hs Hcn Hi Hco Hr Hp. unfold caller_step.
  destruct Hc as [Hc|Hc]; rw Hc; (destruct (decide (t0 = t)) as [->|?];
    [rw lookup_singleton_eq|by rw lookup_singleton_ne]); intros; simplify_eq.
  - unfold EnsureConnected. rw Hcn Hst. apply alone_entering; try done.
    right. simpl. by rw Hc insert_singleton_eq.
  - unfold RequestConnect, EnsureIoThread. rw /= Hst /=.
    destruct (io_thread_started c) eqn:Et; rw /= ?Et /=; apply (alone_post t op c); try done; rw /= Et; by destruct c.
Qed.

(** A waiting thread does not move by itself. *)
Lemma waiting_caller t op t0 c :
  callers c = {[t := CallWait false op]} -> caller_step config t0 c = None.
Proof.
  intros Hc. unfold caller_step. rw Hc. destruct (decide (t0 = t)) as [->|?];
    [by rw lookup_singleton_eq|by rw lookup_singleton_ne].
Qed.

(** Before the connect closure runs, no coroutine of the channel exists. *)
Lemma idle_io e c :
  connector c = CoNone -> reader c = false -> pump c = PumpNone ->
  match e with
  | Resolved _ | ConnectStep | ReadStep | PumpStep => channel_step config e c = None
  | _ => True
  end.
Proof.
  intros Hco Hr Hp. destruct e; try done; simpl;
    rw /channel_step /ConnectCoro_resolved /ConnectCoro /ReadLoop /WritePump ?Hco ?Hr ?Hp; by repeat case_match.
Qed.

Lemma alone_step t op e c c' :
  alone t op c -> while_inside e -> channel_step config e c = Some c' -> alone t op c'.
Proof.
  intros H He Hstep. pose proof (idle_io e c) as Hidle. pose proof Hstep as Hstep0.
  revert Hstep. unfold channel_step.
  destruct (decide (shutdown c = ShutDone)) as [->|Hd]; [done|].
  assert (forall r, match shutdown c with ShutDone => None | _ => r end = Some c' -> r = Some c') as Hsh
    by (by destruct (shutdown c)).
  intros Hstep%Hsh. clear Hsh.
  assert (forall r : option (channel A Q), (if io_thread_started c then r else None) = Some c' ->
    r = Some c') as Hio by (intros r; by destruct (io_thread_started c)).
  destruct H as [Hc Hst Hs Hcn Hi Hco Hr Hp|Hc Hst Hs Hi Hco Hr Hp|Hc Hst Hs].
  - specialize (Hidle Hco Hr Hp). destruct e; try done; try (by rw Hidle in Hstep0); try apply Hio in Hstep.
    + by eapply entering_caller.
    + unfold strand_step in Hstep. by rw Hs in Hstep.
  - specialize (Hidle Hco Hr Hp). destruct e; try done; try (by rw Hidle in Hstep0); try apply Hio in Hstep.
    + by rw (waiting_caller t op) in Hstep.
    + unfold strand_step in Hstep. rw Hs in Hstep. simplify_eq.
      unfold connect_closure. rw /= Hi Hst /=. by apply alone_waiting.
  - destruct e; try done; try apply Hio in Hstep; simpl in Hstep;
      try (by eapply waiting_io; eauto).
    + by rw (waiting_caller t op) in Hstep.
    + unfold strand_step in Hstep. by rw Hs in Hstep.
Qed.
End Alone.

(** ** Properties *)

(** C15: what a channel transmits: once it is connected and as long as no
    write failed, the bytes on the connection are the handshake header
    followed by whole request frames; the requests accepted are those
    written, the one being written and the queue, in this order, and the
    [i]-th of them carries the call identifier [i + 1] modulo [2 ^ 32] and
    the length of its own payload. *)
Theorem channel_wire {A : Asio} `{!AsioClient A} `{!AsioStream A} `{!AsioClientStream A}
    {Q} `{!Fifo Q Completion} `{!UnorderedIter ResponseCallback} config sock es (c : channel A Q) :
  run_events (channel_step config) es (channel_init sock) = Some c ->
  connected c = true -> write_failed c = false ->
  outgoing (socket_ c) = handshake_header config ++ concat (encode_frame <$> written c)
  /\ queued c = written c ++ pump_frames (pump c) ++ write_queue c
  /\ Forall2 request_of (issued c) (queued c)
  /\ (issued c).*1 = nth_call_id <$> seq 0 (length (issued c)).
Proof.
  intros Hr Hcn Hwf. destruct (channel_requests config _ _ _ Hr). auto.
Qed.

Lemma channel_wire_witness :
  match demo_run Inline demo_events with
  | Some c => p_out (socket_ c) = bytes_of_string "pc1" ++ concat (encode_frame <$> written c)
      /\ length (written c) = 2
  | None => False
  end.
Proof.
  destruct (demo_run Inline _) as [c|] eqn:E; [|by vm_compute in E].
  assert (connected c = true /\ write_failed c = false /\ length (written c) = 2) as (Hc & Hw & Hl)
    by (vm_compute in E; by simplify_eq).
  destruct (channel_wire _ _ _ _ E Hc Hw) as [Ho _]. split; [exact Ho|exact Hl].
Defined.



(** Call identifiers are not reused before the 32-bit counter comes round:
    as long as at most [2 ^ 32] calls were made, the identifiers issued are
    different, and no callback is lost while the channel runs (in the inline
    mode, not even by its shutdown). *)
Theorem call_ids_unique {A : Asio} `{!AsioClient A} `{!AsioStream A} `{!AsioClientStream A}
    {Q} `{!Fifo Q Completion} `{!UnorderedIter ResponseCallback} config sock es (c : channel A Q) :
  run_events (channel_step config) es (channel_init sock) = Some c ->
  (Z.of_nat (length (issued c)) <= 2 ^ 32)%Z ->
  NoDup (issued c).*1
  /\ (stopped c = false \/ dispatch config = Inline -> dropped c = []).
Proof.
  intros Hr Hl. split.
  - apply (issued_NoDup config); [by eapply channel_requests|done].
  - intros Hs. by eapply channel_dropped.
Qed.

Lemma call_ids_unique_witness :
  match demo_run Inline demo_events with
  | Some c => NoDup (issued c).*1 /\ dropped c = []
  | None => False
  end.
Proof.
  destruct (demo_run Inline _) as [c|] eqn:E; [|by vm_compute in E].
  assert (length (issued c) = 2) as Hl by (vm_compute in E; by simplify_eq).
  destruct (call_ids_unique _ _ _ _ E) as [Hn Hd]; [rw Hl; lia|]. split; [done|].
  apply Hd. by right.
Defined.

(** When the counter has come round to an identifier that is still
    pending, the new call is transmitted under that identifier but its
    callback is destroyed without ever being called: [emplace] keeps the old
    entry. *)
Theorem call_id_reuse_drops {A : Asio} `{!AsioClient A} {Q} `{!Fifo Q Completion}
    `{!UnorderedIter ResponseCallback} config (c : channel A Q) mid req n cb :
  stopped c = false -> pending c !! next_call_id c = Some cb ->
  let c' := call_closure config mid req (Some n) c in
  dropped c' = dropped c ++ [n] /\ pending c' = pending c /\ log c' = log c
  /\ cb_queue c' = cb_queue c
  /\ write_queue c' = write_queue c ++ [(request_header (next_call_id c) mid req, req)].
Proof.
  intros Hs Hp c'. subst c'. unfold call_closure, pending_emplace. rw Hs /= Hp /=.
  by destruct (write_pump_active c).
Qed.

Lemma call_id_reuse_drops_witness :
  let c : channel pipe_asio (list Completion) :=
    set_pending {[1%Z := Some 5]} (channel_init (A := pipe_asio) demo_socket) in
  dropped (call_closure (demo_config Inline) 7 [] (Some 6) c) = [6].
Proof.
  intros c. apply (call_id_reuse_drops (demo_config Inline) c 7 [] 6 (Some 5)); done.
Defined.

(** C27: a blocked thread is not forgotten: as long as a thread waits inside
    [EnsureConnected], the io thread has a closure to run or a connection
    attempt under way, or, in the manual mode only, the result waits for
    [RunCallbacks]; and its promise is held exactly once, so it cannot be set
    twice. *)
Theorem blocked_caller_progress {A : Asio} `{!AsioClient A} {Q} `{!Fifo Q Completion}
    `{!UnorderedIter ResponseCallback} config sock es (c : channel A Q) t b op :
  run_events (channel_step config) es (channel_init sock) = Some c ->
  callers c !! t = Some (CallWait b op) ->
  held (inr t) c = 1
  /\ (strand c <> [] \/ connector c <> CoNone
      \/ (dispatch config = Manual /\ fifo_list (cb_queue c) <> [])).
Proof.
  intros Hr Ht. pose proof (channel_balanced _ _ _ _ Hr) as Hb.
  destruct (channel_sound _ _ _ _ Hr) as [Hc _]. destruct (channel_placed _ _ _ _ Hr) as [_ Hq].
  pose proof (promise_somewhere t c Hb) as Hp. pose proof (Hb (inr t)) as Hh.
  assert (waiting t c = 1) as Hw by (by rw /waiting Ht). simpl in Hh. unfold places in Hh.
  assert (occ (inr t : cb_id) (log c ≫= log_ids) = 0) as Hl by (apply occ_bind_zero; by intros []).
  rw Hl occ_inr_inl in Hh. split; [unfold held; simpl in *; lia|]. rw Hw in Hp.
  destruct (strand c) as [|task rest]; [right|by left].
  destruct (connect_waiters c) eqn:Ewt; [right|left; apply Hc, Hc; by rw Ewt].
  destruct (fifo_list (cb_queue c)) as [|k q]; [simpl in Hp; lia|].
  destruct (dispatch config); [by specialize (Hq eq_refl)|done].
Qed.

Lemma blocked_caller_progress_witness :
  match demo_run Manual [StartCall 2 false OpConnect; CallerStep 2; CallerStep 2; StrandStep;
      Resolved (inr pipe_closed)] with
  | Some c => held (inr 2) c = 1
  | None => False
  end.
Proof.
  destruct (demo_run Manual _) as [c|] eqn:E; [|by vm_compute in E].
  assert (callers c !! 2 = Some (CallWait false OpConnect)) as Ht by (vm_compute in E; by simplify_eq).
  apply (blocked_caller_progress _ _ _ _ _ _ _ E Ht).
Defined.

(** The channel when [Shutdown] returns. *)
Lemma shutdown_state {A : Asio} `{!AsioClient A} `{!AsioStream A} `{!AsioClientStream A}
    {Q} `{!Fifo Q Completion} `{!UnorderedIter ResponseCallback} config sock es e (c c' : channel A Q) :
  run_events (channel_step config) es (channel_init sock) = Some c ->
  e = Joined \/ e = DoShutdown -> channel_step config e c = Some c' -> shutdown c' = ShutDone ->
  run_events (channel_step config) (es ++ [e]) (channel_init sock) = Some c'
  /\ pending c' = ∅ /\ connect_waiters c' = [] /\ strand c' = [] /\ fifo_list (cb_queue c') = []
  /\ (callers c' = ∅ -> forall n, n ∈ given c' -> n ∈ called c' \/ n ∈ dropped c').
Proof.
  intros Hr He Hstep Hd.
  assert (run_events (channel_step config) (es ++ [e]) (channel_init sock) = Some c') as Hr'
    by (by rw run_events_app Hr /= Hstep).
  destruct (channel_sound _ _ _ _ Hr') as [Hc _].
  destruct (ki_done _ Hc Hd) as (_ & Hpe & Hwa & Hst).
  assert (fifo_list (cb_queue c') = []) as Hq.
  { revert Hstep Hd. unfold channel_step, shutdown_joined, Shutdown. destruct He as [-> | ->];
      repeat case_match; intros; simplify_eq; try done; apply drain_all_empties. }
  split_and!; try done. intros Hca n. rw !occ_pos. intros Hn.
  pose proof (channel_balanced _ _ _ _ Hr' (inl n)) as Hb. simpl in Hb. unfold places in Hb.
  rw Hpe Hwa Hst Hq Hca !map_occ_empty occ_called occ_inl /= in Hb. lia.
Qed.

(** C21: shutdown completes: when [Shutdown] returns, no call is pending, no
    thread waits for a connection, nothing is queued or posted any more, and,
    with no caller inside the channel, every callback ever handed over has
    been called or was destroyed; in the inline mode (and at most [2 ^ 32]
    calls) every one of them has been called. *)
Theorem shutdown_completes {A : Asio} `{!AsioClient A} `{!AsioStream A} `{!AsioClientStream A}
    {Q} `{!Fifo Q Completion} `{!UnorderedIter ResponseCallback} config sock es e (c c' : channel A Q) :
  run_events (channel_step config) es (channel_init sock) = Some c ->
  e = Joined \/ e = DoShutdown -> channel_step config e c = Some c' -> shutdown c' = ShutDone ->
  pending c' = ∅ /\ connect_waiters c' = [] /\ strand c' = [] /\ fifo_list (cb_queue c') = []
  /\ (callers c' = ∅ -> forall n, n ∈ given c' -> n ∈ called c' \/ n ∈ dropped c')
  /\ (callers c' = ∅ -> dispatch config = Inline -> (Z.of_nat (length (issued c')) <= 2 ^ 32)%Z ->
      forall n, n ∈ given c' -> n ∈ called c').
Proof.
  intros Hr He Hstep Hd.
  destruct (shutdown_state _ _ _ _ _ _ Hr He Hstep Hd) as (Hr' & Hpe & Hwa & Hst & Hq & Hall).
  split_and!; try done. intros Hca Hin Hlen n Hn. destruct (Hall Hca n Hn) as [?|Hdr]; [done|].
  rw (channel_dropped config _ _ _ Hr') in Hdr; [by right|done|]. by apply elem_of_nil in Hdr.
Qed.

Lemma shutdown_completes_witness :
  match demo_run Inline (demo_events ++ [DoShutdown; StrandStep; ReadStep]) with
  | Some c => exists c', channel_step (demo_config Inline) Joined c = Some c' /\ 30 ∈ called c'
  | None => False
  end.
Proof.
  destruct (demo_run Inline _) as [c|] eqn:E; [|by vm_compute in E].
  destruct (channel_step (demo_config Inline) Joined c) as [c'|] eqn:E2.
  2: { vm_compute in E. simplify_eq. }
  assert (shutdown c' = ShutDone /\ callers c' = ∅ /\ given c' = [10; 20; 30]
    /\ length (issued c') = 2) as (Hd & Hc & Hg & Hl).
  { vm_compute in E. simplify_eq. vm_compute in E2. by simplify_eq. }
  exists c'. split; [done|].
  destruct (shutdown_completes _ _ _ _ _ _ E (or_introl eq_refl) E2 Hd) as (_ & _ & _ & _ & _ & Hall).
  apply Hall; [done|done|rw Hl; lia|]. rw Hg. right. right. by left.
Defined.

(** C36: a channel whose reader has ended is not usable and does not say so: it
    stays connected, so calls are accepted, transmitted and wait; whatever
    happens afterwards short of [Shutdown] or a failed write, no pending call
    is ever answered or failed.  (The reader ends at the end of the stream
    and at a frame that is neither a push nor a response; nothing reconnects.) *)
Theorem deaf_channel_hangs {A : Asio} `{!AsioClient A} `{!AsioStream A} `{!AsioClientStream A}
    {Q} `{!Fifo Q Completion} `{!UnorderedIter ResponseCallback} config sock es1 es2 (c c' : channel A Q) :
  run_events (channel_step config) es1 (channel_init sock) = Some c ->
  connected c = true -> reader c = false -> stopped c = false ->
  Forall not_shutdown es2 -> run_events (channel_step config) es2 c = Some c' ->
  write_failed c' = false ->
  connected c' = true /\ reader c' = false
  /\ forall id cb, pending c !! id = Some cb -> pending c' !! id = Some cb.
Proof.
  intros Hr Hcn Hrd Hst Hes Hr2 Hwf.
  destruct (deaf_run config es2 c c') as [(? & ? & ?) ?]; try done.
  - by eapply channel_requests.
  - by eapply channel_sound.
Qed.

(** The peer sends a request frame; the call made afterwards is transmitted
    and pending for good. *)
Definition deaf_events : list (channel_event (A := pipe_asio)) :=
  connect_events (mkPipe (bytes_of_string "pc1"
    ++ encode_frame (mkHeader kRequest 0 1 7 0, [])) [] None true)
  ++ [ReadStep; StartCall 2 false (OpCall 7 [] (Some 20)); CallerStep 2; CallerStep 2; StrandStep].

Lemma deaf_channel_hangs_witness :
  match demo_run Inline deaf_events with
  | Some c => match run_events (channel_step (demo_config Inline)) [PumpStep; PumpStep] c with
      | Some c' => pending c' !! 1%Z = Some (Some 20) /\ length (written c') = 1
      | None => False
      end
  | None => False
  end.
Proof.
  destruct (demo_run Inline _) as [c|] eqn:E; [|by vm_compute in E].
  destruct (run_events _ [PumpStep; PumpStep] c) as [c'|] eqn:E2.
  2: { vm_compute in E. simplify_eq. }
  assert (connected c = true /\ reader c = false /\ stopped c = false
    /\ pending c !! 1%Z = Some (Some 20) /\ write_failed c' = false /\ length (written c') = 1)
    as (H1 & H2 & H3 & H4 & H5 & H6).
  { vm_compute in E. simplify_eq. vm_compute in E2. by simplify_eq. }
  assert (Forall (not_shutdown (A := pipe_asio)) [PumpStep; PumpStep]) as Hes
    by (repeat (constructor; [done|]); constructor).
  destruct (deaf_channel_hangs _ _ _ _ _ _ E H1 H2 H3 Hes E2 H5) as (_ & _ & Hp).
  split; [by apply Hp|done].
Defined.

(** C37: in the manual mode, a thread that owns the channel alone never comes
    back from its first [Connect] or call: while it is inside, only the io
    thread can run, which queues the result for [RunCallbacks], which only
    the blocked thread would call. *)
Theorem manual_owner_deadlock {A : Asio} `{!AsioClient A} {Q} `{!Fifo Q Completion}
    `{!UnorderedIter ResponseCallback} config sock t op es (c : channel A Q) :
  dispatch config = Manual -> Forall while_inside es ->
  run_events (channel_step config) (StartCall t false op :: es) (channel_init sock) = Some c ->
  callers c = {[t := CallEnsure false op]} \/ callers c = {[t := CallRequest false op]}
  \/ callers c = {[t := CallWait false op]}.
Proof.
  intros Hm Hes Hr. change (StartCall t false op :: es) with ([StartCall t false op] ++ es) in Hr.
  rw run_events_app /= /start_call /= in Hr. simpl in Hr.
  assert (alone t op c) as []; [|by intuition..].
  apply run_events_reaches in Hr. induction Hr as [|es e c1 c2 Hr IH Hstep].
  - apply alone_entering; try done. by left.
  - apply Forall_app in Hes as [Hes [He _]%Forall_cons]. by eapply alone_step; [|apply IH| |].
Qed.

Definition first_connect : list (channel_event (A := pipe_asio)) :=
  [CallerStep 2; CallerStep 2; StrandStep; Resolved (inl [demo_peer]); ConnectStep; ConnectStep;
   ConnectStep; ReadStep].

Lemma manual_owner_deadlock_witness :
  match demo_run Manual (StartCall 2 false OpConnect :: first_connect) with
  | Some c => callers c !! 2 = Some (CallWait false OpConnect) /\ connected c = true
  | None => False
  end.
Proof.
  destruct (demo_run Manual _) as [c|] eqn:E; [|by vm_compute in E].
  assert (connected c = true /\ callers c !! 2 = Some (CallWait false OpConnect)) as [H1 H2]
    by (vm_compute in E; by simplify_eq).
  destruct (manual_owner_deadlock (A := pipe_asio) (demo_config Manual) demo_socket 2 OpConnect
    first_connect c eq_refl ltac:(by repeat constructor) E) as [H|[H|H]];
    rw H in H2 |- *; (split; [|done]); by simplify_map_eq.
Defined.
