(* ===== verification/ChannelFutures.v ===== *)
(** * ChannelFutures: the future and the blocking form of a call

    The other two overloads of a call in c++/src/channel.cc: the one that
    returns a future gives [AsyncUnaryCall] a callback that fulfils a promise,
    and [UnaryCall] waits for that future.  The promise is what the calls and
    the destruction of its callback make of it. *)

From S2P Require Import Prelude.
From S2P Require Import Status.
From S2P Require Import Frame.
From S2P Require Import Transport.
From S2P Require Import Mpsc.
From S2P Require Import Channel.
From S2P Require Import ChannelCallbacks.
From S2P Require Import ChannelProperties.

Open Scope nat_scope.

(** ** The promise *)

Inductive promise :=
| Unset
| Value (v : Status * bytes)
| Broken.                       (* destroyed without a value *)

(** [set_value]: on a promise that has one it throws. *)
Definition promise_set_value (v : Status * bytes) (p : promise) : option promise :=
  match p with Unset => Some (Value v) | _ => None end.

(** The callback the future form passes. *)
Definition future_callback (n : nat) (p : promise) (l : channel_log) : option promise :=
  match l with
  | LResponse _ m st payload => if decide (m = n) then promise_set_value (st, payload) p else Some p
  | _ => Some p
  end.

Fixpoint run_callback (n : nat) (p : promise) (ls : list channel_log) : option promise :=
  match ls with
  | [] => Some p
  | l :: ls => future_callback n p l ≫= (fun p => run_callback n p ls)
  end.

Section Futures.
Context {A : Asio} `{!AsioClient A} {Q : Type} `{!Fifo Q Completion} `{!UnorderedIter ResponseCallback}.
Implicit Types c : channel A Q.

(** The promise captured by callback [n]; [None]: [set_value] has thrown. *)
Definition future_of (n : nat) c : option promise :=
  (fun p => match p with
            | Unset => if decide (n ∈ dropped c) then Broken else Unset
            | _ => p
            end) <$> run_callback n Unset (log c).

(** [UnaryCall] with callback [n]: it waits ([None]), returns a status with
    [*response], or [get()] throws [broken_promise]. *)
Definition UnaryCall (n : nat) (response : bytes) c : option (Status * bytes + unit) :=
  match future_of n c with
  | Some (Value v) => Some (inl (UnaryCall_result v response))
  | Some Broken => Some (inr tt)
  | Some Unset | None => None
  end.

(** ** Lemmas *)

(** The responses given to callback [n]. *)
Definition response_to (n : nat) (l : channel_log) : option (Status * bytes) :=
  match l with
  | LResponse _ m st payload => if decide (m = n) then Some (st, payload) else None
  | _ => None
  end.

Lemma run_callback_responses n ls :
  run_callback n Unset ls
  = match omap (response_to n) ls with [] => Some Unset | [v] => Some (Value v) | _ => None end.
Proof.
  assert (forall v ls, run_callback n (Value v) ls
    = match omap (response_to n) ls with [] => Some (Value v) | _ => None end) as Hv.
  { intros v. clear ls. induction ls as [|l ls IH]; [done|].
    destruct l as [pl m st payload| | | |]; simpl; try apply IH. case_decide; [done|]. apply IH. }
  induction ls as [|l ls IH]; [done|]. destruct l as [pl m st payload| | | |]; simpl; try apply IH.
  case_decide; [|apply IH]. simpl. by rw Hv.
Qed.

Lemma responses_called n c : length (omap (response_to n) (log c)) <= occ n (called c).
Proof.
  unfold called. induction (log c) as [|l ls IH]; [done|].
  change (omap (response_to n) (l :: ls)) with
    (match response_to n l with Some y => y :: omap (response_to n) ls | None => omap (response_to n) ls end).
  change (omap log_callback (l :: ls)) with
    (match log_callback l with Some y => y :: omap log_callback ls | None => omap log_callback ls end).
  destruct l as [pl m st payload|pl m st| | |]; cbn [response_to log_callback occ]; try done;
    repeat case_decide; subst; cbn [length]; try congruence; lia.
Qed.

(** A log that only grows. *)
Definition grows (ls : list channel_log) c : Prop := ls `prefix_of` log c.

Lemma grows_log ls l c : grows ls c -> grows ls (log_event l c).
Proof. apply prefix_app_r. Qed.

Lemma grows_foldl {X} ls (f : channel A Q -> X -> channel A Q) xs c :
  (forall c x, grows ls c -> grows ls (f c x)) -> grows ls c -> grows ls (foldl f c xs).
Proof. intros Hf. revert c. induction xs as [|x xs IH]; intros c H; [done|]. apply IH, Hf, H. Qed.

Section Config.
Variable config : ChannelConfig.
Variable ls : list channel_log.

Lemma grows_call_connect pl k st c : grows ls c -> grows ls (call_connect pl k st c).
Proof. intros H. destruct k; [by apply grows_log|]. unfold call_connect, set_value. by repeat case_match. Qed.

Lemma grows_post_response pl k st b c : grows ls c -> grows ls (post_response config pl k st b c).
Proof. intros H. unfold post_response. repeat case_match; try done. by apply grows_log. Qed.

Lemma grows_run_thunk pl k c : grows ls c -> grows ls (run_thunk pl k c).
Proof. intros H. destruct k; [by apply grows_call_connect|by apply grows_log]. Qed.

Lemma grows_post_deferred pl k c : grows ls c -> grows ls (post_deferred config pl k c).
Proof. intros H. unfold post_deferred. case_match; [by apply grows_run_thunk|done]. Qed.

Lemma grows_finish st c : grows ls c -> grows ls (finish config st c).
Proof.
  intros H. unfold finish. apply grows_foldl; [intros; by apply grows_post_deferred|]. by case_match.
Qed.

Lemma grows_FailAllPending st defer c : grows ls c -> grows ls (FailAllPending config st defer c).
Proof.
  intros H. unfold FailAllPending. apply grows_foldl; [|done]. intros c1 [i [n|]] H1; [|done].
  destruct defer; [by apply grows_post_response|by apply grows_log].
Qed.

Lemma grows_drain fuel c : grows ls c -> grows ls (drain fuel c).
Proof.
  revert c. induction fuel as [|fuel IH]; intros c H; [done|]. simpl. destruct (fifo_pop _) as [[k|] q]; [|done].
  apply IH. destruct k as [n st b|[k st|]]; try done. destruct k; [done|].
  simpl. unfold set_value. by repeat case_match.
Qed.

Lemma grows_connect_done c : grows ls c -> grows ls (connect_done config c).
Proof. intros H. unfold connect_done. case_match; by apply grows_finish. Qed.

Lemma grows_ConnectCoro c c' : grows ls c -> ConnectCoro config c = Some c' -> grows ls c'.
Proof.
  intros H. unfold ConnectCoro. repeat case_match; intros; simplify_eq; try done;
    first [by apply grows_finish | by apply grows_connect_done].
Qed.

Lemma grows_ReadLoop c c' : grows ls c -> ReadLoop config c = Some c' -> grows ls c'.
Proof.
  intros H. unfold ReadLoop. repeat case_match; intros; simplify_eq.
  - by apply (grows_FailAllPending _ _ (set_socket _ c)).
  - unfold read_frame. repeat case_match; try done;
      first [by apply grows_post_deferred | by apply (grows_FailAllPending _ _ (set_socket _ c)) | by apply grows_post_response].
Qed.

Lemma grows_WritePump c c' : grows ls c -> WritePump config c = Some c' -> grows ls c'.
Proof.
  intros H. unfold WritePump, pump_loop. repeat case_match; intros; simplify_eq; try done.
  by apply (grows_FailAllPending _ _ (set_write_queue [] (set_socket _ c))).
Qed.

Lemma grows_RequestConnect pl k c : grows ls c -> grows ls (RequestConnect pl k c).
Proof.
  intros H. unfold RequestConnect, EnsureIoThread. repeat case_match; try done; by apply grows_call_connect.
Qed.

Lemma grows_caller_step t c c' : grows ls c -> caller_step config t c = Some c' -> grows ls c'.
Proof.
  intros H. unfold caller_step. destruct (callers c !! t) as [pc|]; [|done]. destruct pc; intros; simplify_eq;
    try (by apply grows_RequestConnect).
  - unfold EnsureConnected. by repeat case_match.
  - unfold ensured. repeat case_match; [by apply grows_log|by apply grows_post_response|done].
Qed.

Lemma grows_strand_step c c' : grows ls c -> strand_step config c = Some c' -> grows ls c'.
Proof.
  intros H. unfold strand_step. destruct (strand c) as [|task rest]; [done|]. intros; simplify_eq. destruct task.
  - unfold connect_closure. repeat case_match; try done; by apply grows_call_connect.
  - unfold call_closure, pending_emplace. repeat case_match; try done; by apply grows_post_response.
  - unfold shutdown_closure. apply grows_foldl; [intros; by apply grows_call_connect|].
    by apply grows_FailAllPending.
Qed.

Lemma grows_Shutdown c c' : grows ls c -> Shutdown config c = Some c' -> grows ls c'.
Proof.
  intros H. unfold Shutdown. repeat case_match; intros; simplify_eq; [done|]. apply grows_drain, grows_foldl.
  - intros c1 [k|t] Hc; [done|]. simpl. unfold set_value. by repeat case_match.
  - by apply grows_FailAllPending.
Qed.

Lemma grows_step e c c' : grows ls c -> channel_step config e c = Some c' -> grows ls c'.
Proof.
  intros H. unfold channel_step. destruct (shutdown c) eqn:Hs; try done; destruct e; simpl;
    try (destruct (io_thread_started c); [|done]).
  all: try (by apply grows_caller_step); try (by apply grows_strand_step); try (by apply grows_ConnectCoro);
    try (by apply grows_ReadLoop); try (by apply grows_WritePump); try (by apply grows_Shutdown).
  all: unfold start_call, ConnectCoro_resolved, callback_step, shutdown_joined, OnTrace;
    repeat case_match; intros; simplify_eq; try done; try (by apply grows_finish); try (by apply grows_log);
    try (by apply grows_drain).
  all: match goal with k : Completion |- _ => destruct k end; [by apply grows_log|by apply grows_run_thunk].
Qed.
End Config.

Lemma run_grows config es c c' :
  run_events (channel_step config) es c = Some c' -> log c `prefix_of` log c'.
Proof.
  apply (run_events_invariant (channel_step config) (grows (log c))); [|by unfold grows].
  intros e c1 c2. apply grows_step.
Qed.

(** A callback is called at most once, so it has at most one response. *)
Lemma response_once config sock es c n :
  run_events (channel_step config) es (channel_init sock) = Some c -> NoDup (given c) ->
  length (omap (response_to n) (log c)) + occ n (dropped c) <= 1.
Proof.
  intros Hr Hnd. pose proof (channel_balanced _ _ _ _ Hr (inl n)) as Hb. simpl in Hb. unfold places in Hb.
  rw occ_called occ_inl in Hb. pose proof (proj1 (NoDup_occ _) Hnd n). pose proof (responses_called n c). lia.
Qed.
End Futures.

(** The blocking form.  When the calls have callbacks of their own, the
    promise of a call is never fulfilled twice ([set_value] does not throw);
    once [UnaryCall] has its result, that is its result whatever follows; and
    when [Shutdown] returns, no [UnaryCall] waits any more: each has a result
    or, in the manual mode, the exception of a broken promise. *)
Theorem unary_call_future {A : Asio} `{!AsioClient A} `{!AsioStream A} `{!AsioClientStream A}
    {Q} `{!Fifo Q Completion} `{!UnorderedIter ResponseCallback} config sock es (c : channel A Q) n response :
  run_events (channel_step config) es (channel_init sock) = Some c -> NoDup (given c) ->
  future_of n c <> None
  /\ (forall r es' c', UnaryCall n response c = Some (inl r) ->
        run_events (channel_step config) es' c = Some c' -> NoDup (given c') ->
        UnaryCall n response c' = Some (inl r))
  /\ (forall e c', e = Joined \/ e = DoShutdown -> channel_step config e c = Some c' ->
        shutdown c' = ShutDone -> callers c' = ∅ -> NoDup (given c') -> n ∈ given c' ->
        UnaryCall n response c' <> None \/ exists pl st, LConnect pl n st ∈ log c').
Proof.
  intros Hr Hnd. pose proof (response_once _ _ _ _ n Hr Hnd) as H1. split; [|split].
  - unfold future_of. rw run_callback_responses. destruct (omap _ (log c)) as [|v [|]]; simpl in *; [done|done|lia].
  - intros r es' c' Hu Hr' Hnd'. pose proof (run_grows _ _ _ _ Hr') as [l Hl].
    assert (run_events (channel_step config) (es ++ es') (channel_init sock) = Some c') as Hr2 by (by rw run_events_app Hr).
    pose proof (response_once _ _ _ _ n Hr2 Hnd') as H2. revert Hu. unfold UnaryCall, future_of.
    rw !run_callback_responses. rw Hl omap_app length_app in H2. rw Hl omap_app.
    destruct (omap (response_to n) (log c)) as [|v [|]]; cbn [length app] in *; [by simpl; case_decide| |done].
    destruct (omap (response_to n) l); [done|]. cbn [length] in H2. lia.
  - intros e c' He Hstep Hd Hca Hnd' Hn.
    destruct (shutdown_state _ _ _ _ _ _ Hr He Hstep Hd) as (Hr' & _ & _ & _ & _ & Hall).
    pose proof (response_once _ _ _ _ n Hr' Hnd') as H2.
    unfold UnaryCall, future_of. rw run_callback_responses.
    destruct (omap (response_to n) (log c')) as [|v [|]] eqn:Eo; cbn [length] in H2; [|by left|lia].
    destruct (Hall Hca n Hn) as [Hcd|Hdr]; [|left; simpl; by rw decide_True].
    right. apply list_elem_of_omap in Hcd as (l & Hl & Hcb).
    destruct l as [pl m st b|pl m st| | |]; simplify_eq/=; [|by exists pl, st].
    assert ((st, b) ∈ omap (response_to n) (log c')) as Hin
      by (apply list_elem_of_omap; eexists; split; [done|]; simpl; by rw decide_True).
    rw Eo in Hin. by apply elem_of_nil in Hin.
Qed.

(** Two calls from two threads; the second is pending at the shutdown. *)
Lemma unary_call_future_witness :
  match demo_run Inline (demo_events ++ [DoShutdown; StrandStep; ReadStep]) with
  | Some c => UnaryCall 20 [] c <> None /\ UnaryCall 30 [] c = Some (inl (channel_shutdown, []))
  | None => False
  end.
Proof.
  destruct (demo_run Inline _) as [c|] eqn:E; [|by vm_compute in E].
  assert (given c = [10; 20; 30]) as Hg by (vm_compute in E; by simplify_eq).
  destruct (unary_call_future _ _ _ _ 20 [] E) as (Hf & _); [rw Hg; by_decision|].
  split; vm_compute in E; by simplify_eq.
Defined.
