(* ===== verification/Ends.v ===== *)
(** * Ends: clients and servers by what they read and write

    The interface between the two ends of a connection.  A client is
    described by the requests it puts on each of its connections and by what
    it tells its callers ([client_end]); a server by the requests it serves,
    with their responses ([server_end]).  [ends_safe] is the safety of remote
    calls for any client and any servers that keep to this; the C++ and the
    Go implementations of both sides are shown to do so in the files that
    follow. *)

From S2P Require Import Prelude.
From S2P Require Import Status.
From S2P Require Import Frame.
From S2P Require Import Transport.
From S2P Require Import Session.
From S2P Require Import SessionSpec.
From S2P Require Import ChannelRequests.

Open Scope nat_scope.

(** ** Reading what was written *)

Lemma frames_prefix raws fs ws rest :
  Forall2 raw_frame raws fs -> Forall frame_wf ws ->
  (concat raws ++ rest) `prefix_of` concat (encode_frame <$> ws) -> fs `prefix_of` ws.
Proof.
  intros Hf. revert ws. induction Hf as [|raw [h p] raws fs Hraw Hf IH]; intros ws Hw Hp.
  { apply prefix_nil. }
  destruct Hraw as (buf & Hl & Eh & Hsz & ->). destruct Hp as [k Hp]. cbn [fst snd] in *.
  destruct Hw as [|[h' p'] ws [Hwf Hpl] Hw].
  { apply (f_equal length) in Hp. rw !length_app Hl in Hp. by destruct (length p). }
  rw fmap_cons !concat_cons in Hp. change (encode_frame (h', p')) with (Serialize h' ++ p') in Hp.
  pose proof (header_roundtrip h' Hwf) as Hr. pose proof (Serialize_length h') as HS.
  revert Hp Hr HS. generalize (Serialize h'). intros hd Hp Hr HS. rw -!app_assoc in Hp.
  apply app_eq_length_inv in Hp as [<- Hp]; [|by rw Hl].
  rw Hr in Eh. subst h. clear Hr. cbn [fst snd] in *.
  apply app_eq_length_inv in Hp as [-> Hp]; [|unfold size_of in *; lia].
  apply prefix_cons, IH; [done|]. exists k. by rw Hp -app_assoc.
Qed.

(** Bytes that are not the first byte of a frame of a session. *)
Definition no_frame_byte (b : Byte.byte) : Prop := b <> Byte.x02 /\ b <> Byte.x03.

Lemma server_frame_head w ws y b z :
  server_frame w -> concat (encode_frame <$> w :: ws) ++ y = b :: z -> ~ no_frame_byte b.
Proof.
  intros Ht Hp. destruct w as [h p]. rw fmap_cons concat_cons /encode_frame /= in Hp.
  injection Hp as <- _. intros [H1 H2].
  destruct Ht as [Ht|Ht]; simpl in Ht; rw Ht in H1 H2; [by apply H1|by apply H2].
Qed.

Lemma server_frame_prefix w ws b z :
  server_frame w -> (b :: z) `prefix_of` concat (encode_frame <$> w :: ws) -> ~ no_frame_byte b.
Proof. intros Ht [k Hp]. eapply (server_frame_head w ws []); [done|]. by rw app_nil_r Hp. Qed.

(** The handshake reply is where the channel expects it. *)
Lemma wire_after_handshake k hs header w x :
  hs `prefix_of` header -> Forall no_frame_byte header -> Forall server_frame w ->
  (header ++ x) `prefix_of` wire k hs w -> x `prefix_of` concat (encode_frame <$> w).
Proof.
  intros [t ->] Hb Hw Hp. unfold wire in Hp.
  destruct (take k w) as [|w1 ws] eqn:Et.
  - rw app_nil_l -app_assoc in Hp. apply prefix_app_inv in Hp.
    assert (drop k w = w) as Ed by (rw -{2}(take_drop k w) Et; done). rw Ed in Hp.
    destruct t as [|b t]; [by rw app_nil_l in Hp|].
    apply Forall_app in Hb as [_ [Hb _]%Forall_cons].
    destruct Hw as [|w1 ws Hw1 _]; [by destruct Hp|]. by eapply server_frame_prefix in Hp.
  - assert (server_frame w1) as Hw1.
    { apply (proj1 (Forall_forall _ _) Hw). rw -(take_drop k w) Et. left. }
    destruct hs as [|b hs].
    + rw app_nil_l in Hp Hb.
      assert (concat (encode_frame <$> w1 :: ws) ++ [] ++ concat (encode_frame <$> drop k w)
        = concat (encode_frame <$> w)) as Ec by (rw -Et; apply (wire_no_handshake k w)).
      rw Ec in Hp. destruct t as [|b t]; [done|]. apply Forall_cons in Hb as [Hb _].
      rw -(take_drop k w) Et in Hp. by eapply server_frame_prefix in Hp.
    + apply Forall_cons in Hb as [Hb _]. exfalso. revert Hb.
      destruct Hp as [z Hp]. by eapply server_frame_head in Hp.
Qed.

(** ** The interface *)

Abbreviation frame := (FrameHeader * bytes)%type.

(** The frames [fs] are what a reader finds in [inc] after the header. *)
Definition reads (header inc : bytes) (fs : list frame) : Prop :=
  exists raws rest, inc = header ++ concat raws ++ rest /\ Forall2 raw_frame raws fs.

(** The same, with what is left to read. *)
Definition reads_to (header inc : bytes) (fs : list frame) (rest : bytes) : Prop :=
  exists raws, inc = header ++ concat raws ++ rest /\ Forall2 raw_frame raws fs.

Lemma reads_to_reads header inc fs rest : reads_to header inc fs rest -> reads header inc fs.
Proof. intros (raws & ? & ?). by exists raws, rest. Qed.

Lemma reads_to_nil header rest : reads_to header (header ++ rest) [] rest.
Proof. exists []. by split; [|constructor]. Qed.

Lemma reads_to_snoc header inc fs rest raw f rest' :
  reads_to header inc fs rest -> raw_frame raw f -> rest = raw ++ rest' ->
  reads_to header inc (fs ++ [f]) rest'.
Proof.
  intros (raws & -> & Hf) Hraw ->. exists (raws ++ [raw]). split.
  - by rw concat_app /= app_nil_r -app_assoc.
  - by apply Forall2_app; [|constructor].
Qed.

(** A server on one connection: [served] are the requests it executed with
    their responses.  It executes requests it has read, each at most once; a
    response has the id and the method of its request; and the responses a
    client can read after the handshake are responses to requests it
    executed. *)
Record server_end (header inc out : bytes) (served : list (frame * frame)) : Prop := {
  se_requests : served = [] \/ exists fs, reads header inc fs /\ served.*1 ⊆+ fs;
  se_answers : Forall answers served;
  se_responses : exists fs, Forall frame_wf fs
    /\ (forall x, header ++ x `prefix_of` out -> x `prefix_of` concat (encode_frame <$> fs))
    /\ forall f, f ∈ fs -> is_response f -> f ∈ served.*2
}.

(** A client with any number of connections, named by numbers: [requests k]
    are the frames put on connection [k], the last of which may be under way;
    [owner id n] says that the call id was given to caller [n];
    [outcomes n st p] that [n] was told [st] and [p]. *)
Record client_end (header : bytes) (inc out : nat -> bytes) (requests : nat -> list frame)
    (owner : Z -> nat -> Prop) (outcomes : nat -> Status -> bytes -> Prop) : Prop := {
  ce_requests k : out k `prefix_of` header ++ concat (encode_frame <$> requests k);
  ce_typed k : Forall frame_wf (requests k);
  ce_outcomes n st p : outcomes n st p ->
    (ok st = false /\ p = [])
    \/ exists k fs f, reads header (inc k) fs /\ f ∈ fs /\ is_response f
         /\ owner (call_id f.1) n /\ (st, p) = response_of f
}.

(** The servers execute calls of the client only, each at most once; and what
    a caller is told is an error without payload, or the response computed
    for its own request. *)
Definition rpc_safe (requests : nat -> list frame) (owner : Z -> nat -> Prop)
    (outcomes : nat -> Status -> bytes -> Prop) (served : nat -> list (frame * frame)) : Prop :=
  (forall k, (served k).*1 ⊆+ requests k)
  /\ forall n st p, outcomes n st p ->
       (ok st = false /\ p = [])
       \/ exists k req resp, (req, resp) ∈ served k /\ req ∈ requests k
            /\ owner (call_id req.1) n /\ (st, p) = response_of resp.

(** ** Composition *)

(** A server at the other end of a connection on which the client receives
    [inc] and has transmitted [out]: each end receives a prefix of what the
    other has transmitted. *)
Definition served_by (header inc out : bytes) (served : list (frame * frame)) : Prop :=
  exists sinc sout, server_end header sinc sout served
    /\ sinc `prefix_of` out /\ inc `prefix_of` sout.

(** No connection. *)
Lemma served_by_nil header : served_by header [] [] [].
Proof.
  exists [], []. split; [|done]. constructor; [by left|constructor|].
  exists []. split; [constructor|]. split; [|by intros f ?%elem_of_nil].
  intros x Hx. apply prefix_nil_inv, app_nil in Hx as [_ ->]. done.
Qed.

Section Composition.
Variables (header : bytes) (inc out : nat -> bytes) (requests : nat -> list frame).
Variables (owner : Z -> nat -> Prop) (outcomes : nat -> Status -> bytes -> Prop).
Variable served : nat -> list (frame * frame).
Hypothesis client : client_end header inc out requests owner outcomes.
Hypothesis servers : forall k, served_by header (inc k) (out k) (served k).

Lemma reads_prefix k sinc fs : sinc `prefix_of` out k -> reads header sinc fs -> fs `prefix_of` requests k.
Proof.
  intros Hup (raws & rest & Hin & Hf). eapply (frames_prefix raws fs _ rest); [exact Hf|apply client|].
  apply (prefix_app_inv header). rw -Hin. etrans; [exact Hup|apply client].
Qed.

Lemma served_calls k : (served k).*1 ⊆+ requests k.
Proof.
  destruct (servers k) as (sinc & sout & Hs & Hup & _).
  destruct (se_requests _ _ _ _ Hs) as [->|(fs & Hr & Hsub)]; [apply submseteq_nil_l|].
  etrans; [exact Hsub|]. destruct (reads_prefix k sinc fs Hup Hr) as [q ->]. by apply submseteq_inserts_r.
Qed.

Lemma response_served k fs f : reads header (inc k) fs -> f ∈ fs -> is_response f -> f ∈ (served k).*2.
Proof.
  intros (raws & rest & Hin & Hf) Hfs Ht. destruct (servers k) as (sinc & sout & Hs & _ & Hdown).
  destruct (se_responses _ _ _ _ Hs) as (ws & Hw & Hx & Hin2).
  apply Hin2; [|done]. assert (fs `prefix_of` ws) as [q ->]; [|set_solver].
  eapply (frames_prefix raws fs _ rest); [exact Hf|exact Hw|]. apply Hx. by rw -Hin.
Qed.

Theorem ends_safe : rpc_safe requests owner outcomes served.
Proof.
  split; [apply served_calls|]. intros n st p Ho.
  destruct (ce_outcomes _ _ _ _ _ _ client n st p Ho) as [?|(k & fs & f & Hr & Hf & Ht & Hn & E)];
    [by left|right].
  pose proof (response_served k fs f Hr Hf Ht) as Hs.
  apply list_elem_of_fmap in Hs as ([req resp] & -> & Hin).
  exists k, req, resp. split; [done|]. split; [|split; [|done]].
  - apply (elem_of_submseteq (served k).*1); [|apply served_calls].
    apply list_elem_of_fmap. by exists (req, resp).
  - destruct (servers k) as (sinc & sout & Hse & _ & _).
    pose proof (proj1 (Forall_forall _ _) (se_answers _ _ _ _ Hse) _ Hin) as (_ & _ & Hid & _).
    simpl in *. by rw -Hid.
Qed.
End Composition.
