(* ===== verification/ServerThreads.v ===== *)
(** * ServerThreads: Wait, Shutdown and the io threads

    [Server] models the server with its io threads as a number; here are the
    [std::thread] objects of [Server::Impl::threads] and the two loops of
    c++/src/server.cc that join them, one access to a thread object at a time.
    [join] on an object that another thread is joining is a data race, and an
    access to an element of the vector after [clear()] one to freed memory:
    such steps end in a [fault].  An io thread leaves [io_context.run()] only
    after [stop()]: until then the work guard keeps it there. *)

From S2P Require Import Prelude.

Open Scope nat_scope.

(** ** State *)

Record std_thread := mkThread { joinable : bool; ended : bool }.

(** Where a call stands.  The loops are [for (auto& t : impl_->threads)]: at
    element [i] of the [n] there were when it began. *)
Inductive call_pc :=
| ShutRead                            (* if (!impl_->running) return; *)
| ShutStop                            (* running = false; reset(); stop(); *)
| Loop (shut : bool) (i n : nat)      (* t.joinable() *)
| AtJoin (shut : bool) (i n : nat)    (* entering t.join() *)
| Joining (shut : bool) (i n : nat)   (* blocked in t.join() *)
| ShutClear.                          (* threads.clear() *)

Inductive fault :=
| RaceOnJoin       (* two threads inside join() of one object *)
| FreedThread      (* an element of the cleared vector *)
| JoinThrew        (* std::system_error from join() *)
| Terminated.      (* the destructor of a joinable thread *)

(** Who calls: io thread [i] in a handler, or another thread. *)
Abbreviation runner := (nat + nat)%type.

Record pool := mkPool {
  io_threads : list std_thread;
  pool_running : bool;
  io_stopped : bool;
  calls : gmap runner call_pc
}.

(** After [Start]: the threads of [Server.Start], all running. *)
Definition started_pool (n : nat) : pool := mkPool (replicate n (mkThread true false)) true false ∅.

Definition set_call (r : runner) (pc : call_pc) (p : pool) : pool :=
  mkPool (io_threads p) (pool_running p) (io_stopped p) (<[r := pc]> (calls p)).
Definition return_call (r : runner) (p : pool) : pool :=
  mkPool (io_threads p) (pool_running p) (io_stopped p) (delete r (calls p)).
Definition set_thread (i : nat) (t : std_thread) (p : pool) : pool :=
  mkPool (<[i := t]> (io_threads p)) (pool_running p) (io_stopped p) (calls p).

(** Somebody is inside [join] of thread [i]. *)
Definition joining (i : nat) (pc : call_pc) : bool :=
  match pc with Joining _ j _ => i =? j | _ => false end.
Definition being_joined (i : nat) (p : pool) : bool := existsb (joining i) (map_to_list (calls p)).*2.

(** ** The calls *)

(** [t.joinable()], or the end of the loop. *)
Definition loop_step (r : runner) (shut : bool) (i n : nat) (p : pool) : pool + fault :=
  if i =? n then inl (if shut then set_call r ShutClear p else return_call r p)
  else
    match io_threads p !! i with
    | None => inr FreedThread
    | Some t => inl (set_call r (if joinable t then AtJoin shut i n else Loop shut (S i) n) p)
    end.

(** [t.join()]: joining oneself and joining twice throw. *)
Definition join_step (r : runner) (shut : bool) (i n : nat) (p : pool) : pool + fault :=
  match io_threads p !! i with
  | None => inr FreedThread
  | Some t =>
    if being_joined i p then inr RaceOnJoin
    else if bool_decide (r = inl i) || negb (joinable t) then inr JoinThrew
    else inl (set_call r (Joining shut i n) p)
  end.

(** The return from [t.join()]. *)
Definition joined_step (r : runner) (shut : bool) (i n : nat) (p : pool) : option (pool + fault) :=
  match io_threads p !! i with
  | None => Some (inr FreedThread)
  | Some t =>
    if ended t
    then Some (inl (set_call r (Loop shut (S i) n) (set_thread i (mkThread false true) p)))
    else None
  end.

Definition clear_step (r : runner) (p : pool) : pool + fault :=
  if existsb joinable (io_threads p) then inr Terminated
  else inl (return_call r (mkPool [] (pool_running p) (io_stopped p) (calls p))).

Definition call_step (r : runner) (p : pool) : option (pool + fault) :=
  match calls p !! r with
  | None => None
  | Some ShutRead => Some (inl (if pool_running p then set_call r ShutStop p else return_call r p))
  | Some ShutStop =>
    Some (inl (set_call r (Loop true 0 (length (io_threads p)))
                 (mkPool (io_threads p) false true (calls p))))
  | Some (Loop shut i n) => Some (loop_step r shut i n p)
  | Some (AtJoin shut i n) => Some (join_step r shut i n p)
  | Some (Joining shut i n) => joined_step r shut i n p
  | Some ShutClear => Some (clear_step r p)
  end.

(** A thread that is not in a call makes one. *)
Definition begin_call (r : runner) (pc : call_pc) (p : pool) : option (pool + fault) :=
  match calls p !! r with
  | None => Some (inl (set_call r pc p))
  | Some _ => None
  end.

Definition Wait (r : runner) (p : pool) : option (pool + fault) :=
  begin_call r (Loop false 0 (length (io_threads p))) p.
Definition Shutdown_call (r : runner) (p : pool) : option (pool + fault) := begin_call r ShutRead p.

(** [io_context.run()] returns in io thread [i], which is not in a handler. *)
Definition io_return (i : nat) (p : pool) : option (pool + fault) :=
  match io_threads p !! i, calls p !! inl i with
  | Some t, None =>
    if io_stopped p && negb (ended t) then Some (inl (set_thread i (mkThread (joinable t) true) p)) else None
  | _, _ => None
  end.

(** ** The machine *)

Inductive pool_event := CallWait (r : runner) | CallShutdown (r : runner) | CallStep (r : runner) | IoReturn (i : nat).

Definition pool_step (e : pool_event) (s : pool + fault) : option (pool + fault) :=
  match s with
  | inr _ => None
  | inl p =>
    match e with
    | CallWait r => Wait r p
    | CallShutdown r => Shutdown_call r p
    | CallStep r => call_step r p
    | IoReturn i => io_return i p
    end
  end.

(** Calls that do not overlap, none of them from a handler. *)
Definition serial (e : pool_event) (p : pool) : bool :=
  match e with
  | CallWait (inr _) | CallShutdown (inr _) => bool_decide (calls p = ∅)
  | CallWait (inl _) | CallShutdown (inl _) => false
  | _ => true
  end.

Definition serial_step (e : pool_event) (s : pool + fault) : option (pool + fault) :=
  match s with
  | inr _ => None
  | inl p => if serial e p then pool_step e s else None
  end.

(** ** The invariant of serial use *)

Definition joined (t : std_thread) : Prop := joinable t = false /\ ended t = true.

(** What a call at [pc] knows of the threads. *)
Definition pc_ok (pc : call_pc) (p : pool) : Prop :=
  match pc with
  | ShutRead => True
  | ShutStop => pool_running p = true
  | Loop shut i n => n = length (io_threads p) /\ i <= n
      /\ Forall joined (take i (io_threads p)) /\ (shut = true -> io_stopped p = true)
  | AtJoin shut i n | Joining shut i n => n = length (io_threads p)
      /\ (exists e, io_threads p !! i = Some (mkThread true e))
      /\ Forall joined (take i (io_threads p)) /\ (shut = true -> io_stopped p = true)
  | ShutClear => Forall joined (io_threads p) /\ io_stopped p = true
  end.

(** A [Shutdown] that has stopped the io context. *)
Definition shutting (pc : call_pc) : bool :=
  match pc with
  | Loop shut _ _ | AtJoin shut _ _ | Joining shut _ _ => shut
  | ShutClear => true
  | ShutRead | ShutStop => false
  end.

Record pool_ok (p : pool) : Prop := {
  po_calls : calls p = ∅ \/ exists t pc, calls p = {[inr t := pc]} /\ pc_ok pc p;
  po_running : pool_running p = negb (io_stopped p);
  (* while the server runs, no thread has ended *)
  po_live : io_stopped p = false -> Forall (fun t => t = mkThread true false) (io_threads p);
  (* a thread is joined only once it has ended *)
  po_ended : Forall (fun t => joinable t = true \/ ended t = true) (io_threads p);
  (* stopped, and nobody at it: everything joined and freed *)
  po_done : io_stopped p = true ->
    map_Forall (fun _ pc => shutting pc = false) (calls p) -> io_threads p = []
}.

(** ** Lemmas *)

Lemma started_ok n : pool_ok (started_pool n).
Proof. split; [by left|done| | |done]; [intros _|]; apply Forall_replicate; [done|by left]. Qed.

(** The thread in the call moves on, and the threads are as before. *)
Lemma set_call_ok t pc pc' p :
  pool_ok p -> calls p = {[inr t := pc]} -> pc_ok pc' p -> shutting pc' = shutting pc ->
  pool_ok (set_call (inr t) pc' p).
Proof.
  intros [_ Hr Hl He Hd] E Hpc Hs. split; simpl; [|done|done|done|].
  - right. exists t, pc'. by rw E insert_singleton_eq.
  - rw E insert_singleton_eq map_Forall_singleton Hs. intros H1 H2. apply Hd; [done|].
    by rw E map_Forall_singleton.
Qed.

Lemma return_call_ok t pc p :
  pool_ok p -> calls p = {[inr t := pc]} -> shutting pc = false -> pool_ok (return_call (inr t) p).
Proof.
  intros [_ Hr Hl He Hd] E Hs. split; simpl; [|done|done|done|].
  - left. by rw E delete_singleton_eq.
  - intros H1 _. apply Hd; [done|]. by rw E map_Forall_singleton.
Qed.

Lemma being_joined_single i t pc p : calls p = {[inr t := pc]} -> being_joined i p = joining i pc.
Proof. intros E. unfold being_joined. rw E map_to_list_singleton /=. by rw orb_false_r. Qed.

Lemma joined_take_S i (ts : list std_thread) t :
  ts !! i = Some t -> joined t -> Forall joined (take i ts) -> Forall joined (take (S i) ts).
Proof. intros Hi Ht Hts. rw (take_S_r _ _ _ Hi). by apply Forall_app_2; [|apply Forall_singleton]. Qed.

Lemma live_thread i t p : pool_ok p -> io_stopped p = false -> io_threads p !! i = Some t -> t = mkThread true false.
Proof. intros H Hs Hi. exact (Forall_lookup_1 _ _ _ _ (po_live _ H Hs) Hi). Qed.

(** A thread in a call that is not a shutdown sees a server that runs, or one
    without threads. *)
Lemma waits_live t pc p :
  pool_ok p -> calls p = {[inr t := pc]} -> shutting pc = false -> io_stopped p = true -> io_threads p = [].
Proof. intros H E Hs Hst. apply (po_done _ H Hst). by rw E map_Forall_singleton. Qed.

Lemma loop_ok t shut i n p :
  pool_ok p -> calls p = {[inr t := Loop shut i n]} -> pc_ok (Loop shut i n) p ->
  exists p', loop_step (inr t) shut i n p = inl p' /\ pool_ok p'.
Proof.
  intros H E (-> & Hi & Hj & Hs). unfold loop_step. destruct (Nat.eqb_spec i (length (io_threads p))) as [->|Hne].
  - eexists. split; [done|]. destruct shut.
    + apply (set_call_ok _ _ _ _ H E); [|done]. split; [|by apply Hs]. by rw firstn_all in Hj.
    + by apply (return_call_ok _ _ _ H E).
  - destruct (lookup_lt_is_Some_2 (io_threads p) i ltac:(lia)) as [[j e] Ht]. rw Ht. eexists. split; [done|].
    apply (set_call_ok _ _ _ _ H E); [|by destruct j]. destruct j; simpl.
    + split; [done|]. split; [by exists e|done].
    + split; [done|]. split; [lia|]. split; [|done]. apply (joined_take_S _ _ _ Ht); [|done].
      split; [done|]. by destruct (Forall_lookup_1 _ _ _ _ (po_ended _ H) Ht).
Qed.

Lemma join_ok t shut i n p :
  pool_ok p -> calls p = {[inr t := AtJoin shut i n]} -> pc_ok (AtJoin shut i n) p ->
  exists p', join_step (inr t) shut i n p = inl p' /\ pool_ok p'.
Proof.
  intros H E Hpc. pose proof Hpc as (_ & [e Ht] & _). unfold join_step.
  rw Ht (being_joined_single _ _ _ _ E). simpl. eexists. split; [done|]. by apply (set_call_ok _ _ _ _ H E).
Qed.

Lemma joined_ok t shut i n p s' :
  pool_ok p -> calls p = {[inr t := Joining shut i n]} -> pc_ok (Joining shut i n) p ->
  joined_step (inr t) shut i n p = Some s' -> exists p', s' = inl p' /\ pool_ok p'.
Proof.
  intros H E (-> & [e Ht] & Hj & Hs). unfold joined_step. rw Ht. simpl. destruct e; [|done]. intros [= <-].
  eexists. split; [done|]. assert (i < length (io_threads p)) by (by apply lookup_lt_Some in Ht).
  assert (io_stopped p = true) as Hst.
  { destruct (io_stopped p) eqn:Hst; [done|]. by pose proof (live_thread _ _ _ H Hst Ht). }
  assert (shut = true) as ->.
  { destruct shut; [done|]. by rw (waits_live _ _ _ H E eq_refl Hst) in Ht. }
  split; simpl.
  - right. exists t, (Loop true (S i) (length (io_threads p))). rw E insert_singleton_eq. split; [done|].
    simpl. rw length_insert. split; [done|]. split; [lia|]. split; [|done].
    eapply joined_take_S; [by apply list_lookup_insert_eq|done|]. by rw take_insert_ge.
  - apply (po_running _ H).
  - by rw Hst.
  - apply Forall_insert; [apply (po_ended _ H)|by right].
  - rw E insert_singleton_eq map_Forall_singleton. done.
Qed.

Lemma clear_ok t p :
  pool_ok p -> calls p = {[inr t := ShutClear]} -> pc_ok ShutClear p ->
  clear_step (inr t) p = inl (mkPool [] (pool_running p) true ∅)
  /\ pool_ok (mkPool [] (pool_running p) true ∅).
Proof.
  intros H E [Hj Hs]. unfold clear_step, return_call. simpl.
  destruct (existsb joinable (io_threads p)) eqn:Ex.
  - apply existsb_exists in Ex as (x & Hx%list_elem_of_In & Hjx). rw Forall_forall in Hj.
    destruct (Hj _ Hx) as [Hf _]. congruence.
  - rw E delete_singleton_eq Hs. split; [done|]. split; simpl; [by left| |done|done|done].
    by rw (po_running _ H) Hs.
Qed.

Lemma stop_ok t p :
  pool_ok p -> calls p = {[inr t := ShutStop]} -> pc_ok ShutStop p ->
  pool_ok (set_call (inr t) (Loop true 0 (length (io_threads p))) (mkPool (io_threads p) false true (calls p))).
Proof.
  intros H E Hr. split; simpl; [|done|done|apply (po_ended _ H)|].
  - right. exists t, (Loop true 0 (length (io_threads p))). rw E insert_singleton_eq. split; [done|].
    simpl. repeat split; [lia|]. by rw firstn_O.
  - rw E insert_singleton_eq map_Forall_singleton. done.
Qed.

Lemma call_step_ok t pc p s' :
  pool_ok p -> calls p = {[inr t := pc]} -> pc_ok pc p -> call_step (inr t) p = Some s' ->
  exists p', s' = inl p' /\ pool_ok p'.
Proof.
  intros H E Hpc. unfold call_step. rw {1}E lookup_singleton_eq. destruct pc as [| |shut i n|shut i n|shut i n|].
  - intros [= <-]. eexists. split; [done|]. destruct (pool_running p) eqn:Hr.
    + by apply (set_call_ok _ _ _ _ H E).
    + by apply (return_call_ok _ _ _ H E).
  - intros [= <-]. eexists. split; [done|]. by apply stop_ok.
  - intros [= <-]. by apply loop_ok.
  - intros [= <-]. by apply join_ok.
  - by apply joined_ok.
  - intros [= <-]. eexists. by apply clear_ok.
Qed.

Lemma joined_take_return k i t (ts : list std_thread) :
  ts !! i = Some t -> ended t = false -> Forall joined (take k ts) ->
  Forall joined (take k (<[i := mkThread (joinable t) true]> ts)).
Proof.
  intros Hi He Hj. destruct (decide (i < k)) as [Hk|Hk]; [|by rw take_insert_ge; [lia|]].
  rw -(lookup_take_lt _ k) // in Hi. destruct (Forall_lookup_1 _ _ _ _ Hj Hi). congruence.
Qed.

Lemma io_return_pc i t pc p :
  io_threads p !! i = Some t -> ended t = false -> pc_ok pc p ->
  pc_ok pc (set_thread i (mkThread (joinable t) true) p).
Proof.
  intros Hi He. pose proof (fun k => joined_take_return k _ _ _ Hi He) as Hk.
  assert (forall j, (exists e, io_threads p !! j = Some (mkThread true e)) ->
    exists e, <[i := mkThread (joinable t) true]> (io_threads p) !! j = Some (mkThread true e)) as Hl.
  { intros j [e Hj]. destruct (decide (j = i)) as [->|Hne]; [|rw list_lookup_insert_ne //; by exists e].
    exists true. rw list_lookup_insert_eq; [by eapply lookup_lt_Some|]. rw Hj in Hi. by injection Hi as <-. }
  destruct pc; simpl; rw ?length_insert; try done.
  - intros (? & ? & ? & ?). split_and!; eauto.
  - intros (? & ? & ? & ?). split_and!; eauto.
  - intros (? & ? & ? & ?). split_and!; eauto.
  - intros [Hj ?]. split; [|done]. specialize (Hk (length (io_threads p))). rw firstn_all in Hk.
    apply Hk in Hj. by rw -(length_insert (io_threads p) i (mkThread (joinable t) true)) firstn_all in Hj.
Qed.

Lemma io_return_ok i p s' :
  pool_ok p -> io_return i p = Some s' -> exists p', s' = inl p' /\ pool_ok p'.
Proof.
  intros [Hc Hr Hl He Hd]. unfold io_return. destruct (io_threads p !! i) as [t|] eqn:Ht; [|done].
  destruct (calls p !! inl i); [done|]. destruct (io_stopped p) eqn:Hst; [|done].
  destruct (ended t) eqn:Het; [done|]. intros [= <-]. eexists. split; [done|]. split; simpl; try done.
  - destruct Hc as [Hc|(r & pc & Hc & Hpc)]; [by left|]. right. exists r, pc. split; [done|].
    by apply io_return_pc.
  - by rw Hst.
  - by rw Hst.
  - apply Forall_insert; [done|by right].
  - intros _ Hf. by rw Hd in Ht.
Qed.

Lemma begin_ok t pc p s' :
  pool_ok p -> calls p = ∅ -> pc_ok pc p -> shutting pc = false ->
  begin_call (inr t) pc p = Some s' -> exists p', s' = inl p' /\ pool_ok p'.
Proof.
  intros [_ Hr Hl He Hd] E Hpc Hs. unfold begin_call. rw E lookup_empty. intros [= <-].
  eexists. split; [done|]. split; simpl; [|done|done|done|].
  - right. exists t, pc. by rw E insert_empty.
  - intros Hst _. apply Hd; [done|]. by rw E.
Qed.

Lemma serial_step_ok e p s' :
  pool_ok p -> serial_step e (inl p) = Some s' -> exists p', s' = inl p' /\ pool_ok p'.
Proof.
  intros H. unfold serial_step. destruct (serial e p) eqn:Es; [|done]. destruct e as [[r|t]|[r|t]|r|i]; try done; simpl.
  - apply bool_decide_eq_true in Es. unfold Wait. apply begin_ok; try done. simpl. rw firstn_O. repeat split; [lia|done|done].
  - apply bool_decide_eq_true in Es. by apply begin_ok.
  - destruct (po_calls _ H) as [E|(t & pc & E & Hpc)]; [unfold call_step; by rw E lookup_empty|].
    intros Hs. destruct (decide (r = inr t)) as [->|Hne]; [by eapply call_step_ok|].
    unfold call_step in Hs. by rw E lookup_singleton_ne in Hs.
  - by apply io_return_ok.
Qed.

Lemma serial_run_ok n es s :
  run_events serial_step es (inl (started_pool n)) = Some s -> exists p, s = inl p /\ pool_ok p.
Proof.
  intros Hr. refine (run_events_invariant serial_step (fun s => exists p, s = inl p /\ pool_ok p) _ _ _ _ _ Hr).
  - intros e s1 s2 (p & -> & Hp). by apply serial_step_ok.
  - eexists. split; [done|]. apply started_ok.
Qed.

(** *** Shutdown ends *)

Definition cost (n : nat) (pc : call_pc) : nat :=
  match pc with
  | ShutRead => 3 * n + 4
  | ShutStop => 3 * n + 3
  | Loop _ i n => 3 * (n - i) + 2
  | AtJoin _ i n => 3 * (n - i) + 1
  | Joining _ i n => 3 * (n - i)
  | ShutClear => 1
  end.

Definition busy (t : std_thread) : nat := if ended t then 0 else 1.

(** The steps left: of the calls, and of the threads that run. *)
Definition work (p : pool) : nat :=
  sum_list (cost (length (io_threads p)) <$> (map_to_list (calls p)).*2) + sum_list (busy <$> io_threads p).

(** The events that are not the begin of a call. *)
Definition moves (e : pool_event) : bool := match e with CallStep _ | IoReturn _ => true | _ => false end.

(** A [Shutdown], from its begin. *)
Definition is_shutdown (pc : call_pc) : bool :=
  shutting pc || match pc with ShutRead | ShutStop => true | _ => false end.

Lemma work_single t pc p :
  calls p = {[inr t := pc]} -> work p = cost (length (io_threads p)) pc + sum_list (busy <$> io_threads p).
Proof. intros E. unfold work. rw E map_to_list_singleton /=. lia. Qed.

Lemma work_none p : calls p = ∅ -> work p = sum_list (busy <$> io_threads p).
Proof. intros E. unfold work. by rw E map_to_list_empty. Qed.

Lemma busy_insert i t t' (ts : list std_thread) :
  ts !! i = Some t ->
  sum_list (busy <$> <[i := t']> ts) + busy t = sum_list (busy <$> ts) + busy t'.
Proof.
  revert i. induction ts as [|x ts IH]; intros i Hi; [done|]. destruct i as [|i].
  - injection Hi as ->. simpl. lia.
  - specialize (IH _ Hi). change (<[S i := t']> (x :: ts)) with (x :: <[i := t']> ts). rw !fmap_cons /=. lia.
Qed.

(** The thread in the call moves to [pc'] with less work, or returns. *)
Lemma set_call_work t pc pc' p p1 :
  calls p1 = {[inr t := pc]} -> is_shutdown pc' = is_shutdown pc ->
  cost (length (io_threads p1)) pc' + sum_list (busy <$> io_threads p1) < work p ->
  work (set_call (inr t) pc' p1) < work p
  /\ (calls (set_call (inr t) pc' p1) = ∅
      \/ exists pc2, calls (set_call (inr t) pc' p1) = {[inr t := pc2]} /\ is_shutdown pc2 = is_shutdown pc).
Proof.
  intros E Hs Hw. assert (calls (set_call (inr t) pc' p1) = {[inr t := pc']}) as E'
    by (simpl; by rw E insert_singleton_eq).
  rw (work_single _ _ _ E'). split; [done|]. right. exists pc'. simpl. by rw E insert_singleton_eq.
Qed.

Lemma return_call_work t pc p p1 :
  calls p1 = {[inr t := pc]} -> sum_list (busy <$> io_threads p1) < work p ->
  work (return_call (inr t) p1) < work p /\ calls (return_call (inr t) p1) = ∅.
Proof.
  intros E Hw. assert (calls (return_call (inr t) p1) = ∅) as E' by (simpl; by rw E delete_singleton_eq).
  by rw (work_none _ E').
Qed.

Lemma call_step_work t pc p p' :
  pool_ok p -> calls p = {[inr t := pc]} -> pc_ok pc p -> call_step (inr t) p = Some (inl p') ->
  work p' < work p
  /\ (calls p' = ∅ \/ exists pc', calls p' = {[inr t := pc']} /\ is_shutdown pc' = is_shutdown pc).
Proof.
  intros H E Hpc. pose proof (work_single _ _ _ E) as Hw. unfold call_step. rw {1}E lookup_singleton_eq.
  destruct pc as [| |shut i n|shut i n|shut i n|]; simpl in Hpc, Hw.
  - intros [= <-]. destruct (pool_running p); [apply (set_call_work _ _ _ _ _ E); [done|simpl; lia]|].
    destruct (return_call_work _ _ p _ E); [lia|]. auto.
  - intros [= <-]. apply (set_call_work _ ShutStop); [exact E|done|simpl; lia].
  - unfold loop_step. destruct Hpc as (-> & Hi & _). destruct (Nat.eqb_spec i (length (io_threads p))) as [->|Hne].
    + intros [= <-]. destruct shut; [apply (set_call_work _ _ _ _ _ E); [done|simpl; lia]|].
      destruct (return_call_work _ _ p _ E); [lia|]. auto.
    + case_match; [|done]. intros [= <-]. case_match; apply (set_call_work _ _ _ _ _ E); simpl; try done; lia.
  - unfold join_step. repeat case_match; try done. intros [= <-].
    apply (set_call_work _ _ _ _ _ E); [done|simpl; lia].
  - unfold joined_step. destruct Hpc as (-> & [e Ht] & _). rw Ht. destruct e; [|done]. intros [= <-].
    pose proof (lookup_lt_Some _ _ _ Ht). pose proof (busy_insert _ _ (mkThread false true) _ Ht) as Hb.
    apply (set_call_work _ (Joining shut i (length (io_threads p)))); [exact E|done|].
    cbn [set_thread io_threads cost]. change (busy (mkThread true true)) with 0 in Hb.
    change (busy (mkThread false true)) with 0 in Hb. lia.
  - intros [= Ep]. destruct (clear_ok _ _ H E Hpc) as [Ec _]. rw Ec in Ep. injection Ep as <-.
    rw Hw work_none //=. split; [lia|by left].
Qed.

Lemma io_return_work i p p' :
  io_return i p = Some (inl p') -> work p' < work p /\ calls p' = calls p.
Proof.
  unfold io_return. destruct (io_threads p !! i) as [t|] eqn:Ht; [|done]. destruct (calls p !! inl i); [done|].
  destruct (io_stopped p); [|done]. destruct (ended t) eqn:He; [done|]. intros [= <-]. split; [|done].
  pose proof (busy_insert i t (mkThread (joinable t) true) _ Ht) as Hb.
  unfold busy at 2 4 in Hb. rw He /= in Hb. unfold work. simpl. rw length_insert. lia.
Qed.

(** A [Shutdown] under way can go on: the call itself, or an io thread that
    it waits for. *)
Lemma shutdown_moves t pc p :
  pool_ok p -> calls p = {[inr t := pc]} -> pc_ok pc p -> is_shutdown pc = true ->
  exists e, moves e = true /\ serial_step e (inl p) <> None.
Proof.
  intros H E Hpc Hs. assert (call_step (inr t) p <> None -> exists e, moves e = true /\ serial_step e (inl p) <> None) as Hc
    by (intros Hc; by exists (CallStep (inr t))).
  destruct pc as [| |shut i n|shut i n|shut i n|];
    try (apply Hc; unfold call_step; by rw {1}E lookup_singleton_eq).
  destruct Hpc as (_ & [e Ht] & _ & Hst). destruct shut; [|done]. destruct e.
  - apply Hc. unfold call_step, joined_step. by rw {1}E lookup_singleton_eq Ht.
  - exists (IoReturn i). split; [done|]. simpl. unfold io_return. by rw Ht E lookup_singleton_ne // Hst.
Qed.

(** [Shutdown] returns from a stopped server. *)
Lemma shutdown_returned t pc p p' :
  pool_ok p -> calls p = {[inr t := pc]} -> pc_ok pc p -> is_shutdown pc = true ->
  call_step (inr t) p = Some (inl p') -> calls p' = ∅ -> io_stopped p' = true.
Proof.
  intros H E Hpc Hs. unfold call_step. rw {1}E lookup_singleton_eq.
  assert (forall r pc' p1, calls (set_call r pc' p1) <> ∅) as Hne by (intros; apply insert_non_empty).
  pose proof (po_running _ H) as Hr.
  destruct pc as [| |shut i n|shut i n|shut i n|]; unfold loop_step, join_step, joined_step, clear_step;
    repeat case_match; intros; simplify_eq; try (by exfalso; eapply Hne); simpl.
  - by destruct (io_stopped p).
  - apply Hpc.
Qed.

Lemma shutdown_step t pc p e s' :
  pool_ok p -> calls p = {[inr t := pc]} -> is_shutdown pc = true -> moves e = true ->
  serial_step e (inl p) = Some s' ->
  exists p', s' = inl p' /\ pool_ok p' /\ work p' < work p
    /\ ((calls p' = ∅ /\ io_stopped p' = true) \/ exists pc', calls p' = {[inr t := pc']} /\ is_shutdown pc' = true).
Proof.
  intros H E Hs Hm Hst. destruct (serial_step_ok _ _ _ H Hst) as (p' & -> & H'). exists p'. split; [done|].
  split; [done|]. assert (pc_ok pc p) as Hpc.
  { destruct (po_calls _ H) as [E'|(t' & pc' & E' & Hpc)]; rw E in E'; [by apply map_non_empty_singleton in E'|].
    apply map_singleton_inj in E' as [_ ->]. done. }
  destruct e as [r|r|r|i]; try done; simpl in Hst.
  - destruct (decide (r = inr t)) as [->|Hne]; [|unfold call_step in Hst; by rw E lookup_singleton_ne in Hst].
    destruct (call_step_work _ _ _ _ H E Hpc Hst) as [Hw [Hc|Hc]]; (split; [done|]).
    + left. split; [done|]. by apply (shutdown_returned _ _ _ _ H E Hpc Hs Hst).
    + right. by rw -Hs.
  - apply io_return_work in Hst as [Hw Ec]. split; [done|]. right. exists pc. by rw Ec.
Qed.

(** Without a call nothing moves. *)
Lemma idle_stuck e p : pool_ok p -> calls p = ∅ -> moves e = true -> serial_step e (inl p) = None.
Proof.
  intros H E Hm. destruct e as [r|r|r|i]; try done; simpl.
  - unfold call_step. by rw E lookup_empty.
  - unfold io_return. destruct (io_stopped p) eqn:Hst; [|by repeat case_match].
    rw (po_done _ H Hst); [by rw E|]. by rw lookup_nil.
Qed.

Lemma shutdown_run t es pc p s' :
  pool_ok p -> calls p = {[inr t := pc]} -> is_shutdown pc = true -> Forall (fun e => moves e = true) es ->
  run_events serial_step es (inl p) = Some s' ->
  exists p', s' = inl p' /\ pool_ok p' /\ work p' + length es <= work p
    /\ ((calls p' = ∅ /\ io_stopped p' = true) \/ exists pc', calls p' = {[inr t := pc']} /\ is_shutdown pc' = true).
Proof.
  intros H E Hs Hm. revert pc p H E Hs. induction Hm as [|e es He Hes IH]; intros pc p H E Hs Hr.
  - injection Hr as <-. exists p. split; [done|]. split; [done|]. split; [simpl; lia|eauto].
  - cbn [run_events] in Hr. destruct (serial_step e (inl p)) as [s1|] eqn:E1; [|done].
    destruct (shutdown_step _ _ _ _ _ H E Hs He E1) as (p1 & -> & H1 & Hw & [[Hc Hst]|(pc1 & Hc & Hs1)]).
    + destruct es as [|e' es]; [injection Hr as <-; exists p1; split; [done|]; split; [done|]; split; [simpl; lia|auto]|].
      apply Forall_cons_1 in Hes as [He' _]. cbn [run_events] in Hr. by rw (idle_stuck _ _ H1 Hc He') in Hr.
    + destruct (IH _ _ H1 Hc Hs1 Hr) as (p' & -> & H' & Hw' & Hp'). exists p'.
      split; [done|]. split; [done|]. split; [cbn [length]; lia|done].
Qed.

(** ** Properties *)

(** C25: calls that do not overlap.  If [Wait] and [Shutdown] are called from
    outside the io threads and one at a time, no step is a fault; a server
    that was shut down has joined and freed all its threads; and a [Shutdown]
    under way comes to its end: however its steps and the ends of the io
    threads interleave, there are at most [work p] of them, something can
    always move until it has returned, and then nothing is left running. *)
Theorem serial_shutdown_joins n es s :
  run_events serial_step es (inl (started_pool n)) = Some s ->
  exists p, s = inl p
  /\ (calls p = ∅ -> pool_running p = false -> io_threads p = [])
  /\ (forall t pc es' s', calls p !! inr t = Some pc -> is_shutdown pc = true ->
        Forall (fun e => moves e = true) es' -> run_events serial_step es' s = Some s' ->
        length es' <= work p
        /\ exists p', s' = inl p'
           /\ ((calls p' = ∅ /\ pool_running p' = false /\ io_threads p' = [])
               \/ exists e, moves e = true /\ serial_step e s' <> None)).
Proof.
  intros Hr. destruct (serial_run_ok _ _ _ Hr) as (p & -> & H). exists p. split; [done|].
  assert (forall p, pool_ok p -> calls p = ∅ -> io_stopped p = true -> io_threads p = []) as Hdone.
  { intros p1 H1 Hc Hst. apply (po_done _ H1 Hst). by rw Hc. }
  split.
  - intros Hc Hrun. apply Hdone; [done|done|]. rw (po_running _ H) in Hrun. by destruct (io_stopped p).
  - intros t pc es' s' Ht Hs Hm Hrun. destruct (po_calls _ H) as [E|(t' & pc' & E & _)]; rw E in Ht; [done|].
    apply lookup_singleton_Some in Ht as [[= ->] ->].
    destruct (shutdown_run _ _ _ _ _ H E Hs Hm Hrun) as (p' & -> & H' & Hw & Hp'). split; [lia|].
    exists p'. split; [done|]. destruct Hp' as [[Hc Hst]|(pc1 & Hc & Hs1)].
    + left. split; [done|]. split; [by rw (po_running _ H') Hst|by apply Hdone].
    + right. destruct (po_calls _ H') as [E'|(t1 & pc2 & E' & Hpc)]; rw Hc in E'; [by apply map_non_empty_singleton in E'|].
      apply map_singleton_inj in E' as [[= <-] <-]. by apply (shutdown_moves t pc1).
Qed.

(** A server with two io threads, and a [Shutdown] that has stopped it. *)
Definition shutdown_events : list pool_event :=
  [CallShutdown (inr 0); CallStep (inr 0); CallStep (inr 0); IoReturn 1; CallStep (inr 0); CallStep (inr 0)].

Lemma serial_shutdown_joins_witness :
  exists s, run_events serial_step shutdown_events (inl (started_pool 2)) = Some s
  /\ exists p, s = inl p /\ calls p !! inr 0 = Some (Joining true 0 2)
  /\ run_events serial_step (replicate 9 (CallStep (inr 0))) s = None
  /\ exists e, moves e = true /\ serial_step e s <> None.
Proof.
  destruct (run_events serial_step shutdown_events (inl (started_pool 2))) as [s|] eqn:E; [|by vm_compute in E].
  destruct (serial_shutdown_joins _ _ _ E) as (p & -> & _ & Hend). exists (inl p). split; [done|].
  assert (calls p !! inr 0 = Some (Joining true 0 2) /\ work p = 7
    /\ run_events serial_step (replicate 9 (CallStep (inr 0))) (inl p) = None) as (Hc & Hw & Hn)
    by (vm_compute in E; simplify_eq; by vm_compute).
  exists p. split; [done|]. split; [done|]. split; [done|].
  destruct (Hend 0 _ [] (inl p) Hc eq_refl (Forall_nil_2 _) eq_refl) as (_ & p' & [= <-] & [(Hc' & _)|He]); [|done].
  by rw Hc' in Hc.
Defined.

(** A [Wait] on a server that runs. *)
Definition waiting (t : nat) (p : pool) : Prop :=
  pool_ok p /\ io_stopped p = false /\ io_threads p <> []
  /\ exists pc, calls p = {[inr t := pc]} /\ is_shutdown pc = false.

(** Before the server stops, a loop that joins is at the first thread. *)
Lemma live_loop i p :
  pool_ok p -> io_stopped p = false -> io_threads p <> [] -> i <= length (io_threads p) ->
  Forall joined (take i (io_threads p)) -> i = 0.
Proof.
  intros H Hst Hne Hi Hj. destruct i as [|i]; [done|]. destruct (io_threads p) as [|x ts] eqn:E; [done|].
  simpl in Hj. apply Forall_cons_1 in Hj as [[Hx _] _].
  assert (io_threads p !! 0 = Some x) as Hl by (by rw E). by rw (live_thread _ _ _ H Hst Hl) in Hx.
Qed.

Lemma waiting_step t e p s' :
  waiting t p -> serial_step e (inl p) = Some s' -> exists p', s' = inl p' /\ waiting t p'.
Proof.
  intros (H & Hst & Hne & pc & E & Hs) Hstep. destruct (serial_step_ok _ _ _ H Hstep) as (p' & -> & H').
  exists p'. split; [done|]. unfold waiting. split; [done|].
  destruct (po_calls _ H) as [E'|(t' & pc' & E' & Hpc)]; rw E in E'; [by apply map_non_empty_singleton in E'|].
  apply map_singleton_inj in E' as [[= <-] <-]. unfold serial_step in Hstep.
  destruct (serial e p) eqn:Es; [|done]. destruct e as [[r|r]|[r|r]|r|i]; try done; simpl in *;
    try (apply bool_decide_eq_true in Es; rw E in Es; by apply map_non_empty_singleton in Es).
  2: { unfold io_return in Hstep. rw Hst in Hstep. by repeat case_match. }
  destruct (decide (r = inr t)) as [->|Hr]; [|unfold call_step in Hstep; by rw E lookup_singleton_ne in Hstep].
  unfold call_step in Hstep. rw {1}E lookup_singleton_eq in Hstep.
  destruct pc as [| |shut i n|shut i n|shut i n|]; try done; try (destruct shut; [done|]).
  - destruct Hpc as (-> & Hi & Hj & _). rw (live_loop _ _ H Hst Hne Hi Hj) in Hstep E.
    unfold loop_step in Hstep. destruct (io_threads p) as [|x ts] eqn:Et; [done|]. simpl in Hstep.
    injection Hstep as <-. simpl. rw Et E insert_singleton_eq. split; [done|]. split; [done|].
    eexists. split; [done|]. by destruct (joinable x).
  - unfold join_step in Hstep. repeat case_match; simplify_eq. simpl. rw E insert_singleton_eq. eauto.
  - destruct Hpc as (_ & [e Ht] & _). unfold joined_step in Hstep. rw Ht in Hstep.
    rw (live_thread _ _ _ H Hst Ht) in Hstep. done.
Qed.

(** C38: [Wait] needs a [Shutdown] that overlaps with it, and the two are not
    made for that.  On a running server with io threads, calls one at a time:
    a [Wait] never returns.  With a [Shutdown] from another thread while
    [Wait] is blocked, both are inside [join] of the same [std::thread]; if
    [Shutdown] gets through first, [Wait] goes on in the freed vector; and a
    [Shutdown] from a handler throws, joining its own thread. *)
Theorem wait_shutdown_race n es p :
  0 < n ->
  run_events serial_step (CallWait (inr 0) :: es) (inl (started_pool n)) = Some (inl p) ->
  (exists pc, calls p = {[inr 0 := pc]} /\ is_shutdown pc = false /\ pool_running p = true)
  /\ run_events pool_step
       ([CallWait (inr 0); CallStep (inr 0); CallStep (inr 0); CallShutdown (inr 1)]
        ++ replicate 4 (CallStep (inr 1))) (inl (started_pool n)) = Some (inr RaceOnJoin)
  /\ run_events pool_step
       ([CallWait (inr 0); CallShutdown (inr 1); CallStep (inr 1); CallStep (inr 1); IoReturn 0]
        ++ replicate 5 (CallStep (inr 1)) ++ [CallStep (inr 0)]) (inl (started_pool 1)) = Some (inr FreedThread)
  /\ run_events pool_step (CallShutdown (inl 0) :: replicate 4 (CallStep (inl 0))) (inl (started_pool n))
     = Some (inr JoinThrew).
Proof.
  intros Hn Hr. split; [|by destruct n; [lia|]; repeat split].
  assert (exists p', serial_step (CallWait (inr 0)) (inl (started_pool n)) = Some (inl p') /\ waiting 0 p') as (p1 & E1 & H1).
  { eexists. split; [reflexivity|].
    destruct (serial_step_ok (CallWait (inr 0)) (started_pool n) _ (started_ok n) eq_refl) as (p' & [= <-] & H').
    split; [done|]. split; [done|]. split; [by destruct n; [lia|]|]. eexists. split; [by rw /= insert_empty|done]. }
  cbn [run_events] in Hr. rw E1 in Hr.
  assert (exists p', inl p = inl p' :> pool + fault /\ waiting 0 p') as (p' & [= <-] & H & Hst & _ & pc & E & Hs).
  { refine (run_events_invariant serial_step (fun s => exists p, s = inl p /\ waiting 0 p) _ _ _ _ _ Hr); [|by eexists].
    intros e s1 s2 (p2 & -> & Hp2). by apply waiting_step. }
  exists pc. split; [done|]. split; [done|]. by rw (po_running _ H) Hst.
Qed.

Lemma wait_shutdown_race_witness :
  exists p, run_events serial_step [CallWait (inr 0); CallStep (inr 0); CallStep (inr 0)] (inl (started_pool 2))
    = Some (inl p)
  /\ calls p !! inr 0 = Some (Joining false 0 2)
  /\ run_events pool_step
       ([CallWait (inr 0); CallStep (inr 0); CallStep (inr 0); CallShutdown (inr 1)]
        ++ replicate 4 (CallStep (inr 1))) (inl (started_pool 2)) = Some (inr RaceOnJoin).
Proof.
  destruct (run_events serial_step [CallWait (inr 0); CallStep (inr 0); CallStep (inr 0)] (inl (started_pool 2)))
    as [[p|f]|] eqn:E; [|by vm_compute in E..].
  exists p. split; [done|]. split; [vm_compute in E; by simplify_eq|].
  apply (wait_shutdown_race 2 _ p ltac:(lia) E).
Defined.
