(* ===== verification/SessionEnd.v ===== *)
(** * SessionEnd: a session among others

    A session of a server shares the application with the other sessions, so
    the application may change between two of its steps.  [session_ok] is what
    holds of a session whatever the application does; it makes the session a
    [server_end]. *)

From S2P Require Import Prelude.
From S2P Require Import Status.
From S2P Require Import Frame.
From S2P Require Import Transport.
From S2P Require Import Session.
From S2P Require Import SessionSpec.
From S2P Require Import Ends.

Open Scope nat_scope.

(** The invariants of a session that received [in0] and whose socket had
    transmitted [out0] before. *)
Record session_ok {A : Asio} `{!AsioStream A} {App} (cfg : session_config App)
    (in0 out0 : bytes) (s : session) : Prop := {
  so_write : write_inv s;
  so_serve : serve_inv s;
  so_wire : wire_inv cfg out0 s;
  so_read : read_inv cfg in0 s;
  so_typed : Forall frame_wf (posted s);
  so_frames : Forall server_frame (posted s)
}.

Section SessionEnd.
Context {A : Asio} `{!AsioStream A} {App : Type}.
Variable cfg : session_config App.
Hypothesis small_resp : small_responses cfg.

Lemma session_ok_init sock : session_ok cfg (incoming sock) (outgoing sock) (session_init sock).
Proof.
  constructor; [by constructor|by constructor|apply wire_inv_init|apply read_inv_init|done|done].
Qed.

Lemma session_ok_step in0 out0 e app s app' s' :
  small_push e -> session_ok cfg in0 out0 s ->
  session_step cfg e (app, s) = Some (app', s') -> session_ok cfg in0 out0 s'.
Proof.
  intros He [] Hs. constructor; [by eapply write_inv_step|by eapply serve_inv_step
    |by eapply wire_inv_step|by eapply read_inv_step|by eapply posted_typed_step|by eapply server_frames_step].
Qed.

Lemma session_ok_run sock es app0 app s :
  run_events (session_step cfg) es (app0, session_init sock) = Some (app, s) ->
  Forall small_push es -> session_ok cfg (incoming sock) (outgoing sock) s.
Proof.
  intros Hr. change s with (app, s).2. revert Hr. generalize (app, s). revert es.
  apply (run_events_trace_invariant (session_step cfg) (app0, session_init sock)
    (fun es st => Forall small_push es -> session_ok cfg (incoming sock) (outgoing sock) st.2)).
  { intros _. apply session_ok_init. }
  intros es e [a1 s1] [a2 s2] IH Hstep [Hes [He _]%Forall_cons]%Forall_app.
  eapply session_ok_step; [done|by apply IH|done].
Qed.

(** The requests served are frames the peer sent. *)
Lemma session_reads in0 out0 s :
  session_ok cfg in0 out0 s ->
  served s = [] \/ reads (handshake_header_ cfg) in0 (served s).*1.
Proof.
  intros H. destruct (decide (served s = [])) as [->|Hne]; [by left|right].
  destruct (so_read _ _ _ _ H) as [_ Hp Ha].
  destruct Ha as [[? _]|(_ & raws & rest & Ein & Hf & _)]; [|done|by exists raws, rest].
  intros ?. apply Hne, Hp. by left.
Qed.

Lemma session_server_end in0 s :
  session_ok cfg in0 [] s -> write_failed s = false -> Forall no_frame_byte (handshake_header_ cfg) ->
  server_end (handshake_header_ cfg) in0 (outgoing (socket_ s)) (served s).
Proof.
  clear small_resp. intros H Hw Hb. constructor.
  - destruct (session_reads _ _ _ H) as [?|Hr]; [by left|right]. by exists (served s).*1.
  - apply (so_serve _ _ _ _ H).
  - exists (written s).
    pose proof (wi_pipeline _ (so_write _ _ _ _ H) Hw) as Hpipe.
    pose proof (so_typed _ _ _ _ H) as Hwf. pose proof (so_frames _ _ _ _ H) as Hsf.
    rw Hpipe in Hwf Hsf. apply Forall_app in Hwf as [Hwf _], Hsf as [Hsf _].
    destruct (so_wire _ _ _ _ H) as [(k & hs & Hpre & _ & _ & _ & Hout)].
    rw (Hout Hw) app_nil_l. split; [done|]. split.
    + intros x Hx. exact (wire_after_handshake k hs _ _ _ Hpre Hb Hsf Hx).
    + intros f Hf Ht. rw -(vi_order _ (so_serve _ _ _ _ H)). apply list_elem_of_filter.
      split; [done|]. rw Hpipe. set_solver.
Qed.
End SessionEnd.
