(* ===== verification/ServerSpec.v ===== *)
(** * ServerSpec: a server as one sequential service

    The sessions of a server run concurrently and share the application.  The
    requests of all connections can be put in one order in which processing
    them one after the other gives every response and the state of the
    application: the abstract specification of a server is the sequential
    service that executes [process_request] on a list of requests with the
    sessions they came from. *)

From S2P Require Import Prelude.
From S2P Require Import Status.
From S2P Require Import Frame.
From S2P Require Import Transport.
From S2P Require Import Session.
From S2P Require Import SessionSpec.
From S2P Require Import Server.
From S2P Require Import Ends.
From S2P Require Import SessionEnd.

Open Scope nat_scope.

(** ** The specification *)

(** An execution: the session, the request, and the response unless the
    handler threw. *)
Abbreviation execution := (nat * frame * option frame)%type.

(** The executions [log] lead from [app0] to [app] when session [i] has the
    configuration [cfgs i]. *)
Inductive serves {App} (cfgs : nat -> option (session_config App)) (app0 : App)
    : list execution -> App -> Prop :=
| serves_nil : serves cfgs app0 [] app0
| serves_snoc log app i cfg h p app' l r :
  serves cfgs app0 log app -> cfgs i = Some cfg ->
  process_request cfg app h p = (app', l, r) ->
  serves cfgs app0 (log ++ [(i, (h, p), r)]) app'.

(** The requests of session [i] that were answered, with their responses. *)
Definition answered_entry (i : nat) (x : execution) : option (frame * frame) :=
  match x with
  | (j, req, Some resp) => if decide (j = i) then Some (req, resp) else None
  | (_, _, None) => None
  end.
Definition answered_by (i : nat) (log : list execution) : list (frame * frame) :=
  omap (answered_entry i) log.

Lemma answered_by_snoc i log x :
  answered_by i (log ++ [x]) = answered_by i log ++ option_list (answered_entry i x).
Proof. unfold answered_by. rw omap_app /=. by destruct (answered_entry i x). Qed.

Lemma answered_by_nil i log : (forall req r, (i, req, r) ∉ log) -> answered_by i log = [].
Proof.
  induction log as [|[[j req] r] log IH]; intros H; [done|].
  assert (answered_by i log = []) as E by (apply IH; intros ?? ?; eapply H; by right).
  unfold answered_by in *. simpl. destruct r; [|done]. case_decide; [|done].
  subst. edestruct H. left.
Qed.

Lemma answered_by_elem i log req resp :
  (req, resp) ∈ answered_by i log -> (i, req, Some resp) ∈ log.
Proof.
  unfold answered_by. rw list_elem_of_omap. intros ([[j req'] [resp'|]] & Hin & E); simpl in E; [|done].
  case_decide; [|done]. by simplify_eq.
Qed.

Lemma serves_mono {App} (cfgs cfgs' : nat -> option (session_config App)) app0 log app :
  (forall i cfg, cfgs i = Some cfg -> cfgs' i = Some cfg) ->
  serves cfgs app0 log app -> serves cfgs' app0 log app.
Proof. intros H. induction 1; econstructor; eauto. Qed.

Lemma serves_sessions {App} (cfgs : nat -> option (session_config App)) app0 log app i req r :
  serves cfgs app0 log app -> (i, req, r) ∈ log -> is_Some (cfgs i).
Proof.
  induction 1 as [|log app i' cfg h p app' l r' Hs IH Hc Hp]; [by intros ?%elem_of_nil|].
  intros [?|E%list_elem_of_singleton]%elem_of_app; [by apply IH|]. simplify_eq. by eexists.
Qed.

(** ** A step of a session *)

(** Every step of a session executes no request, or one. *)
Lemma session_step_executes {A : Asio} {App} (cfg : session_config App) e app s app' s' :
  session_step cfg e (app, s) = Some (app', s') ->
  (app' = app /\ served s' = served s /\ (run s' = RunThrew <-> run s = RunThrew))
  \/ exists h p l r, process_request cfg app h p = (app', l, r) /\ run s <> RunThrew
     /\ served s' = served s ++ option_list (pair (h, p) <$> r) /\ (run s' = RunThrew <-> r = None).
Proof.
  destruct e; simpl.
  - destruct (run s) eqn:Er; [..|by rw /Run Er|by rw /Run Er];
      [unfold Run, run_leave; rw Er; repeat case_match; intros; simplify_eq; by left..|].
    unfold Run, run_leave. rw Er. destruct (AsyncTransport_ReadFrame _ _ _) as [[[sock h] p] st].
    destruct (negb (ok st)); [intros; simplify_eq; by left|].
    destruct (negb (type_eqb _ _)); [intros; simplify_eq; by left|].
    destruct (process_request cfg app h p) as [[app1 l] r] eqn:Ep. intros E. right. exists h, p, l, r.
    destruct r as [[rh rp]|]; simplify_eq; simpl; rw ?app_nil_r; done.
  - destruct (strand_step s) as [s1|] eqn:E; intros; simplify_eq/=. left. revert E.
    unfold strand_step, enqueue_closure. repeat case_match; intros; by simplify_eq.
  - destruct (WritePump s) as [s1|] eqn:E; intros; simplify_eq/=. left. revert E.
    unfold WritePump, pump_loop. repeat case_match; intros; by simplify_eq.
  - intros; simplify_eq. by left.
  - intros; simplify_eq. by left.
Qed.

(** ** The server *)

Section ServerSpec.
Context {A : Asio} {App : Type} `{!UnorderedIter nat}.
Abbreviation server := (server (A := A) (App := App)).
Implicit Types (s : server) (o : session_object (A := A)).

Definition no_register (e : server_event (A := A) (App := App)) : Prop :=
  match e with DoRegister _ _ => False | _ => True end.

Definition session_configs s (i : nat) : option (session_config App) :=
  object_config s <$> heap s !! i.

(** What a step does to the object numbered [i]: a step of its session, or
    pushes sent through it, or nothing to its session. *)
Definition object_next (e : server_event (A := A) (App := App)) (app : App) s (app' : App) (i : nat) o o'
    : Prop :=
  match e with
  | SessionStep j se =>
    if decide (j = i)
    then session_step (object_config s o) se (app, o_session o) = Some (app', o_session o')
    else o_session o' = o_session o
  | DoBroadcast mid p => exists n, o_session o' = Nat.iter n (Send mid p) (o_session o)
  | _ => o_session o' = o_session o
  end.

(** The fields that [object_config] reads do not change. *)
Definition same_config o o' : Prop :=
  forall s, object_config s o' = object_config s o.

Lemma send_all_objects mid p (l : list nat) (h : list session_object) i o :
  h !! i = Some o ->
  exists o' n, foldl (send_to mid p) h l !! i = Some o' /\ same_config o o'
    /\ o_session o' = Nat.iter n (Send mid p) (o_session o).
Proof.
  revert h o. induction l as [|j l IH]; intros h o Ho; simpl; [by exists o, 0|].
  assert (exists o1 n, send_to mid p h j !! i = Some o1 /\ same_config o o1
    /\ o_session o1 = Nat.iter n (Send mid p) (o_session o)) as (o1 & n1 & Ho1 & Hc1 & Hs1).
  { unfold send_to. destruct (decide (j = i)) as [->|Hne].
    - rw Ho list_lookup_insert_eq; [by eapply lookup_lt_Some|]. by eexists _, 1.
    - exists o, 0. destruct (h !! j); [by rw list_lookup_insert_ne|done]. }
  destruct (IH _ _ Ho1) as (o2 & n2 & Ho2 & Hc2 & Hs2). exists o2, (n2 + n1). split; [done|].
  split; [intros s; by rw Hc2|]. by rw Hs2 Hs1 Nat.iter_add.
Qed.

Lemma server_step_objects e app s app' s' :
  server_step e (app, s) = Some (app', s') -> no_register e ->
  handlers s' = handlers s
  /\ (forall i o, heap s !! i = Some o ->
       exists o', heap s' !! i = Some o' /\ same_config o o' /\ object_next e app s app' i o o')
  /\ (if e is Accept sock ep then exists ep', heap s' = heap s ++ [new_object s sock ep']
      else length (heap s') = length (heap s))
  /\ (if e is SessionStep i _ then is_Some (heap s !! i) else app' = app).
Proof.
  intros Hstep Hn.
  assert (forall r, (if running s && (0 <? threads s) then r else None) = Some (app', s') ->
    r = Some (app', s')) as Hio by (intros r; by case_match).
  destruct e as [sock ep|i e|i|mid p|mid h|]; simpl in *; try apply Hio in Hstep; [..|done|].
  - simplify_eq. split; [done|]. split; [|by eauto]. intros i o Ho. exists o.
    split; [by apply lookup_app_l_Some|done].
  - unfold object_step in Hstep. destruct (heap s !! i) as [oi|] eqn:Hi; [|done].
    destruct (session_step _ e _) as [[app1 sess]|] eqn:E; [|done]. simplify_eq. simpl.
    split; [done|]. split; [|by rw length_insert]. intros j o Ho. rw list_lookup_insert.
    case_decide as Hd; [destruct Hd as [-> _]|]; rw /object_next.
    + simplify_eq. eexists. split; [done|]. split; [done|]. by rw decide_True.
    + exists o. split; [done|]. split; [done|]. case_decide as Hd2; [|done]. subst.
      destruct Hd. split; [done|]. by eapply lookup_lt_Some.
  - destruct (wrapped_end i s) as [s1|] eqn:E; simplify_eq/=. revert E. unfold wrapped_end.
    destruct (heap s !! i) as [oi|] eqn:Hi; [|done]. destruct (o_finished oi); [done|].
    assert (forall j o, heap s !! j = Some o -> exists o', <[i := set_finished oi]> (heap s) !! j = Some o'
      /\ same_config o o' /\ o_session o' = o_session o) as Hf.
    { intros j o Ho. rw list_lookup_insert. case_decide as Hd; [destruct Hd as [-> _]|]; simplify_eq; by eexists. }
    destruct (run (o_session oi)); intros; simplify_eq; simpl; by rw length_insert.
  - simplify_eq. simpl. split; [done|]. split; [|by rw send_all_length].
    intros i o Ho. destruct (send_all_objects mid p (iter_entries (sessions s)).*2 _ _ _ Ho)
      as (o' & n & ? & ? & ?). exists o'. split; [done|]. split; [done|]. by exists n.
  - simplify_eq. unfold Shutdown. destruct (running s); simpl; (split; [done|]); (split; [|done]);
      intros i o Ho; by exists o.
Qed.

(** ** The executions of a run *)

(** The executions [log] account for everything the sessions did. *)
Record linear (app0 : App) (app : App) s (log : list execution) : Prop := {
  ln_serves : serves (session_configs s) app0 log app;
  ln_served i o : heap s !! i = Some o -> served (o_session o) = answered_by i log;
  ln_threw i o : heap s !! i = Some o ->
    (run (o_session o) = RunThrew <-> exists req, (i, req, None) ∈ log);
  ln_order i o : heap s !! i = Some o -> serve_inv (o_session o)
}.

Lemma pushed_session mid p n (sess : session) :
  let sess' := Nat.iter n (Send mid p) sess in
  served sess' = served sess /\ run sess' = run sess /\ (serve_inv sess -> serve_inv sess').
Proof.
  induction n as [|n IH]; simpl; [done|]. destruct IH as (E1 & E2 & Hi). split; [done|]. split; [done|].
  intros H. by eapply (serve_inv_step (mkConfig ∅ [] 0 "" false false None false) (CallSend mid p) tt);
    [apply Hi|].
Qed.

Lemma configs_mono s s' (e : server_event (A := A) (App := App)) app app' :
  server_step e (app, s) = Some (app', s') -> no_register e ->
  forall i cfg, session_configs s i = Some cfg -> session_configs s' i = Some cfg.
Proof.
  intros Hstep Hn i cfg. unfold session_configs.
  destruct (server_step_objects _ _ _ _ _ Hstep Hn) as (Hh & Hold & _).
  destruct (heap s !! i) as [o|] eqn:Ho; simpl; [|done]. intros [= <-].
  destruct (Hold _ _ Ho) as (o' & -> & Hc & _). simpl. f_equal. rw (Hc s').
  unfold object_config. by rw Hh.
Qed.

(** A step that executes no request. *)
Lemma linear_quiet app0 app s log e app' s' :
  linear app0 app s log -> server_step e (app, s) = Some (app', s') -> no_register e -> app' = app ->
  (forall i o o', heap s !! i = Some o -> heap s' !! i = Some o' ->
     served (o_session o') = served (o_session o)
     /\ (run (o_session o') = RunThrew <-> run (o_session o) = RunThrew)
     /\ (serve_inv (o_session o) -> serve_inv (o_session o'))) ->
  linear app0 app' s' log.
Proof.
  intros [Hs Hv Ht Ho] Hstep Hn -> Hq. pose proof (serves_mono _ _ _ _ _ (configs_mono _ _ _ _ _ Hstep Hn) Hs) as Hs'.
  destruct (server_step_objects _ _ _ _ _ Hstep Hn) as (_ & _ & Hnew & _).
  assert (forall i o', heap s' !! i = Some o' -> (exists o, heap s !! i = Some o)
    \/ heap s !! i = None /\ served (o_session o') = [] /\ run (o_session o') = RunNotStarted /\ serve_inv (o_session o')) as Hcase.
  { intros i o' Ho'. destruct (heap s !! i) as [o|] eqn:Hi; [by left; exists o|right]. split; [done|].
    apply lookup_ge_None in Hi. pose proof (lookup_lt_Some _ _ _ Ho') as Hl.
    destruct e; try (rw Hnew in Hl; lia). destruct Hnew as [ep' Hnew]. rw Hnew in Ho'.
    apply lookup_snoc_Some in Ho' as [[? _]|[_ <-]]; [lia|done]. }
  assert (forall i req r, heap s !! i = None -> (i, req, r) ∉ log) as Hno.
  { intros i req r Hi Hin. apply (serves_sessions _ _ _ _ _ _ _ Hs) in Hin as [cfg Hc].
    unfold session_configs in Hc. by rw Hi in Hc. }
  constructor; [done|..]; intros i o' Ho'; destruct (Hcase _ _ Ho') as [(o & Hi)|(Hi & E1 & E2 & E3)].
  - destruct (Hq _ _ _ Hi Ho') as (-> & _ & _). by apply Hv.
  - rw E1 answered_by_nil //. intros req r. by apply Hno.
  - destruct (Hq _ _ _ Hi Ho') as (_ & -> & _). by apply Ht.
  - rw E2. split; [done|]. intros [req Hin]. by destruct (Hno _ _ _ Hi Hin).
  - destruct (Hq _ _ _ Hi Ho') as (_ & _ & Hs2). by apply Hs2, Ho with i.
  - done.
Qed.

(** A step that executes a request of session [i]. *)
Lemma linear_executes app0 app s log i o h p app' l r se s' :
  linear app0 app s log -> server_step (SessionStep i se) (app, s) = Some (app', s') ->
  heap s !! i = Some o -> process_request (object_config s o) app h p = (app', l, r) ->
  run (o_session o) <> RunThrew ->
  (forall o', heap s' !! i = Some o' -> serve_inv (o_session o')
     /\ served (o_session o') = served (o_session o) ++ option_list (pair (h, p) <$> r)
     /\ (run (o_session o') = RunThrew <-> r = None)) ->
  linear app0 app' s' (log ++ [(i, (h, p), r)]).
Proof.
  intros [Hs Hv Ht Ho] Hstep Hi Hp Hrun Hnext.
  pose proof (configs_mono _ _ _ _ _ Hstep I) as Hm.
  destruct (server_step_objects _ _ _ _ _ Hstep I) as (_ & Hold & Hlen & _).
  assert (forall j oj', heap s' !! j = Some oj' -> j <> i -> exists oj, heap s !! j = Some oj
    /\ o_session oj' = o_session oj) as Hother.
  { intros j oj' Hj' Hne. destruct (lookup_lt_is_Some_2 (heap s) j) as [oj Hj].
    { rw -Hlen. by eapply lookup_lt_Some. }
    exists oj. split; [done|]. destruct (Hold _ _ Hj) as (oj2 & ? & _ & Hx). simplify_eq.
    simpl in Hx. by rw decide_False in Hx. }
  constructor.
  - econstructor; [by eapply serves_mono| |done]. apply Hm. by rw /session_configs Hi.
  - intros j oj' Hj'. rw answered_by_snoc. destruct (decide (j = i)) as [->|Hne].
    + destruct (Hnext _ Hj') as (_ & -> & _). rw (Hv _ _ Hi). destruct r; simpl; [by rw decide_True|done].
    + destruct (Hother _ _ Hj' Hne) as (oj & Hj & ->). rw (Hv _ _ Hj).
      destruct r; simpl; [rw decide_False //|]; by rw app_nil_r.
  - intros j oj' Hj'. setoid_rewrite elem_of_app. setoid_rewrite list_elem_of_singleton.
    destruct (decide (j = i)) as [->|Hne].
    + destruct (Hnext _ Hj') as (_ & _ & ->). split; [intros ->; exists (h, p); by right|].
      intros [req [Hin|E]]; [|by simplify_eq]. destruct Hrun. apply (Ht _ _ Hi). by exists req.
    + destruct (Hother _ _ Hj' Hne) as (oj & Hj & ->). rw (Ht _ _ Hj).
      split; intros [req Hin]; exists req; [by left|]. destruct Hin; [done|by simplify_eq].
  - intros j oj' Hj'. destruct (decide (j = i)) as [->|Hne]; [by apply Hnext|].
    destruct (Hother _ _ Hj' Hne) as (oj & Hj & ->). by apply (Ho _ _ Hj).
Qed.

Lemma linear_step app0 app s log e app' s' :
  linear app0 app s log -> server_step e (app, s) = Some (app', s') -> no_register e ->
  exists x, linear app0 app' s' (log ++ x).
Proof.
  intros Hl Hstep Hn. destruct (server_step_objects _ _ _ _ _ Hstep Hn) as (_ & Hold & _ & Happ).
  assert (forall e', e = e' -> (if e' is SessionStep _ _ then False else True) -> linear app0 app' s' log) as Hq.
  { intros e' -> He. eapply linear_quiet; [done..|by destruct e'|]. intros i o o' Ho Ho'.
    destruct (Hold _ _ Ho) as (o2 & Ho2 & _ & Hx). rw Ho' in Ho2. injection Ho2 as <-.
    destruct e'; simpl in Hx; try (by rw Hx); [done|]. destruct Hx as [n ->].
    destruct (pushed_session method_id payload n (o_session o)) as (-> & -> & Hi). done. }
  destruct e as [| i se | | | |]; try (exists []; rw app_nil_r; by eapply Hq). clear Hq.
  destruct Happ as [o Ho]. destruct (Hold _ _ Ho) as (o' & Ho' & _ & Hx). simpl in Hx.
  rw decide_True // in Hx.
  destruct (session_step_executes _ _ _ _ _ _ Hx) as [(-> & E1 & E2)|(h & p & l & r & Hp & Hr & E1 & E2)].
  - exists []. rw app_nil_r. eapply linear_quiet; [done..|]. intros j oj oj' Hj Hj'.
    destruct (Hold _ _ Hj) as (o2 & Ho2 & _ & Hy). rw Hj' in Ho2. injection Ho2 as <-. simpl in Hy.
    case_decide; [|by rw Hy]. subst j. simplify_eq. split; [done|]. split; [done|].
    intros Hi. by eapply serve_inv_step.
  - exists [(i, (h, p), r)]. eapply linear_executes; [done..|]. intros o2 Ho2. rw Ho' in Ho2. injection Ho2 as <-.
    split; [|done]. eapply serve_inv_step; [|done]. by eapply ln_order.
Qed.

Lemma linear_run app0 s0 es app s :
  heap s0 = [] -> run_events server_step es (app0, s0) = Some (app, s) -> Forall no_register es ->
  exists log, linear app0 app s log.
Proof.
  intros Hh Hr. change app with (app, s).1. change s with (app, s).2 at 2. revert Hr. generalize (app, s).
  revert es. apply (run_events_trace_invariant server_step (app0, s0)
    (fun es st => Forall no_register es -> exists log, linear app0 st.1 st.2 log)).
  { intros _. exists []. constructor; [constructor|..]; intros i o; by rw /= Hh. }
  intros es e [a1 s1] [a2 s2] IH Hstep [Hes [He _]%Forall_cons]%Forall_app.
  destruct (IH Hes) as [log Hl]. destruct (linear_step _ _ _ _ _ _ _ Hl Hstep He) as [x Hx]. by eexists.
Qed.

(** ** The sessions of a run *)

(** The sockets accepted, in order. *)
Definition accepted (es : list (server_event (A := A) (App := App))) : list socket :=
  omap (fun e => if e is Accept sock _ then Some sock else None) es.

Definition small_pushes (e : server_event (A := A) (App := App)) : Prop :=
  match e with
  | SessionStep _ se => small_push se
  | DoBroadcast mid p => is_u32 mid /\ small p
  | _ => True
  end.

Context `{!AsioStream A}.

Definition sessions_ok (es : list (server_event (A := A) (App := App))) s : Prop :=
  length (accepted es) = length (heap s)
  /\ forall i o, heap s !! i = Some o -> exists sock, accepted es !! i = Some sock
       /\ session_ok (object_config s o) (incoming sock) (outgoing sock) (o_session o).

Lemma pushed_ok (app : App) (cfg : session_config App) in0 out0 mid p n (sess : session) :
  small_responses cfg -> is_u32 mid -> small p ->
  session_ok cfg in0 out0 sess -> session_ok cfg in0 out0 (Nat.iter n (Send mid p) sess).
Proof.
  intros Hsr Hm Hp H. induction n as [|n IH]; simpl; [done|].
  by apply (session_ok_step cfg Hsr in0 out0 (CallSend mid p) app (Nat.iter n (Send mid p) sess) app).
Qed.

Lemma accepted_snoc es e :
  accepted (es ++ [e]) = accepted es ++ (if e is Accept sock _ then [sock] else []).
Proof. unfold accepted. rw omap_app. by destruct e. Qed.

Lemma sessions_ok_step es e app s app' s' :
  (forall o, small_responses (object_config s o)) -> sessions_ok es s ->
  server_step e (app, s) = Some (app', s') -> no_register e -> small_pushes e ->
  sessions_ok (es ++ [e]) s'.
Proof.
  intros Hsr [Hl Hok] Hstep Hn He.
  destruct (server_step_objects _ _ _ _ _ Hstep Hn) as (Hh & Hold & Hnew & _).
  assert (forall o, object_config s' o = object_config s o) as Hc by (intros o; by rw /object_config Hh).
  assert (forall i o o', heap s !! i = Some o -> heap s' !! i = Some o' ->
    exists sock, accepted es !! i = Some sock
      /\ session_ok (object_config s' o') (incoming sock) (outgoing sock) (o_session o')) as Hkeep.
  { intros i o o' Ho Ho'. destruct (Hok _ _ Ho) as (sock & Hs & Hso). exists sock. split; [done|].
    destruct (Hold _ _ Ho) as (o2 & Ho2 & Hcc & Hx). rw Ho' in Ho2. injection Ho2 as <-.
    rw Hc Hcc. destruct e; simpl in Hx; try (by rw Hx); [|by destruct Hx as [n ->]; apply pushed_ok; destruct He].
    case_decide; [|by rw Hx]. subst. by eapply session_ok_step. }
  rw /sessions_ok accepted_snoc. destruct e as [sock ep| | | | |]; simpl in *; rw ?app_nil_r;
    try (split; [congruence|]; intros k o' Ho'; destruct (lookup_lt_is_Some_2 (heap s) k) as [o Ho];
      [rw -Hnew; by eapply lookup_lt_Some|by eapply Hkeep]).
  destruct Hnew as [ep' Hnew]. split; [rw Hnew !length_app Hl //|]. intros i o' Ho'.
  pose proof Ho' as Hcase. rw Hnew in Hcase.
  apply lookup_snoc_Some in Hcase as [[_ Ho]|[-> <-]].
  - destruct (Hkeep _ _ _ Ho Ho') as (sk & Hsk & ?). exists sk. split; [by apply lookup_app_l_Some|done].
  - exists sock. split; [by rw -Hl list_lookup_middle|]. rw Hc. apply session_ok_init.
Qed.

Lemma sessions_ok_run app0 s0 es app s :
  heap s0 = [] -> run_events server_step es (app0, s0) = Some (app, s) ->
  Forall no_register es -> Forall small_pushes es ->
  (forall o, small_responses (object_config s o)) -> sessions_ok es s.
Proof.
  intros Hh Hr Hn Hp Hsr.
  assert (handlers s = handlers s0 /\ ((forall o, small_responses (object_config s0 o)) -> sessions_ok es s)) as [Hhd H].
  { revert Hn Hp. clear Hsr. change s with (app, s).2. revert Hr. generalize (app, s). revert es.
    apply (run_events_trace_invariant server_step (app0, s0) (fun es st => Forall no_register es ->
      Forall small_pushes es -> handlers st.2 = handlers s0
      /\ ((forall o, small_responses (object_config s0 o)) -> sessions_ok es st.2))).
    { intros _ _. split; [done|]. intros _. split; rw /= Hh //. }
    intros es e [a1 s1] [a2 s2] IH Hstep [Hn [Hn1 _]%Forall_cons]%Forall_app [Hp [Hp1 _]%Forall_cons]%Forall_app.
    destruct (IH Hn Hp) as [E Hok]. destruct (server_step_objects _ _ _ _ _ Hstep Hn1) as [E2 _].
    split; [simpl in *; congruence|]. intros Hs.
    eapply sessions_ok_step; [|by apply Hok|done..]. intros o. simpl in E. rw /object_config E. apply Hs. }
  apply H. intros o. specialize (Hsr o). by rw /object_config Hhd in Hsr.
Qed.
End ServerSpec.

(** ** Properties *)


(** A counter that two clients use: each request adds its length and is
    answered with as many bytes as the counter had. *)
Definition counter_builder : builder_config (App := nat) :=
  RegisterService [(7%Z, fun n ctx req => Returned (n + length req) ctx Status_default (replicate n Byte.x2a))]
    (SetHandshakeHeader [] ServerBuilder).

Definition counter_client (p : bytes) : pipe :=
  mkPipe (encode_frame (mkHeader kRequest 0 1 7 (size_of p), p)) [] None true.

Definition counter_events : list (server_event (A := pipe_asio) (App := nat)) :=
  [Accept (A := pipe_asio) (counter_client (bytes_of_string "ab")) None;
   Accept (A := pipe_asio) (counter_client (bytes_of_string "abc")) None;
   SessionStep 0 RunStep; SessionStep 1 RunStep; SessionStep 1 RunStep; SessionStep 0 RunStep].

