(* ===== verification/ChannelEnd.v ===== *)
(** * ChannelEnd: a C++ channel as a client

    A connected channel is a [client_end] with one connection: its requests
    are the frames queued, the owner of a call id is the callback registered
    under it, and the outcomes are what the callbacks were called with. *)

From S2P Require Import Prelude.
From S2P Require Import Status.
From S2P Require Import Frame.
From S2P Require Import Transport.
From S2P Require Import Mpsc.
From S2P Require Import Session.
From S2P Require Import Channel.
From S2P Require Import ChannelCallbacks.
From S2P Require Import ChannelRequests.
From S2P Require Import ChannelReceive.
From S2P Require Import ChannelTypes.
From S2P Require Import Ends.

Open Scope nat_scope.

(** Of the one connection, number 0. *)
Definition only {X} (x y : X) (k : nat) : X := match k with 0 => x | _ => y end.

Definition channel_owner {A : Asio} `{!AsioClient A} {Q} (c : channel A Q) (id : Z) (n : nat) : Prop :=
  (id, Some n) ∈ issued c.

Definition channel_outcome {A : Asio} `{!AsioClient A} {Q} (c : channel A Q) (n : nat)
    (st : Status) (p : bytes) : Prop :=
  exists pl, LResponse pl n st p ∈ Channel.log c.

Section ChannelEnd.
Context {A : Asio} `{!AsioClient A} `{!AsioStream A} `{!AsioClientStream A}.
Context {Q : Type} `{!Fifo Q Completion} `{!UnorderedIter ResponseCallback}.
Variables (config : ChannelConfig) (csock : socket) (ces : list (channel_event (A := A))) (c : channel A Q).
Hypothesis Hc : run_events (channel_step config) ces (channel_init csock) = Some c.
Hypothesis Hup : connected c = true.

Lemma channel_client_end net :
  Channel.write_failed c = false -> Forall small_call ces -> Forall (streams_from net) ces ->
  exists inc, net inc
    /\ client_end (handshake_header config) (only inc []) (only (outgoing (Channel.socket_ c)) [])
         (only (queued c) []) (channel_owner c) (channel_outcome c).
Proof.
  intros Hw Hsm Hnet. pose proof (channel_requests config _ _ _ Hc) as Hq.
  destruct (rx_stream _ _ _ (channel_received config _ _ _ _ Hc Hnet) Hup)
    as (raws & fs & rest & Hin & Hf & Ha & _).
  eexists. split; [exact Hin|]. constructor.
  - intros [|k]; simpl; [|apply prefix_nil]. rw (ri_wire _ _ Hq Hup Hw) (ri_pipeline _ _ Hq Hw).
    apply prefix_app. rw fmap_app concat_app. by eexists.
  - intros [|k]; simpl; [|constructor]. by eapply channel_typed.
  - intros n st p [pl Hlog]. destruct (channel_delivery config _ _ _ Hc) as [Hl _].
    destruct (proj1 (Forall_forall _ _) Hl _ Hlog) as [(f & Hans & Hre)|?]; [right|by left].
    destruct (proj1 (Forall_forall _ _) (ri_answered _ _ Hq) _ Hans) as [Hi Ht].
    exists 0, fs, f. split; [by exists raws, rest|].
    split; [exact (proj1 (Forall_forall _ _) Ha _ Hans)|]. by split.
Qed.

(** The request under an id that belongs to [n] is a call of [n]. *)
Lemma channel_request_call req n :
  (Z.of_nat (length (issued c)) <= 2 ^ 32)%Z ->
  req ∈ queued c -> channel_owner c (call_id req.1) n ->
  exists mid, req.1 = request_header (call_id req.1) mid req.2
    /\ started ces (OpCall mid req.2 (Some n)).
Proof.
  intros Hlen Hreq Hn. apply list_elem_of_lookup in Hreq as [i Hi].
  destruct (Forall2_lookup_r _ _ _ _ _ (channel_calls config _ _ _ Hc) Hi)
    as ([id cb] & Hid & mid & p & Hst & ->).
  pose proof (issued_NoDup _ _ (channel_requests config _ _ _ Hc) Hlen) as Hnd.
  unfold channel_owner in Hn. simpl in *.
  apply list_elem_of_lookup_2 in Hid.
  pose proof (NoDup_fst_inj _ _ _ _ Hnd Hid Hn) as ->. by exists mid.
Qed.

(** The channel with any server at the other end of its connection. *)
Lemma channel_calls_safe net srv :
  Channel.write_failed c = false -> Forall small_call ces -> Forall (streams_from net) ces ->
  (Z.of_nat (length (issued c)) <= 2 ^ 32)%Z ->
  (forall inc, net inc ->
     served_by (handshake_header config) inc (outgoing (Channel.socket_ c)) srv) ->
  srv.*1 ⊆+ queued c
  /\ forall pl n st p, LResponse pl n st p ∈ Channel.log c ->
     (ok st = false /\ p = [])
     \/ exists id mid req resp, (id, Some n) ∈ issued c /\ started ces (OpCall mid req (Some n))
        /\ ((request_header id mid req, req), resp) ∈ srv /\ (st, p) = response_of resp.
Proof.
  intros Hw Hsm Hnet Hlen Hsrv. destruct (channel_client_end net Hw Hsm Hnet) as (inc & Hinc & Hce).
  assert (forall k, served_by (handshake_header config) (only inc [] k)
    (only (outgoing (Channel.socket_ c)) [] k) (only srv [] k)) as Hse.
  { intros [|k]; simpl; [by apply Hsrv|apply served_by_nil]. }
  destruct (ends_safe _ _ _ _ _ _ _ Hce Hse) as [Hcalls Hout]. split; [exact (Hcalls 0)|].
  intros pl n st p Hlog.
  destruct (Hout n st p) as [?|([|k] & req & resp & Hr & Hq & Hn & E)];
    [by exists pl|by left|right|by apply elem_of_nil in Hr].
  destruct (channel_request_call req n Hlen Hq Hn) as (mid & Hh & Hst).
  exists (call_id req.1), mid, req.2, resp. rw -Hh. by destruct req.
Qed.
End ChannelEnd.
