(* ===== verification/RpcSafety.v ===== *)
(** * RpcSafety: a channel and a session on one connection

    The safety of a remote call under every interleaving of both ends: a
    channel and a session that read what the other end transmits.  The
    session executes the calls of the channel in the order they were made,
    and a callback that is told of a success is given the response the
    session computed for that very call. *)

From S2P Require Import Prelude.
From S2P Require Import Status.
From S2P Require Import Frame.
From S2P Require Import Transport.
From S2P Require Import Mpsc.
From S2P Require Import Session.
From S2P Require Import SessionSpec.
From S2P Require Import Server.
From S2P Require Import Channel.
From S2P Require Import ChannelCallbacks.
From S2P Require Import ChannelRequests.
From S2P Require Import ChannelReceive.
From S2P Require Import ChannelTypes.
From S2P Require Import Ends.
From S2P Require Import SessionEnd.
From S2P Require Import ServerSpec.
From S2P Require Import ChannelEnd.

Open Scope nat_scope.

(** ** Both ends *)

(** The channel reached state [c] by the events [ces], the session on
    [ssock] reached [s]: they use the same handshake header, and each end
    receives a prefix of what the other has transmitted. *)
Record linked {A : Asio} `{!AsioClient A} `{!AsioStream A} {Q App : Type} (config : ChannelConfig)
    (cfg : session_config App) (ces : list (channel_event (A := A))) (c : channel A Q)
    (ssock : socket) (s : session) : Prop := {
  lk_header : handshake_header config = handshake_header_ cfg;
  lk_bytes : Forall no_frame_byte (handshake_header config);
  lk_fresh : outgoing ssock = [];
  lk_up : incoming ssock `prefix_of` outgoing (Channel.socket_ c);
  lk_down : Forall (streams_from (fun b => b `prefix_of` outgoing (Session.socket_ s))) ces
}.

Section Linked.
Context {A : Asio} `{!AsioClient A} `{!AsioStream A} `{!AsioClientStream A}.
Context {Q : Type} `{!Fifo Q Completion} `{!UnorderedIter ResponseCallback} {App : Type}.
Variables (config : ChannelConfig) (cfg : session_config App).
Variables (csock ssock : socket) (ces : list (channel_event (A := A))) (c : channel A Q) (s : session).
Hypothesis Hc : run_events (channel_step config) ces (channel_init csock) = Some c.
Hypothesis Hok : session_ok cfg (incoming ssock) (outgoing ssock) s.
Hypothesis Hlk : linked config cfg ces c ssock s.
Hypothesis Hup : connected c = true.
Hypothesis Hcw : Channel.write_failed c = false.
Hypothesis Hsw : Session.write_failed s = false.
Hypothesis Hsc : Forall small_call ces.

Lemma linked_calls :
  (Z.of_nat (length (issued c)) <= 2 ^ 32)%Z ->
  (served s).*1 `prefix_of` queued c
  /\ forall pl n st p, LResponse pl n st p ∈ Channel.log c ->
     (ok st = false /\ p = [])
     \/ exists i id mid req rf, issued c !! i = Some (id, Some n)
        /\ started ces (OpCall mid req (Some n))
        /\ queued c !! i = Some (request_header id mid req, req)
        /\ served s !! i = Some (request_header id mid req, req, rf) /\ (st, p) = response_of rf.
Proof.
  intros Hlen. destruct Hlk as [Hh Hb Ho Hin Hdn].
  destruct (channel_client_end config _ _ _ Hc Hup _ Hcw Hsc Hdn) as (inc & Hinc & Hce).
  pose proof Hok as Hok'. rw Ho in Hok'.
  assert (forall k, served_by (handshake_header config) (only inc [] k)
    (only (outgoing (Channel.socket_ c)) [] k) (only (served s) [] k)) as Hse.
  { intros [|k]; simpl; [|apply served_by_nil]. eexists _, _. split; [|split; [exact Hin|exact Hinc]].
    rw Hh. apply session_server_end; try done. by rw -Hh. }
  assert ((served s).*1 `prefix_of` queued c) as Hord.
  { destruct (session_reads _ _ _ _ Hok') as [->|Hr]; [apply prefix_nil|]. rw -Hh in Hr.
    apply (reads_prefix _ _ _ _ _ _ Hce 0 _ _ Hin Hr). }
  split; [done|]. intros pl n st p Hlog.
  destruct (ends_safe _ _ _ _ _ _ _ Hce Hse) as [_ Hout].
  destruct (Hout n st p) as [?|([|k] & req & resp & Hr & Hq & Hn & E)];
    [by exists pl|by left|right|by apply elem_of_nil in Hr].
  apply list_elem_of_lookup in Hr as [i Hi].
  assert (queued c !! i = Some req) as Hqi.
  { eapply prefix_lookup_Some; [|exact Hord]. by rw list_lookup_fmap Hi. }
  destruct (Forall2_lookup_r _ _ _ _ _ (channel_calls config _ _ _ Hc) Hqi)
    as ([id cb] & Hid & mid & pl' & Hst & ->).
  pose proof (issued_NoDup _ _ (channel_requests config _ _ _ Hc) Hlen) as Hnd.
  pose proof (NoDup_fst_inj _ _ _ _ Hnd (list_elem_of_lookup_2 _ _ _ Hid) Hn) as ->.
  by exists i, id, mid, pl', resp.
Qed.
End Linked.

(** ** Properties *)

(** Remote calls are safe in every interleaving.  A channel and a session
    read what the other end has transmitted, in any order of steps at both
    ends, while no write has failed, payloads are smaller than 4 GiB and at
    most [2 ^ 32] calls were made.  Then the session has executed calls of the
    channel only, each at most once and in the order the calls were made, as
    the sequential service would; and whatever a response callback was called
    with is an error without a payload, or the outcome the session computed
    for the [i]-th request, which has the method and the payload of the call
    that the callback was passed to. *)
Theorem rpc_safety {A : Asio} `{!AsioClient A} `{!AsioStream A} `{!AsioClientStream A}
    {Q} `{!Fifo Q Completion} `{!UnorderedIter ResponseCallback} {App}
    config (cfg : session_config App) csock ssock ces ses (c : channel A Q) app0 app s :
  run_events (channel_step config) ces (channel_init csock) = Some c ->
  run_events (session_step cfg) ses (app0, session_init ssock) = Some (app, s) ->
  linked config cfg ces c ssock s ->
  connected c = true -> Channel.write_failed c = false -> Session.write_failed s = false ->
  Forall small_call ces -> Forall small_push ses -> small_responses cfg ->
  (Z.of_nat (length (issued c)) <= 2 ^ 32)%Z ->
  exists app1 resps,
    (fst <$> served s) `prefix_of` queued c
    /\ process_all cfg app0 (fst <$> served s) = Some (app1, resps)
    /\ forall pl n st p, LResponse pl n st p ∈ Channel.log c ->
       (ok st = false /\ p = [])
       \/ exists i id mid req rf, issued c !! i = Some (id, Some n)
          /\ started ces (OpCall mid req (Some n))
          /\ queued c !! i = Some (request_header id mid req, req)
          /\ resps !! i = Some rf /\ (st, p) = response_of rf.
Proof.
  intros Hc Hs Hlk Hup Hcw Hsw Hsc Hsp Hsr Hlen.
  pose proof (session_ok_run cfg Hsr _ _ _ _ _ Hs Hsp) as Hok.
  destruct (linked_calls config cfg _ _ _ _ _ Hc Hok Hlk Hup Hcw Hsw Hsc Hlen) as [Hord Hout].
  destruct (session_sequential cfg _ _ _ _ _ Hs) as (app1 & Hall & _).
  exists app1, (served s).*2. split; [done|]. split; [done|]. intros pl n st p Hlog.
  destruct (Hout pl n st p Hlog) as [?|(i & id & mid & req & rf & Hi & Hst & Hq & Hr & E)]; [by left|right].
  exists i, id, mid, req, rf. by rw list_lookup_fmap Hr.
Qed.

(** One call, answered: what both ends transmit and do. *)
Definition ping : bytes := bytes_of_string "ab".

Definition ping_server : pipe :=
  mkPipe (bytes_of_string "pc1" ++ encode_frame (request_header 1 7 ping, ping)) [] None true.

Definition ping_client : pipe :=
  mkPipe (bytes_of_string "pc1" ++ encode_frame (mkHeader kResponse 0 1 7 4, bytes_of_string "pong"))
    [] None true.

Definition ping_events : list (channel_event (A := pipe_asio)) :=
  [StartCall 2 false (OpCall 7 ping (Some 20)); CallerStep 2; CallerStep 2; Channel.StrandStep;
   Resolved (inl [ping_client]); ConnectStep; ConnectStep; ConnectStep; CallerStep 2;
   Channel.StrandStep; Channel.PumpStep; Channel.PumpStep; ReadStep].

Lemma ping_small : Forall small_call ping_events.
Proof. repeat (apply Forall_cons_2; [by vm_compute|]). apply Forall_nil_2. Qed.

Lemma ping_linked {Q App} (cfg : session_config App) (c : channel pipe_asio Q) (s : session (A := pipe_asio)) :
  handshake_header_ cfg = bytes_of_string "pc1" ->
  outgoing (Channel.socket_ c) = p_in ping_server -> outgoing (Session.socket_ s) = p_in ping_client ->
  linked (demo_config Inline) cfg ping_events c ping_server s.
Proof.
  intros Hh Hc Hs. constructor; [by rw Hh| |reflexivity|by rw Hc|].
  - clear. repeat (apply Forall_cons_2; [by vm_compute|]). apply Forall_nil_2.
  - rw Hs. clear. repeat (apply Forall_cons_2; [exact I|]). apply Forall_cons_2.
    + intros s s' [= <-]. reflexivity.
    + repeat (apply Forall_cons_2; [exact I|]). apply Forall_nil_2.
Qed.

Lemma rpc_safety_witness :
  match demo_run Inline ping_events with
  | Some c => exists app1 resps i id rf,
      process_all pong_config O [(request_header 1 7 ping, ping)] = Some (app1, resps)
      /\ issued c !! i = Some (id, Some 20) /\ resps !! i = Some rf
      /\ (Status_default, bytes_of_string "pong") = response_of rf
  | None => False
  end.
Proof.
  destruct (demo_run Inline _) as [c|] eqn:Ec; [|by vm_compute in Ec].
  assert (connected c = true /\ Channel.write_failed c = false /\ length (issued c) = 1
    /\ Channel.log c = [LResponse OnIo 20 Status_default (bytes_of_string "pong")]
    /\ outgoing (Channel.socket_ c) = p_in ping_server) as (H1 & H2 & H3 & H4 & H5)
    by (vm_compute in Ec; by simplify_eq).
  destruct (run_events (session_step pong_config) (open_events pong_config ++ serve_events)
    (O, session_init (A := pipe_asio) ping_server)) as [[n s]|] eqn:Es; [|clear Ec; by vm_compute in Es].
  assert (Session.write_failed s = false /\ fst <$> served s = [(request_header 1 7 ping, ping)]
    /\ outgoing (Session.socket_ s) = p_in ping_client) as (H6 & H7 & H8)
    by (clear Ec H1 H2 H3 H4 H5; vm_compute in Es; by simplify_eq).
  pose proof ping_small as Hsc.
  assert (Forall small_push (open_events pong_config ++ serve_events)) as Hsp.
  { clear. repeat (apply Forall_cons_2; [by vm_compute|]). apply Forall_nil_2. }
  pose proof (ping_linked pong_config c s eq_refl H5 H8) as Hlk.
  destruct (rpc_safety (demo_config Inline) pong_config _ _ _ _ _ _ _ _ Ec Es Hlk H1 H2 H6 Hsc Hsp
    pong_small) as (app1 & resps & _ & Hall & Hlog); [rw H3; lia|].
  destruct (Hlog OnIo 20 Status_default (bytes_of_string "pong")) as [[? _]|(i & id & mid & req & rf & Hi & _ & _ & Hr & E)];
    [rw H4; left|discriminate|].
  rw H7 in Hall. exists app1, resps, i, id, rf. auto.
Defined.

(** C1: remote calls to a server are safe and linearizable.  In every run of a
    built server there is one order of executing the requests of all its
    sessions, which leads to the state of the application, such that for every
    channel that is connected to one of the sessions (with the same handshake
    header, while no write on the connection has failed, payloads are smaller
    than 4 GiB and at most [2 ^ 32] calls were made): the requests executed
    for the session are the channel's calls, in the order they were made; and
    a response callback is told of an error without a payload, or of the
    outcome that the execution of its own call, with its method and its
    payload, has in this order. *)
Theorem system_safety {A : Asio} `{!AsioClient A} `{!AsioStream A} `{!AsioClientStream A}
    {Q} `{!Fifo Q Completion} `{!UnorderedIter ResponseCallback} `{!UnorderedIter nat} {App}
    (b : builder_config (App := App)) ses app0 app (s : server (A := A)) :
  run_events server_step ses (app0, BuildAndStart b) = Some (app, s) ->
  Forall no_register ses -> Forall small_pushes ses -> (forall o, small_responses (object_config s o)) ->
  exists log, serves (session_configs s) app0 log app
    /\ forall i o ssock config csock ces (c : channel A Q),
       heap s !! i = Some o -> accepted ses !! i = Some ssock ->
       run_events (channel_step config) ces (channel_init csock) = Some c ->
       linked config (object_config s o) ces c ssock (o_session o) ->
       connected c = true -> Channel.write_failed c = false ->
       Session.write_failed (o_session o) = false -> Forall small_call ces ->
       (Z.of_nat (length (issued c)) <= 2 ^ 32)%Z ->
       (answered_by i log).*1 `prefix_of` queued c
       /\ forall pl n st p, LResponse pl n st p ∈ Channel.log c ->
          (ok st = false /\ p = [])
          \/ exists id mid req rf, (id, Some n) ∈ issued c /\ started ces (OpCall mid req (Some n))
             /\ (i, (request_header id mid req, req), Some rf) ∈ log /\ (st, p) = response_of rf.
Proof.
  intros Hr Hn Hp Hsr. destruct (linear_run _ _ _ _ _ (BuildAndStart_heap b) Hr Hn) as [log Hl].
  destruct (sessions_ok_run _ _ _ _ _ (BuildAndStart_heap b) Hr Hn Hp Hsr) as [_ Hok].
  exists log. split; [apply Hl|]. intros i o ssock config csock ces c Ho Hss Hc Hlk Hup Hcw Hsw Hsc Hlen.
  destruct (Hok _ _ Ho) as (sk & Hsk & Hso). rw Hss in Hsk. injection Hsk as <-.
  rw -(ln_served _ _ _ _ Hl _ _ Ho).
  destruct (linked_calls _ _ _ _ _ _ _ Hc Hso Hlk Hup Hcw Hsw Hsc Hlen) as [Hord Hout].
  split; [done|]. intros pl n st p Hlog.
  destruct (Hout pl n st p Hlog) as [?|(j & id & mid & req & rf & Hi & Hst & Hq & Hj & E)]; [by left|right].
  exists id, mid, req, rf. split; [by eapply list_elem_of_lookup_2|]. split; [done|]. split; [|done].
  apply list_elem_of_lookup_2 in Hj. rw (ln_served _ _ _ _ Hl _ _ Ho) in Hj. by apply answered_by_elem.
Qed.

(** A server that answers every request of method 7. *)
Definition ping_builder : builder_config (App := nat) :=
  RegisterService [(7%Z, fun n ctx _ => Returned (S n) ctx Status_default (bytes_of_string "pong"))] ServerBuilder.

Definition ping_server_events : list (server_event (A := pipe_asio) (App := nat)) :=
  Accept (A := pipe_asio) ping_server None
  :: (SessionStep 0 <$> open_events pong_config ++ serve_events).

Lemma system_safety_witness :
  match demo_run Inline ping_events,
        run_events server_step ping_server_events (O, BuildAndStart (A := pipe_asio) ping_builder) with
  | Some c, Some (n, s) => exists log req rf, serves (session_configs s) O log n
      /\ (0, req, Some rf) ∈ log /\ (Status_default, bytes_of_string "pong") = response_of rf
  | _, _ => False
  end.
Proof.
  destruct (demo_run Inline _) as [c|] eqn:Ec; [|by vm_compute in Ec].
  assert (connected c = true /\ Channel.write_failed c = false /\ length (issued c) = 1
    /\ Channel.log c = [LResponse OnIo 20 Status_default (bytes_of_string "pong")]
    /\ outgoing (Channel.socket_ c) = p_in ping_server) as (H1 & H2 & H3 & H4 & H5)
    by (vm_compute in Ec; by simplify_eq).
  destruct (run_events server_step _ _) as [[n s]|] eqn:Es; [|clear Ec; by vm_compute in Es].
  assert (handlers s = handlers_ pong_config /\ exists o, heap s !! 0 = Some o
    /\ o_handshake_header o = bytes_of_string "pc1" /\ Session.write_failed (o_session o) = false
    /\ outgoing (Session.socket_ (o_session o)) = p_in ping_client) as (Hh & o & Ho & H6 & H7 & H8)
    by (clear Ec H1 H2 H3 H4 H5; vm_compute in Es; simplify_eq; split; [reflexivity|by eexists]).
  assert (Forall no_register ping_server_events) as Hn.
  { clear. repeat (apply Forall_cons_2; [exact I|]). apply Forall_nil_2. }
  assert (Forall small_pushes ping_server_events) as Hp.
  { clear. repeat (apply Forall_cons_2; [exact I|]). apply Forall_nil_2. }
  destruct (system_safety (Q := list Completion) _ _ _ _ _ Es Hn Hp) as (log & Hl & Hall).
  { intros o1. unfold small_responses, object_config. cbn [handlers_]. rw Hh. apply pong_small. }
  destruct (Hall 0 o ping_server _ _ _ c Ho eq_refl Ec (ping_linked (object_config s o) c (o_session o) H6 H5 H8)
    H1 H2 H7 ping_small) as [_ Hout]; [rw H3; lia|].
  destruct (Hout OnIo 20 Status_default (bytes_of_string "pong")) as [[? _]|(id & mid & req & rf & _ & _ & Hin & E)];
    [rw H4; left|discriminate|].
  exists log, (request_header id mid req, req), rf. auto.
Defined.
