(* ===== verification/EndToEnd.v ===== *)
(** * EndToEnd: a remote call, from stub to service and back

    The pieces together: the channel's side of one call on a healthy
    connection, and the composition of generated stub, channel, frames,
    session and generated handler. *)

From S2P Require Import Prelude.
From S2P Require Import Status.
From S2P Require Import Frame.
From S2P Require Import MethodHash.
From S2P Require Import Transport.
From S2P Require Import Mpsc.
From S2P Require Import Session.
From S2P Require Import Server.
From S2P Require Import Proto.
From S2P Require Import Generator.
From S2P Require Import Channel.
From S2P Require Import ChannelCallbacks.
From S2P Require Import ChannelRequests.

Open Scope nat_scope.

(** ** One call on a fresh channel *)

(** The thread enters the call, waits for the connection to be made, posts
    the call; the request is written and the response read. *)
Definition call_schedule {A : Asio} `{!AsioClient A} (config : ChannelConfig) (t : thread)
    (op : caller_op) (eps : list endpoint) : list (channel_event (A := A)) :=
  [StartCall t false op; CallerStep t; CallerStep t; Channel.StrandStep; Resolved (inl eps); ConnectStep]
  ++ (if handshake_header config is [] then [] else [ConnectStep; ConnectStep])
  ++ [CallerStep t; Channel.StrandStep; Channel.PumpStep; Channel.PumpStep; ReadStep].

Section Call.
Context {A : Asio} `{!AsioClient A} `{!AsioStream A} `{!AsioClientStream A} `{!AsioReliable A}.
Context {Q : Type} `{!Fifo Q Completion} `{!UnorderedIter ResponseCallback}.
Variable config : ChannelConfig.
Hypothesis inline : dispatch config = Inline.

Lemma ReadHandshake_stream s hs rest :
  healthy s -> incoming s = hs ++ rest ->
  exists s', AsyncTransport_ReadHandshake s hs = (s', Status_default)
    /\ healthy s' /\ incoming s' = rest /\ outgoing s' = outgoing s.
Proof.
  intros Hh Hin. unfold AsyncTransport_ReadHandshake. destruct hs as [|b hs]; [by exists s|].
  destruct (read_take s (zeros (length (b :: hs)))) as (s1 & E & Hh1 & Hin1 & Ho1); [done|..].
  { rw length_zeros Hin length_app. lia. }
  rw E length_zeros Hin take_app_length bool_decide_false; [by intros []|].
  rw length_zeros Hin drop_app_length in Hin1. by exists s1.
Qed.

(** The channel while thread [t] is in its call and nothing has been sent:
    the fields that change. *)
Definition connecting (started : bool) (cst : ConnState) (waiters : list ConnectCallback)
    (tasks : list strand_task) (pc : connect_pc) (ts : gmap thread caller_pc) (gv : list nat)
    (sock : socket) : channel A Q :=
  mkChannel sock started false false 1 ∅ [] false cst waiters fifo_empty false tasks pc false
    PumpNone ts ShutNone [] gv [] [] [] [] [] false.

(** The channel once it is connected, before the call is posted. *)
Definition connected_channel (sock : socket) (t : thread) (op : caller_op) : channel A Q :=
  mkChannel sock true true false 1 ∅ [] false Connected [] fifo_empty false [] CoNone true
    PumpNone {[t := CallEnsured false op Status_default]} ShutNone [] (option_list (op_callback op))
    [] [] [] [] [] false.

#[local] Abbreviation step_to s := (run_events_step _ _ _ _ s) (only parsing).

Lemma connecting_run sock0 eps t op es :
  run_events (channel_step config)
    (StartCall t false op :: CallerStep t :: CallerStep t :: Channel.StrandStep :: Resolved (inl eps) :: es)
    (channel_init sock0)
  = run_events (channel_step config) es
      (connecting true Connecting [PromiseConnect t] [] (CoConnect eps) {[t := CallWait false op]}
        (option_list (op_callback op)) sock0).
Proof.
  set (gv := option_list (op_callback op)).
  apply (step_to (connecting false Idle [] [] CoNone {[t := CallEnsure false op]} gv sock0)); [done|].
  apply (step_to (connecting false Idle [] [] CoNone {[t := CallRequest false op]} gv sock0)).
  { rw /channel_step /= /caller_step /= lookup_singleton_eq /EnsureConnected /= /set_caller /=.
    by rw insert_singleton_eq. }
  apply (step_to (connecting true Idle [] [TaskConnect (Some (PromiseConnect t))] CoNone
                   {[t := CallWait false op]} gv sock0)).
  { rw /channel_step /= /caller_step /= lookup_singleton_eq /set_caller /= insert_singleton_eq.
    by rw /RequestConnect /=. }
  apply (step_to (connecting true Connecting [PromiseConnect t] [] CoResolve
                   {[t := CallWait false op]} gv sock0)); [done|].
  by eapply run_events_step.
Qed.

(** [finish] releases the only waiter. *)
Lemma finish_one (c : channel A Q) t b op :
  connect_waiters c = [PromiseConnect t] -> callers c !! t = Some (CallWait b op) ->
  finish config Status_default c
  = set_callers (<[t := CallEnsured b op Status_default]> (callers c)) (set_connect_waiters [] c).
Proof. intros Hw Hc. by rw /finish /= Hw /= /post_deferred inline /= /set_value /= Hc. Qed.

Lemma connect_done_run sock0 sock pc t op :
  connect_done config (set_connector CoNone (set_socket sock
    (connecting true Connecting [PromiseConnect t] [] pc {[t := CallWait false op]}
      (option_list (op_callback op)) sock0)))
  = connected_channel sock t op.
Proof.
  rw /connect_done /=. rw (finish_one _ t false op); [done|apply lookup_singleton_eq|].
  rw /= insert_singleton_eq. reflexivity.
Qed.

Lemma connect_run sock0 sock eps t op rest es :
  asio_connect sock0 eps = (sock, None) -> healthy sock ->
  incoming sock = handshake_header config ++ rest ->
  exists sock', run_events (channel_step config)
      ([StartCall t false op; CallerStep t; CallerStep t; Channel.StrandStep; Resolved (inl eps); ConnectStep]
       ++ (if handshake_header config is [] then [] else [ConnectStep; ConnectStep]) ++ es)
      (channel_init sock0) = run_events (channel_step config) es (connected_channel sock' t op)
    /\ healthy sock' /\ incoming sock' = rest /\ outgoing sock' = handshake_header config.
Proof.
  intros Ec Hh Hin. pose proof (connect_fresh _ _ _ Ec) as Ho.
  destruct (WriteHandshake_stream sock (handshake_header config) Hh) as (s1 & E1 & Hh1 & Ho1 & Hin1).
  rw Ho app_nil_l in Ho1. rw Hin in Hin1.
  destruct (ReadHandshake_stream s1 _ _ Hh1 Hin1) as (s2 & E2 & Hh2 & Hin2 & Ho2).
  destruct (handshake_header config) as [|b hs] eqn:Eh.
  - exists sock. split; [|by rw Hin Ho].
    rw -!app_comm_cons !app_nil_l connecting_run.
    eapply run_events_step; [|done]. rw /channel_step /= /ConnectCoro /= Ec Eh. f_equal.
    apply connect_done_run.
  - exists s2. split; [|by rw Hin2 Ho2 Ho1].
    rw -!app_comm_cons !app_nil_l connecting_run.
    set (waiting pc := connecting true Connecting [PromiseConnect t] [] pc {[t := CallWait false op]}
                         (option_list (op_callback op))).
    apply (step_to (waiting CoWriteHandshake sock)).
    { rw /channel_step /= /ConnectCoro /= Ec Eh. reflexivity. }
    apply (step_to (waiting CoReadHandshake s1)).
    { rw /channel_step /= /ConnectCoro /= Eh E1. reflexivity. }
    eapply run_events_step; [rw /channel_step /= /ConnectCoro /= Eh E2 /=; reflexivity|].
    f_equal. apply connect_done_run.
Qed.

(** The call is posted, written and answered. *)
Lemma call_run sock t mid req n f rest :
  healthy sock -> frame_wf f -> type f.1 = kResponse -> call_id f.1 = 1%Z ->
  incoming sock = encode_frame f ++ rest ->
  exists c, run_events (channel_step config)
      [CallerStep t; Channel.StrandStep; Channel.PumpStep; Channel.PumpStep; ReadStep]
      (connected_channel sock t (OpCall mid req (Some n))) = Some c
    /\ Channel.log c = [LResponse OnIo n (response_of f).1 (response_of f).2]
    /\ outgoing (Channel.socket_ c) = outgoing sock ++ encode_frame (request_header 1 mid req, req)
    /\ incoming (Channel.socket_ c) = rest /\ pending c = ∅ /\ callers c = ∅.
Proof.
  intros Hh Hwf Ht Hid Hin.
  destruct (WriteFrame_stream sock (request_header 1 mid req) req Hh) as (s1 & E1 & Hh1 & Ho1 & Hin1).
  rw Hin in Hin1. rw -Ho1.
  destruct (ReadFrame_one s1 f rest FrameHeader_default [] Hh1 Hwf Hin1)
    as (s2 & E2 & Hh2 & <- & <-).
  set (frame := (request_header 1 mid req, req)).
  set (calling := fun pend wq active (pc : pump_pc) wri lg ans s => mkChannel (Q := Q) s true true false
    2 pend wq active Connected [] fifo_empty false [] CoNone true pc ∅ ShutNone lg [n] [] [(1%Z, Some n)]
    [frame] wri ans false).
  exists (calling ∅ [] false PumpNone [frame] [LResponse OnIo n (response_of f).1 (response_of f).2]
           [(f, n)] s2).
  split; [|done].
  apply (step_to (mkChannel (Q := Q) sock true true false 1 ∅ [] false Connected [] fifo_empty false
    [TaskCall mid req (Some n)] CoNone true PumpNone ∅ ShutNone [] [n] [] [] [] [] [] false)).
  { rw /channel_step /= /caller_step /= lookup_singleton_eq /ensured /= delete_singleton_eq. done. }
  apply (step_to (calling {[1%Z := Some n]} [frame] true PumpSpawned [] [] [] sock)); [done|].
  apply (step_to (calling {[1%Z := Some n]} [] true (PumpWriting frame.1 frame.2) [] [] [] sock)); [done|].
  apply (step_to (calling {[1%Z := Some n]} [] false PumpNone [frame] [] [] s1)).
  { rw /channel_step /= /WritePump /= E1. done. }
  eapply run_events_step; [|done].
  rw /channel_step /= /ReadLoop /= E2 /= /read_frame Ht Hid /= lookup_singleton_eq delete_singleton_eq.
  destruct f as [h p]. rw /response_of /post_response inline /=.
  by destruct (negb (code_eqb (code_of_int (status_code h)) OK)).
Qed.
End Call.

(** ** The generated service behind a session *)

(** What the caller is told of a method's outcome: the response, or the code
    of the error (the message stays at the server). *)
Definition rpc_result {Resp} `{!Protobuf Resp} (st : Status) (resp : Resp) : Status * Resp :=
  if ok st then (Status_default, resp)
  else (mkStatus (error_code st) "remote error", default_message).

(** The outcomes that can be sent: a response that can be serialized, or an
    error code of 16 bits. *)
Definition sendable {Resp} `{!Protobuf Resp} `{!ProtobufLaws Resp} (st : Status) (resp : Resp) : Prop :=
  if ok st then serializable resp
  else code_canonical (error_code st) /\ is_u16 (code_to_int (error_code st)).

Section Service.
Context {Req Resp : Type} `{!Protobuf Req} `{!ProtobufLaws Req}.
Context `{!Protobuf Resp} `{!ProtobufLaws Resp} {App : Type}.
Variables (cfg : session_config App) (mid : Z) (full : string).
Variable method : App -> ServerContext -> Req -> Resp -> method_result (Resp := Resp) App.
Hypothesis registered : handlers_ cfg !! mid = Some (service_handler full method).
Hypothesis mid_u32 : is_u32 mid.

Lemma wire_u32 {M} `{!Protobuf M} `{!ProtobufLaws M} (m : M) :
  serializable m -> is_u32 (size_of (wire_bytes m)).
Proof.
  intros H. pose proof (serializable_size m H). pose proof (wire_size m H).
  unfold is_u32, size_of. lia.
Qed.

Lemma request_frame_wf id (req : Req) :
  is_u32 id -> serializable req -> frame_wf (request_header id mid (wire_bytes req), wire_bytes req).
Proof.
  intros Hid H. pose proof (wire_u32 req H) as Hu. split; simpl; [|by rw u32_small].
  constructor; simpl; try done. by rw u32_small.
Qed.

(** The status and the bytes the channel hands to the callback of a call whose
    outcome is [st], with the bytes [b] for the response. *)
Definition raw_result (st : Status) (b : bytes) : Status * bytes :=
  if ok st then (Status_default, b) else (mkStatus (error_code st) "remote error", []).

Lemma service_handler_returns app ctx b (req : Req) app' st (resp : Resp) :
  parses b req -> sendable st resp ->
  (forall ctx, exists ctx', method app ctx req default_message = MethodReturned app' ctx' st resp) ->
  exists ctx', service_handler full method app ctx b
    = Returned app' ctx' (if ok st then Status_default else st) (if ok st then wire_bytes resp else []).
Proof.
  intros Hreq Hs Hm. unfold service_handler. rw Hreq /=.
  match goal with |- context [method app ?c req _] => destruct (Hm c) as [ctx' ->] end.
  unfold sendable in Hs. destruct (ok st) eqn:E; simpl; [|by eexists].
  rw SerializeProto_wire //. by eexists.
Qed.

Lemma service_answers app id b (req : Req) app' st (resp : Resp) :
  is_u32 id -> parses b req -> sendable st resp ->
  (forall ctx, exists ctx', method app ctx req default_message = MethodReturned app' ctx' st resp) ->
  exists l f, process_request cfg app (request_header id mid b) b = (app', l, Some f)
    /\ frame_wf f /\ type f.1 = kResponse /\ call_id f.1 = id
    /\ response_of f = raw_result st (wire_bytes resp).
Proof.
  intros Hid Hreq Hs Hm. unfold process_request. simpl. rw registered.
  destruct (service_handler_returns app (request_context cfg (request_header id mid b))
    b req app' st resp Hreq Hs Hm) as [ctx' H]. unfold sendable, raw_result in *.
  rw H. destruct (ok st) eqn:Eok; simpl.
  - pose proof (wire_u32 resp Hs) as Hu. eexists _, _. split; [done|].
    split; [|done]. split; simpl; [|by rw u32_small]. constructor; simpl; try done. by rw u32_small.
  - destruct Hs as [Hc Hu]. rw Eok /=. eexists _, _. split; [done|].
    split; [split; [constructor|]; simpl; try done; by rw u16_small|]. split; [done|]. split; [done|].
    rw /response_of /= u16_small // code_of_to_int //. by rw /ok in Eok; rw Eok.
Qed.

(** What the generated client makes of it, in both asynchronous forms. *)
Lemma AsyncUnaryCall_get_raw st b (resp : Resp) :
  (ok st = true -> parses b resp) -> AsyncUnaryCall_get (raw_result st b) = rpc_result st resp.
Proof.
  unfold raw_result, rpc_result, AsyncUnaryCall_get. intros Hs.
  destruct (ok st) eqn:E; [by rw /= Hs|]. rw /ok /= in E. by rw /ok /= E.
Qed.

(** The synchronous form: [UnaryCall] returns what its future was given; an
    error leaves the caller's response alone. *)
Lemma Stub_call_raw trace st b (req : Req) (resp resp0 : Resp) :
  serializable req -> (ok st = true -> parses b resp) ->
  (Stub_call (mkChannelInterface (fun _ _ r => UnaryCall_result (raw_result st b) r) trace)
    mid full req resp0).1
  = (if ok st then (Status_default, resp) else (mkStatus (error_code st) "remote error", resp0)).
Proof.
  unfold raw_result, Stub_call, UnaryCall_result. intros Hreq Hs.
  rw SerializeProto_wire //=.
  destruct (ok st) eqn:E; [by rw /= Hs|]. rw /ok /= in E. by rw /ok /= E /= E.
Qed.

Lemma Stub_async_callback_raw trace text st b (resp : Resp) :
  (ok st = true -> parses b resp) ->
  (Stub_async_callback true trace full text (raw_result st b).1 (raw_result st b).2).1
  = Some (rpc_result st resp).
Proof.
  unfold raw_result, rpc_result, Stub_async_callback. intros Hs.
  destruct (ok st) eqn:E; [by rw /= Hs|]. rw /ok /= in E. by rw /ok /= E.
Qed.

(** A response that can be sent is parsed by the client. *)
Lemma sendable_parses st (resp : Resp) :
  sendable st resp -> ok st = true -> parses (wire_bytes resp) resp.
Proof. unfold sendable. intros Hs E. rw E in Hs. by apply parses_wire. Qed.
End Service.

(** ** Registration of a whole request *)

(** [RegisterWith] of every service: each method under its identifier. *)
Definition register_methods {A : Asio} {App} (h : string -> MethodHandler App) (fulls : list string)
    (s : server (A := A) (App := App)) : server :=
  foldl (fun s full => RegisterMethod (method_hash full) (h full) s) s fulls.

Lemma register_methods_lookup {A : Asio} {App} (h : string -> MethodHandler App) fulls
    (s : server (A := A)) id :
  ids_distinct fulls ->
  (forall full, full ∈ fulls -> method_hash full = id ->
     handlers (register_methods h fulls s) !! id = Some (h full))
  /\ ((forall full, full ∈ fulls -> method_hash full <> id) ->
     handlers (register_methods h fulls s) !! id = handlers s !! id).
Proof.
  induction fulls as [|f fulls IH] using rev_ind; intros Hd; [split; [set_solver|done]|].
  unfold register_methods. rw foldl_app /=. destruct IH as [IH1 IH2].
  { intros a b Ha Hb. apply Hd; set_solver. }
  split.
  - intros full Hin <-. destruct (decide (f = full)) as [->|Hne]; [apply lookup_insert_eq|].
    rw lookup_insert_ne; [intros E; apply Hne, Hd; set_solver|]. apply IH1; set_solver.
  - intros Hno. rw lookup_insert_ne; [apply Hno; set_solver|]. apply IH2. set_solver.
Qed.

(** ** Properties *)

(** C6: a remote call, end to end.  The service's method is registered with a
    session under the identifier of its full name, the two ends agree on the
    handshake, and the connections are healthy.  The stub serializes the
    request; when the session has received what the channel sends, it runs the
    method once and answers; when the channel has received what the session
    sent, it has sent exactly what the session received, and has called the
    stub's callback once, with a status and bytes from which the generated
    client - callback, future and synchronous call alike - makes the outcome of
    the method: its response, or the code of its error.  Both ends are idle
    again. *)
Theorem rpc_end_to_end {A : Asio} `{!AsioClient A} `{!AsioStream A} `{!AsioClientStream A}
    `{!AsioReliable A} {Q : Type} `{!Fifo Q Completion} `{!UnorderedIter ResponseCallback}
    {Req Resp : Type} `{!Protobuf Req} `{!ProtobufLaws Req} `{!Protobuf Resp} `{!ProtobufLaws Resp}
    {App : Type} (config : ChannelConfig) (cfg : session_config App)
    (key full : string) (method : App -> ServerContext -> Req -> Resp -> method_result App)
    (ch : ChannelInterface) (app app' : App) (req : Req) (st : Status) (resp : Resp)
    (ssock : socket) (t : thread) (n : nat) :
  dispatch config = Inline ->
  handshake_header config = handshake_header_ cfg ->
  handlers_ cfg !! method_hash key = Some (service_handler full method) ->
  serializable req -> sendable st resp ->
  (forall ctx, exists ctx', method app ctx req default_message = MethodReturned app' ctx' st resp) ->
  exists b text, Stub_async (Resp := Resp) ch (method_hash key) req = inr (method_hash key, b, text) /\
  (healthy ssock -> outgoing ssock = [] -> gate cfg (incoming ssock) ->
   incoming ssock = handshake_header_ cfg ++ encode_frame (request_header 1 (method_hash key) b, b) ->
   exists s, run_events (session_step cfg) (open_events cfg ++ serve_events) (app, session_init ssock)
       = Some (app', s) /\ idle s /\
   forall csock0 csock eps, asio_connect csock0 eps = (csock, None) -> healthy csock ->
     incoming csock = outgoing (Session.socket_ s) ->
     exists c : channel A Q,
       run_events (channel_step config)
         (call_schedule config t (OpCall (method_hash key) b (Some n)) eps) (channel_init csock0) = Some c
       /\ outgoing (Channel.socket_ c) = incoming ssock /\ pending c = ∅ /\ callers c = ∅
       /\ exists rst rb, Channel.log c = [LResponse OnIo n rst rb]
         /\ (Stub_async_callback true (ci_Tracing ch) full text rst rb).1 = Some (rpc_result st resp)
         /\ AsyncUnaryCall_get (rst, rb) = rpc_result st resp
         /\ forall resp0, (Stub_call (mkChannelInterface (fun _ _ r => UnaryCall_result (rst, rb) r)
                            (ci_Tracing ch)) (method_hash key) full req resp0).1
            = (if ok st then (Status_default, resp)
               else (mkStatus (error_code st) "remote error", resp0))).
Proof.
  intros Hinl Hhs Hreg Hreq Hres Hm.
  eexists (wire_bytes req), _. split; [by rw /Stub_async SerializeProto_wire|].
  intros Hh Ho Hg Hin.
  assert (is_u32 (method_hash key)) as Hmid by by apply fnv_loop_range.
  destruct (service_answers cfg _ full method Hreg Hmid app 1 (wire_bytes req) req app' st resp) as
    (l & [rh rp] & Hp & Hwf & Ht & Hid & Hr); [done| |done|done|].
  { by apply parses_wire. }
  pose proof (sendable_parses st resp Hres) as Hpr.
  destruct (open_run cfg ssock app _ Hh Hg Hin) as (s0 & Hrun0 & Hidle0 & _ & Hh0 & Hin0 & Ho0).
  rw Ho app_nil_l in Ho0. rw -(app_nil_r (encode_frame _)) in Hin0.
  destruct (serve_run cfg app s0 _ _ [] app' l rh rp Hidle0 Hh0 (request_frame_wf _ Hmid 1 req ltac:(done) Hreq)
    eq_refl Hin0 Hp) as (s1 & Hrun1 & Hidle1 & _ & _ & _ & Ho1).
  exists s1. split; [by rw run_events_app Hrun0|]. split; [done|].
  intros csock0 csock eps Hc Hch Hcin. rw Ho1 Ho0 -Hhs in Hcin.
  rw -(app_nil_r (encode_frame _)) in Hcin.
  destruct (connect_run (Q := Q) config Hinl csock0 csock eps t (OpCall (method_hash key) (wire_bytes req) (Some n))
    _ [CallerStep t; Channel.StrandStep; Channel.PumpStep; Channel.PumpStep; ReadStep] Hc Hch Hcin)
    as (sock' & Hrun2 & Hh2 & Hin2 & Ho2).
  destruct (call_run (Q := Q) config Hinl sock' t (method_hash key) (wire_bytes req) n (rh, rp) [] Hh2 Hwf Ht Hid Hin2)
    as (c & Hrun3 & Hlog & Ho3 & Hin3 & Hpend & Hcal).
  exists c. split; [rw /call_schedule Hrun2; exact Hrun3|].
  split; [by rw Ho3 Ho2 Hin Hhs|]. split; [done|]. split; [done|].
  rw Hr in Hlog. eexists _, _. split; [exact Hlog|].
  rw -surjective_pairing. split; [by apply Stub_async_callback_raw|].
  split; [by apply AsyncUnaryCall_get_raw|]. intros resp0. by apply Stub_call_raw.
Qed.

(** A service whose method doubles its request and counts the calls. *)
Definition doubler (calls : nat) (ctx : ServerContext) (req resp : bytes) : method_result nat :=
  MethodReturned (S calls) ctx Status_default (req ++ req).

Definition doubler_key : string := method_full_name "demo.v1" "Doubler" "Double".

Definition doubler_config : session_config nat :=
  Session.mkConfig {[ method_hash doubler_key := service_handler "Doubler.Double" doubler ]}
    (bytes_of_string "pc1") 1 "127.0.0.1:5000" true true None true.

Definition doubler_client : ChannelConfig :=
  mkChannelConfig (bytes_of_string "pc1") Inline false.

Lemma rpc_end_to_end_witness :
  let hi := bytes_of_string "hi" in
  exists (eps : list pipe) (c : channel pipe_asio (mpsc_fifo Completion)) rst rb,
    run_events (channel_step doubler_client)
      (call_schedule doubler_client 1 (OpCall (method_hash doubler_key) hi (Some 5)) eps)
      (channel_init (mkPipe [] [] None false)) = Some c
    /\ Channel.log c = [LResponse OnIo 5 rst rb]
    /\ AsyncUnaryCall_get (M := bytes) (rst, rb) = (Status_default, hi ++ hi).
Proof.
  intros hi.
  set (ssock := mkPipe (bytes_of_string "pc1"
    ++ encode_frame (request_header 1 (method_hash doubler_key) hi, hi)) [] None true).
  destruct (rpc_end_to_end (A := pipe_asio) (Q := mpsc_fifo Completion) doubler_client doubler_config doubler_key
    "Doubler.Double" doubler (mkChannelInterface (fun _ _ r => (Status_default, r)) true) 0 1 hi
    Status_default (hi ++ hi) ssock 1 5) as (b & text & Eb & H);
    [reflexivity|reflexivity|by apply lookup_singleton_eq|by vm_compute|by vm_compute
    |intros ctx; by exists ctx|].
  assert (hi = b) as <-.
  { exact (f_equal (fun r => match r with inr (_, b, _) => b | inl _ => [] end) Eb). }
  destruct H as (s & _ & _ & H); [by split|reflexivity| |reflexivity|].
  { split; [by eexists|done]. }
  destruct (H (mkPipe [] [] None false) (mkPipe (p_out (Session.socket_ s)) [] None true)
    [mkPipe (p_out (Session.socket_ s)) [] None true]) as (c & Hrun & _ & _ & _ & rst & rb & Hlog & _ & Hget & _);
    [reflexivity|by split|reflexivity|].
  exists [mkPipe (p_out (Session.socket_ s)) [] None true], c, rst, rb.
  exact (conj Hrun (conj Hlog Hget)).
Defined.

(** What the plugin accepts is dispatched correctly.  When the plugin
    reports no error for a request, registering the methods of all its services
    with one server leaves every method reachable: the handler under a method's
    identifier is that method's own, and the other identifiers are as they
    were. *)
Theorem accepted_methods_dispatch {A : Asio} {App} files (h : string -> MethodHandler App)
    (s : server (A := A)) :
  resp_error (plugin files) = None ->
  (forall full, full ∈ request_methods files ->
     handlers (register_methods h (request_methods files) s) !! method_hash full = Some (h full))
  /\ (forall id, (forall full, full ∈ request_methods files -> method_hash full <> id) ->
     handlers (register_methods h (request_methods files) s) !! id = handlers s !! id).
Proof.
  intros He. assert (ids_distinct (request_methods files)) as Hd.
  { pose proof (scan_methods_empty (request_methods files)) as H. unfold plugin in He.
    by destruct (scan_methods ∅ _). }
  split; [intros full Hin|intros id]; by apply register_methods_lookup.
Qed.

Lemma accepted_methods_dispatch_witness :
  let h (full : string) : MethodHandler nat :=
    fun n ctx req => Returned n ctx Status_default (bytes_of_string full) in
  handlers (register_methods (A := pipe_asio) h (request_methods [greeter_proto "Bye"]) server_init)
    !! method_hash "/demo.v1.Greeter/Bye" = Some (h "/demo.v1.Greeter/Bye"%string).
Proof.
  intros h. apply (accepted_methods_dispatch [greeter_proto "Bye"] h server_init); [by vm_compute|].
  apply list_elem_of_In. right. by left.
Defined.
