(* ===== verification/Push.v ===== *)
(** * Push: typed pushes from a service to its clients

    The generated classes [PeerWriter] and [Broadcaster] (emitted by
    [EmitPeerWriterClass] and [EmitBroadcasterClass] of
    [c++/protoc/generator.cpp]) and the way of a pushed message: serialized,
    posted to the session, written, read by the channel and handed to
    [on_push]. *)

From S2P Require Import Prelude.
From S2P Require Import Status.
From S2P Require Import Frame.
From S2P Require Import Transport.
From S2P Require Import Mpsc.
From S2P Require Import Session.
From S2P Require Import SessionSpec.
From S2P Require Import Server.
From S2P Require Import Proto.
From S2P Require Import Channel.
From S2P Require Import ChannelCallbacks.

Open Scope nat_scope.

(** [PeerWriter::SendMethod(message)]: the status of [SerializeProto] is not
    looked at. *)
Definition PeerWriter_Send {A : Asio} {M} `{!Protobuf M} (mid : Z) (message : M) (peer : session) : session :=
  let '(_, b) := SerializeProto message [] in Send mid b peer.

(** [Broadcaster::BroadcastMethod(message)]. *)
Definition Broadcaster_Broadcast {A : Asio} {App} `{!UnorderedIter nat} {M} `{!Protobuf M} (mid : Z)
    (message : M) (srv : server (A := A) (App := App)) : server :=
  let '(_, b) := SerializeProto message [] in Broadcast mid b srv.

(** The steps that write a posted frame. *)
Definition write_push_events : list session_event :=
  [Session.StrandStep; Session.PumpStep; Session.PumpStep].

Section Push.
Context {A : Asio} `{!AsioStream A} `{!AsioReliable A}.

(** A push posted to an idle session is written. *)
Lemma push_run {App} (cfg : session_config App) app s mid b :
  idle s -> healthy (Session.socket_ s) ->
  exists s', run_events (session_step cfg) write_push_events (app, Send mid b s)
      = Some (app, s')
    /\ idle s' /\ healthy (Session.socket_ s')
    /\ outgoing (Session.socket_ s') = outgoing (Session.socket_ s)
       ++ encode_frame (mkHeader kPush 0 0 mid (u32 (size_of b)), b).
Proof.
  intros (Er & Es & Eq & Ea & Ep) Hh.
  destruct (WriteFrame_stream (Session.socket_ s) (mkHeader kPush 0 0 mid (u32 (size_of b))) b Hh)
    as (s1 & E1 & Hh1 & Ho1 & _).
  unfold write_push_events. simpl. rw /Session.strand_step /= Es /= /enqueue_closure /= Ea Eq /=.
  rw /Session.WritePump /= /Session.pump_loop /= E1 /=. eexists. split; [done|]. done.
Qed.

Context `{!AsioClient A} {Q : Type} `{!Fifo Q Completion} `{!UnorderedIter ResponseCallback}.

(** The reader hands a push to [on_push], at once or through the queue. *)
Lemma push_read config (c : channel A Q) mid b rest :
  on_push config = true -> io_thread_started c = true -> shutdown c <> ShutDone -> reader c = true ->
  healthy (Channel.socket_ c) -> is_u32 mid -> small b ->
  incoming (Channel.socket_ c) = encode_frame (mkHeader kPush 0 0 mid (u32 (size_of b)), b) ++ rest ->
  exists c', channel_step config ReadStep c = Some c'
    /\ pending c' = pending c /\ incoming (Channel.socket_ c') = rest
    /\ (if dispatch config is Inline then Channel.log c' = Channel.log c ++ [LPush OnIo mid b]
        else Channel.log c' = Channel.log c
             /\ fifo_list (cb_queue c') = fifo_list (cb_queue c) ++ [Deferred (ThunkPush mid b)]).
Proof.
  intros Hpush Hio Hsh Hrd Hh Hm Hb Hin.
  assert (frame_wf (mkHeader kPush 0 0 mid (u32 (size_of b)), b)) as Hwf.
  { split; simpl; [|by rw u32_small]. by constructor; simpl; rw ?u32_small. }
  destruct (ReadFrame_one _ _ rest FrameHeader_default [] Hh Hwf Hin) as (s1 & E1 & _ & Hin1 & _).
  exists (read_frame config (mkHeader kPush 0 0 mid (u32 (size_of b))) b (set_socket s1 c)).
  split; [by rw /channel_step; destruct (shutdown c); rw // Hio /ReadLoop Hrd E1|].
  rw /read_frame /= Hpush /post_deferred. destruct (dispatch config); [done|].
  rw /= fifo_list_push. done.
Qed.
End Push.

(** ** Properties *)


