(* ===== verification/Goroutines.v ===== *)
(** * Goroutines: lists of threads

    A machine with goroutines keeps them in a list, by number; a step replaces
    the goroutine that moved and may append one that starts.  What holds of
    every goroutine, what the goroutines contribute to an account, and sums
    over them, under these two changes. *)

From S2P Require Import Prelude.

Open Scope nat_scope.

Section Threads.
Context {T : Type}.

(** ** What holds of every goroutine *)

Definition threads_all (P : nat -> T -> Prop) (ts : list T) : Prop :=
  forall t pc, ts !! t = Some pc -> P t pc.

Lemma threads_all_insert (P Q : nat -> T -> Prop) ts t pc :
  threads_all P ts -> (forall t' pc', t' <> t -> P t' pc' -> Q t' pc') -> Q t pc ->
  threads_all Q (<[t := pc]> ts).
Proof.
  intros H HPQ Hq t' pc' [(-> & -> & _)|[Hne E]]%list_lookup_insert_Some; eauto.
Qed.

Lemma threads_all_snoc (P : nat -> T -> Prop) ts pc :
  threads_all P ts -> P (length ts) pc -> threads_all P (ts ++ [pc]).
Proof.
  intros H Hp t' pc' [E|[Hl E]]%lookup_app_Some; [eauto|].
  apply list_lookup_singleton_Some in E as [E <-].
  by replace t' with (length ts) by lia.
Qed.

Lemma threads_all_impl (P Q : nat -> T -> Prop) ts :
  threads_all P ts -> (forall t pc, P t pc -> Q t pc) -> threads_all Q ts.
Proof. unfold threads_all. eauto. Qed.

(** What the goroutines contribute to an account, in order. *)
Fixpoint collect {B} (g : nat -> T -> list B) (i : nat) (ts : list T) : list B :=
  match ts with
  | [] => []
  | pc :: ts => g i pc ++ collect g (S i) ts
  end.

Section Collect.
Context {B : Type} `{!EqDecision B}.
Variable g : nat -> T -> list B.

Lemma collect_insert x i ts t pc pc' :
  ts !! t = Some pc ->
  occ x (collect g i (<[t := pc']> ts)) + occ x (g (i + t) pc)
  = occ x (collect g i ts) + occ x (g (i + t) pc').
Proof.
  revert i t. induction ts as [|q ts IH]; intros i [|t] E; simplify_eq/=; rw !occ_app.
  - rw Nat.add_0_r. lia.
  - specialize (IH (S i) t E). rw -Nat.add_succ_comm. lia.
Qed.

Lemma collect_app i ts us : collect g i (ts ++ us) = collect g i ts ++ collect g (i + length ts) us.
Proof.
  revert i. induction ts as [|pc ts IH]; intros i; simpl; [by rw Nat.add_0_r|].
  by rw IH -app_assoc Nat.add_succ_comm.
Qed.

Lemma collect_nil i ts : threads_all (fun t pc => forall j, g j pc = []) ts -> collect g i ts = [].
Proof.
  revert i. induction ts as [|pc ts IH]; intros i H; simpl; [done|].
  rw (H 0 pc eq_refl) IH //. intros t pc' E. by apply (H (S t)).
Qed.
End Collect.

(** ** Sums *)

Lemma sum_insert (g : T -> nat) ts t pc pc' :
  ts !! t = Some pc ->
  sum_list_with g (<[t := pc']> ts) + g pc = sum_list_with g ts + g pc'.
Proof.
  revert t. induction ts as [|q ts IH]; intros [|t] E; simplify_eq/=; [lia|].
  specialize (IH t E). lia.
Qed.

Lemma sum_ge (g : T -> nat) ts t pc : ts !! t = Some pc -> g pc <= sum_list_with g ts.
Proof.
  revert t. induction ts as [|q ts IH]; intros [|t] E; simplify_eq/=; [lia|].
  specialize (IH t E). lia.
Qed.

Lemma sum_zero (g : T -> nat) ts :
  sum_list_with g ts = 0 -> threads_all (fun _ pc => g pc = 0) ts.
Proof. intros H t pc E. pose proof (sum_ge g ts t pc E). lia. Qed.

Lemma sum_pos (g : T -> nat) ts :
  1 <= sum_list_with g ts -> exists t pc, ts !! t = Some pc /\ 1 <= g pc.
Proof.
  induction ts as [|q ts IH]; simpl; [lia|]. intros H. destruct (decide (1 <= g q)); [by exists 0, q|].
  destruct IH as (t & pc & ? & ?); [lia|]. by exists (S t), pc.
Qed.

Lemma sum_all_zero (g : T -> nat) ts :
  threads_all (fun _ pc => g pc = 0) ts -> sum_list_with g ts = 0.
Proof.
  induction ts as [|q ts IH]; intros H; simpl; [done|].
  rw (H 0 q eq_refl) IH //. intros t pc E. by apply (H (S t)).
Qed.

Lemma sum_le (g g' : T -> nat) ts :
  (forall pc, g pc <= g' pc) -> sum_list_with g ts <= sum_list_with g' ts.
Proof. intros H. induction ts as [|q ts IH]; simpl; [lia|]. specialize (H q). lia. Qed.

(** Of goroutines that count for at most one, two cannot count. *)
Lemma sum_sole (g : T -> nat) ts t pc t' pc' :
  sum_list_with g ts <= 1 -> ts !! t = Some pc -> 1 <= g pc -> ts !! t' = Some pc' -> t' <> t -> g pc' = 0.
Proof.
  revert t t'. induction ts as [|q ts IH]; intros [|t] [|t'] Hs E Hg E' Hne; simplify_eq/=.
  - pose proof (sum_ge g _ _ _ E'). lia.
  - pose proof (sum_ge g _ _ _ E). lia.
  - apply (IH t t'); try done; lia.
Qed.
End Threads.

(** A goal about every goroutine, split into what is said of the goroutine
    that moved, of the one that started, and of the others. *)
Ltac threads_cases H :=
  repeat match goal with
  | |- threads_all _ (_ ++ [_]) => apply threads_all_snoc
  | |- threads_all _ (<[_ := _]> _) => eapply threads_all_insert; [exact H|..]
  | |- threads_all _ _ => eapply threads_all_impl; [exact H|]
  end; cbn beta.

