(* ===== verification/GoFrame.v ===== *)
(** * GoFrame: the wire format of the Go implementation

    Models go/frame.go, go/hash.go, go/status.go and the naming
    and collision functions of go/protoc-gen-protocomm-go/main.go, and proves
    them equivalent to their C++ counterparts ([Frame], [MethodHash],
    [Transport], [Generator]): the two implementations speak the same
    protocol.  A [net.Conn] is a byte stream like the sockets of Boost.Asio,
    so the class [Asio] stands for it as well: [asio_write] of one buffer is
    [Write], [asio_read] into a fresh buffer is [io.ReadFull]. *)

From stdpp Require Import pretty.
From S2P Require Import Prelude.
From S2P Require Import Status.
From S2P Require Import Frame.
From S2P Require Import MethodHash.
From S2P Require Import Transport.
From S2P Require Import Generator.

Open Scope nat_scope.

(** ** Data *)

(** [type FrameType uint8]. *)
Definition Go_FrameRequest : Z := 1.
Definition Go_FrameResponse : Z := 2.
Definition Go_FramePush : Z := 3.

Definition Go_FrameHeaderSize : nat := 16.

Record Go_FrameHeader := Go_mkHeader {
  go_Type : Z;
  go_StatusCode : Z;
  go_CallID : Z;
  go_MethodID : Z;
  go_PayloadSize : Z
}.

(** ** [encoding/binary] *)

Definition PutUint16 (v : Z) : bytes := [byte_of (Z.shiftr v 8); byte_of v].
Definition PutUint32 (v : Z) : bytes :=
  [byte_of (Z.shiftr v 24); byte_of (Z.shiftr v 16); byte_of (Z.shiftr v 8); byte_of v].

Definition Uint16 (b : bytes) : Z := Z.lor (byte_at b 1) (u16 (Z.shiftl (byte_at b 0) 8)).
Definition Uint32 (b : bytes) : Z :=
  Z.lor (Z.lor (Z.lor (byte_at b 3) (u32 (Z.shiftl (byte_at b 2) 8)))
               (u32 (Z.shiftl (byte_at b 1) 16)))
        (u32 (Z.shiftl (byte_at b 0) 24)).

(** [buf[i:j]]. *)
Definition slice (i j : nat) (b : bytes) : bytes := take (j - i) (drop i b).

(** ** frame.go *)

Definition Go_Serialize (h : Go_FrameHeader) : bytes :=
  [byte_of (go_Type h); Byte.x00] ++ PutUint16 (go_StatusCode h) ++ PutUint32 (go_CallID h)
  ++ PutUint32 (go_MethodID h) ++ PutUint32 (go_PayloadSize h).

Definition Go_DeserializeFrameHeader (buf : bytes) : Go_FrameHeader :=
  {| go_Type := byte_at buf 0;
     go_StatusCode := Uint16 (slice 2 4 buf);
     go_CallID := Uint32 (slice 4 8 buf);
     go_MethodID := Uint32 (slice 8 12 buf);
     go_PayloadSize := Uint32 (slice 12 16 buf) |}.

Section Conn.
Context {A : Asio}.

Definition Go_WriteFrame (w : socket) (hdr : Go_FrameHeader) (payload : bytes)
    : socket * option ErrorCode :=
  let '(w1, err) := asio_write w [Go_Serialize hdr] in
  match err with
  | Some e => (w1, Some e)
  | None => if 0 <? length payload then asio_write w1 [payload] else (w1, None)
  end.

(** The frame, or the error of the connection. *)
Definition Go_ReadFrame (r : socket) : socket * ((Go_FrameHeader * bytes) + ErrorCode) :=
  let '(r1, buf, err) := asio_read r (zeros Go_FrameHeaderSize) in
  match err with
  | Some e => (r1, inr e)
  | None =>
    let hdr := Go_DeserializeFrameHeader buf in
    if (0 <? go_PayloadSize hdr)%Z then
      let '(r2, payload, err2) := asio_read r1 (zeros (Z.to_nat (go_PayloadSize hdr))) in
      match err2 with
      | Some e => (r2, inr e)
      | None => (r2, inl (hdr, payload))
      end
    else (r1, inl (hdr, []))
  end.
End Conn.

(** ** hash.go, and the same functions in the Go plugin *)

Fixpoint go_fnv_loop (hash : Z) (s : bytes) : Z :=
  match s with
  | [] => hash
  | c :: s => go_fnv_loop (u32 (Z.lxor hash (byte_val c) * 0x01000193)) s
  end.

Definition Go_Fnv1a32 (s : string) : Z := go_fnv_loop 0x811c9dc5 (bytes_of_string s).

Definition Go_methodFullName (pkg svc method : string) : string :=
  match pkg with
  | EmptyString => "/" +:+ svc +:+ "/" +:+ method
  | _ => "/" +:+ pkg +:+ "." +:+ svc +:+ "/" +:+ method
  end.

Definition Go_MethodID (pkg service method : string) : Z :=
  match pkg with
  | EmptyString => Go_Fnv1a32 ("/" +:+ service +:+ "/" +:+ method)
  | _ => Go_Fnv1a32 ("/" +:+ pkg +:+ "." +:+ service +:+ "/" +:+ method)
  end.

(** The loops of [checkHashCollisions]: the full names in their order, and
    the body until the first collision, with the two names of the error. *)
Definition Go_full_names (files : list FileDescriptorProto) : list string :=
  flat_map (fun f =>
    flat_map (fun svc =>
      (fun m => Go_methodFullName (f_package f) (s_name svc) (m_name m)) <$> s_method svc)
      (f_service f)) files.

Fixpoint Go_checkHashCollisions (seen : gmap Z string) (fulls : list string) : option (string * string) :=
  match fulls with
  | [] => None
  | full :: fulls =>
    let h := Go_Fnv1a32 full in
    match seen !! h with
    | Some prev =>
      if bool_decide (prev = full) then Go_checkHashCollisions seen fulls else Some (prev, full)
    | None => Go_checkHashCollisions (<[h := full]> seen) fulls
    end
  end.

(** ** status.go *)

(** [type StatusCode int]; [StatusCode(hdr.StatusCode)] is the integer. *)
Definition Go_OK : Z := 0.
Definition Go_Cancelled : Z := 1.
Definition Go_Unknown : Z := 2.
Definition Go_InvalidArgument : Z := 3.
Definition Go_DeadlineExceeded : Z := 4.
Definition Go_NotFound : Z := 5.
Definition Go_AlreadyExists : Z := 6.
Definition Go_PermissionDenied : Z := 7.
Definition Go_ResourceExhausted : Z := 8.
Definition Go_FailedPrecondition : Z := 9.
Definition Go_Aborted : Z := 10.
Definition Go_OutOfRange : Z := 11.
Definition Go_Unimplemented : Z := 12.
Definition Go_Internal : Z := 13.
Definition Go_Unavailable : Z := 14.
Definition Go_DataLoss : Z := 15.
Definition Go_Unauthenticated : Z := 16.

Definition statusCodeNames : list (Z * string) :=
  [(Go_OK, "OK"); (Go_Cancelled, "CANCELLED"); (Go_Unknown, "UNKNOWN");
   (Go_InvalidArgument, "INVALID_ARGUMENT"); (Go_DeadlineExceeded, "DEADLINE_EXCEEDED"); (Go_NotFound, "NOT_FOUND");
   (Go_AlreadyExists, "ALREADY_EXISTS"); (Go_PermissionDenied, "PERMISSION_DENIED"); (Go_ResourceExhausted, "RESOURCE_EXHAUSTED");
   (Go_FailedPrecondition, "FAILED_PRECONDITION"); (Go_Aborted, "ABORTED"); (Go_OutOfRange, "OUT_OF_RANGE");
   (Go_Unimplemented, "UNIMPLEMENTED"); (Go_Internal, "INTERNAL"); (Go_Unavailable, "UNAVAILABLE");
   (Go_DataLoss, "DATA_LOSS"); (Go_Unauthenticated, "UNAUTHENTICATED")].

Definition Go_StatusCode_String (c : Z) : string :=
  match (list_to_map statusCodeNames : gmap Z string) !! c with
  | Some name => name
  | None => "StatusCode(" +:+ pretty c +:+ ")"
  end.

Record Go_Status := Go_mkStatus { go_Code : Z; go_Message : string }.
Definition Go_StatusOK : Go_Status := Go_mkStatus Go_OK EmptyString.
Definition Go_IsOK (s : Go_Status) : bool := (go_Code s =? Go_OK)%Z.
Definition Go_Status_String (s : Go_Status) : string :=
  if Go_IsOK s then "OK" else Go_StatusCode_String (go_Code s) +:+ ": " +:+ go_Message s.

(** ** The same header in both languages *)

Definition to_cpp (h : Go_FrameHeader) : FrameHeader :=
  mkHeader (type_of_u8 (go_Type h)) (go_StatusCode h) (go_CallID h) (go_MethodID h) (go_PayloadSize h).

Definition status_to_cpp (s : Go_Status) : Status := mkStatus (code_of_int (go_Code s)) (go_Message s).

(** The widths of the Go fields. *)
Record go_header_wf (h : Go_FrameHeader) : Prop := {
  gw_type : is_u8 (go_Type h);
  gw_status : is_u16 (go_StatusCode h);
  gw_call : is_u32 (go_CallID h);
  gw_method : is_u32 (go_MethodID h);
  gw_size : is_u32 (go_PayloadSize h)
}.

(** ** Lemmas *)

Lemma byte_of_land z : byte_of (Z.land z 0xFF) = byte_of z.
Proof. unfold byte_of, u8. change 255%Z with (Z.ones 8). by rw Z.land_ones // Z.mod_mod. Qed.

Lemma Go_Serialize_cpp h : Go_Serialize h = Serialize (to_cpp h).
Proof.
  unfold Serialize, WriteBE32, Go_Serialize, PutUint16, PutUint32. simpl.
  by rw !byte_of_land type_to_of_u8.
Qed.

Lemma byte_at_slice i j k buf : k < j - i -> byte_at (slice i j buf) k = byte_at buf (i + k).
Proof.
  intros Hk. unfold byte_at, slice. by rw !nth_lookup lookup_take_lt // lookup_drop.
Qed.

Lemma Uint32_ReadBE32 buf off : Uint32 (slice off (off + 4) buf) = ReadBE32 buf off.
Proof.
  unfold Uint32, ReadBE32. rw !byte_at_slice; try lia. rw Nat.add_0_r.
  rw (Z.lor_comm _ (u32 (Z.shiftl (byte_at buf off) 24))) -!Z.lor_assoc. f_equal.
  rw Z.lor_comm -Z.lor_assoc Z.lor_comm -!Z.lor_assoc. f_equal. apply Z.lor_comm.
Qed.

Lemma Uint16_u16 buf :
  Uint16 (slice 2 4 buf) = u16 (Z.lor (Z.shiftl (byte_at buf 2) 8) (byte_at buf 3)).
Proof.
  unfold Uint16. rw !byte_at_slice; try lia. simpl Nat.add.
  pose proof (byte_val_range (nth 2 buf Byte.x00)) as H2.
  pose proof (byte_val_range (nth 3 buf Byte.x00)) as H3.
  unfold byte_at, is_u8 in *. rw Z.lor_comm Z.shiftl_mul_pow2; [lia|].
  rw !(u16_small); rw ?lor_mul_add; unfold is_u16; lia.
Qed.

Lemma Go_Deserialize_cpp buf : to_cpp (Go_DeserializeFrameHeader buf) = Deserialize buf.
Proof.
  unfold to_cpp, Deserialize. cbn [go_Type go_StatusCode go_CallID go_MethodID go_PayloadSize Go_DeserializeFrameHeader].
  rw Uint16_u16 (Uint32_ReadBE32 buf 4) (Uint32_ReadBE32 buf 8) (Uint32_ReadBE32 buf 12) //.
Qed.

Lemma Go_header_wf buf : go_header_wf (Go_DeserializeFrameHeader buf).
Proof.
  pose proof (Deserialize_wf buf) as Hw. rw -Go_Deserialize_cpp in Hw. destruct Hw.
  constructor; try done. apply byte_val_range.
Qed.

Section Streams.
Context {A : Asio} `{!AsioStream A}.

(** One [Write] per part of the frame transmits what the gathered write of
    the C++ transport transmits, or a prefix of it. *)
Lemma Go_WriteFrame_out w h p w' err :
  Go_WriteFrame w h p = (w', err) ->
  incoming w' = incoming w
  /\ match err with
     | None => outgoing w' = outgoing w ++ encode_frame (to_cpp h, p)
     | Some _ => exists k, outgoing w' = outgoing w ++ take k (encode_frame (to_cpp h, p))
     end.
Proof.
  unfold Go_WriteFrame, encode_frame. rw Go_Serialize_cpp. cbn [fst snd].
  generalize (Serialize (to_cpp h)). intros hb.
  destruct (asio_write w [hb]) as [w1 [e|]] eqn:E1.
  - intros [= <- <-]. split; [by eapply write_keeps_in|].
    destruct (write_error_prefix _ _ _ _ E1) as [k Hk].
    exists (k `min` length hb). rw Hk /= app_nil_r. f_equal.
    rw take_app_le; [lia|]. rw -take_take (take_ge hb (length hb)) //.
  - pose proof (write_all _ _ _ E1) as H1. pose proof (write_keeps_in _ _ _ _ E1) as I1.
    rw /= app_nil_r in H1. destruct (Nat.ltb_spec 0 (length p)).
    + intros E2. pose proof (write_keeps_in _ _ _ _ E2) as I2. split; [congruence|].
      destruct err.
      * destruct (write_error_prefix _ _ _ _ E2) as [k Hk].
        exists (length hb + k). rw Hk H1 /= app_nil_r take_app_add -app_assoc //.
      * rw (write_all _ _ _ E2) H1 /= app_nil_r -app_assoc //.
    + intros [= <- <-]. destruct p; [|simpl in *; lia]. by rw app_nil_r.
Qed.

Lemma Go_WriteFrame_healthy `{!AsioReliable A} w h p :
  healthy w -> exists w', Go_WriteFrame w h p = (w', None) /\ healthy w'.
Proof.
  intros Hh. unfold Go_WriteFrame.
  destruct (write_concat w [Go_Serialize h] Hh) as (w1 & -> & Hh1 & _).
  destruct (0 <? length p); [|by exists w1].
  destruct (write_concat w1 [p] Hh1) as (w2 & -> & Hh2 & _). by exists w2.
Qed.
End Streams.

(** The Go reader takes the same bytes off the connection as the C++ reader,
    fails when it fails and returns the frame it returns. *)
Lemma Go_ReadFrame_cpp {A : Asio} r h0 :
  exists h p st, AsyncTransport_ReadFrame r h0 [] = ((Go_ReadFrame r).1, h, p, st)
    /\ match (Go_ReadFrame r).2 with
       | inl (gh, gp) => h = to_cpp gh /\ p = gp /\ st = Status_default
       | inr _ => ok st = false
       end.
Proof.
  unfold AsyncTransport_ReadFrame, Go_ReadFrame. change Go_FrameHeaderSize with kSize.
  destruct (asio_read r (zeros kSize)) as [[r1 buf] [e|]]; [by do 3 eexists|].
  rw -Go_Deserialize_cpp. cbn [payload_size to_cpp].
  destruct (0 <? _)%Z; [|by do 3 eexists].
  unfold resize_bytes. rw take_nil Nat.sub_0_r app_nil_l. destruct (asio_read r1 _) as [[r2 p] [e|]]; by do 3 eexists.
Qed.

Lemma Go_ReadFrame_out {A : Asio} `{!AsioStream A} (r : socket) : outgoing (Go_ReadFrame r).1 = outgoing r.
Proof.
  destruct (Go_ReadFrame_cpp r FrameHeader_default) as (h & p & st & E & _).
  by destruct (ReadFrame_raw _ _ _ _ _ _ _ E).
Qed.

(** The bytes of a frame. *)
Definition encode_go (f : Go_FrameHeader * bytes) : bytes := encode_frame (to_cpp f.1, f.2).

#[global] Arguments encode_go : simpl never.
#[global] Arguments Go_Serialize : simpl never.

Lemma encode_go_split hdr req : encode_go (hdr, req) = Go_Serialize hdr ++ req.
Proof. unfold encode_go, encode_frame. by rw Go_Serialize_cpp. Qed.

Lemma concat_encode_go hdr req : concat (encode_go <$> [(hdr, req)]) = Go_Serialize hdr ++ req.
Proof. by rw -encode_go_split -(app_nil_r (encode_go _)). Qed.

(** ** Method identifiers *)

Lemma go_fnv_loop_cpp h s : nul_free s -> go_fnv_loop h s = fnv_loop h (c_str s).
Proof.
  revert h. induction s as [|c s IH]; intros h Hn; [done|]. unfold nul_free in *. simpl.
  rw byte_nonzero /=; [set_solver|]. rw byte_nonzero; [set_solver|].
  apply IH. set_solver.
Qed.

Lemma Go_Fnv1a32_cpp s : nul_free (bytes_of_string s) -> Go_Fnv1a32 s = method_hash s.
Proof. apply go_fnv_loop_cpp. Qed.

Lemma string_append_assoc (a b c : string) : (a +:+ b) +:+ c = a +:+ (b +:+ c).
Proof. induction a as [|x a IH]; [done|]. exact (f_equal (String x) IH). Qed.

Lemma Go_methodFullName_cpp pkg svc m : Go_methodFullName pkg svc m = method_full_name pkg svc m.
Proof. destruct pkg; [done|]. unfold method_full_name. simpl. by rw string_append_assoc. Qed.

Lemma Go_MethodID_cpp pkg svc m :
  nul_free (bytes_of_string (method_full_name pkg svc m)) ->
  Go_MethodID pkg svc m = method_hash (method_full_name pkg svc m).
Proof.
  intros Hn. rw -Go_Fnv1a32_cpp // -Go_methodFullName_cpp. by destruct pkg.
Qed.

Lemma Go_full_names_cpp files : Go_full_names files = request_methods files.
Proof.
  apply flat_map_ext. intros f. apply flat_map_ext. intros svc.
  apply list_fmap_ext. intros i m _. apply Go_methodFullName_cpp.
Qed.

Lemma Go_checkHashCollisions_cpp seen fulls :
  Forall (fun s => nul_free (bytes_of_string s)) fulls ->
  scan_methods seen fulls
  = (fun e => collision_error e.1 e.2) <$> Go_checkHashCollisions seen fulls.
Proof.
  intros H. revert seen. induction H as [|f fs Hf _ IH]; intros seen; [done|]. simpl.
  rw Go_Fnv1a32_cpp //. repeat case_match; done.
Qed.

(** The text of a code tells it apart from every other one. *)
Definition coded_text (x : string) : bool := String.prefix "St" x.

Lemma string_append_inj (a b c : string) : (a +:+ c = b +:+ c)%string -> a = b.
Proof.
  intros E. apply (f_equal String.list_ascii_of_string) in E.
  assert (forall s t, String.list_ascii_of_string (s +:+ t)
    = String.list_ascii_of_string s ++ String.list_ascii_of_string t) as H.
  { clear. induction s as [|x s IH]; intros t; [done|]. exact (f_equal (cons x) (IH t)). }
  rw !H in E. apply app_inv_tail in E. apply (f_equal String.string_of_list_ascii) in E.
  by rw !String.string_of_list_ascii_of_string in E.
Qed.

Lemma Go_StatusCode_String_inj c d : Go_StatusCode_String c = Go_StatusCode_String d -> c = d.
Proof.
  assert (forall c name, (list_to_map statusCodeNames : gmap Z string) !! c = Some name ->
    (c, name) ∈ statusCodeNames) as Hin by (intros ? ?; apply elem_of_list_to_map_2).
  assert (Forall (fun e => coded_text e.2 = false) statusCodeNames) as Hn by (by repeat constructor).
  assert (NoDup statusCodeNames.*2) as Hd by (by apply (bool_decide_unpack _); vm_compute).
  rw Forall_forall in Hn. unfold Go_StatusCode_String.
  destruct (_ !! c) as [x|] eqn:Ec; [apply Hin in Ec|]; (destruct (_ !! d) as [y|] eqn:Ed; [apply Hin in Ed|]).
  - intros ->. apply list_elem_of_lookup in Ec as [i Ei], Ed as [j Ej].
    assert (i = j) as ->; [|by simplify_eq].
    eapply (NoDup_lookup _ _ _ _ Hd); rw list_lookup_fmap; [by rw Ei|by rw Ej].
  - intros ->. by apply Hn in Ec.
  - intros E. rw -E in Ed. by apply Hn in Ed.
  - intros E. injection E as E. change (pretty c +:+ ")" = pretty d +:+ ")") in E. apply string_append_inj in E. by apply (inj pretty).
Qed.

(** ** Properties *)

(** C22: the two implementations speak the same wire format.  Go's header
    encoder and decoder are those of C++; Go's [ReadFrame] takes the same
    bytes off a connection as C++'s, fails exactly when it fails and returns
    the frame it returns; and Go's [WriteFrame], which writes header and
    payload separately, puts the bytes of the C++ frame on the connection, a
    prefix of them when a write fails. *)
Theorem go_wire_compatible {A : Asio} `{!AsioStream A} (c : socket) h buf p h0 :
  Go_Serialize h = Serialize (to_cpp h)
  /\ to_cpp (Go_DeserializeFrameHeader buf) = Deserialize buf
  /\ (exists h' p' st, AsyncTransport_ReadFrame c h0 [] = ((Go_ReadFrame c).1, h', p', st)
      /\ match (Go_ReadFrame c).2 with
         | inl (gh, gp) => h' = to_cpp gh /\ p' = gp /\ st = Status_default
         | inr _ => ok st = false
         end)
  /\ incoming (Go_WriteFrame c h p).1 = incoming c
  /\ match (Go_WriteFrame c h p).2 with
     | None => outgoing (Go_WriteFrame c h p).1 = outgoing c ++ encode_frame (to_cpp h, p)
     | Some _ => exists k, outgoing (Go_WriteFrame c h p).1
                          = outgoing c ++ take k (encode_frame (to_cpp h, p))
     end.
Proof.
  split; [apply Go_Serialize_cpp|]. split; [apply Go_Deserialize_cpp|].
  split; [apply Go_ReadFrame_cpp|]. by apply Go_WriteFrame_out, surjective_pairing.
Qed.

(** The two implementations route by the same identifiers.  For names
    without NUL bytes, a method has the same full name and the same id in
    both languages, and the Go plugin rejects a set of files exactly when the
    C++ plugin does, naming the same two methods. *)
Theorem go_method_ids_compatible files :
  Forall (fun s => nul_free (bytes_of_string s)) (request_methods files) ->
  (forall f svc m, f ∈ files -> svc ∈ f_service f -> m ∈ s_method svc ->
     Go_MethodID (f_package f) (s_name svc) (m_name m)
     = method_hash (method_full_name (f_package f) (s_name svc) (m_name m)))
  /\ Go_full_names files = request_methods files
  /\ scan_methods ∅ (request_methods files)
     = (fun e => collision_error e.1 e.2) <$> Go_checkHashCollisions ∅ (Go_full_names files).
Proof.
  intros H. split; [|by rw Go_full_names_cpp; split; [|apply Go_checkHashCollisions_cpp]].
  intros f svc m Hf Hs Hm. apply Go_MethodID_cpp. rw Forall_forall in H. apply H.
  unfold request_methods. rw list_elem_of_In in_flat_map. exists f. rw -!list_elem_of_In.
  split; [done|]. rw list_elem_of_In in_flat_map. exists svc. rw -!list_elem_of_In.
  split; [done|]. rw list_elem_of_fmap. by exists m.
Qed.

(** One file with one service. *)
Definition demo_method : MethodDescriptorProto := mkMethod "Say" ".demo.Req" ".demo.Resp".
Definition demo_service : ServiceDescriptorProto :=
  mkService "Echo" [demo_method; mkMethod "Shout" ".demo.Req" ".demo.Resp"].
Definition demo_file : FileDescriptorProto := mkFile "echo.proto" "demo" [demo_service].

Lemma go_method_ids_compatible_witness :
  Go_MethodID "demo" "Echo" "Say" = method_hash "/demo.Echo/Say"
  /\ Go_full_names [demo_file] = ["/demo.Echo/Say"; "/demo.Echo/Shout"].
Proof.
  assert (Forall (fun s => nul_free (bytes_of_string s)) (request_methods [demo_file])) as H.
  { repeat (apply Forall_cons_2; [vm_compute; set_solver|]). apply Forall_nil_2. }
  pose proof (go_method_ids_compatible [demo_file] H) as (Hid & Hn & _). split.
  - apply (Hid demo_file demo_service demo_method); left.
  - rw Hn. reflexivity.
Defined.
