(* ===== verification/GoWire.v ===== *)
(** * GoWire: the protobuf wire codec of the Go tests

    Model of go/internal/testpb/wire.go: an encoder and a decoder of protobuf
    fields, written by hand.  [uint64] and [int] keep their width: a length
    that does not fit an [int] turns negative, as in Go.  A decoder operation
    ends with a value, with an error, or with a run-time panic; the loops that
    use it can also still be [Running] when their fuel is used up.  A
    [float64] is its 64 bits. *)

From S2P Require Import Prelude.

Open Scope Z_scope.

(** [int(v)] and the arithmetic of [int]. *)
Definition i64 (z : Z) : Z := (z + 2 ^ 63) mod 2 ^ 64 - 2 ^ 63.

Definition WireVarint : Z := 0.
Definition WireFixed64 : Z := 1.
Definition WireBytes : Z := 2.
Definition WireFixed32 : Z := 5.

(** ** Encoder

    An [Encoder] is its buffer. *)

Abbreviation Encoder := bytes.

(** The loop of [appendVarint]: ten bytes hold a [uint64]. *)
Fixpoint appendVarint_loop (fuel : nat) (v : Z) (e : Encoder) : Encoder :=
  match fuel with
  | O => e
  | S fuel =>
    if 0x80 <=? v
    then appendVarint_loop fuel (Z.shiftr v 7) (e ++ [byte_of (Z.lor (u8 v) 0x80)])
    else e ++ [byte_of v]
  end.

Definition appendVarint (v : Z) (e : Encoder) : Encoder := appendVarint_loop 10 v e.

Definition appendTag (fieldNum wireType : Z) (e : Encoder) : Encoder :=
  appendVarint (Z.lor (u64 (Z.shiftl fieldNum 3)) (u64 wireType)) e.

Definition EncodeBytes (fieldNum : Z) (data : bytes) (e : Encoder) : Encoder :=
  match data with
  | [] => e
  | _ => appendVarint (u64 (size_of data)) (appendTag fieldNum WireBytes e) ++ data
  end.

(** A Go string is its bytes. *)
Definition EncodeString (fieldNum : Z) (s : bytes) (e : Encoder) : Encoder :=
  match s with
  | [] => e
  | _ => appendVarint (u64 (size_of s)) (appendTag fieldNum WireBytes e) ++ s
  end.

(** [v == 0] of a [float64]: there are two zeros. *)
Definition float_zero (v : Z) : bool := (v =? 0) || (v =? 2 ^ 63).

(** [binary.LittleEndian]. *)
Fixpoint le_bytes (n : nat) (v : Z) : bytes :=
  match n with
  | O => []
  | S n => byte_of v :: le_bytes n (Z.shiftr v 8)
  end.
Fixpoint le_value (b : bytes) : Z :=
  match b with
  | [] => 0
  | x :: b => Z.lor (byte_val x) (Z.shiftl (le_value b) 8)
  end.

Definition EncodeDouble (fieldNum v : Z) (e : Encoder) : Encoder :=
  if float_zero v then e else appendTag fieldNum WireFixed64 e ++ le_bytes 8 v.

Definition EncodeUint64 (fieldNum v : Z) (e : Encoder) : Encoder :=
  if v =? 0 then e else appendVarint v (appendTag fieldNum WireVarint e).

Definition EncodeUint32 (fieldNum v : Z) (e : Encoder) : Encoder :=
  if v =? 0 then e else appendVarint (u64 v) (appendTag fieldNum WireVarint e).

Definition EncodeBool (fieldNum : Z) (v : bool) (e : Encoder) : Encoder :=
  if negb v then e else appendVarint 1 (appendTag fieldNum WireVarint e).

(** ** Decoder *)

Record Decoder := mkDecoder { d_buf : bytes; d_pos : Z }.

Inductive res (A : Type) :=
| Ok (a : A)
| Err (msg : string)
| Panic
| Running.
Arguments Ok {A} a.
Arguments Err {A} msg.
Arguments Panic {A}.
Arguments Running {A}.

Definition DecM (A : Type) : Type := Decoder -> res (A * Decoder).

#[export] Instance DecM_ret : MRet DecM := fun A a d => Ok (a, d).
#[export] Instance DecM_bind : MBind DecM := fun A B k m d =>
  match m d with
  | Ok (a, d) => k a d
  | Err msg => Err msg
  | Panic => Panic
  | Running => Running
  end.

Definition fail {A} (msg : string) : DecM A := fun _ => Err msg.

Definition NewDecoder (data : bytes) : Decoder := mkDecoder data 0.
Definition Done (d : Decoder) : bool := size_of (d_buf d) <=? d_pos d.

(** [d.buf[i]]. *)
Definition index (d : Decoder) (i : Z) : option Byte.byte :=
  if i <? 0 then None else d_buf d !! Z.to_nat i.

(** The loop of [consumeVarint] in round [i = 10 - n]. *)
Fixpoint consume_loop (n : nat) (v : Z) (d : Decoder) : res (Z * Decoder) :=
  if Done d then Err "unexpected EOF in varint"
  else
    match n with
    | O => Err "varint too long"
    | S m =>
      match index d (d_pos d) with
      | None => Panic
      | Some b =>
        let v1 := Z.lor v (u64 (Z.shiftl (Z.land (byte_val b) 0x7F) (7 * (10 - Z.of_nat n)))) in
        let d1 := mkDecoder (d_buf d) (d_pos d + 1) in
        if byte_val b <? 0x80 then Ok (v1, d1) else consume_loop m v1 d1
      end
    end.

Definition consumeVarint : DecM Z := consume_loop 10 0.

Definition ReadTag : DecM (Z * Z) :=
  tag ← consumeVarint; mret (i64 (Z.shiftr tag 3), i64 (Z.land tag 0x7)).

Definition ReadVarint : DecM Z := consumeVarint.

(** [d.buf[lo:hi]]. *)
Definition slice_of (d : Decoder) (lo hi : Z) : option bytes :=
  if (lo <? 0) || (hi <? lo) || (size_of (d_buf d) <? hi) then None
  else Some (take (Z.to_nat (hi - lo)) (drop (Z.to_nat lo) (d_buf d))).

Definition ReadFixed64 : DecM Z := fun d =>
  if size_of (d_buf d) <? i64 (d_pos d + 8) then Err "unexpected EOF in fixed64"
  else
    match slice_of d (d_pos d) (d_pos d + 8) with
    | None => Panic
    | Some b => Ok (le_value b, mkDecoder (d_buf d) (i64 (d_pos d + 8)))
    end.

Definition ReadDouble : DecM Z := ReadFixed64.

(** The bytes of a field once its length is known.  [make([]byte, length)]
    panics when the length is not one of a slice. *)
Definition read_n (length : Z) : DecM bytes := fun d =>
  let stop := i64 (d_pos d + i64 length) in
  if size_of (d_buf d) <? stop then Err "unexpected EOF in bytes"
  else if 2 ^ 63 <=? length then Panic
  else
    match slice_of d (d_pos d) stop with
    | None => Panic
    | Some b => Ok (b, mkDecoder (d_buf d) stop)
    end.

Definition ReadBytes : DecM bytes := length ← consumeVarint; read_n length.

Definition ReadString : DecM bytes := ReadBytes.

Definition skip_by (n : Z) : DecM unit := fun d =>
  if size_of (d_buf d) <? i64 (d_pos d + n) then Err "EOF" else Ok (tt, mkDecoder (d_buf d) (i64 (d_pos d + n))).

Definition Skip (wireType : Z) : DecM unit :=
  if wireType =? WireVarint then (_ ← consumeVarint; mret tt)
  else if wireType =? WireFixed64 then skip_by 8
  else if wireType =? WireFixed32 then skip_by 4
  else if wireType =? WireBytes then (length ← consumeVarint; skip_by (i64 length))
  else fail "unknown wire type".

(** ** The loop of every [Unmarshal]

    [field] is the [switch] of a message. *)
Fixpoint unmarshal_loop {M} (field : Z -> Z -> M -> DecM M) (fuel : nat) (m : M) (d : Decoder) : res M :=
  match fuel with
  | O => Running
  | S fuel =>
    if Done d then Ok m
    else
      match ReadTag d with
      | Ok ((num, wt), d1) =>
        match field num wt m d1 with
        | Ok (m1, d2) => unmarshal_loop field fuel m1 d2
        | Err msg => Err msg
        | Panic => Panic
        | Running => Running
        end
      | Err msg => Err msg
      | Panic => Panic
      | Running => Running
      end
  end.

(** ** Varints *)

Lemma i64_small z : - 2 ^ 63 <= z < 2 ^ 63 -> i64 z = z.
Proof. intros H. unfold i64. rw Z.mod_small; lia. Qed.

Definition varint (v : Z) : bytes := appendVarint v [].

Lemma appendVarint_loop_app fuel v e : appendVarint_loop fuel v e = e ++ appendVarint_loop fuel v [].
Proof.
  revert v e. induction fuel as [|fuel IH]; intros v e; simpl; [by rw app_nil_r|].
  case_match; [|done]. by rw IH (IH _ [_]) app_assoc.
Qed.

Lemma appendVarint_app v e : appendVarint v e = e ++ varint v.
Proof. apply appendVarint_loop_app. Qed.

(** A decoder in front of [rest], after [pre]. *)
Definition at_ (pre rest : bytes) : Decoder := mkDecoder (pre ++ rest) (size_of pre).

Lemma at_next pre b rest : mkDecoder (pre ++ b :: rest) (size_of pre + 1) = at_ (pre ++ [b]) rest.
Proof. unfold at_. f_equal; [by rw -app_assoc|]. unfold size_of. rw length_app /=. lia. Qed.

Lemma at_app pre c rest : mkDecoder (pre ++ c ++ rest) (size_of (pre ++ c)) = at_ (pre ++ c) rest.
Proof. unfold at_. by rw app_assoc. Qed.

Lemma Done_cons pre b rest : Done (at_ pre (b :: rest)) = false.
Proof. unfold Done, at_, size_of. simpl. rw length_app /=. apply Z.leb_gt. lia. Qed.

Lemma Done_nil pre : Done (at_ pre []) = true.
Proof. unfold Done, at_. simpl. rw app_nil_r. apply Z.leb_refl. Qed.

Lemma index_at pre b rest : index (at_ pre (b :: rest)) (size_of pre) = Some b.
Proof.
  unfold index, at_, size_of. simpl. rw (proj2 (Z.ltb_ge _ _)); [lia|].
  rw Nat2Z.id lookup_app_r; [lia|]. by rw Nat.sub_diag.
Qed.

Lemma lor_high acc w k : 0 <= k -> 0 <= acc < 2 ^ k -> Z.lor acc (Z.shiftl w k) = acc + w * 2 ^ k.
Proof. intros Hk Ha. rw Z.shiftl_mul_pow2 // Z.lor_comm lor_mul_add //. apply Z.add_comm. Qed.

(** One byte of a varint. *)
Lemma low7 w : 0 <= w -> Z.land (byte_val (byte_of (Z.lor (u8 w) 0x80))) 0x7F = w mod 128
  /\ (byte_val (byte_of (Z.lor (u8 w) 0x80)) <? 0x80) = false.
Proof.
  intros Hw. rw byte_val_of. assert (Z.lor (u8 w) 0x80 = 128 + w mod 128) as ->.
  { unfold u8. change (2 ^ 8) with (128 * 2). rw Z.rem_mul_r //.
    assert (0 <= w / 128 mod 2 < 2) as Hb by (apply Z.mod_pos_bound; lia).
    assert (0 <= w mod 128 < 128) as Hl by (apply Z.mod_pos_bound; lia).
    revert Hl. generalize (w mod 128). intros m Hm.
    assert (Z.lor 128 m = 128 + m) as E by (apply (lor_mul_add 1 m 7); lia).
    assert (w / 128 mod 2 = 0 \/ w / 128 mod 2 = 1) as [-> | ->] by lia.
    - by rw Z.mul_0_r Z.add_0_r Z.lor_comm.
    - rw Z.mul_1_r (Z.add_comm m) -E Z.lor_comm Z.lor_assoc. by rw Z.lor_diag. }
  assert (0 <= w mod 128 < 128) as Hl by (apply Z.mod_pos_bound; lia).
  rw u8_small; [unfold is_u8; lia|]. split; [|apply Z.ltb_ge; lia].
  change 0x7F with (Z.ones 7). rw Z.land_ones //. change (2 ^ 7) with 128.
  replace (128 + w mod 128) with (w mod 128 + 1 * 128) by lia. rw Z.mod_add //. by apply Z.mod_small.
Qed.

Lemma low7_last w : 0 <= w < 128 -> Z.land (byte_val (byte_of w)) 0x7F = w
  /\ (byte_val (byte_of w) <? 0x80) = true.
Proof.
  intros Hw. rw byte_val_of u8_small; [unfold is_u8; lia|]. split; [|apply Z.ltb_lt; lia].
  change 0x7F with (Z.ones 7). rw Z.land_ones //. by apply Z.mod_small.
Qed.

Lemma consume_varint n w acc pre rest :
  (n <= 10)%nat -> 0 <= w < 2 ^ (7 * Z.of_nat n - 6) -> 0 <= acc < 2 ^ (7 * (10 - Z.of_nat n)) ->
  consume_loop n acc (at_ pre (appendVarint_loop n w [] ++ rest))
  = Ok (acc + w * 2 ^ (7 * (10 - Z.of_nat n)), at_ (pre ++ appendVarint_loop n w []) rest).
Proof.
  revert w acc pre. induction n as [|n IH]; intros w acc pre Hn Hw Ha.
  { exfalso. simpl in Hw. lia. }
  set (k := 7 * (10 - Z.of_nat (S n))) in *. assert (0 <= k) by lia.
  cbn [appendVarint_loop]. destruct (Z.leb_spec 0x80 w) as [Hlarge|Hsmall].
  - rw appendVarint_loop_app -!app_assoc. cbn [app consume_loop]. rw Done_cons.
    change (d_pos (at_ pre _)) with (size_of pre). rw index_at. destruct (low7 w ltac:(lia)) as [-> ->].
    fold k. assert (0 <= w mod 128 < 128) by (apply Z.mod_pos_bound; lia).
    assert (1 <= n)%nat by (destruct n; [simpl in Hw; lia|lia]).
    assert (k + 7 <= 63) by lia.
    assert (u64 (Z.shiftl (w mod 128) k) = Z.shiftl (w mod 128) k) as ->.
    { apply u64_small. unfold is_u64. rw Z.shiftl_mul_pow2 //. split; [nia|].
      assert (2 ^ (k + 7) <= 2 ^ 63) as Hp by (apply Z.pow_le_mono_r; lia). rw Z.pow_add_r // in Hp. nia. }
    rw lor_high //. unfold at_ at 1. cbn [d_buf]. rw at_next.
    rw Z.shiftr_div_pow2 //. change (2 ^ 7) with 128. rw IH.
    + lia.
    + split; [apply Z.div_pos; lia|]. apply Z.div_lt_upper_bound; [lia|].
      change 128 with (2 ^ 7). rw -Z.pow_add_r; [lia|lia|]. replace (7 + (7 * Z.of_nat n - 6)) with (7 * Z.of_nat (S n) - 6) by lia. lia.
    + replace (7 * (10 - Z.of_nat n)) with (k + 7) by lia. rw Z.pow_add_r //. nia.
    + f_equal. f_equal; [|by rw -app_assoc].
      replace (7 * (10 - Z.of_nat n)) with (k + 7) by lia. rw Z.pow_add_r //.
      rw {3}(Z.div_mod w 128); lia.
  - cbn [app consume_loop]. rw Done_cons. change (d_pos (at_ pre _)) with (size_of pre). rw index_at.
    destruct (low7_last w ltac:(lia)) as [-> ->]. fold k.
    assert (u64 (Z.shiftl w k) = Z.shiftl w k) as ->.
    { apply u64_small. unfold is_u64. rw Z.shiftl_mul_pow2 //. split; [nia|].
      replace (2 ^ 64) with (2 ^ (7 * Z.of_nat (S n) - 6) * 2 ^ k); [nia|]. rw -Z.pow_add_r; [lia|lia|]. f_equal. lia. }
    rw lor_high //. unfold at_ at 1. cbn [d_buf]. by rw at_next.
Qed.

Lemma consumeVarint_at v pre rest :
  is_u64 v -> consumeVarint (at_ pre (varint v ++ rest)) = Ok (v, at_ (pre ++ varint v) rest).
Proof.
  intros Hv. unfold consumeVarint, varint, appendVarint. rw consume_varint; [lia|exact Hv|simpl; lia|].
  do 2 f_equal. simpl. lia.
Qed.

Lemma appendVarint_loop_nonempty n v e : appendVarint_loop (S n) v e <> [].
Proof. revert v e. induction n as [|n IH]; intros v e; simpl; case_match; try (by destruct e). apply IH. Qed.

(** ** Fields *)

Definition tag (fieldNum wireType : Z) : bytes := appendTag fieldNum wireType [].

Lemma appendTag_app num wt e : appendTag num wt e = e ++ tag num wt.
Proof. unfold tag, appendTag. by rw appendVarint_app (appendVarint_app _ []). Qed.

(** The numbers of fields in use, and the wire types. *)
Definition field_ok (num wt : Z) : Prop := 1 <= num < 16 /\ 0 <= wt < 8.

Lemma ReadTag_at num wt pre rest :
  field_ok num wt -> ReadTag (at_ pre (tag num wt ++ rest)) = Ok ((num, wt), at_ (pre ++ tag num wt) rest).
Proof.
  intros [Hn Hw]. unfold ReadTag, tag, appendTag.
  assert (Z.lor (u64 (Z.shiftl num 3)) (u64 wt) = num * 2 ^ 3 + wt) as ->.
  { rw Z.shiftl_mul_pow2 // !u64_small; [unfold is_u64; lia|unfold is_u64; lia|]. apply lor_mul_add; lia. }
  unfold mbind, DecM_bind. rw consumeVarint_at; [unfold is_u64; lia|]. unfold mret, DecM_ret.
  do 3 f_equal.
  - rw Z.shiftr_div_pow2 // Z.div_add_l // Z.div_small; [lia|]. rw i64_small; lia.
  - change 7 with (Z.ones 3). rw Z.land_ones // Z.add_comm Z.mod_add // Z.mod_small; [lia|]. rw i64_small; lia.
Qed.

Lemma le_value_bytes n v : 0 <= v < 2 ^ (8 * Z.of_nat n) -> le_value (le_bytes n v) = v.
Proof.
  revert v. induction n as [|n IH]; intros v Hv; [simpl in *; lia|]. cbn [le_bytes le_value].
  rw Z.shiftr_div_pow2 // IH.
  { split; [apply Z.div_pos; lia|]. apply Z.div_lt_upper_bound; [lia|]. rw -Z.pow_add_r; [lia|lia|].
    replace (8 + 8 * Z.of_nat n) with (8 * Z.of_nat (S n)) by lia. lia. }
  rw byte_val_of lor_high //; [apply u8_range|]. unfold u8. rw {3}(Z.div_mod v (2 ^ 8)); lia.
Qed.

Lemma length_le_bytes n v : length (le_bytes n v) = n.
Proof. revert v. induction n as [|n IH]; intros v; [done|]. simpl. by rw IH. Qed.

(** A buffer that fits in memory. *)
Definition fits (b : bytes) : Prop := size_of b < 2 ^ 62.

Lemma size_of_app {X} (a b : list X) : size_of (a ++ b) = size_of a + size_of b.
Proof. unfold size_of. rw length_app. lia. Qed.

Lemma slice_at pre c rest : slice_of (at_ pre (c ++ rest)) (size_of pre) (size_of (pre ++ c)) = Some c.
Proof.
  pose proof (size_of_nonneg pre). pose proof (size_of_nonneg c). pose proof (size_of_nonneg rest).
  unfold slice_of, at_. cbn [d_buf]. rw !size_of_app.
  rw !(proj2 (Z.ltb_ge _ _)) /=; [lia..|]. unfold size_of. rw Nat2Z.id drop_app_length.
  replace (Z.to_nat _) with (length c) by lia. by rw take_app_length.
Qed.

Lemma ReadFixed64_at v pre rest :
  is_u64 v -> fits (pre ++ le_bytes 8 v ++ rest) ->
  ReadFixed64 (at_ pre (le_bytes 8 v ++ rest)) = Ok (v, at_ (pre ++ le_bytes 8 v) rest).
Proof.
  intros Hv Hf. unfold fits in Hf. rw !size_of_app in Hf. unfold ReadFixed64.
  change (d_pos (at_ pre _)) with (size_of pre).
  assert (size_of pre + 8 = size_of (pre ++ le_bytes 8 v)) as ->
    by (rw size_of_app; unfold size_of; rw length_le_bytes; lia).
  pose proof (size_of_nonneg pre). pose proof (size_of_nonneg (le_bytes 8 v)). pose proof (size_of_nonneg rest).
  rw i64_small; [rw size_of_app; lia|]. rw slice_at (proj2 (Z.ltb_ge _ _)).
  { unfold at_. cbn [d_buf]. rw !size_of_app. lia. }
  unfold at_ at 1. cbn [d_buf]. rw at_app le_value_bytes //.
Qed.

Lemma ReadBytes_at data pre rest :
  fits (pre ++ varint (size_of data) ++ data ++ rest) ->
  ReadBytes (at_ pre (varint (size_of data) ++ data ++ rest)) = Ok (data, at_ (pre ++ varint (size_of data) ++ data) rest).
Proof.
  intros Hf. unfold fits in Hf. rw !size_of_app in Hf.
  pose proof (size_of_nonneg pre). pose proof (size_of_nonneg data). pose proof (size_of_nonneg rest).
  pose proof (size_of_nonneg (varint (size_of data))). unfold ReadBytes, mbind, DecM_bind.
  rw consumeVarint_at; [unfold is_u64; lia|]. unfold read_n. change (d_pos (at_ ?p _)) with (size_of p).
  rw (i64_small (size_of data)); [lia|]. rw -size_of_app i64_small; [rw !size_of_app; lia|].
  rw slice_at (proj2 (Z.ltb_ge _ _)); [unfold at_; cbn [d_buf]; rw !size_of_app; lia|].
  rw (proj2 (Z.leb_gt _ _)); [lia|]. unfold at_ at 1. cbn [d_buf]. by rw at_app -app_assoc.
Qed.
