(* ===== verification/GoMessages.v ===== *)
(** * GoMessages: the messages of the Go tests

    Model of go/internal/testpb/messages.go: the messages of the example
    protocols with their [Marshal] and [Unmarshal], over the codec of [GoWire].
    [X_field] is the [switch] of the loop in [Unmarshal]; the fuel bounds the
    rounds of the loop. *)

From S2P Require Import Prelude.
From S2P Require Import GoWire.

Open Scope Z_scope.

(** ** Messages *)

Record HelloRequest := mkHelloRequest { HelloRequest_Name : bytes }.
Definition HelloRequest_zero : HelloRequest := mkHelloRequest [].

Definition HelloRequest_Marshal (m : HelloRequest) : bytes :=
  EncodeString 1 (HelloRequest_Name m) [].

Definition HelloRequest_field (num wt : Z) (m : HelloRequest) : DecM HelloRequest :=
  if num =? 1 then (v ← ReadString; mret (mkHelloRequest v)) else
  (_ ← Skip wt; mret m).

Definition HelloRequest_Unmarshal (fuel : nat) (m : HelloRequest) (data : bytes) : res HelloRequest :=
  unmarshal_loop HelloRequest_field fuel m (NewDecoder data).

Record HelloReply := mkHelloReply { HelloReply_Message : bytes }.
Definition HelloReply_zero : HelloReply := mkHelloReply [].

Definition HelloReply_Marshal (m : HelloReply) : bytes :=
  EncodeString 1 (HelloReply_Message m) [].

Definition HelloReply_field (num wt : Z) (m : HelloReply) : DecM HelloReply :=
  if num =? 1 then (v ← ReadString; mret (mkHelloReply v)) else
  (_ ← Skip wt; mret m).

Definition HelloReply_Unmarshal (fuel : nat) (m : HelloReply) (data : bytes) : res HelloReply :=
  unmarshal_loop HelloReply_field fuel m (NewDecoder data).

Record CalcRequest := mkCalcRequest { CalcRequest_A : Z; CalcRequest_B : Z }.
Definition CalcRequest_zero : CalcRequest := mkCalcRequest 0 0.

Definition CalcRequest_Marshal (m : CalcRequest) : bytes :=
  EncodeDouble 2 (CalcRequest_B m) (EncodeDouble 1 (CalcRequest_A m) []).

Definition CalcRequest_field (num wt : Z) (m : CalcRequest) : DecM CalcRequest :=
  if num =? 1 then (v ← ReadDouble; mret (mkCalcRequest v (CalcRequest_B m))) else
  if num =? 2 then (v ← ReadDouble; mret (mkCalcRequest (CalcRequest_A m) v)) else
  (_ ← Skip wt; mret m).

Definition CalcRequest_Unmarshal (fuel : nat) (m : CalcRequest) (data : bytes) : res CalcRequest :=
  unmarshal_loop CalcRequest_field fuel m (NewDecoder data).

Record CalcResponse := mkCalcResponse { CalcResponse_Result : Z; CalcResponse_Error : bytes }.
Definition CalcResponse_zero : CalcResponse := mkCalcResponse 0 [].

Definition CalcResponse_Marshal (m : CalcResponse) : bytes :=
  EncodeString 2 (CalcResponse_Error m) (EncodeDouble 1 (CalcResponse_Result m) []).

Definition CalcResponse_field (num wt : Z) (m : CalcResponse) : DecM CalcResponse :=
  if num =? 1 then (v ← ReadDouble; mret (mkCalcResponse v (CalcResponse_Error m))) else
  if num =? 2 then (v ← ReadString; mret (mkCalcResponse (CalcResponse_Result m) v)) else
  (_ ← Skip wt; mret m).

Definition CalcResponse_Unmarshal (fuel : nat) (m : CalcResponse) (data : bytes) : res CalcResponse :=
  unmarshal_loop CalcResponse_field fuel m (NewDecoder data).

Record ChatMessage := mkChatMessage { ChatMessage_Sender : bytes; ChatMessage_Text : bytes; ChatMessage_Timestamp : Z }.
Definition ChatMessage_zero : ChatMessage := mkChatMessage [] [] 0.

Definition ChatMessage_Marshal (m : ChatMessage) : bytes :=
  EncodeUint64 3 (ChatMessage_Timestamp m) (EncodeString 2 (ChatMessage_Text m) (EncodeString 1 (ChatMessage_Sender m) [])).

Definition ChatMessage_field (num wt : Z) (m : ChatMessage) : DecM ChatMessage :=
  if num =? 1 then (v ← ReadString; mret (mkChatMessage v (ChatMessage_Text m) (ChatMessage_Timestamp m))) else
  if num =? 2 then (v ← ReadString; mret (mkChatMessage (ChatMessage_Sender m) v (ChatMessage_Timestamp m))) else
  if num =? 3 then (v ← ReadVarint; mret (mkChatMessage (ChatMessage_Sender m) (ChatMessage_Text m) v)) else
  (_ ← Skip wt; mret m).

Definition ChatMessage_Unmarshal (fuel : nat) (m : ChatMessage) (data : bytes) : res ChatMessage :=
  unmarshal_loop ChatMessage_field fuel m (NewDecoder data).

Record SendResult := mkSendResult { SendResult_Success : bool; SendResult_MessageID : bytes }.
Definition SendResult_zero : SendResult := mkSendResult false [].

Definition SendResult_Marshal (m : SendResult) : bytes :=
  EncodeString 2 (SendResult_MessageID m) (EncodeBool 1 (SendResult_Success m) []).

Definition SendResult_field (num wt : Z) (m : SendResult) : DecM SendResult :=
  if num =? 1 then (v ← ReadVarint; mret (mkSendResult (negb (v =? 0)) (SendResult_MessageID m))) else
  if num =? 2 then (v ← ReadString; mret (mkSendResult (SendResult_Success m) v)) else
  (_ ← Skip wt; mret m).

Definition SendResult_Unmarshal (fuel : nat) (m : SendResult) (data : bytes) : res SendResult :=
  unmarshal_loop SendResult_field fuel m (NewDecoder data).

Record HistoryRequest := mkHistoryRequest { HistoryRequest_Limit : Z }.
Definition HistoryRequest_zero : HistoryRequest := mkHistoryRequest 0.

Definition HistoryRequest_Marshal (m : HistoryRequest) : bytes :=
  EncodeUint32 1 (HistoryRequest_Limit m) [].

Definition HistoryRequest_field (num wt : Z) (m : HistoryRequest) : DecM HistoryRequest :=
  if num =? 1 then (v ← ReadVarint; mret (mkHistoryRequest (u32 v))) else
  (_ ← Skip wt; mret m).

Definition HistoryRequest_Unmarshal (fuel : nat) (m : HistoryRequest) (data : bytes) : res HistoryRequest :=
  unmarshal_loop HistoryRequest_field fuel m (NewDecoder data).

Record HistoryResponse := mkHistoryResponse { HistoryResponse_Messages : list ChatMessage; HistoryResponse_Total : Z }.
Definition HistoryResponse_zero : HistoryResponse := mkHistoryResponse [] 0.

Definition HistoryResponse_Marshal (m : HistoryResponse) : bytes :=
  EncodeUint32 2 (HistoryResponse_Total m)
    (foldl (fun e msg => EncodeBytes 1 (ChatMessage_Marshal msg) e) [] (HistoryResponse_Messages m)).

(** [msg.Unmarshal(msgData)] inside the loop, with the same fuel. *)
Definition in_decoder {A} (r : res A) : DecM A := fun d =>
  match r with Ok a => Ok (a, d) | Err msg => Err msg | Panic => Panic | Running => Running end.

Definition HistoryResponse_field (fuel : nat) (num wt : Z) (m : HistoryResponse) : DecM HistoryResponse :=
  if num =? 1 then
    (msgData ← ReadBytes;
     msg ← in_decoder (ChatMessage_Unmarshal fuel ChatMessage_zero msgData);
     mret (mkHistoryResponse (HistoryResponse_Messages m ++ [msg]) (HistoryResponse_Total m))) else
  if num =? 2 then (v ← ReadVarint; mret (mkHistoryResponse (HistoryResponse_Messages m) (u32 v))) else
  (_ ← Skip wt; mret m).

Definition HistoryResponse_Unmarshal (fuel : nat) (m : HistoryResponse) (data : bytes) : res HistoryResponse :=
  unmarshal_loop (HistoryResponse_field fuel) fuel m (NewDecoder data).

Record PingRequest := mkPingRequest { PingRequest_SentAt : Z }.
Definition PingRequest_zero : PingRequest := mkPingRequest 0.

Definition PingRequest_Marshal (m : PingRequest) : bytes :=
  EncodeUint64 1 (PingRequest_SentAt m) [].

Definition PingRequest_field (num wt : Z) (m : PingRequest) : DecM PingRequest :=
  if num =? 1 then (v ← ReadVarint; mret (mkPingRequest v)) else
  (_ ← Skip wt; mret m).

Definition PingRequest_Unmarshal (fuel : nat) (m : PingRequest) (data : bytes) : res PingRequest :=
  unmarshal_loop PingRequest_field fuel m (NewDecoder data).

Record PongResponse := mkPongResponse { PongResponse_SentAt : Z; PongResponse_ReceivedAt : Z }.
Definition PongResponse_zero : PongResponse := mkPongResponse 0 0.

Definition PongResponse_Marshal (m : PongResponse) : bytes :=
  EncodeUint64 2 (PongResponse_ReceivedAt m) (EncodeUint64 1 (PongResponse_SentAt m) []).

Definition PongResponse_field (num wt : Z) (m : PongResponse) : DecM PongResponse :=
  if num =? 1 then (v ← ReadVarint; mret (mkPongResponse v (PongResponse_ReceivedAt m))) else
  if num =? 2 then (v ← ReadVarint; mret (mkPongResponse (PongResponse_SentAt m) v)) else
  (_ ← Skip wt; mret m).

Definition PongResponse_Unmarshal (fuel : nat) (m : PongResponse) (data : bytes) : res PongResponse :=
  unmarshal_loop PongResponse_field fuel m (NewDecoder data).

(** ** Decoding what was encoded

    The encoded fields of a message, one chunk each; a default value has
    none. *)

Definition bytes_chunks (num : Z) (s : bytes) : list bytes :=
  match s with [] => [] | _ => [tag num WireBytes ++ varint (size_of s) ++ s] end.
Definition double_chunks (num v : Z) : list bytes :=
  if float_zero v then [] else [tag num WireFixed64 ++ le_bytes 8 v].
Definition varint_chunks (num v : Z) : list bytes :=
  if v =? 0 then [] else [tag num WireVarint ++ varint v].

Lemma EncodeString_chunks num s e : fits s -> EncodeString num s e = e ++ concat (bytes_chunks num s).
Proof.
  intros Hs. unfold fits in Hs. unfold EncodeString, bytes_chunks. destruct s as [|x s]; [by rw app_nil_r|].
  pose proof (size_of_nonneg (x :: s)).
  rw u64_small; [unfold is_u64; lia|]. rw appendVarint_app appendTag_app. simpl. by rw app_nil_r !app_assoc.
Qed.

Lemma EncodeBytes_chunks num s e : fits s -> EncodeBytes num s e = e ++ concat (bytes_chunks num s).
Proof. apply EncodeString_chunks. Qed.

Lemma EncodeDouble_chunks num v e : EncodeDouble num v e = e ++ concat (double_chunks num v).
Proof.
  unfold EncodeDouble, double_chunks. case_match; [by rw app_nil_r|].
  rw appendTag_app. simpl. by rw app_nil_r app_assoc.
Qed.

Lemma EncodeUint64_chunks num v e : EncodeUint64 num v e = e ++ concat (varint_chunks num v).
Proof.
  unfold EncodeUint64, varint_chunks. case_match; [by rw app_nil_r|].
  rw appendVarint_app appendTag_app. simpl. by rw app_nil_r app_assoc.
Qed.

Lemma EncodeUint32_chunks num v e : is_u32 v -> EncodeUint32 num v e = e ++ concat (varint_chunks num v).
Proof.
  intros Hv. rw -EncodeUint64_chunks. unfold EncodeUint32, EncodeUint64.
  rw u64_small //. unfold is_u32, is_u64 in *. lia.
Qed.

Lemma EncodeBool_chunks num (v : bool) e : EncodeBool num v e = e ++ concat (varint_chunks num (if v then 1 else 0)).
Proof. rw -EncodeUint64_chunks. by destruct v. Qed.

(** The loop takes the chunks one after the other, from message to message. *)
Section Decodes.
Context {M : Type} (field : Z -> Z -> M -> DecM M).

Definition reads (m : M) (chunk : bytes) (m' : M) : Prop :=
  exists num wt body, chunk = tag num wt ++ body /\ field_ok num wt
  /\ forall pre rest, fits (pre ++ body ++ rest) -> field num wt m (at_ pre (body ++ rest)) = Ok (m', at_ (pre ++ body) rest).

Inductive decodes (m : M) : list bytes -> M -> Prop :=
| decodes_nil : decodes m [] m
| decodes_snoc cs m1 c m2 : decodes m cs m1 -> reads m1 c m2 -> decodes m (cs ++ [c]) m2.

Lemma decodes_app m cs1 m1 cs2 m2 : decodes m cs1 m1 -> decodes m1 cs2 m2 -> decodes m (cs1 ++ cs2) m2.
Proof.
  intros H1 H2. induction H2 as [|cs m2 c m3 _ IH Hc]; [by rw app_nil_r|].
  rw app_assoc. by eapply decodes_snoc.
Qed.

Lemma decodes_one m c m' : reads m c m' -> decodes m [c] m'.
Proof. intros H. apply (decodes_snoc _ [] m); [constructor|done]. Qed.

Lemma decodes_bytes num m s (set : bytes -> M) :
  1 <= num < 16 -> field num WireBytes m = (v ← ReadBytes; mret (set v)) -> set [] = m ->
  decodes m (bytes_chunks num s) (set s).
Proof.
  intros Hn Hf H0. destruct s as [|x s]; [rw H0; constructor|]. apply decodes_one.
  exists num, WireBytes, (varint (size_of (x :: s)) ++ x :: s). split; [done|].
  split; [by unfold field_ok, WireBytes; lia|].
  intros pre rest Hfit. rw Hf. unfold mbind, DecM_bind. rw -app_assoc in Hfit. by rw -app_assoc ReadBytes_at.
Qed.

Lemma decodes_double num m v (set : Z -> M) :
  1 <= num < 16 -> field num WireFixed64 m = (v ← ReadDouble; mret (set v)) -> set 0 = m ->
  is_u64 v -> v <> 2 ^ 63 -> decodes m (double_chunks num v) (set v).
Proof.
  intros Hn Hf H0 Hv Hz. unfold double_chunks, float_zero. destruct (Z.eqb_spec v 0) as [->|Hne]; [rw H0; constructor|].
  rw (proj2 (Z.eqb_neq v (2 ^ 63)) Hz). apply decodes_one. exists num, WireFixed64, (le_bytes 8 v). split; [done|].
  split; [by unfold field_ok, WireFixed64; lia|]. intros pre rest Hfit. rw Hf. unfold mbind, DecM_bind, ReadDouble.
  by rw ReadFixed64_at.
Qed.

Lemma decodes_varint num m v (set : Z -> M) :
  1 <= num < 16 -> field num WireVarint m = (v ← ReadVarint; mret (set v)) -> set 0 = m ->
  is_u64 v -> decodes m (varint_chunks num v) (set v).
Proof.
  intros Hn Hf H0 Hv. unfold varint_chunks. destruct (Z.eqb_spec v 0) as [->|Hne]; [rw H0; constructor|].
  apply decodes_one. exists num, WireVarint, (varint v). split; [done|].
  split; [by unfold field_ok, WireVarint; lia|]. intros pre rest Hfit. rw Hf. unfold mbind, DecM_bind, ReadVarint.
  by rw consumeVarint_at.
Qed.

Lemma tag_nonempty num wt : tag num wt <> [].
Proof. apply (appendVarint_loop_nonempty 9). Qed.

(** One round of the loop. *)
Lemma unmarshal_round fuel m c m' pre rest :
  reads m c m' -> fits (pre ++ c ++ rest) ->
  unmarshal_loop field (S fuel) m (at_ pre (c ++ rest)) = unmarshal_loop field fuel m' (at_ (pre ++ c) rest).
Proof.
  intros (num & wt & body & -> & Hok & Hf) Hfit. cbn [unmarshal_loop].
  assert (Done (at_ pre ((tag num wt ++ body) ++ rest)) = false) as ->.
  { pose proof (tag_nonempty num wt). destruct (tag num wt); [done|]. apply Done_cons. }
  rw -app_assoc ReadTag_at //. rw Hf; [|by rw app_assoc]. by rw -!app_assoc in Hfit |- *.
Qed.

Lemma unmarshal_chunks fuel m cs m' pre rest :
  decodes m cs m' -> fits (pre ++ concat cs ++ rest) ->
  unmarshal_loop field (length cs + fuel) m (at_ pre (concat cs ++ rest))
  = unmarshal_loop field fuel m' (at_ (pre ++ concat cs) rest).
Proof.
  intros H. revert fuel rest. induction H as [|cs m1 c m2 H IH Hc]; intros fuel rest Hfit.
  - simpl. by rw app_nil_r.
  - rw concat_app /= app_nil_r length_app /= in Hfit |- *. rw -Nat.add_assoc -app_assoc IH.
    + by rw -app_assoc in Hfit.
    + rw -app_assoc in Hfit. cbn [plus]. rw (unmarshal_round _ _ _ _ _ _ Hc); [by rw -!app_assoc|]. by rw -app_assoc.
Qed.
End Decodes.

(** A message whose encoding is a list of chunks, decoded from the zero
    value. *)
Lemma unmarshal_message {M} (field : Z -> Z -> M -> DecM M) fuel m0 cs m data :
  data = concat cs -> decodes field m0 cs m -> fits data -> (length data < fuel)%nat ->
  unmarshal_loop field fuel m0 (NewDecoder data) = Ok m.
Proof.
  intros -> H Hfit Hfuel. assert (length cs <= length (concat cs))%nat as Hl.
  { clear Hfit Hfuel. induction H as [|cs m1 c m2 _ IH (num & wt & body & -> & _)]; [done|].
    rw concat_app !length_app. pose proof (tag_nonempty num wt).
    destruct (tag num wt); [done|]. simpl. lia. }
  replace fuel with (length cs + S (fuel - length cs - 1))%nat by lia.
  change (NewDecoder (concat cs)) with (at_ [] (concat cs)). rw -(app_nil_r (concat cs)).
  rw (unmarshal_chunks _ _ _ _ _ _ _ H); [by rw app_nil_r|]. cbn [unmarshal_loop]. by rw Done_nil.
Qed.

(** *** What the fields can hold *)

Definition double_ok (v : Z) : Prop := is_u64 v /\ v <> 2 ^ 63.
Definition ChatMessage_ok (m : ChatMessage) : Prop :=
  fits (ChatMessage_Sender m) /\ fits (ChatMessage_Text m) /\ is_u64 (ChatMessage_Timestamp m).

Definition ChatMessage_chunks (m : ChatMessage) : list bytes :=
  bytes_chunks 1 (ChatMessage_Sender m) ++ bytes_chunks 2 (ChatMessage_Text m)
  ++ varint_chunks 3 (ChatMessage_Timestamp m).

Lemma ChatMessage_Marshal_chunks m : ChatMessage_ok m -> ChatMessage_Marshal m = concat (ChatMessage_chunks m).
Proof.
  intros (Hs & Ht & _). unfold ChatMessage_Marshal, ChatMessage_chunks.
  by rw EncodeUint64_chunks !EncodeString_chunks // !concat_app !app_assoc.
Qed.

Lemma ChatMessage_decodes m : ChatMessage_ok m -> decodes ChatMessage_field ChatMessage_zero (ChatMessage_chunks m) m.
Proof.
  intros (_ & _ & Hts). destruct m as [s t ts]. simpl in *. unfold ChatMessage_chunks. simpl.
  eapply decodes_app; [by apply (decodes_bytes _ 1 _ s (fun v => mkChatMessage v [] 0))|].
  eapply decodes_app; [by apply (decodes_bytes _ 2 _ t (fun v => mkChatMessage s v 0))|].
  by apply (decodes_varint _ 3 _ ts (fun v => mkChatMessage s t v)).
Qed.

(** What is encoded is decoded, with fuel for a round per byte. *)
Definition roundtrips {M} (Marshal : M -> bytes) (Unmarshal : nat -> M -> bytes -> res M) (zero m : M) : Prop :=
  forall fuel, fits (Marshal m) -> (length (Marshal m) < fuel)%nat -> Unmarshal fuel zero (Marshal m) = Ok m.

Lemma ChatMessage_roundtrip m :
  ChatMessage_ok m -> roundtrips ChatMessage_Marshal ChatMessage_Unmarshal ChatMessage_zero m.
Proof.
  intros Hm fuel. unfold ChatMessage_Unmarshal.
  apply (unmarshal_message _ _ _ (ChatMessage_chunks m)); [by apply ChatMessage_Marshal_chunks|by apply ChatMessage_decodes].
Qed.

(** *** The history *)

Definition history_chunks (msgs : list ChatMessage) : list bytes :=
  flat_map (fun msg => bytes_chunks 1 (ChatMessage_Marshal msg)) msgs.

(** A message that the encoder does not drop. *)
Definition kept (msg : ChatMessage) : Prop :=
  ChatMessage_ok msg /\ fits (ChatMessage_Marshal msg) /\ ChatMessage_Marshal msg <> [].

Lemma history_Marshal_chunks msgs e :
  Forall kept msgs ->
  foldl (fun e msg => EncodeBytes 1 (ChatMessage_Marshal msg) e) e msgs = e ++ concat (history_chunks msgs).
Proof.
  intros H. revert e. induction H as [|msg msgs (_ & Hf & _) _ IH]; intros e; simpl; [by rw app_nil_r|].
  by rw EncodeBytes_chunks // IH concat_app app_assoc.
Qed.

Lemma history_decodes fuel acc msgs :
  Forall kept msgs -> Forall (fun msg => length (ChatMessage_Marshal msg) < fuel)%nat msgs ->
  decodes (HistoryResponse_field fuel) (mkHistoryResponse acc 0) (history_chunks msgs) (mkHistoryResponse (acc ++ msgs) 0).
Proof.
  intros H. revert acc. induction H as [|msg msgs (Hok & Hf & Hne) _ IH]; intros acc Hlen.
  { rw app_nil_r. constructor. }
  apply Forall_cons_1 in Hlen as [Hm Hlen]. replace (acc ++ msg :: msgs) with ((acc ++ [msg]) ++ msgs) by (by rw -app_assoc).
  eapply decodes_app; [|by apply IH]. unfold bytes_chunks. pose proof (ChatMessage_roundtrip _ Hok _ Hf Hm) as Hr.
  destruct (ChatMessage_Marshal msg) as [|x s] eqn:E; [done|]. apply decodes_one.
  exists 1, WireBytes, (varint (size_of (x :: s)) ++ x :: s). split; [done|]. split; [by unfold field_ok, WireBytes; lia|].
  intros pre rest Hfit. rw -app_assoc in Hfit. unfold HistoryResponse_field, mbind, DecM_bind.
  change (1 =? 1) with true. cbv iota. rw -app_assoc ReadBytes_at //. unfold in_decoder. by rw Hr.
Qed.

Lemma history_chunk_length msgs msg :
  msg ∈ msgs -> fits (ChatMessage_Marshal msg) -> ChatMessage_Marshal msg <> [] ->
  (length (ChatMessage_Marshal msg) <= length (concat (history_chunks msgs)))%nat.
Proof.
  intros Hin Hf Hne. induction msgs as [|y msgs IH]; [by apply elem_of_nil in Hin|].
  cbn [history_chunks flat_map]. rw concat_app length_app. apply elem_of_cons in Hin as [<-|Hin].
  - unfold bytes_chunks. destruct (ChatMessage_Marshal msg); [done|]. cbn [concat]. rw app_nil_r !length_app. lia.
  - specialize (IH Hin). unfold history_chunks in IH. lia.
Qed.

Lemma HistoryResponse_roundtrip m :
  Forall kept (HistoryResponse_Messages m) -> is_u32 (HistoryResponse_Total m) ->
  roundtrips HistoryResponse_Marshal HistoryResponse_Unmarshal HistoryResponse_zero m.
Proof.
  destruct m as [msgs total]. simpl. intros Hk Ht fuel.
  assert (HistoryResponse_Marshal (mkHistoryResponse msgs total)
    = concat (history_chunks msgs ++ varint_chunks 2 total)) as E.
  { unfold HistoryResponse_Marshal. simpl. by rw EncodeUint32_chunks // history_Marshal_chunks // concat_app. }
  intros Hfit Hfuel. apply (unmarshal_message _ _ _ _ _ _ E); [|done|done].
  eapply decodes_app.
  - apply (history_decodes _ []); [done|]. apply Forall_forall. intros msg Hin.
    rw Forall_forall in Hk. destruct (Hk _ Hin) as (_ & Hf & Hne).
    pose proof (history_chunk_length _ _ Hin Hf Hne). rw E concat_app length_app in Hfuel. lia.
  - pose proof (decodes_varint (HistoryResponse_field fuel) 2 (mkHistoryResponse msgs 0) total
      (fun v => mkHistoryResponse msgs (u32 v))) as H. rw (u32_small total Ht) in H. apply H; try done.
    unfold is_u32, is_u64 in *. lia.
Qed.

(** *** The other messages *)

Lemma HelloRequest_roundtrip m :
  fits (HelloRequest_Name m) -> roundtrips HelloRequest_Marshal HelloRequest_Unmarshal HelloRequest_zero m.
Proof.
  destruct m as [s]. intros Hs fuel. apply (unmarshal_message _ _ _ (bytes_chunks 1 s)); [by apply EncodeString_chunks|].
  by apply (decodes_bytes _ 1 _ s mkHelloRequest).
Qed.

Lemma HelloReply_roundtrip m :
  fits (HelloReply_Message m) -> roundtrips HelloReply_Marshal HelloReply_Unmarshal HelloReply_zero m.
Proof.
  destruct m as [s]. intros Hs fuel. apply (unmarshal_message _ _ _ (bytes_chunks 1 s)); [by apply EncodeString_chunks|].
  by apply (decodes_bytes _ 1 _ s mkHelloReply).
Qed.

Lemma CalcRequest_roundtrip m :
  double_ok (CalcRequest_A m) -> double_ok (CalcRequest_B m) ->
  roundtrips CalcRequest_Marshal CalcRequest_Unmarshal CalcRequest_zero m.
Proof.
  destruct m as [a b]. intros [Ha Ha'] [Hb Hb'] fuel. cbn [CalcRequest_A CalcRequest_B] in *.
  apply (unmarshal_message _ _ _ (double_chunks 1 a ++ double_chunks 2 b)).
  { unfold CalcRequest_Marshal. by rw !EncodeDouble_chunks concat_app. }
  eapply decodes_app; [by apply (decodes_double _ 1 _ a (fun v => mkCalcRequest v 0))|].
  by apply (decodes_double _ 2 _ b (fun v => mkCalcRequest a v)).
Qed.

Lemma CalcResponse_roundtrip m :
  double_ok (CalcResponse_Result m) -> fits (CalcResponse_Error m) ->
  roundtrips CalcResponse_Marshal CalcResponse_Unmarshal CalcResponse_zero m.
Proof.
  destruct m as [r e]. intros [Hr Hr'] He fuel. cbn [CalcResponse_Result CalcResponse_Error] in *.
  apply (unmarshal_message _ _ _ (double_chunks 1 r ++ bytes_chunks 2 e)).
  { unfold CalcResponse_Marshal. by rw EncodeString_chunks // EncodeDouble_chunks concat_app. }
  eapply decodes_app; [by apply (decodes_double _ 1 _ r (fun v => mkCalcResponse v []))|].
  by apply (decodes_bytes _ 2 _ e (fun v => mkCalcResponse r v)).
Qed.

Lemma SendResult_roundtrip m :
  fits (SendResult_MessageID m) -> roundtrips SendResult_Marshal SendResult_Unmarshal SendResult_zero m.
Proof.
  destruct m as [b i]. intros Hi fuel. simpl in *.
  apply (unmarshal_message _ _ _ (varint_chunks 1 (if b then 1 else 0) ++ bytes_chunks 2 i)).
  { unfold SendResult_Marshal. by rw EncodeString_chunks // EncodeBool_chunks concat_app. }
  apply (decodes_app _ _ _ (mkSendResult b [])); [|by apply (decodes_bytes _ 2 _ i (fun v => mkSendResult b v))].
  pose proof (decodes_varint SendResult_field 1 SendResult_zero (if b then 1 else 0)
    (fun v => mkSendResult (negb (v =? 0)) [])) as H. by destruct b; apply H.
Qed.

Lemma HistoryRequest_roundtrip m :
  is_u32 (HistoryRequest_Limit m) -> roundtrips HistoryRequest_Marshal HistoryRequest_Unmarshal HistoryRequest_zero m.
Proof.
  destruct m as [l]. intros Hl fuel. simpl in *.
  apply (unmarshal_message _ _ _ (varint_chunks 1 l)); [by apply EncodeUint32_chunks|].
  pose proof (decodes_varint HistoryRequest_field 1 HistoryRequest_zero l (fun v => mkHistoryRequest (u32 v))) as H.
  rw (u32_small l Hl) in H. apply H; try done. unfold is_u32, is_u64 in *. lia.
Qed.

Lemma PingRequest_roundtrip m :
  is_u64 (PingRequest_SentAt m) -> roundtrips PingRequest_Marshal PingRequest_Unmarshal PingRequest_zero m.
Proof.
  destruct m as [t]. intros Ht fuel. apply (unmarshal_message _ _ _ (varint_chunks 1 t)); [apply EncodeUint64_chunks|].
  by apply (decodes_varint _ 1 _ t mkPingRequest).
Qed.

Lemma PongResponse_roundtrip m :
  is_u64 (PongResponse_SentAt m) -> is_u64 (PongResponse_ReceivedAt m) ->
  roundtrips PongResponse_Marshal PongResponse_Unmarshal PongResponse_zero m.
Proof.
  destruct m as [a b]. intros Ha Hb fuel. simpl in *.
  apply (unmarshal_message _ _ _ (varint_chunks 1 a ++ varint_chunks 2 b)).
  { unfold PongResponse_Marshal. by rw !EncodeUint64_chunks concat_app. }
  eapply decodes_app; [by apply (decodes_varint _ 1 _ a (fun v => mkPongResponse v 0))|].
  by apply (decodes_varint _ 2 _ b (fun v => mkPongResponse a v)).
Qed.

(** ** Properties *)

(** C33: encoding and decoding again.  [Unmarshal] into a zero message of what
    [Marshal] wrote returns the message, for all messages of the example
    protocols whose encoding fits in memory and whose fields are of their Go
    types; but a [float64] must not be the negative zero, and no message of a
    history may have an empty encoding. *)
Theorem messages_roundtrip :
  (forall m, fits (HelloRequest_Name m) ->
     roundtrips HelloRequest_Marshal HelloRequest_Unmarshal HelloRequest_zero m)
  /\ (forall m, fits (HelloReply_Message m) ->
     roundtrips HelloReply_Marshal HelloReply_Unmarshal HelloReply_zero m)
  /\ (forall m, double_ok (CalcRequest_A m) -> double_ok (CalcRequest_B m) ->
     roundtrips CalcRequest_Marshal CalcRequest_Unmarshal CalcRequest_zero m)
  /\ (forall m, double_ok (CalcResponse_Result m) -> fits (CalcResponse_Error m) ->
     roundtrips CalcResponse_Marshal CalcResponse_Unmarshal CalcResponse_zero m)
  /\ (forall m, ChatMessage_ok m -> roundtrips ChatMessage_Marshal ChatMessage_Unmarshal ChatMessage_zero m)
  /\ (forall m, fits (SendResult_MessageID m) ->
     roundtrips SendResult_Marshal SendResult_Unmarshal SendResult_zero m)
  /\ (forall m, is_u32 (HistoryRequest_Limit m) ->
     roundtrips HistoryRequest_Marshal HistoryRequest_Unmarshal HistoryRequest_zero m)
  /\ (forall m, Forall kept (HistoryResponse_Messages m) -> is_u32 (HistoryResponse_Total m) ->
     roundtrips HistoryResponse_Marshal HistoryResponse_Unmarshal HistoryResponse_zero m)
  /\ (forall m, is_u64 (PingRequest_SentAt m) ->
     roundtrips PingRequest_Marshal PingRequest_Unmarshal PingRequest_zero m)
  /\ (forall m, is_u64 (PongResponse_SentAt m) -> is_u64 (PongResponse_ReceivedAt m) ->
     roundtrips PongResponse_Marshal PongResponse_Unmarshal PongResponse_zero m).
Proof.
  split_and!; [exact HelloRequest_roundtrip|exact HelloReply_roundtrip|exact CalcRequest_roundtrip
    |exact CalcResponse_roundtrip|exact ChatMessage_roundtrip|exact SendResult_roundtrip|exact HistoryRequest_roundtrip
    |exact HistoryResponse_roundtrip|exact PingRequest_roundtrip|exact PongResponse_roundtrip].
Qed.

Lemma messages_roundtrip_witness :
  let m := mkHistoryResponse [mkChatMessage (bytes_of_string "a") (bytes_of_string "hello") 7] 2 in
  HistoryResponse_Unmarshal 64 HistoryResponse_zero (HistoryResponse_Marshal m) = Ok m.
Proof.
  destruct messages_roundtrip as (_ & _ & _ & _ & _ & _ & _ & H & _).
  apply (H (mkHistoryResponse [mkChatMessage (bytes_of_string "a") (bytes_of_string "hello") 7] 2)).
  - repeat constructor; by vm_compute.
  - by vm_compute.
  - by vm_compute.
  - vm_compute. lia.
Defined.

(** ** Short buffers *)

(** A decoder in a buffer of at most nine bytes, after a tag. *)
Definition short_at (d : Decoder) : Prop := 1 <= d_pos d <= size_of (d_buf d) /\ size_of (d_buf d) <= 9.

(** An operation that ends, without a panic, and does not go back. *)
Definition calm {A} (x : DecM A) : Prop := forall d, short_at d ->
  match x d with
  | Ok (_, d') => d_buf d' = d_buf d /\ d_pos d <= d_pos d' /\ short_at d'
  | Err _ => True
  | Panic | Running => False
  end.

Lemma index_in d : 0 <= d_pos d -> Done d = false -> exists b, index d (d_pos d) = Some b.
Proof.
  intros Hp Hd. unfold Done, size_of in Hd. apply Z.leb_gt in Hd. unfold index. rw (proj2 (Z.ltb_ge _ _)); [done|].
  apply lookup_lt_is_Some_2. lia.
Qed.

Lemma lor_pow2_bound a b k : 0 <= k -> 0 <= a < 2 ^ k -> 0 <= b < 2 ^ k -> 0 <= Z.lor a b < 2 ^ k.
Proof.
  intros Hk Ha Hb. split; [apply Z.lor_nonneg; lia|].
  rw -(Z.mod_small a (2 ^ k)) // -(Z.mod_small b (2 ^ k)) // -!Z.land_ones // -Z.land_lor_distr_l Z.land_ones //.
  apply Z.mod_pos_bound. lia.
Qed.

(** A varint of [k] bytes is below [2 ^ (7 * k)]. *)
Lemma consume_bound n v d :
  0 <= d_pos d -> 0 <= v < 2 ^ (7 * (10 - Z.of_nat n)) -> (n <= 10)%nat ->
  match consume_loop n v d with
  | Ok (v', d') => d_buf d' = d_buf d /\ d_pos d < d_pos d' <= size_of (d_buf d)
      /\ 0 <= v' < 2 ^ (7 * (10 - Z.of_nat n + (d_pos d' - d_pos d)))
  | Err _ => True
  | Panic | Running => False
  end.
Proof.
  revert v d. induction n as [|n IH]; intros v d Hp Hv Hn; [by cbn [consume_loop]; destruct (Done d)|]. cbn [consume_loop].
  destruct (Done d) eqn:Hd; [done|]. destruct (index_in d Hp Hd) as [b ->]. unfold Done in Hd. apply Z.leb_gt in Hd.
  set (k := 7 * (10 - Z.of_nat (S n))) in *. assert (0 <= k) by lia.
  assert (0 <= Z.lor v (u64 (Z.shiftl (Z.land (byte_val b) 127) k)) < 2 ^ (k + 7)) as Hv1.
  { assert (0 <= Z.land (byte_val b) 127 < 128) as Hb.
    { change 127 with (Z.ones 7). rw Z.land_ones //. apply Z.mod_pos_bound. lia. }
    assert (0 <= u64 (Z.shiftl (Z.land (byte_val b) 127) k) < 2 ^ (k + 7)) as Hu.
    { rw Z.shiftl_mul_pow2 //. unfold u64. split; [apply Z.mod_pos_bound; lia|].
      eapply Z.le_lt_trans; [apply Z.mod_le; [nia|lia]|]. rw Z.pow_add_r //. nia. }
    assert (v < 2 ^ (k + 7)) by (rw Z.pow_add_r //; nia).
    apply lor_pow2_bound; lia. }
  destruct (byte_val b <? 128).
  - simpl. split; [done|]. split; [lia|]. replace (7 * _) with (k + 7) by lia. done.
  - specialize (IH (Z.lor v (u64 (Z.shiftl (Z.land (byte_val b) 127) k))) (mkDecoder (d_buf d) (d_pos d + 1))).
    replace (7 * (10 - Z.of_nat n)) with (k + 7) in IH by lia. simpl in IH.
    specialize (IH ltac:(lia) Hv1 ltac:(lia)). destruct (consume_loop n _ _) as [[v' d']| | |]; try done.
    destruct IH as (E & Hpos & Hv'). split; [done|]. split; [lia|].
    by replace (10 - Z.of_nat (S n) + (d_pos d' - d_pos d)) with (10 - Z.of_nat n + (d_pos d' - (d_pos d + 1))) by lia.
Qed.

Lemma consumeVarint_short d : short_at d ->
  match consumeVarint d with
  | Ok (v, d') => d_buf d' = d_buf d /\ d_pos d <= d_pos d' /\ short_at d' /\ 0 <= v < 2 ^ 56
  | Err _ => True
  | Panic | Running => False
  end.
Proof.
  intros [Hp Hs]. unfold consumeVarint. pose proof (consume_bound 10 0 d ltac:(lia) ltac:(simpl; lia) ltac:(lia)) as H.
  destruct (consume_loop 10 0 d) as [[v d']| | |]; try done. destruct H as (E & Hpos & Hv).
  split; [done|]. split; [lia|]. split; [unfold short_at; rw E; lia|]. split; [lia|].
  eapply Z.lt_le_trans; [apply Hv|]. apply Z.pow_le_mono_r; lia.
Qed.

Lemma calm_ret {A} (a : A) : calm (mret a).
Proof. intros d Hd. simpl. split; [done|]. split; [lia|done]. Qed.

Lemma calm_bind {A B} (x : DecM A) (k : A -> DecM B) : calm x -> (forall a, calm (k a)) -> calm (x ≫= k).
Proof.
  intros Hx Hk d Hd. unfold mbind, DecM_bind. specialize (Hx d Hd). destruct (x d) as [[a d1]| | |]; try done.
  destruct Hx as (E & Hp & Hd1). specialize (Hk a d1 Hd1). destruct (k a d1) as [[b d2]| | |]; try done.
  destruct Hk as (E2 & Hp2 & Hd2). split; [by rw E2|]. split; [lia|done].
Qed.

Lemma calm_varint : calm consumeVarint.
Proof. intros d Hd. pose proof (consumeVarint_short d Hd). destruct (consumeVarint d) as [[]| | |]; naive_solver. Qed.

(** A length that was read can be used. *)
Lemma calm_length {B} (k : Z -> DecM B) : (forall v, 0 <= v < 2 ^ 56 -> calm (k v)) -> calm (v ← consumeVarint; k v).
Proof.
  intros Hk d Hd. unfold mbind, DecM_bind. pose proof (consumeVarint_short d Hd) as Hx.
  destruct (consumeVarint d) as [[v d1]| | |]; try done. destruct Hx as (E & Hp & Hd1 & Hv).
  specialize (Hk v Hv d1 Hd1). destruct (k v d1) as [[b d2]| | |]; try done.
  destruct Hk as (E2 & Hp2 & Hd2). split; [by rw E2|]. split; [lia|done].
Qed.

Lemma calm_skip_by n : 0 <= n < 2 ^ 56 -> calm (skip_by n).
Proof.
  intros Hn d [Hp Hs]. unfold skip_by. rw i64_small; [lia|]. destruct (Z.ltb_spec (size_of (d_buf d)) (d_pos d + n)); [done|].
  simpl. split; [done|]. split; [lia|]. unfold short_at. simpl. lia.
Qed.

Lemma slice_in d lo hi : 0 <= lo <= hi -> hi <= size_of (d_buf d) -> exists b, slice_of d lo hi = Some b.
Proof. intros H1 H2. unfold slice_of. rw !(proj2 (Z.ltb_ge _ _)); [lia..|]. by eexists. Qed.

Lemma calm_ReadFixed64 : calm ReadFixed64.
Proof.
  intros d [Hp Hs]. unfold ReadFixed64. rw i64_small; [lia|]. destruct (Z.ltb_spec (size_of (d_buf d)) (d_pos d + 8)); [done|].
  destruct (slice_in d (d_pos d) (d_pos d + 8) ltac:(lia) ltac:(lia)) as [b ->]. simpl. split; [done|]. split; [lia|].
  unfold short_at. simpl. lia.
Qed.

Lemma calm_ReadBytes : calm ReadBytes.
Proof.
  apply calm_length. intros v Hv d [Hp Hs]. unfold read_n. rw (i64_small v); [lia|]. rw i64_small; [lia|].
  destruct (Z.ltb_spec (size_of (d_buf d)) (d_pos d + v)); [done|]. rw (proj2 (Z.leb_gt _ _)); [lia|].
  destruct (slice_in d (d_pos d) (d_pos d + v) ltac:(lia) ltac:(lia)) as [b ->]. simpl. split; [done|]. split; [lia|].
  unfold short_at. simpl. lia.
Qed.

Lemma calm_Skip wt : calm (Skip wt).
Proof.
  unfold Skip. repeat case_match; [by apply calm_bind; [apply calm_varint|intros; apply calm_ret]|by apply calm_skip_by..| |done].
  apply calm_length. intros v Hv. rw i64_small; [lia|]. by apply calm_skip_by.
Qed.

Create HintDb calm.
#[export] Hint Resolve calm_ret calm_bind calm_varint calm_ReadFixed64 calm_ReadBytes calm_Skip : calm.

(** A result, or an error. *)
Definition ends {A} (r : res A) : Prop := match r with Ok _ | Err _ => True | Panic | Running => False end.

(** The loop over a short buffer: a round takes at least a byte. *)
Lemma unmarshal_short {M} (field : Z -> Z -> M -> DecM M) fuel m d :
  (forall num wt m, calm (field num wt m)) -> 0 <= d_pos d <= size_of (d_buf d) -> size_of (d_buf d) <= 9 ->
  size_of (d_buf d) - d_pos d < Z.of_nat fuel ->
  ends (unmarshal_loop field fuel m d).
Proof.
  intros Hf. revert m d. induction fuel as [|fuel IH]; intros m d Hp Hs Hfuel; [lia|]. cbn [unmarshal_loop].
  destruct (Done d); [done|]. unfold ReadTag, mbind, DecM_bind, consumeVarint.
  pose proof (consume_bound 10 0 d ltac:(lia) ltac:(simpl; lia) ltac:(lia)) as H.
  destruct (consume_loop 10 0 d) as [[v d1]| | |]; try done. destruct H as (E & Hpos & _). unfold mret, DecM_ret.
  assert (short_at d1) as Hd1 by (unfold short_at; rw E; lia).
  pose proof (Hf (i64 (Z.shiftr v 3)) (i64 (Z.land v 7)) m d1 Hd1) as H2.
  destruct (field _ _ m d1) as [[m2 d2]| | |]; try done. destruct H2 as (E2 & Hp2 & [Hd2 Hs2]).
  apply IH; rw E2 E in Hs2 Hd2 |- *; lia.
Qed.

Lemma unmarshal_short_buffer {M} (field : Z -> Z -> M -> DecM M) m data :
  (forall num wt m, calm (field num wt m)) -> (length data <= 9)%nat ->
  ends (unmarshal_loop field 10 m (NewDecoder data)).
Proof. intros Hf Hl. apply unmarshal_short; [done|..]; unfold NewDecoder, size_of; simpl; lia. Qed.

(** A switch over reads. *)
Ltac calm_field := intros num wt m; repeat case_match; eauto with calm.

Lemma ChatMessage_calm num wt m : calm (ChatMessage_field num wt m).
Proof. revert num wt m. unfold ChatMessage_field, ReadString, ReadVarint. calm_field. Qed.

Lemma ReadBytes_length d b d' : short_at d -> ReadBytes d = Ok (b, d') -> (length b <= 9)%nat.
Proof.
  intros Hd. unfold ReadBytes, mbind, DecM_bind. pose proof (consumeVarint_short d Hd) as H.
  destruct (consumeVarint d) as [[v d1]| | |]; try done. destruct H as (_ & _ & [_ Hs] & _). unfold read_n, slice_of.
  repeat case_match; intros; simplify_eq. unfold size_of in Hs. rw length_take length_drop. lia.
Qed.

Lemma HistoryResponse_calm num wt m : calm (HistoryResponse_field 10 num wt m).
Proof.
  unfold HistoryResponse_field. repeat case_match; [|unfold ReadVarint; eauto with calm|eauto with calm].
  intros d Hd. pose proof (calm_ReadBytes d Hd) as Hc. pose proof (ReadBytes_length d) as Hl. unfold mbind, DecM_bind, in_decoder.
  destruct (ReadBytes d) as [[b d1]| | |]; try done. specialize (Hl b d1 Hd eq_refl).
  pose proof (unmarshal_short_buffer _ ChatMessage_zero b ChatMessage_calm Hl) as He.
  unfold ChatMessage_Unmarshal. by destruct (unmarshal_loop _ _ _ _).
Qed.

(** Short buffers are safe: whatever the bytes, with at most nine of them
    every [Unmarshal] comes to its end within ten rounds, with a message or
    an error, and never panics. *)
Theorem unmarshal_short_total data :
  (length data <= 9)%nat ->
  (forall m, ends (HelloRequest_Unmarshal 10 m data))
  /\ (forall m, ends (HelloReply_Unmarshal 10 m data))
  /\ (forall m, ends (CalcRequest_Unmarshal 10 m data))
  /\ (forall m, ends (CalcResponse_Unmarshal 10 m data))
  /\ (forall m, ends (ChatMessage_Unmarshal 10 m data))
  /\ (forall m, ends (SendResult_Unmarshal 10 m data))
  /\ (forall m, ends (HistoryRequest_Unmarshal 10 m data))
  /\ (forall m, ends (PingRequest_Unmarshal 10 m data))
  /\ (forall m, ends (PongResponse_Unmarshal 10 m data))
  /\ (forall m, ends (HistoryResponse_Unmarshal 10 m data)).
Proof.
  intros Hl. split_and!; intros m; apply unmarshal_short_buffer; try done;
    first [exact ChatMessage_calm | exact HistoryResponse_calm | clear m].
  all: unfold HelloRequest_field, HelloReply_field, CalcRequest_field, CalcResponse_field, SendResult_field,
    HistoryRequest_field, PingRequest_field, PongResponse_field, ReadString, ReadVarint, ReadDouble; calm_field.
Qed.

(** ** Hostile buffers *)

(** A field of unknown number 2 whose length is [2 ^ 64 - 11]. *)
Definition endless : bytes := appendVarint (2 ^ 64 - 11) (appendTag 2 WireBytes []).
(** The string of field 1 with length [2 ^ 63]. *)
Definition panicking : bytes := appendVarint (2 ^ 63) (appendTag 1 WireBytes []).

Lemma unmarshal_next {M} (field : Z -> Z -> M -> DecM M) fuel m d num wt d1 m1 d2 :
  Done d = false -> ReadTag d = Ok ((num, wt), d1) -> field num wt m d1 = Ok (m1, d2) ->
  unmarshal_loop field (S fuel) m d = unmarshal_loop field fuel m1 d2.
Proof. intros Hd Ht Hf. cbn [unmarshal_loop]. by rw Hd Ht Hf. Qed.

Lemma unmarshal_panic {M} (field : Z -> Z -> M -> DecM M) fuel m d num wt d1 :
  Done d = false -> ReadTag d = Ok ((num, wt), d1) -> field num wt m d1 = Panic ->
  unmarshal_loop field (S fuel) m d = Panic.
Proof. intros Hd Ht Hf. cbn [unmarshal_loop]. by rw Hd Ht Hf. Qed.

(** What the decoder does with lengths that are no [int].  Such a length
    in a field to skip moves the decoder back: eleven bytes make [Unmarshal]
    loop for ever; in a field to read it makes the decoder panic.  And what
    the encoder loses: a message with an empty encoding is dropped from a
    history, the negative zero is read back as zero. *)
Theorem unmarshal_hostile :
  length endless = 11%nat
  /\ (forall fuel m, HelloRequest_Unmarshal fuel m endless = Running)
  /\ (forall fuel m, HelloRequest_Unmarshal (S fuel) m panicking = Panic)
  /\ (forall fuel, HistoryResponse_Unmarshal (S (S fuel)) HistoryResponse_zero
        (HistoryResponse_Marshal (mkHistoryResponse [ChatMessage_zero] 1)) = Ok (mkHistoryResponse [] 1))
  /\ (forall fuel, CalcRequest_Unmarshal (S fuel) CalcRequest_zero
        (CalcRequest_Marshal (mkCalcRequest (2 ^ 63) 0)) = Ok CalcRequest_zero).
Proof.
  split; [by vm_compute|]. split_and!; intros fuel.
  - intros m. induction fuel as [|fuel IH]; [done|]. rw -IH.
    apply (unmarshal_next _ fuel m _ 2 2 (mkDecoder endless 1) m (mkDecoder endless 0)); by vm_compute.
  - intros m. apply (unmarshal_panic _ fuel m _ 1 2 (mkDecoder panicking 1)); by vm_compute.
  - by vm_compute.
  - by vm_compute.
Qed.
