(* ===== verification/GoGenerator.v ===== *)
(** * GoGenerator: the Go protoc plugin

    Model of go/protoc-gen-protocomm-go/main.go: the collision check, which
    files are generated, and the lines of a generated file.  What protogen
    computes of a file (the Go names of its services and methods, the
    identifiers of the messages, its prefix) is part of its description; how
    an identifier of another package is written ([QualifiedGoIdent]) is a
    parameter.  What the emitted code does is modelled in [GoProto]; here it
    is text.  The names are protobuf identifiers: on these, [strconv.Quote]
    and the verb q put quotes around. *)

From Stdlib Require Import Ascii.
From S2P Require Import Prelude.
From S2P Require Import Frame.
From S2P Require Import MethodHash.
From S2P Require Import Generator.
From S2P Require Import GoFrame.

Open Scope string_scope.

(** ** protogen *)

Record GoIdent := mkGoIdent { GoName : string; GoImportPath : string }.

Record Go_Method := mkGoMethod {
  gm_name : string; gm_GoName : string; gm_Input : GoIdent; gm_Output : GoIdent
}.
Record Go_Service := mkGoService { gs_name : string; gs_GoName : string; gs_Methods : list Go_Method }.
Record Go_File := mkGoFile {
  gf_path : string; gf_package : string; gf_prefix : string; gf_GoImportPath : string;
  gf_GoPackageName : string; gf_Generate : bool; gf_Services : list Go_Service
}.

(** A generated file: its name, its import path, its lines. *)
Record Go_GeneratedFile := mkGenerated { go_filename : string; go_importpath : string; go_lines : list string }.

(** ** Names *)

Definition pcIdent (name : string) : GoIdent := mkGoIdent name "github.com/boeing666/protocomm/go".
Definition protoIdent (name : string) : GoIdent := mkGoIdent name "google.golang.org/protobuf/proto".
Definition prototraceIdent (name : string) : GoIdent :=
  mkGoIdent name "github.com/boeing666/protocomm/go/prototrace".

Definition unexport (s : string) : string :=
  match s with
  | EmptyString => s
  | String c t =>
    if Nat.leb 65 (nat_of_ascii c) && Nat.leb (nat_of_ascii c) 90
    then String (ascii_of_nat (nat_of_ascii c + 32)) t else s
  end.

Definition tab : string := char (ascii_of_nat 9).
Definition Quote (s : string) : string := dq +:+ s +:+ dq.

(** [fmt.Sprintf("0x%08x", v)]. *)
Definition hex_digit (v : Z) : ascii :=
  ascii_of_nat (Z.to_nat (if (v <? 10)%Z then 48 + v else 87 + v)%Z).
Fixpoint hex_digits (n : nat) (v : Z) : string :=
  match n with
  | O => EmptyString
  | S n => hex_digits n (v / 16)%Z +:+ char (hex_digit (v mod 16)%Z)
  end.
Definition hex8 (v : Z) : string := "0x" +:+ hex_digits 8 v.

(** ** The emitters

    A line is the text of one [g.P]. *)
Section Emitters.
Variable QualifiedGoIdent : GoIdent -> string.
Abbreviation q := QualifiedGoIdent.

Definition method_const (goSvc : string) (m : Go_Method) : string := goSvc +:+ "_" +:+ gm_GoName m +:+ "_MethodID".

Definition Go_const_line (pkg protoSvc goSvc : string) (m : Go_Method) : string :=
  let full := Go_methodFullName pkg protoSvc (gm_name m) in
  tab +:+ method_const goSvc m +:+ " uint32 = " +:+ hex8 (Go_Fnv1a32 full) +:+ " // " +:+ full.

Definition genClient_method (client goSvc protoSvc : string) (m : Go_Method) : list string :=
  let mid := method_const goSvc m in
  let full := protoSvc +:+ "." +:+ gm_name m in
  [ "func (c *" +:+ client +:+ ") " +:+ gm_GoName m +:+ "(req *" +:+ q (gm_Input m) +:+ ") (*"
      +:+ q (gm_Output m) +:+ ", " +:+ q (pcIdent "Status") +:+ ") {";
    tab +:+ "data, err := " +:+ q (protoIdent "Marshal") +:+ "(req)";
    tab +:+ "if err != nil {";
    tab +:+ tab +:+ "return nil, " +:+ q (pcIdent "Status") +:+ "{Code: " +:+ q (pcIdent "Internal")
      +:+ ", Message: " +:+ dq +:+ "marshal: " +:+ dq +:+ " + err.Error()}";
    tab +:+ "}";
    tab +:+ "respData, st := c.ch.UnaryCall(" +:+ mid +:+ ", data)";
    tab +:+ "if !st.IsOK() {";
    tab +:+ tab +:+ "if c.ch.Tracing() {";
    tab +:+ tab +:+ tab +:+ "c.ch.Trace(" +:+ Quote full +:+ ", " +:+ q (prototraceIdent "Render")
      +:+ "(req), " +:+ dq +:+ dq +:+ ", st)";
    tab +:+ tab +:+ "}";
    tab +:+ tab +:+ "return nil, st";
    tab +:+ "}";
    tab +:+ "resp := new(" +:+ q (gm_Output m) +:+ ")";
    tab +:+ "if err := " +:+ q (protoIdent "Unmarshal") +:+ "(respData, resp); err != nil {";
    tab +:+ tab +:+ "return nil, " +:+ q (pcIdent "Status") +:+ "{Code: " +:+ q (pcIdent "Internal")
      +:+ ", Message: " +:+ dq +:+ "unmarshal: " +:+ dq +:+ " + err.Error()}";
    tab +:+ "}";
    tab +:+ "if c.ch.Tracing() {";
    tab +:+ tab +:+ "c.ch.Trace(" +:+ Quote full +:+ ", " +:+ q (prototraceIdent "Render") +:+ "(req), "
      +:+ q (prototraceIdent "Render") +:+ "(resp), st)";
    tab +:+ "}";
    tab +:+ "return resp, " +:+ q (pcIdent "StatusOK") +:+ "()";
    "}";
    EmptyString ].

Definition genClient (svc : Go_Service) (goSvc protoSvc : string) : list string :=
  let client := goSvc +:+ "Client" in
  [ "// " +:+ client +:+ " is the client stub for the " +:+ goSvc +:+ " service.";
    "type " +:+ client +:+ " struct {";
    tab +:+ "ch *" +:+ q (pcIdent "Channel");
    "}";
    EmptyString;
    "// New" +:+ client +:+ " creates a client stub bound to the given channel.";
    "func New" +:+ client +:+ "(ch *" +:+ q (pcIdent "Channel") +:+ ") *" +:+ client +:+ " {";
    tab +:+ "return &" +:+ client +:+ "{ch: ch}";
    "}";
    EmptyString ]
  ++ flat_map (genClient_method client goSvc protoSvc) (gs_Methods svc).

Definition genServerInterface (svc : Go_Service) (goSvc : string) : list string :=
  let server := goSvc +:+ "Server" in
  [ "// " +:+ server +:+ " is the server-side interface for the " +:+ goSvc +:+ " service.";
    "type " +:+ server +:+ " interface {" ]
  ++ ((fun m => tab +:+ gm_GoName m +:+ "(ctx *" +:+ q (pcIdent "ServerContext") +:+ ", req *"
        +:+ q (gm_Input m) +:+ ") (*" +:+ q (gm_Output m) +:+ ", " +:+ q (pcIdent "Status") +:+ ")")
      <$> gs_Methods svc)
  ++ [ "}"; EmptyString ].

Definition genUnimplementedServer (svc : Go_Service) (goSvc : string) : list string :=
  let uname := "Unimplemented" +:+ goSvc +:+ "Server" in
  [ "// " +:+ uname +:+ " returns UNIMPLEMENTED for every method.";
    "type " +:+ uname +:+ " struct{}";
    EmptyString ]
  ++ flat_map (fun m =>
    [ "func (" +:+ uname +:+ ") " +:+ gm_GoName m +:+ "(_ *" +:+ q (pcIdent "ServerContext") +:+ ", _ *"
        +:+ q (gm_Input m) +:+ ") (*" +:+ q (gm_Output m) +:+ ", " +:+ q (pcIdent "Status") +:+ ") {";
      tab +:+ "return nil, " +:+ q (pcIdent "Status") +:+ "{Code: " +:+ q (pcIdent "Unimplemented")
        +:+ ", Message: " +:+ dq +:+ gm_GoName m +:+ " not implemented" +:+ dq +:+ "}";
      "}";
      EmptyString ]) (gs_Methods svc).

Definition genRegister_method (goSvc protoSvc : string) (m : Go_Method) : list string :=
  let mid := method_const goSvc m in
  let full := protoSvc +:+ "." +:+ gm_name m in
  [ tab +:+ "srv.RegisterMethod(" +:+ mid +:+ ", func(ctx *" +:+ q (pcIdent "ServerContext")
      +:+ ", data []byte) ([]byte, " +:+ q (pcIdent "Status") +:+ ") {";
    tab +:+ tab +:+ "ctx.MethodName = " +:+ Quote full;
    tab +:+ tab +:+ "req := new(" +:+ q (gm_Input m) +:+ ")";
    tab +:+ tab +:+ "if err := " +:+ q (protoIdent "Unmarshal") +:+ "(data, req); err != nil {";
    tab +:+ tab +:+ tab +:+ "return nil, " +:+ q (pcIdent "Status") +:+ "{Code: " +:+ q (pcIdent "Internal")
      +:+ ", Message: " +:+ dq +:+ "unmarshal: " +:+ dq +:+ " + err.Error()}";
    tab +:+ tab +:+ "}";
    tab +:+ tab +:+ "if ctx.Trace {";
    tab +:+ tab +:+ tab +:+ "ctx.RequestText = " +:+ q (prototraceIdent "Render") +:+ "(req)";
    tab +:+ tab +:+ "}";
    tab +:+ tab +:+ "resp, st := impl." +:+ gm_GoName m +:+ "(ctx, req)";
    tab +:+ tab +:+ "if !st.IsOK() {";
    tab +:+ tab +:+ tab +:+ "return nil, st";
    tab +:+ tab +:+ "}";
    tab +:+ tab +:+ "if ctx.Trace {";
    tab +:+ tab +:+ tab +:+ "ctx.ResponseText = " +:+ q (prototraceIdent "Render") +:+ "(resp)";
    tab +:+ tab +:+ "}";
    tab +:+ tab +:+ "out, err := " +:+ q (protoIdent "Marshal") +:+ "(resp)";
    tab +:+ tab +:+ "if err != nil {";
    tab +:+ tab +:+ tab +:+ "return nil, " +:+ q (pcIdent "Status") +:+ "{Code: " +:+ q (pcIdent "Internal")
      +:+ ", Message: " +:+ dq +:+ "marshal: " +:+ dq +:+ " + err.Error()}";
    tab +:+ tab +:+ "}";
    tab +:+ tab +:+ "return out, " +:+ q (pcIdent "StatusOK") +:+ "()";
    tab +:+ "})" ].

Definition genRegister (svc : Go_Service) (goSvc protoSvc : string) : list string :=
  let server := goSvc +:+ "Server" in
  [ "// Register" +:+ server +:+ " registers a " +:+ server +:+ " with the protocomm server.";
    "func Register" +:+ server +:+ "(srv *" +:+ q (pcIdent "Server") +:+ ", impl " +:+ server +:+ ") {" ]
  ++ flat_map (genRegister_method goSvc protoSvc) (gs_Methods svc)
  ++ [ "}"; EmptyString ].

Definition genServiceWrapper (goSvc : string) : list string :=
  let server := goSvc +:+ "Server" in
  let wrapper := unexport goSvc +:+ "ServiceRegistrar" in
  [ "type " +:+ wrapper +:+ " struct{ impl " +:+ server +:+ " }";
    EmptyString;
    "func (r *" +:+ wrapper +:+ ") RegisterWith(srv *" +:+ q (pcIdent "Server") +:+ ") {";
    tab +:+ "Register" +:+ server +:+ "(srv, r.impl)";
    "}";
    EmptyString;
    "// New" +:+ goSvc +:+ "Service wraps impl as a " +:+ q (pcIdent "Service") +:+ " for use with ServerBuilder.";
    "func New" +:+ goSvc +:+ "Service(impl " +:+ server +:+ ") " +:+ q (pcIdent "Service") +:+ " {";
    tab +:+ "return &" +:+ wrapper +:+ "{impl: impl}";
    "}";
    EmptyString ].

Definition genService (file : Go_File) (svc : Go_Service) : list string :=
  let pkg := gf_package file in
  let protoSvc := gs_name svc in
  let goSvc := gs_GoName svc in
  [ "// Method IDs for " +:+ goSvc +:+ " service."; "const (" ]
  ++ (Go_const_line pkg protoSvc goSvc <$> gs_Methods svc)
  ++ [ ")"; EmptyString ]
  ++ genClient svc goSvc protoSvc
  ++ genServerInterface svc goSvc
  ++ genUnimplementedServer svc goSvc
  ++ genRegister svc goSvc protoSvc
  ++ genServiceWrapper goSvc.

Definition generateFile (file : Go_File) : Go_GeneratedFile :=
  mkGenerated (gf_prefix file +:+ "_protocomm.pb.go") (gf_GoImportPath file)
    ([ "// Code generated by protoc-gen-protocomm-go. DO NOT EDIT.";
       "// source: " +:+ gf_path file;
       EmptyString;
       "package " +:+ gf_GoPackageName file;
       EmptyString ]
     ++ flat_map (genService file) (gf_Services file)).

(** What [checkHashCollisions] reads of the files. *)
Definition Go_descriptor (file : Go_File) : FileDescriptorProto :=
  mkFile (gf_path file) (gf_package file)
    ((fun svc => mkService (gs_name svc) ((fun m => mkMethod (gm_name m) "" "") <$> gs_Methods svc))
     <$> gf_Services file).

(** [main]: the files, or the error. *)
Definition Go_plugin (files : list Go_File) : list Go_GeneratedFile + string :=
  match Go_checkHashCollisions ∅ (Go_full_names (Go_descriptor <$> files)) with
  | Some (prev, full) =>
    inr ("protocomm: FNV1a32 method-ID collision between " +:+ Quote prev +:+ " and " +:+ Quote full
         +:+ ". Rename one of the methods.")
  | None =>
    inl (generateFile <$> filter (fun f => gf_Generate f = true /\ gf_Services f <> []) files)
  end.
End Emitters.

(** ** Reading the generated text

    A line that declares a method constant, calls through one, or registers
    one, as a Go compiler reads it. *)

Definition ident_char (c : ascii) : bool :=
  let n := nat_of_ascii c in
  Nat.leb 48 n && Nat.leb n 57 || Nat.leb 65 n && Nat.leb n 90
  || Nat.leb 97 n && Nat.leb n 122 || Nat.eqb n 95.

Fixpoint ident (s : string) : bool :=
  match s with EmptyString => true | String c s => ident_char c && ident s end.

(** The identifier a text starts with, and the rest. *)
Fixpoint word (s : string) : string * string :=
  match s with
  | EmptyString => (EmptyString, EmptyString)
  | String c t => if ident_char c then let '(w, r) := word t in (String c w, r) else (EmptyString, s)
  end.

Fixpoint drop_prefix (p s : string) : option string :=
  match p, s with
  | EmptyString, _ => Some s
  | String a p, String b s => if Ascii.eqb a b then drop_prefix p s else None
  | _, _ => None
  end.

Definition digit_value (c : ascii) : option Z :=
  let n := Z.of_nat (nat_of_ascii c) in
  if ((48 <=? n) && (n <=? 57))%Z then Some (n - 48)%Z
  else if ((97 <=? n) && (n <=? 102))%Z then Some (n - 87)%Z else None.

(** [n] hexadecimal digits, after those that gave [acc]. *)
Fixpoint read_hex (n : nat) (s : string) (acc : Z) : option (Z * string) :=
  match n, s with
  | O, _ => Some (acc, s)
  | S n, String c s => digit_value c ≫= (fun d => read_hex n s (acc * 16 + d)%Z)
  | S _, EmptyString => None
  end.

Inductive usage :=
  | Declares (const : string) (id : Z)
  | Calls (const : string)
  | Registers (const : string).

Definition line_usage (line : string) : option usage :=
  rest ← drop_prefix tab line;
  let '(w, r) := word rest in
  match drop_prefix " uint32 = 0x" r, drop_prefix ", st := c.ch.UnaryCall(" r, drop_prefix ".RegisterMethod(" r with
  | Some r, _, _ => (fun v => Declares w v.1) <$> read_hex 8 r 0
  | None, Some r, _ => if bool_decide (w = "respData") then Some (Calls (word r).1) else None
  | None, None, Some r => if bool_decide (w = "srv") then Some (Registers (word r).1) else None
  | None, None, None => None
  end.

(** What a service needs of its file: each method's constant with the
    identifier that C++ gives the method, a client method, a handler. *)
Definition service_usages (pkg : string) (svc : Go_Service) : list usage :=
  ((fun m => Declares (method_const (gs_GoName svc) m) (method_hash (method_full_name pkg (gs_name svc) (gm_name m))))
     <$> gs_Methods svc)
  ++ ((fun m => Calls (method_const (gs_GoName svc) m)) <$> gs_Methods svc)
  ++ ((fun m => Registers (method_const (gs_GoName svc) m)) <$> gs_Methods svc).

(** Names as protoc accepts and protogen makes them. *)
Fixpoint dotted (s : string) : bool :=
  match s with EmptyString => true | String c s => (ident_char c || Ascii.eqb c ".") && dotted s end.

Definition named_method (m : Go_Method) : bool := ident (gm_name m) && ident (gm_GoName m).
Definition named_service (svc : Go_Service) : bool :=
  ident (gs_name svc) && ident (gs_GoName svc) && forallb named_method (gs_Methods svc).
Definition named_file (f : Go_File) : bool :=
  plain (gf_path f) && dotted (gf_package f) && ident (gf_GoPackageName f)
  && forallb named_service (gf_Services f).

(** ** Lemmas *)

Lemma digit_value_hex v : (0 <= v < 16)%Z -> digit_value (hex_digit v) = Some v.
Proof.
  intros Hv. assert (v ∈ seqZ 0 16) as H by (apply elem_of_seqZ; lia).
  change (seqZ 0 16) with (Z.of_nat <$> seq 0 16) in H. cbn in H. set_unfold in H. destruct_or? H; subst; by vm_compute.
Qed.

Lemma read_hex_last n s acc : read_hex (S n) s acc = read_hex n s acc ≫= (fun r => read_hex 1 r.2 r.1).
Proof.
  revert s acc. induction n as [|n IH]; intros s acc; [done|]. destruct s as [|c s]; [done|].
  change (read_hex (S (S n)) (String c s) acc) with (digit_value c ≫= (fun d => read_hex (S n) s (acc * 16 + d)%Z)).
  simpl. destruct (digit_value c); [|done]. apply IH.
Qed.

Lemma read_hex_digits n v t acc :
  (0 <= v)%Z -> read_hex n (hex_digits n v +:+ t) acc = Some ((acc * 16 ^ Z.of_nat n + v mod 16 ^ Z.of_nat n)%Z, t).
Proof.
  revert v t. induction n as [|n IH]; intros v t Hv; [simpl; by rw Z.mod_1_r; do 2 f_equal; lia|].
  rw read_hex_last. simpl hex_digits. rw string_append_assoc IH; [apply Z.div_pos; lia|].
  pose proof (Z.mod_pos_bound v 16 ltac:(lia)). simpl. rw digit_value_hex //=. do 2 f_equal.
  rw Nat2Z.inj_succ Z.pow_succ_r; [lia|].
  rw (Z.rem_mul_r v 16 (16 ^ Z.of_nat n)); [lia|lia|]. lia.
Qed.

Lemma word_ident w t : ident w = true -> word (w +:+ t) = ((w +:+ (word t).1), (word t).2).
Proof.
  induction w as [|c w IH]; [intros _; apply surjective_pairing|]. simpl. intros [-> Hw]%andb_true_iff. by rw (IH Hw).
Qed.

Lemma ident_app s t : ident (s +:+ t) = ident s && ident t.
Proof. induction s as [|c s IH]; [done|]. simpl. by rw IH andb_assoc. Qed.

Lemma ident_plain s : ident s = true -> plain s = true.
Proof.
  induction s as [|c s IH]; [done|]. simpl. intros [Hc Hs]%andb_true_iff. rw (IH Hs).
  destruct c as [[] [] [] [] [] [] [] []]; done.
Qed.

Lemma dotted_plain s : dotted s = true -> plain s = true.
Proof.
  induction s as [|c s IH]; [done|]. simpl. intros [Hc Hs]%andb_true_iff. rw (IH Hs).
  destruct c as [[] [] [] [] [] [] [] []]; done.
Qed.

Lemma ident_dotted s : ident s = true -> dotted s = true.
Proof. induction s as [|c s IH]; [done|]. simpl. by intros [-> ->%IH]%andb_true_iff. Qed.

Lemma dotted_nul_free s : dotted s = true -> nul_free (bytes_of_string s).
Proof.
  unfold nul_free. induction s as [|c s IH]; [set_solver|]. simpl. intros [Hc Hs]%andb_true_iff.
  apply not_elem_of_cons. split; [|by apply IH].
  intros E. apply (f_equal ascii_of_byte) in E. rw ascii_of_byte_of_ascii in E. by subst c.
Qed.

Lemma nul_free_app s t :
  nul_free (bytes_of_string s) -> nul_free (bytes_of_string t) -> nul_free (bytes_of_string (s +:+ t)).
Proof.
  unfold nul_free. induction s as [|c s IH]; [done|]. simpl. intros Hs Ht.
  apply not_elem_of_cons in Hs as [Hc Hs]. apply not_elem_of_cons. by split; [|apply IH].
Qed.

Lemma full_name_nul_free pkg svc m :
  dotted pkg = true -> ident svc = true -> ident m = true ->
  nul_free (bytes_of_string (Go_methodFullName pkg svc m)).
Proof.
  intros Hp Hs%ident_dotted%dotted_nul_free Hm%ident_dotted%dotted_nul_free. apply dotted_nul_free in Hp.
  assert (nul_free (bytes_of_string "/")) by (vm_compute; set_solver).
  assert (nul_free (bytes_of_string ".")) by (vm_compute; set_solver).
  unfold Go_methodFullName. destruct pkg; repeat apply nul_free_app; done.
Qed.

Lemma method_const_ident goSvc m :
  ident goSvc = true -> named_method m = true -> ident (method_const goSvc m) = true.
Proof. intros Hs [_ Hm]%andb_true_iff. unfold method_const. by rw !ident_app Hs Hm. Qed.

Lemma string_append_empty (s : string) : s +:+ EmptyString = s.
Proof. induction s as [|c s IH]; [done|]. exact (f_equal (String c) IH). Qed.

Lemma word_const goSvc m t :
  ident goSvc = true -> named_method m = true -> (word t).1 = EmptyString ->
  word (method_const goSvc m +:+ t) = (method_const goSvc m, (word t).2).
Proof.
  intros Hs Hm Ht. by rw (word_ident _ _ (method_const_ident _ _ Hs Hm)) Ht string_append_empty.
Qed.

Lemma Go_Fnv1a32_range s : is_u32 (Go_Fnv1a32 s).
Proof.
  unfold Go_Fnv1a32. assert (is_u32 0x811c9dc5) as H by done. revert H.
  generalize 0x811c9dc5%Z. induction (bytes_of_string s) as [|c t IH]; intros h H; [done|].
  apply IH, u32_range.
Qed.

Lemma omap_skip {X Y} (f : X -> option Y) x xs : f x = None -> omap f (x :: xs) = omap f xs.
Proof. simpl. by intros ->. Qed.

Lemma omap_keep {X Y} (f : X -> option Y) x xs y : f x = Some y -> omap f (x :: xs) = y :: omap f xs.
Proof. simpl. by intros ->. Qed.

Lemma omap_flat_map {W X Y} (f : X -> option Y) (g : W -> list X) (h : W -> list Y) ws :
  (forall w, w ∈ ws -> omap f (g w) = h w) -> omap f (flat_map g ws) = flat_map h ws.
Proof.
  induction ws as [|w ws IH]; intros H; [done|]. cbn [flat_map].
  by rw omap_app H; [left|]; rw IH; [intros; apply H; right|].
Qed.

Lemma flat_map_singleton {X Y} (h : X -> Y) xs : flat_map (fun x => [h x]) xs = h <$> xs.
Proof. induction xs as [|x xs IH]; [done|]. simpl. by rw IH. Qed.

Lemma omap_flat_map_nil {W X Y} (f : X -> option Y) (g : W -> list X) ws :
  (forall w, w ∈ ws -> omap f (g w) = []) -> omap f (flat_map g ws) = [].
Proof. intros H. rw (omap_flat_map f g (fun _ => []) ws H). clear. by induction ws. Qed.

Ltac skip_lines := repeat (rw omap_skip; [reflexivity|]).

(** ** What a file uses *)
Section Usages.
Variable q : GoIdent -> string.

Lemma const_line_usage pkg svc goSvc m :
  dotted pkg = true -> ident svc = true -> ident goSvc = true -> named_method m = true ->
  line_usage (Go_const_line pkg svc goSvc m)
  = Some (Declares (method_const goSvc m) (method_hash (method_full_name pkg svc (gm_name m)))).
Proof.
  intros Hp Hs Hg Hm. pose proof Hm as [Hn _]%andb_true_iff.
  pose proof (full_name_nul_free _ _ _ Hp Hs Hn) as Hf. unfold Go_const_line, line_usage.
  set (rest := " uint32 = " +:+ _). change (drop_prefix tab (tab +:+ method_const goSvc m +:+ rest))
    with (Some (method_const goSvc m +:+ rest)). cbn [mbind option_bind].
  rw word_const //. subst rest. unfold hex8.
  rw -Go_methodFullName_cpp -(Go_Fnv1a32_cpp _ Hf).
  generalize (Go_methodFullName pkg svc (gm_name m)). intros full.
  pose proof (Go_Fnv1a32_range full) as [H0 H1].
  change (drop_prefix " uint32 = 0x" (word (" uint32 = " +:+ ("0x" +:+ hex_digits 8 (Go_Fnv1a32 full)) +:+ " // " +:+ full)).2)
    with (Some (hex_digits 8 (Go_Fnv1a32 full) +:+ " // " +:+ full)).
  cbv iota. rw (read_hex_digits 8 _ _ _ H0). simpl fmap. rw Z.mod_small //. 
Qed.

Lemma ident_line_usage w t : ident w = true -> line_usage (tab +:+ w +:+ String "(" t) = None.
Proof.
  intros Hw. unfold line_usage. set (rest := String "(" t).
  change (drop_prefix tab (tab +:+ w +:+ rest)) with (Some (w +:+ rest)).
  cbn [mbind option_bind]. by rw (word_ident _ _ Hw).
Qed.

Lemma call_line_usage goSvc m :
  ident goSvc = true -> named_method m = true ->
  line_usage (tab +:+ "respData, st := c.ch.UnaryCall(" +:+ method_const goSvc m +:+ ", data)")
  = Some (Calls (method_const goSvc m)).
Proof.
  intros Hg Hm. set (t := method_const goSvc m +:+ ", data)").
  transitivity (Some (Calls (word t).1)); [done|]. by rw word_const.
Qed.

Lemma register_line_usage goSvc m t :
  ident goSvc = true -> named_method m = true ->
  line_usage (tab +:+ "srv.RegisterMethod(" +:+ method_const goSvc m +:+ ", func(ctx *" +:+ t)
  = Some (Registers (method_const goSvc m)).
Proof.
  intros Hg Hm. set (r := method_const goSvc m +:+ _).
  transitivity (Some (Registers (word r).1)); [done|]. by rw word_const.
Qed.

Section Service.
Variable svc : Go_Service.
Hypothesis Hsvc : named_service svc = true.

Lemma service_names : ident (gs_name svc) = true /\ ident (gs_GoName svc) = true
  /\ (forall m, m ∈ gs_Methods svc -> named_method m = true).
Proof.
  apply andb_true_iff in Hsvc as [[Hn Hg]%andb_true_iff Hm]. split; [done|]. split; [done|].
  intros m Hin. rw forallb_forall in Hm. by apply Hm, list_elem_of_In.
Qed.

Lemma genClient_usages :
  omap line_usage (genClient q svc (gs_GoName svc) (gs_name svc))
  = (fun m => Calls (method_const (gs_GoName svc) m)) <$> gs_Methods svc.
Proof.
  destruct service_names as (_ & Hg & Hms). unfold genClient. cbv zeta. rw omap_app. skip_lines.
  rw -flat_map_singleton. apply omap_flat_map. intros m Hm%Hms. unfold genClient_method. cbv zeta.
  skip_lines. rw (omap_keep _ _ _ _ (call_line_usage _ _ Hg Hm)). by skip_lines.
Qed.

Lemma genServerInterface_usages : omap line_usage (genServerInterface q svc (gs_GoName svc)) = [].
Proof.
  destruct service_names as (_ & Hg & Hms). unfold genServerInterface. cbv zeta. rw !omap_app. skip_lines.
  rw app_nil_l app_nil_r -flat_map_singleton. apply omap_flat_map_nil.
  intros m Hm%Hms. by rw omap_skip; [apply ident_line_usage; by apply andb_true_iff in Hm as [_ Hm]|].
Qed.

Lemma genUnimplementedServer_usages : omap line_usage (genUnimplementedServer q svc (gs_GoName svc)) = [].
Proof.
  unfold genUnimplementedServer. cbv zeta. rw omap_app. skip_lines.
  rw app_nil_l. apply omap_flat_map_nil. intros m _. by skip_lines.
Qed.

Lemma genRegister_usages :
  omap line_usage (genRegister q svc (gs_GoName svc) (gs_name svc))
  = (fun m => Registers (method_const (gs_GoName svc) m)) <$> gs_Methods svc.
Proof.
  destruct service_names as (_ & Hg & Hms). unfold genRegister. cbv zeta. rw !omap_app. skip_lines.
  rw app_nil_r -flat_map_singleton. apply omap_flat_map. intros m Hm%Hms. unfold genRegister_method. cbv zeta.
  rw (omap_keep _ _ _ _ (register_line_usage _ _ _ Hg Hm)). by skip_lines.
Qed.

Lemma genServiceWrapper_usages : omap line_usage (genServiceWrapper q (gs_GoName svc)) = [].
Proof.
  destruct service_names as (_ & Hg & _). unfold genServiceWrapper. cbv zeta. skip_lines.
  set (w := "Register" +:+ gs_GoName svc +:+ "Server").
  rw omap_skip; [apply (ident_line_usage w "srv, r.impl)"); subst w; by rw !ident_app Hg|]. by skip_lines.
Qed.

Lemma genService_usages file :
  dotted (gf_package file) = true ->
  omap line_usage (genService q file svc) = service_usages (gf_package file) svc.
Proof.
  intros Hp. destruct service_names as (Hn & Hg & Hms). unfold genService, service_usages. cbv zeta.
  generalize genClient_usages, genServerInterface_usages, genUnimplementedServer_usages,
    genRegister_usages, genServiceWrapper_usages.
  generalize (genClient q svc (gs_GoName svc) (gs_name svc)), (genServerInterface q svc (gs_GoName svc)),
    (genUnimplementedServer q svc (gs_GoName svc)), (genRegister q svc (gs_GoName svc) (gs_name svc)),
    (genServiceWrapper q (gs_GoName svc)).
  intros l1 l2 l3 l4 l5 E1 E2 E3 E4 E5. rw !omap_app E1 E2 E3 E4 E5. skip_lines.
  rw !app_nil_l !app_nil_r. f_equal.
  rw -!flat_map_singleton. apply omap_flat_map. intros m Hm%Hms.
  by rw (omap_keep _ _ _ _ (const_line_usage _ _ _ _ Hp Hn Hg Hm)).
Qed.
End Service.

Lemma generateFile_usages file :
  named_file file = true ->
  omap line_usage (go_lines (generateFile q file))
  = flat_map (service_usages (gf_package file)) (gf_Services file).
Proof.
  intros [[[_ Hp]%andb_true_iff _]%andb_true_iff Hs]%andb_true_iff. cbn [go_lines generateFile].
  rw omap_app. skip_lines. apply omap_flat_map. intros svc Hin.
  rw forallb_forall in Hs. apply genService_usages; [by apply Hs, list_elem_of_In|done].
Qed.
End Usages.

(** ** Brackets of the generated text *)

Definition closed_lines (ls : list string) : Prop := forall stack, line_brackets ls stack = Some stack.

Lemma line_brackets_app a b stack : line_brackets (a ++ b) stack = line_brackets a stack ≫= line_brackets b.
Proof.
  revert stack. induction a as [|l a IH]; intros stack; [done|]. simpl.
  destruct (brackets l stack); [|done]. apply IH.
Qed.

Lemma closed_lines_app a b : closed_lines a -> closed_lines b -> closed_lines (a ++ b).
Proof. intros Ha Hb stack. rw line_brackets_app Ha. apply Hb. Qed.

Lemma closed_lines_flat_map {X} (f : X -> list string) xs :
  (forall x, x ∈ xs -> closed_lines (f x)) -> closed_lines (flat_map f xs).
Proof.
  induction xs as [|x xs IH]; intros H; [by intros stack|]. apply closed_lines_app; [apply H; left|].
  apply IH. intros y Hy. apply H. by right.
Qed.

(** Lines inside one bracket. *)
Lemma closed_lines_inside a b c bracket :
  (forall stack, line_brackets a stack = Some (bracket :: stack)) -> closed_lines b ->
  (forall stack, line_brackets c (bracket :: stack) = Some stack) -> closed_lines (a ++ b ++ c).
Proof. intros Ha Hb Hc stack. rw line_brackets_app Ha /= line_brackets_app Hb /=. apply Hc. Qed.

Lemma plain_hex_digit v : plain (char (hex_digit (v mod 16))) = true.
Proof.
  pose proof (Z.mod_pos_bound v 16 ltac:(lia)) as Hv. revert Hv. generalize (v mod 16)%Z. clear v. intros v Hv.
  assert (v ∈ seqZ 0 16) as H by (apply elem_of_seqZ; lia).
  change (seqZ 0 16) with (Z.of_nat <$> seq 0 16) in H. cbn in H. set_unfold in H. destruct_or? H; subst; by vm_compute.
Qed.

Lemma plain_hex_digits n v : plain (hex_digits n v) = true.
Proof. revert v. induction n as [|n IH]; intros v; [done|]. simpl hex_digits. by rw plain_app IH plain_hex_digit. Qed.

Lemma ident_unexport s : ident s = true -> ident (unexport s) = true.
Proof.
  destruct s as [|c s]; [done|]. simpl. intros [Hc Hs]%andb_true_iff.
  case_match eqn:E; cbn [ident]; rw Hs andb_true_r //. clear Hs.
  destruct c as [[] [] [] [] [] [] [] []]; done.
Qed.

Section Brackets.
Variable q : GoIdent -> string.
Hypothesis Hq : forall i, plain (q i) = true.

(** The texts of a service as its lines use them, all plain. *)
Definition plain_names (svc : Go_Service) : Prop :=
  plain (gs_name svc) = true /\ plain (gs_GoName svc) = true /\ plain (unexport (gs_GoName svc)) = true
  /\ (forall m, m ∈ gs_Methods svc ->
        plain (gm_name m) = true /\ plain (gm_GoName m) = true /\ plain (method_const (gs_GoName svc) m) = true).

Lemma named_plain svc : named_service svc = true -> plain_names svc.
Proof.
  intros (Hn & Hg & Hm)%service_names. split; [by apply ident_plain|]. split; [by apply ident_plain|].
  split; [by apply ident_plain, ident_unexport|]. intros m Hin%Hm.
  pose proof (method_const_ident _ _ Hg Hin) as Hc. apply andb_true_iff in Hin as [H1 H2].
  by split; [|split]; apply ident_plain.
Qed.

Ltac texts := intros stack; lines.

Lemma genClient_closed svc :
  plain_names svc -> closed_lines (genClient q svc (gs_GoName svc) (gs_name svc)).
Proof.
  intros (Hn & Hg & _ & Hms). unfold genClient. cbv zeta. apply closed_lines_app; [texts|].
  apply closed_lines_flat_map. intros m (Hm & Hgm & Hc)%Hms. unfold genClient_method, Quote. cbv zeta.
  revert Hc. generalize (method_const (gs_GoName svc) m). intros const Hc. texts.
Qed.

Lemma genServerInterface_closed svc :
  plain_names svc -> closed_lines (genServerInterface q svc (gs_GoName svc)).
Proof.
  intros (_ & Hg & _ & Hms). unfold genServerInterface. cbv zeta.
  apply (closed_lines_inside _ _ _ Brace); [texts| |texts].
  rw -flat_map_singleton. apply closed_lines_flat_map. intros m (_ & Hgm & _)%Hms. texts.
Qed.

Lemma genUnimplementedServer_closed svc :
  plain_names svc -> closed_lines (genUnimplementedServer q svc (gs_GoName svc)).
Proof.
  intros (_ & Hg & _ & Hms). unfold genUnimplementedServer. cbv zeta. apply closed_lines_app; [texts|].
  apply closed_lines_flat_map. intros m (_ & Hgm & _)%Hms. texts.
Qed.

Lemma genRegister_closed svc :
  plain_names svc -> closed_lines (genRegister q svc (gs_GoName svc) (gs_name svc)).
Proof.
  intros (Hn & Hg & _ & Hms). unfold genRegister. cbv zeta.
  apply (closed_lines_inside _ _ _ Brace); [texts| |texts].
  apply closed_lines_flat_map. intros m (Hm & Hgm & Hc)%Hms. unfold genRegister_method, Quote. cbv zeta.
  revert Hc. generalize (method_const (gs_GoName svc) m). intros const Hc. texts.
Qed.

Lemma genServiceWrapper_closed svc :
  plain_names svc -> closed_lines (genServiceWrapper q (gs_GoName svc)).
Proof.
  intros (_ & Hg & Hu & _). unfold genServiceWrapper. cbv zeta.
  revert Hu. generalize (unexport (gs_GoName svc)). intros u Hu. texts.
Qed.

Lemma const_line_closed pkg svc m :
  plain pkg = true -> plain_names svc -> m ∈ gs_Methods svc ->
  closed_lines [Go_const_line pkg (gs_name svc) (gs_GoName svc) m].
Proof.
  intros Hp (Hn & Hg & _ & Hms) (Hm & _ & Hc)%Hms. unfold Go_const_line, hex8. cbv zeta.
  rw Go_methodFullName_cpp. pose proof (plain_method_full_name _ _ _ Hp Hn Hm) as Hf. revert Hc Hf.
  generalize (method_const (gs_GoName svc) m), (method_full_name pkg (gs_name svc) (gm_name m)).
  intros const full Hc Hf. pose proof (plain_hex_digits 8 (Go_Fnv1a32 full)) as Hx. revert Hx.
  generalize (hex_digits 8 (Go_Fnv1a32 full)). intros x Hx. texts.
Qed.

Lemma genService_closed file svc :
  plain (gf_package file) = true -> plain_names svc -> closed_lines (genService q file svc).
Proof.
  intros Hp Hs. unfold genService. cbv zeta. rw app_assoc (app_assoc (_ ++ _)).
  apply closed_lines_app.
  { rw -app_assoc. apply (closed_lines_inside _ _ _ Paren); [destruct Hs as (_ & Hg & _); texts| |texts].
    rw -flat_map_singleton. apply closed_lines_flat_map. intros m Hm. by apply const_line_closed. }
  apply closed_lines_app; [by apply genClient_closed|].
  apply closed_lines_app; [by apply genServerInterface_closed|].
  apply closed_lines_app; [by apply genUnimplementedServer_closed|].
  apply closed_lines_app; [by apply genRegister_closed|by apply genServiceWrapper_closed].
Qed.

Lemma generateFile_balanced file :
  named_file file = true -> balanced_text (emit EmptyString (go_lines (generateFile q file))).
Proof.
  intros [[[Hf Hp%dotted_plain]%andb_true_iff Hg%ident_plain]%andb_true_iff Hs]%andb_true_iff.
  apply (brackets_emit _ _ _ []); [done|]. cbn [go_lines generateFile]. revert Hs. rw forallb_forall. intros Hs.
  apply closed_lines_app; [texts|]. apply closed_lines_flat_map. intros svc Hin.
  apply genService_closed; [done|]. by apply named_plain, Hs, list_elem_of_In.
Qed.
End Brackets.

(** ** Properties *)

Open Scope list_scope.

Lemma Go_collision_spec fulls seen names a b :
  Forall (fun s => nul_free (bytes_of_string s)) fulls ->
  (forall h full, seen !! h = Some full -> h = method_hash full /\ full ∈ names) ->
  Go_checkHashCollisions seen fulls = Some (a, b) ->
  a ∈ names ++ fulls /\ b ∈ names ++ fulls /\ a <> b /\ method_hash a = method_hash b.
Proof.
  intros Hn. revert seen names. induction Hn as [|f fulls Hf _ IH]; intros seen names Hs; [done|]. simpl.
  rw Go_Fnv1a32_cpp //. destruct (seen !! method_hash f) as [o|] eqn:E; [case_bool_decide as Ho|].
  - intros H. apply (IH _ names Hs) in H. set_solver.
  - intros [= <- <-]. apply Hs in E. set_solver.
  - intros H. apply (IH _ (names ++ [f])) in H; [rw -app_assoc in H; exact H|].
    intros h full [[<- <-]|[_ [? ?]%Hs]]%lookup_insert_Some; set_solver.
Qed.

Lemma Go_collision_pair fulls a b :
  Forall (fun s => nul_free (bytes_of_string s)) fulls -> Go_checkHashCollisions ∅ fulls = Some (a, b) ->
  a ∈ fulls /\ b ∈ fulls /\ a <> b /\ method_hash a = method_hash b.
Proof. intros Hn. apply (Go_collision_spec _ _ []); [done|]. by intros h full ?. Qed.

Lemma named_full_names files :
  forallb named_file files = true ->
  Forall (fun s => nul_free (bytes_of_string s)) (request_methods (Go_descriptor <$> files)).
Proof.
  rw forallb_forall -Go_full_names_cpp. intros H. apply Forall_forall. intros full Hin%list_elem_of_In.
  apply in_flat_map in Hin as (d & Hd%list_elem_of_In & Hin).
  apply list_elem_of_fmap in Hd as (f & -> & Hf%list_elem_of_In%H).
  apply in_flat_map in Hin as (s & Hs%list_elem_of_In & Hin%list_elem_of_In).
  apply list_elem_of_fmap in Hs as (svc & -> & Hsvc%list_elem_of_In).
  apply list_elem_of_fmap in Hin as (m' & -> & Hm). apply list_elem_of_fmap in Hm as (m & -> & Hm).
  apply andb_true_iff in Hf as [[[_ Hp]%andb_true_iff _]%andb_true_iff Hs].
  rw forallb_forall in Hs. apply Hs, service_names in Hsvc as (Hn & _ & Hms).
  apply Hms, andb_true_iff in Hm as [Hm _]. by apply full_name_nul_free.
Qed.

(** C31: the Go plugin, for names as protoc accepts them.  It refuses exactly
    the requests that the C++ plugin refuses for a collision: the error names
    two different methods with one identifier, the pair of the C++ error.
    Otherwise all identifiers differ, and there is one file for every
    requested file with services, in order, under its prefix.  Read back, such
    a file declares one constant for every method, with the identifier that
    the C++ stubs and services compute for it; each service's client calls
    through, and its registration registers, each of these constants once;
    and the text is well bracketed. *)
Theorem go_plugin_output q files :
  (forall i, plain (q i) = true) -> forallb named_file files = true ->
  let fulls := request_methods (Go_descriptor <$> files) in
  match Go_plugin q files with
  | inr err => exists a b, a ∈ fulls /\ b ∈ fulls /\ a <> b /\ method_hash a = method_hash b
      /\ plugin (Go_descriptor <$> files) = mkResponse (Some (collision_error a b)) []
      /\ err = "protocomm: FNV1a32 method-ID collision between " +:+ Quote a +:+ " and " +:+ Quote b
               +:+ ". Rename one of the methods."
  | inl outs => ids_distinct fulls
      /\ Forall2 (fun f out => go_filename out = gf_prefix f +:+ "_protocomm.pb.go"
           /\ go_importpath out = gf_GoImportPath f
           /\ omap line_usage (go_lines out) = flat_map (service_usages (gf_package f)) (gf_Services f)
           /\ balanced_text (emit EmptyString (go_lines out)))
         (filter (fun f => gf_Generate f = true /\ gf_Services f <> []) files) outs
  end.
Proof.
  intros Hq Hf fulls. pose proof (Go_checkHashCollisions_cpp ∅ fulls (named_full_names _ Hf)) as Hs.
  pose proof (scan_methods_empty fulls) as Hspec. unfold Go_plugin. rw Go_full_names_cpp.
  fold fulls. destruct (Go_checkHashCollisions ∅ fulls) as [[a b]|] eqn:E.
  - assert (scan_methods ∅ fulls = Some (collision_error a b)) as Hc by exact Hs. clear Hs.
    apply Go_collision_pair in E as (Ha & Hb & Hne & Hh); [|by apply named_full_names].
    exists a, b. repeat split; [done..|]. unfold plugin. fold fulls. by rw Hc.
  - assert (scan_methods ∅ fulls = None) as Hc by exact Hs. rw Hc in Hspec. split; [done|].
    apply Forall2_fmap_r, Forall_Forall2_diag, Forall_forall.
    intros f [_ Hin%list_elem_of_In]%list_elem_of_filter. rw forallb_forall in Hf. apply Hf in Hin.
    split; [done|]. split; [done|]. split; [by apply generateFile_usages|by apply generateFile_balanced].
Qed.

(** A requested file with one service, and an imported file. *)
Definition greeter_go : Go_File :=
  mkGoFile "demo/greeter.proto" "demo.v1" "demo/greeter" "example.com/demo" "demo" true
    [mkGoService "Greeter" "Greeter"
       [mkGoMethod "Hello" "Hello" (mkGoIdent "HelloRequest" "example.com/demo") (mkGoIdent "HelloReply" "example.com/demo");
        mkGoMethod "say_bye" "SayBye" (mkGoIdent "ByeRequest" "example.com/demo") (mkGoIdent "ByeReply" "example.com/demo")]].
Definition imported_go : Go_File := mkGoFile "demo/types.proto" "demo.v1" "demo/types" "example.com/demo" "demo" false [].

Lemma go_plugin_output_witness :
  exists out, Go_plugin (fun _ => "Name") [imported_go; greeter_go] = inl [out]
  /\ omap line_usage (go_lines out)
     = [Declares "Greeter_Hello_MethodID" 352678287; Declares "Greeter_SayBye_MethodID" 1590459295;
        Calls "Greeter_Hello_MethodID"; Calls "Greeter_SayBye_MethodID";
        Registers "Greeter_Hello_MethodID"; Registers "Greeter_SayBye_MethodID"]
  /\ balanced_text (emit EmptyString (go_lines out)).
Proof.
  exists (generateFile (fun _ => "Name") greeter_go). split; [by vm_compute|].
  assert (Go_plugin (fun _ => "Name") [imported_go; greeter_go] = inl [generateFile (fun _ => "Name") greeter_go]) as E
    by (by vm_compute).
  pose proof (go_plugin_output (fun _ => "Name") [imported_go; greeter_go] (fun _ => eq_refl) ltac:(by vm_compute)) as H.
  cbv zeta in H. rw E in H. destruct H as [_ H].
  inversion H as [|? ? ? ? (_ & _ & Hu & Hb) _]; subst. split; [rw Hu; by vm_compute|exact Hb].
Defined.
