(* ===== verification/ExampleProtos.v ===== *)
(** * ExampleProtos: the three protocols of the repository, and the stubs kept
    for them

    The services of [proto/calculator.proto], [proto/chat.proto] and
    [proto/example.proto], as the two protoc plugins read them, and the text
    of the three [_protocomm.pb.go] files under [go/proto], which [go/generate.sh]
    is said to produce.  The plugin of [GoGenerator] run on the protocols is compared
    with that text: what it emits today is the text with the tracing lines
    added, so the files kept are those of an earlier plugin. *)

From Stdlib Require Import Ascii.
From S2P Require Import Prelude.
From S2P Require Import Frame.
From S2P Require Import MethodHash.
From S2P Require Import Generator.
From S2P Require Import GoFrame.
From S2P Require Import GoGenerator.

Open Scope string_scope.

(** ** The protocols *)

(** A [service] block: its name, and per [rpc] the name and the two types. *)
Record proto_service := mkProto {
  ps_name : string;
  ps_rpcs : list (string * string * string)
}.

(** A [.proto] file: its name, [package], [go_package], the services. *)
Record proto_file := mkProtoFile {
  pf_name : string; pf_package : string; pf_go_package : string; pf_services : list proto_service
}.

Definition calculator_proto : proto_file :=
  mkProtoFile "calculator.proto" "math" "github.com/boeing666/protocomm/go/proto/math"
    [mkProto "Calculator"
       [("Add", "CalcRequest", "CalcResponse"); ("Subtract", "CalcRequest", "CalcResponse");
        ("Multiply", "CalcRequest", "CalcResponse"); ("Divide", "CalcRequest", "CalcResponse")]].

Definition chat_proto : proto_file :=
  mkProtoFile "chat.proto" "messaging" "github.com/boeing666/protocomm/go/proto/messaging"
    [mkProto "Chat"
       [("SendMessage", "ChatMessage", "SendResult"); ("GetHistory", "HistoryRequest", "HistoryResponse");
        ("Ping", "PingRequest", "PongResponse")]].

Definition example_proto : proto_file :=
  mkProtoFile "example.proto" EmptyString "github.com/boeing666/protocomm/go/proto/example"
    [mkProto "Greeter"
       ((fun n => ("SayHello" +:+ n, "HelloRequest", "HelloReply"))
        <$> [EmptyString; "1"; "2"; "3"; "4"; "5"; "6"; "7"; "8"])].

Definition example_protos : list proto_file := [example_proto; calculator_proto; chat_proto].

(** ** What protoc hands to the plugins *)

(** A type name, resolved in its package: [.pkg.Type]. *)
Definition resolved (pkg type : string) : string :=
  match pkg with EmptyString => "." +:+ type | _ => "." +:+ pkg +:+ "." +:+ type end.

Definition descriptor (f : proto_file) : FileDescriptorProto :=
  mkFile (pf_name f) (pf_package f)
    ((fun s => mkService (ps_name s)
        ((fun '(n, i, o) => mkMethod n (resolved (pf_package f) i) (resolved (pf_package f) o)) <$> ps_rpcs s))
     <$> pf_services f).

(** The part of a path after its last slash. *)
Definition base_name (path : string) : string :=
  match find_last_of "/" 0 path with
  | Some n => String.substring (S n) (String.length path - S n) path
  | None => path
  end.

(** protogen's view; [--protocomm-go_opt=module=] strips the module of
    [generate.sh] from the import path, the files go to [proto/<pkg>/]. *)
Definition go_file (f : proto_file) : Go_File :=
  let stem := prefix_to (find_last_of "." 0 (pf_name f)) (pf_name f) in
  mkGoFile (pf_name f) (pf_package f) ("proto/" +:+ base_name (pf_go_package f) +:+ "/" +:+ stem)
    (pf_go_package f) (base_name (pf_go_package f)) true
    ((fun s => mkGoService (ps_name s) (ps_name s)
        ((fun '(n, i, o) => mkGoMethod n n (mkGoIdent i (pf_go_package f)) (mkGoIdent o (pf_go_package f))) <$> ps_rpcs s))
     <$> pf_services f).

(** A name in a file of import path [here]: bare when declared there,
    qualified by the package otherwise; [go] is a keyword, so that package
    is imported as [_go]. *)
Definition qualified (here : string) (i : GoIdent) : string :=
  if String.eqb (GoImportPath i) here then GoName i
  else
    let pkg := base_name (GoImportPath i) in
    (if String.eqb pkg "go" then "_go" else pkg) +:+ "." +:+ GoName i.

(** ** The text kept in the repository

    Verbatim but for the double quotes, written single. *)

Definition calculator_protocomm_pb_go : string := "// Code generated by protoc-gen-protocomm-go. DO NOT EDIT.
// source: calculator.proto

package math

import (
	_go 'github.com/boeing666/protocomm/go'
	proto 'google.golang.org/protobuf/proto'
)

// Method IDs for Calculator service.
const (
	Calculator_Add_MethodID      uint32 = 0x5e1a1ae6 // /math.Calculator/Add
	Calculator_Subtract_MethodID uint32 = 0x117c9a17 // /math.Calculator/Subtract
	Calculator_Multiply_MethodID uint32 = 0x6eaa896b // /math.Calculator/Multiply
	Calculator_Divide_MethodID   uint32 = 0x88abc36a // /math.Calculator/Divide
)

// CalculatorClient is the client stub for the Calculator service.
type CalculatorClient struct {
	ch *_go.Channel
}

// NewCalculatorClient creates a client stub bound to the given channel.
func NewCalculatorClient(ch *_go.Channel) *CalculatorClient {
	return &CalculatorClient{ch: ch}
}

func (c *CalculatorClient) Add(req *CalcRequest) (*CalcResponse, _go.Status) {
	data, err := proto.Marshal(req)
	if err != nil {
		return nil, _go.Status{Code: _go.Internal, Message: 'marshal: ' + err.Error()}
	}
	respData, st := c.ch.UnaryCall(Calculator_Add_MethodID, data)
	if !st.IsOK() {
		return nil, st
	}
	resp := new(CalcResponse)
	if err := proto.Unmarshal(respData, resp); err != nil {
		return nil, _go.Status{Code: _go.Internal, Message: 'unmarshal: ' + err.Error()}
	}
	return resp, _go.StatusOK()
}

func (c *CalculatorClient) Subtract(req *CalcRequest) (*CalcResponse, _go.Status) {
	data, err := proto.Marshal(req)
	if err != nil {
		return nil, _go.Status{Code: _go.Internal, Message: 'marshal: ' + err.Error()}
	}
	respData, st := c.ch.UnaryCall(Calculator_Subtract_MethodID, data)
	if !st.IsOK() {
		return nil, st
	}
	resp := new(CalcResponse)
	if err := proto.Unmarshal(respData, resp); err != nil {
		return nil, _go.Status{Code: _go.Internal, Message: 'unmarshal: ' + err.Error()}
	}
	return resp, _go.StatusOK()
}

func (c *CalculatorClient) Multiply(req *CalcRequest) (*CalcResponse, _go.Status) {
	data, err := proto.Marshal(req)
	if err != nil {
		return nil, _go.Status{Code: _go.Internal, Message: 'marshal: ' + err.Error()}
	}
	respData, st := c.ch.UnaryCall(Calculator_Multiply_MethodID, data)
	if !st.IsOK() {
		return nil, st
	}
	resp := new(CalcResponse)
	if err := proto.Unmarshal(respData, resp); err != nil {
		return nil, _go.Status{Code: _go.Internal, Message: 'unmarshal: ' + err.Error()}
	}
	return resp, _go.StatusOK()
}

func (c *CalculatorClient) Divide(req *CalcRequest) (*CalcResponse, _go.Status) {
	data, err := proto.Marshal(req)
	if err != nil {
		return nil, _go.Status{Code: _go.Internal, Message: 'marshal: ' + err.Error()}
	}
	respData, st := c.ch.UnaryCall(Calculator_Divide_MethodID, data)
	if !st.IsOK() {
		return nil, st
	}
	resp := new(CalcResponse)
	if err := proto.Unmarshal(respData, resp); err != nil {
		return nil, _go.Status{Code: _go.Internal, Message: 'unmarshal: ' + err.Error()}
	}
	return resp, _go.StatusOK()
}

// CalculatorServer is the server-side interface for the Calculator service.
type CalculatorServer interface {
	Add(ctx *_go.ServerContext, req *CalcRequest) (*CalcResponse, _go.Status)
	Subtract(ctx *_go.ServerContext, req *CalcRequest) (*CalcResponse, _go.Status)
	Multiply(ctx *_go.ServerContext, req *CalcRequest) (*CalcResponse, _go.Status)
	Divide(ctx *_go.ServerContext, req *CalcRequest) (*CalcResponse, _go.Status)
}

// UnimplementedCalculatorServer returns UNIMPLEMENTED for every method.
type UnimplementedCalculatorServer struct{}

func (UnimplementedCalculatorServer) Add(_ *_go.ServerContext, _ *CalcRequest) (*CalcResponse, _go.Status) {
	return nil, _go.Status{Code: _go.Unimplemented, Message: 'Add not implemented'}
}

func (UnimplementedCalculatorServer) Subtract(_ *_go.ServerContext, _ *CalcRequest) (*CalcResponse, _go.Status) {
	return nil, _go.Status{Code: _go.Unimplemented, Message: 'Subtract not implemented'}
}

func (UnimplementedCalculatorServer) Multiply(_ *_go.ServerContext, _ *CalcRequest) (*CalcResponse, _go.Status) {
	return nil, _go.Status{Code: _go.Unimplemented, Message: 'Multiply not implemented'}
}

func (UnimplementedCalculatorServer) Divide(_ *_go.ServerContext, _ *CalcRequest) (*CalcResponse, _go.Status) {
	return nil, _go.Status{Code: _go.Unimplemented, Message: 'Divide not implemented'}
}

// RegisterCalculatorServer registers a CalculatorServer with the protocomm server.
func RegisterCalculatorServer(srv *_go.Server, impl CalculatorServer) {
	srv.RegisterMethod(Calculator_Add_MethodID, func(ctx *_go.ServerContext, data []byte) ([]byte, _go.Status) {
		req := new(CalcRequest)
		if err := proto.Unmarshal(data, req); err != nil {
			return nil, _go.Status{Code: _go.Internal, Message: 'unmarshal: ' + err.Error()}
		}
		resp, st := impl.Add(ctx, req)
		if !st.IsOK() {
			return nil, st
		}
		out, err := proto.Marshal(resp)
		if err != nil {
			return nil, _go.Status{Code: _go.Internal, Message: 'marshal: ' + err.Error()}
		}
		return out, _go.StatusOK()
	})
	srv.RegisterMethod(Calculator_Subtract_MethodID, func(ctx *_go.ServerContext, data []byte) ([]byte, _go.Status) {
		req := new(CalcRequest)
		if err := proto.Unmarshal(data, req); err != nil {
			return nil, _go.Status{Code: _go.Internal, Message: 'unmarshal: ' + err.Error()}
		}
		resp, st := impl.Subtract(ctx, req)
		if !st.IsOK() {
			return nil, st
		}
		out, err := proto.Marshal(resp)
		if err != nil {
			return nil, _go.Status{Code: _go.Internal, Message: 'marshal: ' + err.Error()}
		}
		return out, _go.StatusOK()
	})
	srv.RegisterMethod(Calculator_Multiply_MethodID, func(ctx *_go.ServerContext, data []byte) ([]byte, _go.Status) {
		req := new(CalcRequest)
		if err := proto.Unmarshal(data, req); err != nil {
			return nil, _go.Status{Code: _go.Internal, Message: 'unmarshal: ' + err.Error()}
		}
		resp, st := impl.Multiply(ctx, req)
		if !st.IsOK() {
			return nil, st
		}
		out, err := proto.Marshal(resp)
		if err != nil {
			return nil, _go.Status{Code: _go.Internal, Message: 'marshal: ' + err.Error()}
		}
		return out, _go.StatusOK()
	})
	srv.RegisterMethod(Calculator_Divide_MethodID, func(ctx *_go.ServerContext, data []byte) ([]byte, _go.Status) {
		req := new(CalcRequest)
		if err := proto.Unmarshal(data, req); err != nil {
			return nil, _go.Status{Code: _go.Internal, Message: 'unmarshal: ' + err.Error()}
		}
		resp, st := impl.Divide(ctx, req)
		if !st.IsOK() {
			return nil, st
		}
		out, err := proto.Marshal(resp)
		if err != nil {
			return nil, _go.Status{Code: _go.Internal, Message: 'marshal: ' + err.Error()}
		}
		return out, _go.StatusOK()
	})
}

type calculatorServiceRegistrar struct{ impl CalculatorServer }

func (r *calculatorServiceRegistrar) RegisterWith(srv *_go.Server) {
	RegisterCalculatorServer(srv, r.impl)
}

// NewCalculatorService wraps impl as a _go.Service for use with ServerBuilder.
func NewCalculatorService(impl CalculatorServer) _go.Service {
	return &calculatorServiceRegistrar{impl: impl}
}".

Definition chat_protocomm_pb_go : string := "// Code generated by protoc-gen-protocomm-go. DO NOT EDIT.
// source: chat.proto

package messaging

import (
	_go 'github.com/boeing666/protocomm/go'
	proto 'google.golang.org/protobuf/proto'
)

// Method IDs for Chat service.
const (
	Chat_SendMessage_MethodID uint32 = 0xb3075644 // /messaging.Chat/SendMessage
	Chat_GetHistory_MethodID  uint32 = 0x26af5587 // /messaging.Chat/GetHistory
	Chat_Ping_MethodID        uint32 = 0x2cfcab87 // /messaging.Chat/Ping
)

// ChatClient is the client stub for the Chat service.
type ChatClient struct {
	ch *_go.Channel
}

// NewChatClient creates a client stub bound to the given channel.
func NewChatClient(ch *_go.Channel) *ChatClient {
	return &ChatClient{ch: ch}
}

func (c *ChatClient) SendMessage(req *ChatMessage) (*SendResult, _go.Status) {
	data, err := proto.Marshal(req)
	if err != nil {
		return nil, _go.Status{Code: _go.Internal, Message: 'marshal: ' + err.Error()}
	}
	respData, st := c.ch.UnaryCall(Chat_SendMessage_MethodID, data)
	if !st.IsOK() {
		return nil, st
	}
	resp := new(SendResult)
	if err := proto.Unmarshal(respData, resp); err != nil {
		return nil, _go.Status{Code: _go.Internal, Message: 'unmarshal: ' + err.Error()}
	}
	return resp, _go.StatusOK()
}

func (c *ChatClient) GetHistory(req *HistoryRequest) (*HistoryResponse, _go.Status) {
	data, err := proto.Marshal(req)
	if err != nil {
		return nil, _go.Status{Code: _go.Internal, Message: 'marshal: ' + err.Error()}
	}
	respData, st := c.ch.UnaryCall(Chat_GetHistory_MethodID, data)
	if !st.IsOK() {
		return nil, st
	}
	resp := new(HistoryResponse)
	if err := proto.Unmarshal(respData, resp); err != nil {
		return nil, _go.Status{Code: _go.Internal, Message: 'unmarshal: ' + err.Error()}
	}
	return resp, _go.StatusOK()
}

func (c *ChatClient) Ping(req *PingRequest) (*PongResponse, _go.Status) {
	data, err := proto.Marshal(req)
	if err != nil {
		return nil, _go.Status{Code: _go.Internal, Message: 'marshal: ' + err.Error()}
	}
	respData, st := c.ch.UnaryCall(Chat_Ping_MethodID, data)
	if !st.IsOK() {
		return nil, st
	}
	resp := new(PongResponse)
	if err := proto.Unmarshal(respData, resp); err != nil {
		return nil, _go.Status{Code: _go.Internal, Message: 'unmarshal: ' + err.Error()}
	}
	return resp, _go.StatusOK()
}

// ChatServer is the server-side interface for the Chat service.
type ChatServer interface {
	SendMessage(ctx *_go.ServerContext, req *ChatMessage) (*SendResult, _go.Status)
	GetHistory(ctx *_go.ServerContext, req *HistoryRequest) (*HistoryResponse, _go.Status)
	Ping(ctx *_go.ServerContext, req *PingRequest) (*PongResponse, _go.Status)
}

// UnimplementedChatServer returns UNIMPLEMENTED for every method.
type UnimplementedChatServer struct{}

func (UnimplementedChatServer) SendMessage(_ *_go.ServerContext, _ *ChatMessage) (*SendResult, _go.Status) {
	return nil, _go.Status{Code: _go.Unimplemented, Message: 'SendMessage not implemented'}
}

func (UnimplementedChatServer) GetHistory(_ *_go.ServerContext, _ *HistoryRequest) (*HistoryResponse, _go.Status) {
	return nil, _go.Status{Code: _go.Unimplemented, Message: 'GetHistory not implemented'}
}

func (UnimplementedChatServer) Ping(_ *_go.ServerContext, _ *PingRequest) (*PongResponse, _go.Status) {
	return nil, _go.Status{Code: _go.Unimplemented, Message: 'Ping not implemented'}
}

// RegisterChatServer registers a ChatServer with the protocomm server.
func RegisterChatServer(srv *_go.Server, impl ChatServer) {
	srv.RegisterMethod(Chat_SendMessage_MethodID, func(ctx *_go.ServerContext, data []byte) ([]byte, _go.Status) {
		req := new(ChatMessage)
		if err := proto.Unmarshal(data, req); err != nil {
			return nil, _go.Status{Code: _go.Internal, Message: 'unmarshal: ' + err.Error()}
		}
		resp, st := impl.SendMessage(ctx, req)
		if !st.IsOK() {
			return nil, st
		}
		out, err := proto.Marshal(resp)
		if err != nil {
			return nil, _go.Status{Code: _go.Internal, Message: 'marshal: ' + err.Error()}
		}
		return out, _go.StatusOK()
	})
	srv.RegisterMethod(Chat_GetHistory_MethodID, func(ctx *_go.ServerContext, data []byte) ([]byte, _go.Status) {
		req := new(HistoryRequest)
		if err := proto.Unmarshal(data, req); err != nil {
			return nil, _go.Status{Code: _go.Internal, Message: 'unmarshal: ' + err.Error()}
		}
		resp, st := impl.GetHistory(ctx, req)
		if !st.IsOK() {
			return nil, st
		}
		out, err := proto.Marshal(resp)
		if err != nil {
			return nil, _go.Status{Code: _go.Internal, Message: 'marshal: ' + err.Error()}
		}
		return out, _go.StatusOK()
	})
	srv.RegisterMethod(Chat_Ping_MethodID, func(ctx *_go.ServerContext, data []byte) ([]byte, _go.Status) {
		req := new(PingRequest)
		if err := proto.Unmarshal(data, req); err != nil {
			return nil, _go.Status{Code: _go.Internal, Message: 'unmarshal: ' + err.Error()}
		}
		resp, st := impl.Ping(ctx, req)
		if !st.IsOK() {
			return nil, st
		}
		out, err := proto.Marshal(resp)
		if err != nil {
			return nil, _go.Status{Code: _go.Internal, Message: 'marshal: ' + err.Error()}
		}
		return out, _go.StatusOK()
	})
}

type chatServiceRegistrar struct{ impl ChatServer }

func (r *chatServiceRegistrar) RegisterWith(srv *_go.Server) {
	RegisterChatServer(srv, r.impl)
}

// NewChatService wraps impl as a _go.Service for use with ServerBuilder.
func NewChatService(impl ChatServer) _go.Service {
	return &chatServiceRegistrar{impl: impl}
}".

Definition example_protocomm_pb_go : string := "// Code generated by protoc-gen-protocomm-go. DO NOT EDIT.
// source: example.proto

package example

import (
	_go 'github.com/boeing666/protocomm/go'
	proto 'google.golang.org/protobuf/proto'
)

// Method IDs for Greeter service.
const (
	Greeter_SayHello_MethodID  uint32 = 0x18500478 // /Greeter/SayHello
	Greeter_SayHello1_MethodID uint32 = 0x8ef6beeb // /Greeter/SayHello1
	Greeter_SayHello2_MethodID uint32 = 0x8ff6c07e // /Greeter/SayHello2
	Greeter_SayHello3_MethodID uint32 = 0x90f6c211 // /Greeter/SayHello3
	Greeter_SayHello4_MethodID uint32 = 0x91f6c3a4 // /Greeter/SayHello4
	Greeter_SayHello5_MethodID uint32 = 0x92f6c537 // /Greeter/SayHello5
	Greeter_SayHello6_MethodID uint32 = 0x93f6c6ca // /Greeter/SayHello6
	Greeter_SayHello7_MethodID uint32 = 0x94f6c85d // /Greeter/SayHello7
	Greeter_SayHello8_MethodID uint32 = 0x85f6b0c0 // /Greeter/SayHello8
)

// GreeterClient is the client stub for the Greeter service.
type GreeterClient struct {
	ch *_go.Channel
}

// NewGreeterClient creates a client stub bound to the given channel.
func NewGreeterClient(ch *_go.Channel) *GreeterClient {
	return &GreeterClient{ch: ch}
}

func (c *GreeterClient) SayHello(req *HelloRequest) (*HelloReply, _go.Status) {
	data, err := proto.Marshal(req)
	if err != nil {
		return nil, _go.Status{Code: _go.Internal, Message: 'marshal: ' + err.Error()}
	}
	respData, st := c.ch.UnaryCall(Greeter_SayHello_MethodID, data)
	if !st.IsOK() {
		return nil, st
	}
	resp := new(HelloReply)
	if err := proto.Unmarshal(respData, resp); err != nil {
		return nil, _go.Status{Code: _go.Internal, Message: 'unmarshal: ' + err.Error()}
	}
	return resp, _go.StatusOK()
}

func (c *GreeterClient) SayHello1(req *HelloRequest) (*HelloReply, _go.Status) {
	data, err := proto.Marshal(req)
	if err != nil {
		return nil, _go.Status{Code: _go.Internal, Message: 'marshal: ' + err.Error()}
	}
	respData, st := c.ch.UnaryCall(Greeter_SayHello1_MethodID, data)
	if !st.IsOK() {
		return nil, st
	}
	resp := new(HelloReply)
	if err := proto.Unmarshal(respData, resp); err != nil {
		return nil, _go.Status{Code: _go.Internal, Message: 'unmarshal: ' + err.Error()}
	}
	return resp, _go.StatusOK()
}

func (c *GreeterClient) SayHello2(req *HelloRequest) (*HelloReply, _go.Status) {
	data, err := proto.Marshal(req)
	if err != nil {
		return nil, _go.Status{Code: _go.Internal, Message: 'marshal: ' + err.Error()}
	}
	respData, st := c.ch.UnaryCall(Greeter_SayHello2_MethodID, data)
	if !st.IsOK() {
		return nil, st
	}
	resp := new(HelloReply)
	if err := proto.Unmarshal(respData, resp); err != nil {
		return nil, _go.Status{Code: _go.Internal, Message: 'unmarshal: ' + err.Error()}
	}
	return resp, _go.StatusOK()
}

func (c *GreeterClient) SayHello3(req *HelloRequest) (*HelloReply, _go.Status) {
	data, err := proto.Marshal(req)
	if err != nil {
		return nil, _go.Status{Code: _go.Internal, Message: 'marshal: ' + err.Error()}
	}
	respData, st := c.ch.UnaryCall(Greeter_SayHello3_MethodID, data)
	if !st.IsOK() {
		return nil, st
	}
	resp := new(HelloReply)
	if err := proto.Unmarshal(respData, resp); err != nil {
		return nil, _go.Status{Code: _go.Internal, Message: 'unmarshal: ' + err.Error()}
	}
	return resp, _go.StatusOK()
}

func (c *GreeterClient) SayHello4(req *HelloRequest) (*HelloReply, _go.Status) {
	data, err := proto.Marshal(req)
	if err != nil {
		return nil, _go.Status{Code: _go.Internal, Message: 'marshal: ' + err.Error()}
	}
	respData, st := c.ch.UnaryCall(Greeter_SayHello4_MethodID, data)
	if !st.IsOK() {
		return nil, st
	}
	resp := new(HelloReply)
	if err := proto.Unmarshal(respData, resp); err != nil {
		return nil, _go.Status{Code: _go.Internal, Message: 'unmarshal: ' + err.Error()}
	}
	return resp, _go.StatusOK()
}

func (c *GreeterClient) SayHello5(req *HelloRequest) (*HelloReply, _go.Status) {
	data, err := proto.Marshal(req)
	if err != nil {
		return nil, _go.Status{Code: _go.Internal, Message: 'marshal: ' + err.Error()}
	}
	respData, st := c.ch.UnaryCall(Greeter_SayHello5_MethodID, data)
	if !st.IsOK() {
		return nil, st
	}
	resp := new(HelloReply)
	if err := proto.Unmarshal(respData, resp); err != nil {
		return nil, _go.Status{Code: _go.Internal, Message: 'unmarshal: ' + err.Error()}
	}
	return resp, _go.StatusOK()
}

func (c *GreeterClient) SayHello6(req *HelloRequest) (*HelloReply, _go.Status) {
	data, err := proto.Marshal(req)
	if err != nil {
		return nil, _go.Status{Code: _go.Internal, Message: 'marshal: ' + err.Error()}
	}
	respData, st := c.ch.UnaryCall(Greeter_SayHello6_MethodID, data)
	if !st.IsOK() {
		return nil, st
	}
	resp := new(HelloReply)
	if err := proto.Unmarshal(respData, resp); err != nil {
		return nil, _go.Status{Code: _go.Internal, Message: 'unmarshal: ' + err.Error()}
	}
	return resp, _go.StatusOK()
}

func (c *GreeterClient) SayHello7(req *HelloRequest) (*HelloReply, _go.Status) {
	data, err := proto.Marshal(req)
	if err != nil {
		return nil, _go.Status{Code: _go.Internal, Message: 'marshal: ' + err.Error()}
	}
	respData, st := c.ch.UnaryCall(Greeter_SayHello7_MethodID, data)
	if !st.IsOK() {
		return nil, st
	}
	resp := new(HelloReply)
	if err := proto.Unmarshal(respData, resp); err != nil {
		return nil, _go.Status{Code: _go.Internal, Message: 'unmarshal: ' + err.Error()}
	}
	return resp, _go.StatusOK()
}

func (c *GreeterClient) SayHello8(req *HelloRequest) (*HelloReply, _go.Status) {
	data, err := proto.Marshal(req)
	if err != nil {
		return nil, _go.Status{Code: _go.Internal, Message: 'marshal: ' + err.Error()}
	}
	respData, st := c.ch.UnaryCall(Greeter_SayHello8_MethodID, data)
	if !st.IsOK() {
		return nil, st
	}
	resp := new(HelloReply)
	if err := proto.Unmarshal(respData, resp); err != nil {
		return nil, _go.Status{Code: _go.Internal, Message: 'unmarshal: ' + err.Error()}
	}
	return resp, _go.StatusOK()
}

// GreeterServer is the server-side interface for the Greeter service.
type GreeterServer interface {
	SayHello(ctx *_go.ServerContext, req *HelloRequest) (*HelloReply, _go.Status)
	SayHello1(ctx *_go.ServerContext, req *HelloRequest) (*HelloReply, _go.Status)
	SayHello2(ctx *_go.ServerContext, req *HelloRequest) (*HelloReply, _go.Status)
	SayHello3(ctx *_go.ServerContext, req *HelloRequest) (*HelloReply, _go.Status)
	SayHello4(ctx *_go.ServerContext, req *HelloRequest) (*HelloReply, _go.Status)
	SayHello5(ctx *_go.ServerContext, req *HelloRequest) (*HelloReply, _go.Status)
	SayHello6(ctx *_go.ServerContext, req *HelloRequest) (*HelloReply, _go.Status)
	SayHello7(ctx *_go.ServerContext, req *HelloRequest) (*HelloReply, _go.Status)
	SayHello8(ctx *_go.ServerContext, req *HelloRequest) (*HelloReply, _go.Status)
}

// UnimplementedGreeterServer returns UNIMPLEMENTED for every method.
type UnimplementedGreeterServer struct{}

func (UnimplementedGreeterServer) SayHello(_ *_go.ServerContext, _ *HelloRequest) (*HelloReply, _go.Status) {
	return nil, _go.Status{Code: _go.Unimplemented, Message: 'SayHello not implemented'}
}

func (UnimplementedGreeterServer) SayHello1(_ *_go.ServerContext, _ *HelloRequest) (*HelloReply, _go.Status) {
	return nil, _go.Status{Code: _go.Unimplemented, Message: 'SayHello1 not implemented'}
}

func (UnimplementedGreeterServer) SayHello2(_ *_go.ServerContext, _ *HelloRequest) (*HelloReply, _go.Status) {
	return nil, _go.Status{Code: _go.Unimplemented, Message: 'SayHello2 not implemented'}
}

func (UnimplementedGreeterServer) SayHello3(_ *_go.ServerContext, _ *HelloRequest) (*HelloReply, _go.Status) {
	return nil, _go.Status{Code: _go.Unimplemented, Message: 'SayHello3 not implemented'}
}

func (UnimplementedGreeterServer) SayHello4(_ *_go.ServerContext, _ *HelloRequest) (*HelloReply, _go.Status) {
	return nil, _go.Status{Code: _go.Unimplemented, Message: 'SayHello4 not implemented'}
}

func (UnimplementedGreeterServer) SayHello5(_ *_go.ServerContext, _ *HelloRequest) (*HelloReply, _go.Status) {
	return nil, _go.Status{Code: _go.Unimplemented, Message: 'SayHello5 not implemented'}
}

func (UnimplementedGreeterServer) SayHello6(_ *_go.ServerContext, _ *HelloRequest) (*HelloReply, _go.Status) {
	return nil, _go.Status{Code: _go.Unimplemented, Message: 'SayHello6 not implemented'}
}

func (UnimplementedGreeterServer) SayHello7(_ *_go.ServerContext, _ *HelloRequest) (*HelloReply, _go.Status) {
	return nil, _go.Status{Code: _go.Unimplemented, Message: 'SayHello7 not implemented'}
}

func (UnimplementedGreeterServer) SayHello8(_ *_go.ServerContext, _ *HelloRequest) (*HelloReply, _go.Status) {
	return nil, _go.Status{Code: _go.Unimplemented, Message: 'SayHello8 not implemented'}
}

// RegisterGreeterServer registers a GreeterServer with the protocomm server.
func RegisterGreeterServer(srv *_go.Server, impl GreeterServer) {
	srv.RegisterMethod(Greeter_SayHello_MethodID, func(ctx *_go.ServerContext, data []byte) ([]byte, _go.Status) {
		req := new(HelloRequest)
		if err := proto.Unmarshal(data, req); err != nil {
			return nil, _go.Status{Code: _go.Internal, Message: 'unmarshal: ' + err.Error()}
		}
		resp, st := impl.SayHello(ctx, req)
		if !st.IsOK() {
			return nil, st
		}
		out, err := proto.Marshal(resp)
		if err != nil {
			return nil, _go.Status{Code: _go.Internal, Message: 'marshal: ' + err.Error()}
		}
		return out, _go.StatusOK()
	})
	srv.RegisterMethod(Greeter_SayHello1_MethodID, func(ctx *_go.ServerContext, data []byte) ([]byte, _go.Status) {
		req := new(HelloRequest)
		if err := proto.Unmarshal(data, req); err != nil {
			return nil, _go.Status{Code: _go.Internal, Message: 'unmarshal: ' + err.Error()}
		}
		resp, st := impl.SayHello1(ctx, req)
		if !st.IsOK() {
			return nil, st
		}
		out, err := proto.Marshal(resp)
		if err != nil {
			return nil, _go.Status{Code: _go.Internal, Message: 'marshal: ' + err.Error()}
		}
		return out, _go.StatusOK()
	})
	srv.RegisterMethod(Greeter_SayHello2_MethodID, func(ctx *_go.ServerContext, data []byte) ([]byte, _go.Status) {
		req := new(HelloRequest)
		if err := proto.Unmarshal(data, req); err != nil {
			return nil, _go.Status{Code: _go.Internal, Message: 'unmarshal: ' + err.Error()}
		}
		resp, st := impl.SayHello2(ctx, req)
		if !st.IsOK() {
			return nil, st
		}
		out, err := proto.Marshal(resp)
		if err != nil {
			return nil, _go.Status{Code: _go.Internal, Message: 'marshal: ' + err.Error()}
		}
		return out, _go.StatusOK()
	})
	srv.RegisterMethod(Greeter_SayHello3_MethodID, func(ctx *_go.ServerContext, data []byte) ([]byte, _go.Status) {
		req := new(HelloRequest)
		if err := proto.Unmarshal(data, req); err != nil {
			return nil, _go.Status{Code: _go.Internal, Message: 'unmarshal: ' + err.Error()}
		}
		resp, st := impl.SayHello3(ctx, req)
		if !st.IsOK() {
			return nil, st
		}
		out, err := proto.Marshal(resp)
		if err != nil {
			return nil, _go.Status{Code: _go.Internal, Message: 'marshal: ' + err.Error()}
		}
		return out, _go.StatusOK()
	})
	srv.RegisterMethod(Greeter_SayHello4_MethodID, func(ctx *_go.ServerContext, data []byte) ([]byte, _go.Status) {
		req := new(HelloRequest)
		if err := proto.Unmarshal(data, req); err != nil {
			return nil, _go.Status{Code: _go.Internal, Message: 'unmarshal: ' + err.Error()}
		}
		resp, st := impl.SayHello4(ctx, req)
		if !st.IsOK() {
			return nil, st
		}
		out, err := proto.Marshal(resp)
		if err != nil {
			return nil, _go.Status{Code: _go.Internal, Message: 'marshal: ' + err.Error()}
		}
		return out, _go.StatusOK()
	})
	srv.RegisterMethod(Greeter_SayHello5_MethodID, func(ctx *_go.ServerContext, data []byte) ([]byte, _go.Status) {
		req := new(HelloRequest)
		if err := proto.Unmarshal(data, req); err != nil {
			return nil, _go.Status{Code: _go.Internal, Message: 'unmarshal: ' + err.Error()}
		}
		resp, st := impl.SayHello5(ctx, req)
		if !st.IsOK() {
			return nil, st
		}
		out, err := proto.Marshal(resp)
		if err != nil {
			return nil, _go.Status{Code: _go.Internal, Message: 'marshal: ' + err.Error()}
		}
		return out, _go.StatusOK()
	})
	srv.RegisterMethod(Greeter_SayHello6_MethodID, func(ctx *_go.ServerContext, data []byte) ([]byte, _go.Status) {
		req := new(HelloRequest)
		if err := proto.Unmarshal(data, req); err != nil {
			return nil, _go.Status{Code: _go.Internal, Message: 'unmarshal: ' + err.Error()}
		}
		resp, st := impl.SayHello6(ctx, req)
		if !st.IsOK() {
			return nil, st
		}
		out, err := proto.Marshal(resp)
		if err != nil {
			return nil, _go.Status{Code: _go.Internal, Message: 'marshal: ' + err.Error()}
		}
		return out, _go.StatusOK()
	})
	srv.RegisterMethod(Greeter_SayHello7_MethodID, func(ctx *_go.ServerContext, data []byte) ([]byte, _go.Status) {
		req := new(HelloRequest)
		if err := proto.Unmarshal(data, req); err != nil {
			return nil, _go.Status{Code: _go.Internal, Message: 'unmarshal: ' + err.Error()}
		}
		resp, st := impl.SayHello7(ctx, req)
		if !st.IsOK() {
			return nil, st
		}
		out, err := proto.Marshal(resp)
		if err != nil {
			return nil, _go.Status{Code: _go.Internal, Message: 'marshal: ' + err.Error()}
		}
		return out, _go.StatusOK()
	})
	srv.RegisterMethod(Greeter_SayHello8_MethodID, func(ctx *_go.ServerContext, data []byte) ([]byte, _go.Status) {
		req := new(HelloRequest)
		if err := proto.Unmarshal(data, req); err != nil {
			return nil, _go.Status{Code: _go.Internal, Message: 'unmarshal: ' + err.Error()}
		}
		resp, st := impl.SayHello8(ctx, req)
		if !st.IsOK() {
			return nil, st
		}
		out, err := proto.Marshal(resp)
		if err != nil {
			return nil, _go.Status{Code: _go.Internal, Message: 'marshal: ' + err.Error()}
		}
		return out, _go.StatusOK()
	})
}

type greeterServiceRegistrar struct{ impl GreeterServer }

func (r *greeterServiceRegistrar) RegisterWith(srv *_go.Server) {
	RegisterGreeterServer(srv, r.impl)
}

// NewGreeterService wraps impl as a _go.Service for use with ServerBuilder.
func NewGreeterService(impl GreeterServer) _go.Service {
	return &greeterServiceRegistrar{impl: impl}
}".

(** ** Reading it *)

Fixpoint lines_of (s : string) : list string :=
  match s with
  | EmptyString => [EmptyString]
  | String c s =>
    if Ascii.eqb c (ascii_of_nat 10) then EmptyString :: lines_of s
    else
      let d := if Ascii.eqb c "'" then ascii_of_nat 34 else c in
      match lines_of s with
      | [] => [char d]
      | l :: ls => String d l :: ls
      end
  end.

(** gofmt aligns with spaces: several in a row count as one. *)
Fixpoint squeeze (s : string) : string :=
  match s with
  | EmptyString => EmptyString
  | String c s =>
    match squeeze s with
    | String d t => if Ascii.eqb c " " && Ascii.eqb d " " then String d t else String c (String d t)
    | EmptyString => String c EmptyString
    end
  end.

(** The import block, which protogen writes from the names used. *)
Fixpoint without_imports (inside : bool) (ls : list string) : list string :=
  match ls with
  | [] => []
  | l :: ls =>
    if inside then (if String.eqb l ")" then tail ls else without_imports true ls)
    else if String.eqb l "import (" then without_imports true ls
    else l :: without_imports false ls
  end.

(** A line without its indentation. *)
Fixpoint unindented (l : string) : string :=
  match l with
  | String c s => if Ascii.eqb c (ascii_of_nat 9) then unindented s else l
  | EmptyString => l
  end.

(** The lines of the tracing code: [ctx.MethodName = ...] and the
    three-line [if]s on [Tracing()] and [ctx.Trace]. *)
Definition opens_trace (l : string) : bool :=
  String.eqb (unindented l) "if c.ch.Tracing() {" || String.eqb (unindented l) "if ctx.Trace {".
Definition names_method (l : string) : bool := String.prefix "ctx.MethodName = " (unindented l).

Fixpoint untraced (skip : nat) (ls : list string) : list string :=
  match ls with
  | [] => []
  | l :: ls =>
    match skip with
    | S k => untraced k ls
    | O => if opens_trace l then untraced 2 ls else if names_method l then untraced 0 ls else l :: untraced 0 ls
    end
  end.

(** What the plugin writes today for a protocol. *)
Definition generated (f : proto_file) : list string :=
  go_lines (generateFile (qualified (pf_go_package f)) (go_file f)).

(** ** The comparison *)

