(* ===== verification/GoChannel.v ===== *)
(** * GoChannel: the Go client

    Models go/channel.go as a machine of goroutines.  The channel's fields
    are guarded by [mu]; a step of a goroutine is one critical section of
    [mu], one operation on a connection, or one call of a callback, so that
    the events of a run are the interleavings of the goroutines.  [connectMu]
    and [writeMu] are held across several steps and are part of the state.

    A callback is named by the goroutine that passed it: [delivered] lists
    the calls of callbacks in order.  What a callback does itself (another
    call on the channel, say) is an event of its own.  Callbacks are
    functions: the code stores and calls them without a test for nil in the
    paths that fail a call.  [net.Dial] belongs to the network: its outcome
    is part of the event. *)

From S2P Require Import Prelude.
From S2P Require Import Status.
From S2P Require Import Frame.
From S2P Require Import Transport.
From S2P Require Import GoFrame.

Open Scope nat_scope.

(** ** Data *)

Record Go_ChannelConfig := Go_mkChannelConfig {
  go_HandshakeHeader : bytes;
  go_OnPush : bool
}.

(** The default header [CreateChannel] puts in place of an empty one. *)
Definition Go_default_config (config : option Go_ChannelConfig) : Go_ChannelConfig :=
  let c := match config with Some c => c | None => Go_mkChannelConfig [] false end in
  match go_HandshakeHeader c with
  | [] => Go_mkChannelConfig (bytes_of_string "pc1") (go_OnPush c)
  | _ => c
  end.

(** What a goroutine that runs [ensureConnected] does with its result:
    [AsyncUnaryCall] goes on, [Connect] returns it and [ConnectAsync] passes
    it to its callback. *)
Inductive Go_call :=
| CallUnary (methodID : Z) (request : bytes)
| CallConnect.

(** A call of a callback: whose, and with what. *)
Definition Go_delivery : Type := nat * Go_Status * bytes.

(** Where a goroutine is.  Connections are named by their number in [conns]. *)
Inductive Go_pc :=
| GEnsure (k : Go_call)                        (* ensureConnected: the first look *)
| GConnectMu (k : Go_call)                     (* wants connectMu, then looks again *)
| GDial (k : Go_call)                          (* holds connectMu: dial and handshake *)
| GInstall (k : Go_call) (c : nat)             (* holds connectMu: install connection c *)
| GRegister (methodID : Z) (request : bytes)   (* AsyncUnaryCall: connected *)
| GWriteHeader (c : nat) (g : Z) (hdr : Go_FrameHeader) (request : bytes)  (* wants writeMu *)
| GWritePayload (c : nat) (g : Z) (hdr : Go_FrameHeader) (request : bytes) (* holds writeMu *)
| GTeardown (c : nat) (g : Z) (st : Go_Status)  (* teardown(g, st), on behalf of connection c *)
| GCloseConn (c : option nat) (todo : list Go_delivery)  (* conn.Close(), then callbacks *)
| GInvoke (todo : list Go_delivery) (next : option (nat * Z)) (* callbacks to call, then the read loop or the end *)
| GRead (c : nat) (g : Z)                      (* readLoop: in ReadFrame *)
| GPush (c : nat) (g : Z) (methodID : Z) (payload : bytes)
| GRespond (c : nat) (g : Z) (hdr : Go_FrameHeader) (payload : bytes)
| GClose                                       (* Close() *)
| GDone.

(** The fields guarded by [mu]. *)
Record Go_fields := Go_mkFields {
  go_closed : bool;
  go_connected : bool;
  go_conn : option nat;
  go_gen : Z;
  go_nextCallID : Z;
  go_pending : gmap Z nat
}.

(** What happened so far: the callbacks called, the pushes handed to [OnPush],
    the goroutines that owe their caller a status, the call ids given out
    (with the caller and the connection), the responses that found their call,
    the frames written in full and the connections whose handshake or a write
    on which failed. *)
Record Go_history := Go_mkHistory {
  go_delivered : list Go_delivery;
  go_pushes : list (Z * bytes);
  go_callers : list (nat * Go_call);
  go_issued : list (Z * (nat * nat));
  go_answered : list (Go_FrameHeader * bytes * nat);
  go_frames : list (nat * (Go_FrameHeader * bytes));
  go_failed : list nat
}.

Record Go_channel {A : Asio} := Go_mkChannel {
  go_fields : Go_fields;
  go_connectMu : option nat;
  go_writeMu : option nat;
  go_conns : list socket;
  go_threads : list Go_pc;
  go_history : Go_history
}.
Arguments Go_mkChannel {A}.

Inductive Go_event {A : Asio} :=
| EAsyncUnaryCall (methodID : Z) (request : bytes)
| EConnect
| EClose
| EDial (t : nat) (res : socket + ErrorCode)
| EStep (t : nat) (choice : nat).

(** ** Statuses the channel reports *)

Definition Go_channel_closed : Go_Status := Go_mkStatus Go_Unavailable "channel closed".
Definition Go_cancelled : Go_Status := Go_mkStatus Go_Cancelled "channel closed".
Definition Go_not_connected : Go_Status := Go_mkStatus Go_Unavailable "not connected".
Definition Go_unexpected_frame : Go_Status := Go_mkStatus Go_Internal "unexpected frame type".

(** ** History *)

Definition log_delivery (d : Go_delivery) (h : Go_history) : Go_history :=
  Go_mkHistory (go_delivered h ++ [d]) (go_pushes h) (go_callers h) (go_issued h)
    (go_answered h) (go_frames h) (go_failed h).
Definition log_push (p : Z * bytes) (h : Go_history) : Go_history :=
  Go_mkHistory (go_delivered h) (go_pushes h ++ [p]) (go_callers h) (go_issued h)
    (go_answered h) (go_frames h) (go_failed h).
Definition log_caller (c : nat * Go_call) (h : Go_history) : Go_history :=
  Go_mkHistory (go_delivered h) (go_pushes h) (go_callers h ++ [c]) (go_issued h)
    (go_answered h) (go_frames h) (go_failed h).
Definition log_issued (i : Z * (nat * nat)) (h : Go_history) : Go_history :=
  Go_mkHistory (go_delivered h) (go_pushes h) (go_callers h) (go_issued h ++ [i])
    (go_answered h) (go_frames h) (go_failed h).
Definition log_answered (a : Go_FrameHeader * bytes * nat) (h : Go_history) : Go_history :=
  Go_mkHistory (go_delivered h) (go_pushes h) (go_callers h) (go_issued h)
    (go_answered h ++ [a]) (go_frames h) (go_failed h).
Definition log_frame (f : nat * (Go_FrameHeader * bytes)) (h : Go_history) : Go_history :=
  Go_mkHistory (go_delivered h) (go_pushes h) (go_callers h) (go_issued h)
    (go_answered h) (go_frames h ++ [f]) (go_failed h).
Definition log_failed (c : nat) (h : Go_history) : Go_history :=
  Go_mkHistory (go_delivered h) (go_pushes h) (go_callers h) (go_issued h)
    (go_answered h) (go_frames h) (go_failed h ++ [c]).

(** ** Critical sections of [mu] *)

(** [c.connected && c.conn != nil]. *)
Definition is_connected (f : Go_fields) : bool :=
  go_connected f && match go_conn f with Some _ => true | None => false end.

(** The two looks of [ensureConnected]: the status to return, if any. *)
Definition ensure_look (f : Go_fields) : option Go_Status :=
  if go_closed f then Some Go_channel_closed
  else if is_connected f then Some Go_StatusOK
  else None.

(** A new connection is installed under the next generation. *)
Definition install (c : nat) (f : Go_fields) : Go_fields :=
  Go_mkFields (go_closed f) true (Some c) (u64 (go_gen f + 1)) (go_nextCallID f) (go_pending f).

Definition register (t : nat) (f : Go_fields) : Go_fields :=
  Go_mkFields (go_closed f) (go_connected f) (go_conn f) (go_gen f)
    (u32 (go_nextCallID f + 1)) (<[go_nextCallID f := t]> (go_pending f)).

Definition take_pending (id : Z) (f : Go_fields) : Go_fields :=
  Go_mkFields (go_closed f) (go_connected f) (go_conn f) (go_gen f) (go_nextCallID f)
    (delete id (go_pending f)).

(** What [teardown] and [Close] do to the fields. *)
Definition disconnect (closed : bool) (f : Go_fields) : Go_fields :=
  Go_mkFields closed false None (u64 (go_gen f + 1)) (go_nextCallID f) ∅.

(** [for _, cb := range snapshot { cb(st, nil) }]. *)
Definition fail_all (f : Go_fields) (st : Go_Status) : list Go_delivery :=
  (fun x => (x.2, st, [])) <$> map_to_list (go_pending f).

Definition request_hdr (callID methodID : Z) (request : bytes) : Go_FrameHeader :=
  Go_mkHeader Go_FrameRequest 0 callID methodID (u32 (size_of request)).

(** What the callback of an answered call receives. *)
Definition Go_response_of (hdr : Go_FrameHeader) (payload : bytes) : Go_Status * bytes :=
  if negb (go_StatusCode hdr =? Go_OK)%Z
  then (Go_mkStatus (go_StatusCode hdr) "remote error", [])
  else (Go_StatusOK, payload).

(** [ensureConnected] returned [st] to goroutine [t]. *)
Definition ensured (t : nat) (k : Go_call) (st : Go_Status) : Go_pc :=
  if Go_IsOK st then
    match k with
    | CallUnary methodID request => GRegister methodID request
    | CallConnect => GInvoke [(t, st, [])] None
    end
  else GInvoke [(t, st, [])] None.

(** Where a goroutine goes after its callbacks. *)
Definition after_callbacks (next : option (nat * Z)) : Go_pc :=
  match next with Some (c, g) => GRead c g | None => GDone end.

Section GoChannel.
Context {A : Asio}.
Variable config : Go_ChannelConfig.

(** [CreateChannel]. *)
Definition Go_CreateChannel : Go_channel :=
  Go_mkChannel (Go_mkFields false false None 0 1 ∅) None None [] []
    (Go_mkHistory [] [] [] [] [] [] []).

(** The handshake of [ensureConnected] on a fresh connection: the error, if
    any, after which the connection is closed. *)
Definition Go_handshake (conn : socket) : socket * option Go_Status :=
  match go_HandshakeHeader config with
  | [] => (conn, None)
  | hdr =>
    let '(conn1, err) := asio_write conn [hdr] in
    match err with
    | Some e => (asio_close conn1,
                 Some (Go_mkStatus Go_Unavailable ("handshake write: " +:+ ec_what e)))
    | None =>
      let '(conn2, received, err2) := asio_read conn1 (zeros (length hdr)) in
      match err2 with
      | Some e => (asio_close conn2,
                   Some (Go_mkStatus Go_Unavailable ("handshake read: " +:+ ec_what e)))
      | None =>
        if bool_decide (received <> hdr)
        then (asio_close conn2, Some (Go_mkStatus Go_FailedPrecondition "handshake mismatch"))
        else (conn2, None)
      end
    end
  end.

(** The rest of [ensureConnected] after [net.Dial], up to the second
    critical section.  [connectMu] is released by a return. *)
Definition Go_dial (t : nat) (k : Go_call) (res : socket + ErrorCode) (s : Go_channel) : Go_channel :=
  let '(Go_mkChannel f cm wm cs ts h) := s in
  match res with
  | inr e =>
    let st := Go_mkStatus Go_Unavailable ("connect: " +:+ ec_what e) in
    Go_mkChannel f None wm cs (<[t := ensured t k st]> ts) h
  | inl conn =>
    let '(conn1, err) := Go_handshake conn in
    match err with
    | Some st =>
      Go_mkChannel f None wm (cs ++ [conn1]) (<[t := ensured t k st]> ts) (log_failed (length cs) h)
    | None => Go_mkChannel f cm wm (cs ++ [conn1]) (<[t := GInstall k (length cs)]> ts) h
    end
  end.

(** One step of goroutine [t], which is at [pc].  [choice] picks the callback
    to call next: Go iterates over a map in no particular order. *)
Definition Go_step (t : nat) (choice : nat) (pc : Go_pc) (s : Go_channel) : option Go_channel :=
  let '(Go_mkChannel f cm wm cs ts h) := s in
  let goto pc' := <[t := pc']> ts in
  match pc with
  | GEnsure k =>
    Some (Go_mkChannel f cm wm cs
      (goto match ensure_look f with Some st => ensured t k st | None => GConnectMu k end) h)
  | GConnectMu k =>
    match cm with
    | Some _ => None
    | None =>
      match ensure_look f with
      | Some st => Some (Go_mkChannel f None wm cs (goto (ensured t k st)) h)
      | None => Some (Go_mkChannel f (Some t) wm cs (goto (GDial k)) h)
      end
    end
  | GDial _ => None
  | GInstall k c =>
    if go_closed f then
      Some (Go_mkChannel f None wm (alter asio_close c cs) (goto (ensured t k Go_channel_closed)) h)
    else
      let f' := install c f in
      Some (Go_mkChannel f' None wm cs
              (goto (ensured t k Go_StatusOK) ++ [GRead c (go_gen f')]) h)
  | GRegister methodID request =>
    if go_closed f then
      Some (Go_mkChannel f cm wm cs (goto (GInvoke [(t, Go_cancelled, [])] None)) h)
    else
      match go_connected f, go_conn f with
      | true, Some c =>
        let hdr := request_hdr (go_nextCallID f) methodID request in
        Some (Go_mkChannel (register t f) cm wm cs
                (goto (GWriteHeader c (go_gen f) hdr request))
                (log_issued (go_nextCallID f, (t, c)) h))
      | _, _ =>
        Some (Go_mkChannel f cm wm cs (goto (GInvoke [(t, Go_not_connected, [])] None)) h)
      end
  | GWriteHeader c g hdr request =>
    match wm, cs !! c with
    | None, Some conn =>
      let '(conn1, err) := asio_write conn [Go_Serialize hdr] in
      let cs' := <[c := conn1]> cs in
      match err with
      | Some e =>
        let st := Go_mkStatus Go_Unavailable ("write: " +:+ ec_what e) in
        Some (Go_mkChannel f cm None cs' (goto (GTeardown c g st)) (log_failed c h))
      | None =>
        if 0 <? length request
        then Some (Go_mkChannel f cm (Some t) cs' (goto (GWritePayload c g hdr request)) h)
        else Some (Go_mkChannel f cm None cs' (goto GDone) (log_frame (c, (hdr, request)) h))
      end
    | _, _ => None
    end
  | GWritePayload c g hdr request =>
    match cs !! c with
    | None => None
    | Some conn =>
      let '(conn1, err) := asio_write conn [request] in
      let cs' := <[c := conn1]> cs in
      match err with
      | Some e =>
        let st := Go_mkStatus Go_Unavailable ("write: " +:+ ec_what e) in
        Some (Go_mkChannel f cm None cs' (goto (GTeardown c g st)) (log_failed c h))
      | None => Some (Go_mkChannel f cm None cs' (goto GDone) (log_frame (c, (hdr, request)) h))
      end
    end
  | GTeardown c g st =>
    if negb (g =? go_gen f)%Z then Some (Go_mkChannel f cm wm cs (goto GDone) h)
    else Some (Go_mkChannel (disconnect (go_closed f) f) cm wm cs
                 (goto (GCloseConn (go_conn f) (fail_all f st))) h)
  | GCloseConn oc todo =>
    let cs' := match oc with Some c => alter asio_close c cs | None => cs end in
    Some (Go_mkChannel f cm wm cs' (goto (GInvoke todo None)) h)
  | GInvoke [] next => Some (Go_mkChannel f cm wm cs (goto (after_callbacks next)) h)
  | GInvoke todo next =>
    match todo !! choice with
    | None => None
    | Some d =>
      Some (Go_mkChannel f cm wm cs (goto (GInvoke (delete choice todo) next)) (log_delivery d h))
    end
  | GRead c g =>
    match cs !! c with
    | None => None
    | Some conn =>
      let '(conn1, res) := Go_ReadFrame conn in
      let pc' :=
        match res with
        | inr e => GTeardown c g (Go_mkStatus Go_Unavailable ("read: " +:+ ec_what e))
        | inl (hdr, payload) =>
          if (go_Type hdr =? Go_FramePush)%Z then GPush c g (go_MethodID hdr) payload
          else if (go_Type hdr =? Go_FrameResponse)%Z then GRespond c g hdr payload
          else GTeardown c g Go_unexpected_frame
        end in
      Some (Go_mkChannel f cm wm (<[c := conn1]> cs) (goto pc') h)
    end
  | GPush c g methodID payload =>
    Some (Go_mkChannel f cm wm cs (goto (GRead c g))
            (if go_OnPush config then log_push (methodID, payload) h else h))
  | GRespond c g hdr payload =>
    match go_pending f !! go_CallID hdr with
    | None => Some (Go_mkChannel f cm wm cs (goto (GRead c g)) h)
    | Some t' =>
      let '(st, p) := Go_response_of hdr payload in
      Some (Go_mkChannel (take_pending (go_CallID hdr) f) cm wm cs
              (goto (GInvoke [(t', st, p)] (Some (c, g))))
              (log_answered (hdr, payload, t') h))
    end
  | GClose =>
    if go_closed f then Some (Go_mkChannel f cm wm cs (goto GDone) h)
    else Some (Go_mkChannel (disconnect true f) cm wm cs
                 (goto (GCloseConn (go_conn f) (fail_all f Go_cancelled))) h)
  | GDone => None
  end.

Definition Go_channel_step (e : Go_event) (s : Go_channel) : option Go_channel :=
  let '(Go_mkChannel f cm wm cs ts h) := s in
  let start k := Go_mkChannel f cm wm cs (ts ++ [GEnsure k]) (log_caller (length ts, k) h) in
  match e with
  | EAsyncUnaryCall methodID request => Some (start (CallUnary methodID request))
  | EConnect => Some (start CallConnect)
  | EClose => Some (Go_mkChannel f cm wm cs (ts ++ [GClose]) h)
  | EDial t res =>
    match ts !! t with Some (GDial k) => Some (Go_dial t k res s) | _ => None end
  | EStep t choice => match ts !! t with Some pc => Go_step t choice pc s | None => None end
  end.

(** [UnaryCall] of goroutine [t]: the result the channel [done] holds. *)
Definition Go_UnaryCall_result (t : nat) (s : Go_channel) : option (bytes * Go_Status) :=
  (fun d => (d.2, d.1.2)) <$>
    head (filter (fun d => d.1.1 = t) (go_delivered (go_history s))).
End GoChannel.
