(* ===== verification/GoChannelInvariants.v ===== *)
(** * GoChannelInvariants: the goroutines of the Go client

    Invariants of the machine of [GoChannel]: who holds which mutex, the
    fields guarded by [mu], and the accounts of the callers that are still
    owed a callback. *)

From S2P Require Import Prelude.
From S2P Require Import Status.
From S2P Require Import Frame.
From S2P Require Import Transport.
From S2P Require Import Goroutines.
From S2P Require Import GoFrame.
From S2P Require Import GoChannel.

Open Scope nat_scope.

(** Case analysis over every step of every goroutine. *)
Ltac go_cases H :=
  match type of H with
  | Go_channel_step _ ?e ?s = Some _ =>
    destruct s as [f cm wm cs ts h]; destruct e as [mid req| | |t res|t choice];
      cbn beta iota delta [Go_channel_step] in H;
      try (destruct (ts !! t) as [pc|] eqn:Hpc; [|discriminate H]; destruct pc; try discriminate H);
      cbn beta iota delta [Go_dial Go_step] in H
  end.

Ltac mutex_case Hr :=
  first [ done
        | by intros; intuition congruence
        | split; [done|]; intros Hx%Hr; lia ].

(** Who holds which mutex, and the connections a goroutine knows. *)
Definition holds_connectMu (pc : Go_pc) : bool :=
  match pc with GDial _ | GInstall _ _ => true | _ => false end.

Definition holds_writeMu (pc : Go_pc) : bool :=
  match pc with GWritePayload _ _ _ _ => true | _ => false end.

Definition knows_conn (pc : Go_pc) : option nat :=
  match pc with
  | GInstall _ c | GWriteHeader c _ _ _ | GWritePayload c _ _ _
  | GRead c _ | GPush c _ _ _ | GRespond c _ _ _ => Some c
  | GCloseConn oc _ => oc
  | GInvoke _ (Some (c, _)) => Some c
  | _ => None
  end.

Record scheduled {A : Asio} (s : Go_channel) : Prop := {
  sc_connect : threads_all (fun t pc => holds_connectMu pc = true <-> go_connectMu s = Some t) (go_threads s);
  sc_connect_range t : go_connectMu s = Some t -> t < length (go_threads s);
  sc_write : threads_all (fun t pc => holds_writeMu pc = true <-> go_writeMu s = Some t) (go_threads s);
  sc_write_range t : go_writeMu s = Some t -> t < length (go_threads s);
  sc_knows : threads_all (fun _ pc => forall c, knows_conn pc = Some c -> c < length (go_conns s)) (go_threads s);
  sc_conn c : go_conn (go_fields s) = Some c -> c < length (go_conns s)
}.

Lemma holds_connectMu_ensured t k st : holds_connectMu (ensured t k st) = false.
Proof. unfold ensured. by destruct (Go_IsOK st), k. Qed.
Lemma holds_writeMu_ensured t k st : holds_writeMu (ensured t k st) = false.
Proof. unfold ensured. by destruct (Go_IsOK st), k. Qed.
Lemma holds_connectMu_after next : holds_connectMu (after_callbacks next) = false.
Proof. by destruct next as [[]|]. Qed.
Lemma holds_writeMu_after next : holds_writeMu (after_callbacks next) = false.
Proof. by destruct next as [[]|]. Qed.
Lemma knows_conn_ensured t k st : knows_conn (ensured t k st) = None.
Proof. unfold ensured. by destruct (Go_IsOK st), k. Qed.

Section Scheduling.
Context {A : Asio}.
Variable config : Go_ChannelConfig.
Implicit Types (s : Go_channel).

Lemma issued_grows e s s' :
  Go_channel_step config e s = Some s' ->
  length (go_issued (go_history s)) <= length (go_issued (go_history s')).
Proof.
  intros E. go_cases E; repeat case_match; simplify_eq/=; rw ?length_app; lia.
Qed.

Lemma threads_grow e s s' :
  Go_channel_step config e s = Some s' ->
  length (go_threads s) <= length (go_threads s').
Proof.
  intros E. go_cases E; repeat case_match; simplify_eq/=; rw ?length_app ?length_insert; lia.
Qed.

Lemma conns_grow e s s' :
  Go_channel_step config e s = Some s' -> length (go_conns s) <= length (go_conns s').
Proof.
  intros E. go_cases E; repeat case_match; simplify_eq/=;
    rw ?length_app ?length_insert ?length_alter; lia.
Qed.

Lemma connectMu_step e s s' :
  scheduled s -> Go_channel_step config e s = Some s' ->
  threads_all (fun t pc => holds_connectMu pc = true <-> go_connectMu s' = Some t) (go_threads s').
Proof.
  intros [H Hr _ _ _ _] E. go_cases E; simpl in H, Hr.
  all: try match goal with Hpc : _ !! _ = Some _ |- _ => pose proof (H _ _ Hpc) as Ht; simpl in Ht end.
  all: repeat case_match; simplify_eq/=.
  all: threads_cases H; rw ?holds_connectMu_ensured ?holds_connectMu_after; try done.
  all: mutex_case Hr.
Qed.

Lemma writeMu_step e s s' :
  scheduled s -> Go_channel_step config e s = Some s' ->
  threads_all (fun t pc => holds_writeMu pc = true <-> go_writeMu s' = Some t) (go_threads s').
Proof.
  intros [_ _ H Hr _ _] E. go_cases E; simpl in H, Hr.
  all: try match goal with Hpc : _ !! _ = Some _ |- _ => pose proof (H _ _ Hpc) as Ht; simpl in Ht end.
  all: repeat case_match; simplify_eq/=.
  all: threads_cases H; rw ?length_insert ?holds_writeMu_ensured ?holds_writeMu_after; try done.
  all: mutex_case Hr.
Qed.

Lemma mutex_range_step e s s' m :
  scheduled s -> Go_channel_step config e s = Some s' ->
  go_connectMu s' = Some m \/ go_writeMu s' = Some m -> m < length (go_threads s').
Proof.
  intros [_ Hc _ Hw _ _] E. specialize (Hc m). specialize (Hw m).
  go_cases E; simpl in *.
  all: try match goal with Hpc : _ !! _ = Some _ |- _ => pose proof (lookup_lt_Some _ _ _ Hpc) as Ht end.
  all: repeat case_match; simplify_eq/=; rw ?length_app ?length_insert.
  all: intros [E'|E']; simplify_eq; try specialize (Hc eq_refl); try specialize (Hw eq_refl); lia.
Qed.

Lemma knows_step e s s' :
  scheduled s -> Go_channel_step config e s = Some s' ->
  threads_all (fun _ pc => forall c, knows_conn pc = Some c -> c < length (go_conns s')) (go_threads s')
  /\ forall c, go_conn (go_fields s') = Some c -> c < length (go_conns s').
Proof.
  intros [_ _ _ _ H Hf] E. pose proof (conns_grow e s s' E) as Hg. go_cases E; simpl in H, Hf, Hg.
  all: try match goal with Hpc : _ !! _ = Some _ |- _ => pose proof (H _ _ Hpc) as Ht; simpl in Ht end.
  all: repeat case_match; simplify_eq/=; (split; [threads_cases H|]).
  all: rw ?knows_conn_ensured; try done; try naive_solver lia.
  rw length_app /=. intros c [= <-]. lia.
Qed.

Lemma scheduled_step e s s' : scheduled s -> Go_channel_step config e s = Some s' -> scheduled s'.
Proof.
  intros H E. destruct (knows_step e s s' H E). constructor; try done.
  - by eapply connectMu_step.
  - intros t Ht. eapply mutex_range_step; eauto.
  - by eapply writeMu_step.
  - intros t Ht. eapply mutex_range_step; eauto.
Qed.
End Scheduling.

(** ** The fields guarded by [mu] *)

Record fields_ok (f : Go_fields) (h : Go_history) : Prop := {
  fo_connected : go_connected f = bool_decide (is_Some (go_conn f));
  fo_closed : go_closed f = true -> go_conn f = None;
  fo_pending : go_conn f = None -> go_pending f = ∅;
  fo_ids : (go_issued h).*1 = nth_call_id <$> seq 0 (length (go_issued h));
  fo_next : go_nextCallID f = nth_call_id (length (go_issued h));
  fo_issued id t : go_pending f !! id = Some t ->
    exists c, go_conn f = Some c /\ (id, (t, c)) ∈ go_issued h
}.

Lemma fo_fresh f h :
  fields_ok f h -> (Z.of_nat (length (go_issued h)) < 2 ^ 32)%Z ->
  go_pending f !! go_nextCallID f = None.
Proof.
  intros H Hl. destruct (go_pending f !! _) as [t|] eqn:E; [|done].
  apply (fo_issued _ _ H) in E as (c & _ & E). apply (list_elem_of_fmap_2 fst) in E. simpl in E.
  rw (fo_ids _ _ H) (fo_next _ _ H) in E. by apply nth_call_id_fresh in E.
Qed.

Lemma fields_ok_register t c f h :
  fields_ok f h -> go_conn f = Some c ->
  fields_ok (register t f) (log_issued (go_nextCallID f, (t, c)) h).
Proof.
  intros [H1 H2 H3 H4 H5 H6] Hc. constructor; simpl; try done.
  - by rw Hc.
  - rw fmap_app length_app seq_app fmap_app H4 /= H5 //.
  - rw length_app H5 nth_call_id_S Nat.add_1_r //.
  - intros id t' [[<- <-]|[_ (c' & E & ?)%H6]]%lookup_insert_Some; exists c; set_solver.
Qed.

Lemma fields_ok_take id f h : fields_ok f h -> fields_ok (take_pending id f) h.
Proof.
  intros [H1 H2 H3 H4 H5 H6]. constructor; simpl; try done.
  - intros Hc. by rw H3 // delete_empty.
  - intros id' t [_ ?]%lookup_delete_Some. by apply H6.
Qed.

(** Whoever connects found no connection, and nobody else can install one. *)
Definition dialing_ok {A : Asio} (s : Go_channel) : Prop :=
  threads_all (fun _ pc => holds_connectMu pc = true -> go_conn (go_fields s) = None) (go_threads s).

Lemma ensure_look_None f h : fields_ok f h -> ensure_look f = None -> go_conn f = None.
Proof.
  intros H. unfold ensure_look, is_connected. rw (fo_connected _ _ H).
  destruct (go_closed f), (go_conn f); done.
Qed.

Section Fields.
Context {A : Asio}.
Variable config : Go_ChannelConfig.
Implicit Types (s : Go_channel).

Lemma dialing_step e s s' :
  scheduled s -> fields_ok (go_fields s) (go_history s) -> dialing_ok s ->
  Go_channel_step config e s = Some s' -> dialing_ok s'.
Proof.
  intros [Hm _ _ _ _ _] Hf Hd E. unfold dialing_ok in *.
  assert (threads_all (fun t pc => (holds_connectMu pc = true <-> go_connectMu s = Some t)
    /\ (holds_connectMu pc = true -> go_conn (go_fields s) = None)) (go_threads s)) as H.
  { intros t pc Hpc. split; [by apply Hm|by apply (Hd t)]. }
  clear Hm Hd. go_cases E; simpl in H.
  all: try match goal with Hpc : _ !! _ = Some _ |- _ => destruct (H _ _ Hpc) as [Ht Hd]; simpl in Ht, Hd end.
  all: repeat case_match; simplify_eq/=.
  all: threads_cases H; rw ?holds_connectMu_ensured ?holds_connectMu_after; try done.
  all: eauto using ensure_look_None; try (intros; intuition congruence).
Qed.

Lemma fields_ok_step e s s' :
  dialing_ok s -> fields_ok (go_fields s) (go_history s) -> Go_channel_step config e s = Some s' ->
  fields_ok (go_fields s') (go_history s').
Proof.
  intros Hd H E. unfold dialing_ok in Hd. go_cases E; simpl in Hd.
  all: try match goal with Hpc : _ !! _ = Some _ |- _ => pose proof (Hd _ _ Hpc) as Ht; simpl in Ht end.
  all: repeat case_match; simplify_eq/=;
    try (by destruct H); try (by apply fields_ok_register);
    try (by apply fields_ok_take; destruct H).
  all: destruct H as [H1 H2 H3 H4 H5 H6]; constructor; simpl; try done; try congruence.
  intros id t'. rw H3; [by apply Ht|]. by rw lookup_empty.
Qed.
End Fields.

#[local] Arguments occ : simpl never.

(** ** Accounting

    The callers a goroutine still has to call back itself: its own, until the
    call is registered, and those in its list. *)
Definition owed (t : nat) (pc : Go_pc) : list nat :=
  match pc with
  | GEnsure _ | GConnectMu _ | GDial _ | GInstall _ _ | GRegister _ _ => [t]
  | GCloseConn _ todo | GInvoke todo _ => (todo.*1).*1
  | _ => []
  end.

Abbreviation all_owed := (collect owed 0).

Lemma owed_ensured t k st : owed t (ensured t k st) = [t].
Proof. unfold ensured. destruct (Go_IsOK st), k; done. Qed.

Lemma owed_after t next : owed t (after_callbacks next) = [].
Proof. by destruct next as [[]|]. Qed.

Lemma owed_fail_all x f st :
  occ x (((fail_all f st).*1).*1) = map_occ (fun t => [t]) x (go_pending f).
Proof.
  unfold fail_all, map_occ. f_equal. rw -!list_fmap_compose.
  induction (map_to_list (go_pending f)) as [|e l IH]; simpl; [done|]. by f_equal.
Qed.

Lemma occ_todo x (todo : list Go_delivery) i d :
  todo !! i = Some d ->
  occ x ((todo.*1).*1) = occ x [d.1.1] + occ x (((delete i todo).*1).*1).
Proof.
  intros E. rw -occ_app. apply occ_Permutation.
  by rw {1}(delete_Permutation todo i d E).
Qed.

Record accounts {A : Asio} (s : Go_channel) : Prop := {
  ac_range : Forall (fun c => c.1 < length (go_threads s)) (go_callers (go_history s));
  ac_NoDup : NoDup (go_callers (go_history s)).*1;
  ac_count x : (Z.of_nat (length (go_issued (go_history s))) <= 2 ^ 32)%Z ->
    occ x (go_callers (go_history s)).*1
    = occ x (all_owed (go_threads s)) + map_occ (fun t => [t]) x (go_pending (go_fields s))
      + occ x ((go_delivered (go_history s)).*1).*1
}.

Section Accounts.
Context {A : Asio}.
Variable config : Go_ChannelConfig.
Implicit Types (s : Go_channel).

(** The callers grow by the goroutine that starts. *)
Lemma callers_step e s s' :
  Go_channel_step config e s = Some s' ->
  go_callers (go_history s') = go_callers (go_history s)
  \/ exists k, go_callers (go_history s') = go_callers (go_history s) ++ [(length (go_threads s), k)]
     /\ length (go_threads s) < length (go_threads s').
Proof.
  intros E. go_cases E; repeat case_match; simplify_eq/=; try (by left); right; eexists;
    (split; [done|]); rw length_app /=; lia.
Qed.

Lemma count_step e s s' x :
  fields_ok (go_fields s) (go_history s) -> Go_channel_step config e s = Some s' ->
  (Z.of_nat (length (go_issued (go_history s'))) <= 2 ^ 32)%Z ->
  occ x (go_callers (go_history s)).*1
  = occ x (all_owed (go_threads s)) + map_occ (fun t => [t]) x (go_pending (go_fields s))
    + occ x ((go_delivered (go_history s)).*1).*1 ->
  occ x (go_callers (go_history s')).*1
  = occ x (all_owed (go_threads s')) + map_occ (fun t => [t]) x (go_pending (go_fields s'))
    + occ x ((go_delivered (go_history s')).*1).*1.
Proof.
  intros Hf E Hl H. go_cases E.
  all: try match goal with Hpc : ?ts !! ?t = Some ?pc |- _ =>
         pose proof (fun pc' => collect_insert owed x 0 ts t pc pc' Hpc) as Hi; cbn [owed Nat.add] in Hi end.
  all: repeat case_match; simplify_eq/=.
  all: try match goal with |- context [<[_:=?pc]> _] => specialize (Hi pc) end.
  all: rw ?collect_app ?fmap_app ?occ_app /= ?occ_app.
  all: try (rw ?owed_ensured ?owed_after ?owed_fail_all /= ?occ_nil in Hi).
  all: try (rw map_occ_insert; [by eapply fo_fresh; [done|]; rw length_app /= in Hl; lia|]).
  all: rw ?occ_nil ?map_occ_empty; try lia.
  - match goal with Hd : _ !! choice = Some _ |- _ => pose proof (occ_todo x _ _ _ Hd) as Ht end.
    cbn [owed fmap list_fmap] in Ht, Hi. lia.
  - match goal with Hp : go_pending f !! _ = Some _ |- _ =>
      rw (map_occ_delete (fun t => [t]) x _ _ _ Hp) in H end. lia.
Qed.

Lemma accounts_step e s s' :
  fields_ok (go_fields s) (go_history s) -> accounts s ->
  Go_channel_step config e s = Some s' -> accounts s'.
Proof.
  intros Hf [Hr Hn Hc] E. pose proof (threads_grow config e s s' E) as Ht.
  pose proof (issued_grows config e s s' E) as Hi.
  assert (Forall (fun c => c.1 < length (go_threads s')) (go_callers (go_history s))) as Hr'.
  { eapply Forall_impl; [done|]. simpl. lia. }
  destruct (callers_step e s s' E) as [Ek|(k & Ek & Hlt)]; constructor.
  - by rw Ek.
  - by rw Ek.
  - intros x Hl. apply (count_step e s s' x Hf E Hl), Hc. lia.
  - rw Ek. apply Forall_app. split; [done|]. by apply Forall_singleton.
  - rw Ek fmap_app. apply NoDup_snoc; [done|]. simpl.
    intros (c & Ec & Hin)%list_elem_of_fmap. rw Forall_forall in Hr.
    specialize (Hr _ Hin). lia.
  - intros x Hl. apply (count_step e s s' x Hf E Hl), Hc. lia.
Qed.

End Accounts.

(** ** What the goroutines know of the past

    The request a goroutine writes is the one its caller gave, under the id
    issued to it; a status it hands to a callback is an error, the response
    that found the call, or the success of a connect. *)

Definition request_frame (h : Go_history) (t c : nat) (hdr : Go_FrameHeader) (request : bytes) : Prop :=
  exists id methodID, hdr = request_hdr id methodID request /\ (id, (t, c)) ∈ go_issued h
    /\ (t, CallUnary methodID request) ∈ go_callers h.

Definition justified (h : Go_history) (d : Go_delivery) : Prop :=
  (exists hdr payload, (hdr, payload, d.1.1) ∈ go_answered h
     /\ (d.1.2, d.2) = Go_response_of hdr payload)
  \/ (Go_IsOK d.1.2 = false /\ d.2 = [])
  \/ ((d.1.1, CallConnect) ∈ go_callers h /\ d.1.2 = Go_StatusOK /\ d.2 = []).

Definition thread_facts (h : Go_history) (t : nat) (pc : Go_pc) : Prop :=
  match pc with
  | GEnsure k | GConnectMu k | GDial k | GInstall k _ => (t, k) ∈ go_callers h
  | GRegister methodID request => (t, CallUnary methodID request) ∈ go_callers h
  | GWriteHeader c _ hdr request | GWritePayload c _ hdr request => request_frame h t c hdr request
  | GTeardown _ _ st => Go_IsOK st = false
  | GCloseConn _ todo | GInvoke todo _ => Forall (justified h) todo
  | GRespond _ _ hdr _ => go_Type hdr = Go_FrameResponse
  | _ => True
  end.

Record history_facts (h : Go_history) : Prop := {
  hf_delivered : Forall (justified h) (go_delivered h);
  hf_answered : Forall (fun a => (exists c, (go_CallID a.1.1, (a.2, c)) ∈ go_issued h)
                               /\ go_Type a.1.1 = Go_FrameResponse) (go_answered h);
  hf_frames : Forall (fun x => exists t, request_frame h t x.1 x.2.1 x.2.2) (go_frames h)
}.

(** Nothing is forgotten. *)
Record extends (h h' : Go_history) : Prop := {
  ex_callers x : x ∈ go_callers h -> x ∈ go_callers h';
  ex_issued x : x ∈ go_issued h -> x ∈ go_issued h';
  ex_answered x : x ∈ go_answered h -> x ∈ go_answered h'
}.

Lemma request_frame_extends h h' t c hdr req :
  extends h h' -> request_frame h t c hdr req -> request_frame h' t c hdr req.
Proof. intros [Hc Hi _] (id & mid & ? & ? & ?). exists id, mid. auto. Qed.

Lemma justified_extends h h' d : extends h h' -> justified h d -> justified h' d.
Proof. intros [Hc _ Ha] [(hdr & p & ? & ?)|[?|(? & ?)]]; unfold justified; naive_solver. Qed.

Lemma thread_facts_extends h h' t pc : extends h h' -> thread_facts h t pc -> thread_facts h' t pc.
Proof.
  intros Hx. destruct pc; simpl; try done; try apply Hx; try (by apply request_frame_extends);
    intros H; eapply Forall_impl; eauto using justified_extends.
Qed.

Lemma history_facts_extends h h' :
  extends h h' -> go_delivered h' = go_delivered h -> go_answered h' = go_answered h ->
  go_frames h' = go_frames h -> history_facts h -> history_facts h'.
Proof.
  intros Hx Ed Ea Ef [H1 H2 H3]. constructor; rw ?Ed ?Ea ?Ef.
  - eapply Forall_impl; eauto using justified_extends.
  - eapply Forall_impl; [done|]. intros a [[c ?] ?]. split; [|done]. exists c. by apply Hx.
  - eapply Forall_impl; [done|]. intros x [t ?]. exists t. by eapply request_frame_extends.
Qed.

Lemma history_facts_frame h t c hdr req :
  history_facts h -> request_frame h t c hdr req -> history_facts (log_frame (c, (hdr, req)) h).
Proof.
  intros [H1 H2 H3] Hr. constructor; try done. apply Forall_app. split; [done|].
  apply Forall_singleton. by exists t.
Qed.

Lemma history_facts_delivery h d : history_facts h -> justified h d -> history_facts (log_delivery d h).
Proof.
  intros [H1 H2 H3] Hd. constructor; try done. apply Forall_app. split; [done|].
  by apply Forall_singleton.
Qed.

Lemma history_facts_answered h hdr payload t :
  history_facts h -> (exists c, (go_CallID hdr, (t, c)) ∈ go_issued h) ->
  go_Type hdr = Go_FrameResponse -> history_facts (log_answered (hdr, payload, t) h).
Proof.
  intros [H1 H2 H3] Hi Ht. constructor; try done.
  - eapply Forall_impl; [done|]. intros d. apply justified_extends.
    constructor; simpl; set_solver.
  - apply Forall_app. split; [done|]. by apply Forall_singleton.
Qed.

Lemma facts_ensured h t k st :
  (t, k) ∈ go_callers h -> Go_IsOK st = false \/ st = Go_StatusOK -> thread_facts h t (ensured t k st).
Proof.
  intros Hk Hst. unfold ensured. destruct (Go_IsOK st) eqn:E; [|by repeat constructor].
  destruct Hst as [|Hst]; [done|]. destruct k; simpl; [done|].
  constructor; [|done]. right; right. done.
Qed.

Lemma facts_after h t next : thread_facts h t (after_callbacks next).
Proof. by destruct next as [[]|]. Qed.

Lemma facts_fail_all h f st : Go_IsOK st = false -> Forall (justified h) (fail_all f st).
Proof.
  intros Hst. apply Forall_fmap, Forall_true. intros x. right; left. done.
Qed.

Lemma ensure_look_status f st : ensure_look f = Some st -> Go_IsOK st = false \/ st = Go_StatusOK.
Proof. unfold ensure_look. repeat case_match; naive_solver. Qed.

Section Facts.
Context {A : Asio}.
Variable config : Go_ChannelConfig.
Implicit Types (s : Go_channel).

Lemma step_extends e s s' : Go_channel_step config e s = Some s' -> extends (go_history s) (go_history s').
Proof.
  intros E. go_cases E; repeat case_match; simplify_eq/=; constructor; simpl; try done; set_solver.
Qed.

Lemma Go_handshake_status conn conn' st :
  Go_handshake config conn = (conn', Some st) -> Go_IsOK st = false.
Proof. unfold Go_handshake. repeat case_match; intros; simplify_eq; done. Qed.

Lemma thread_facts_step e s s' :
  threads_all (thread_facts (go_history s)) (go_threads s) ->
  Go_channel_step config e s = Some s' ->
  threads_all (thread_facts (go_history s')) (go_threads s').
Proof.
  intros H E. pose proof (step_extends e s s' E) as Hx. go_cases E; simpl in H, Hx.
  all: try match goal with Hpc : _ !! _ = Some _ |- _ => pose proof (H _ _ Hpc) as Ht; simpl in Ht end.
  all: repeat case_match; simplify_eq/=.
  all: threads_cases H; try (by intros; eapply thread_facts_extends).
  all: try (by apply facts_ensured; eauto using ensure_look_status, Go_handshake_status).
  all: try apply facts_after; try (by apply facts_fail_all); simpl; try done; try set_solver.
  all: try (by apply Forall_singleton; right; left).
  - exists (go_nextCallID f), methodID. simpl. set_solver.
  - apply Forall_delete. eapply Forall_impl; eauto using justified_extends.
  - by breflect.
  - apply Forall_singleton. left. exists hdr, payload. simpl. split; [set_solver|congruence].
Qed.

Lemma history_facts_step e s s' :
  fields_ok (go_fields s) (go_history s) -> threads_all (thread_facts (go_history s)) (go_threads s) ->
  history_facts (go_history s) -> Go_channel_step config e s = Some s' ->
  history_facts (go_history s').
Proof.
  intros Hf Ht H E. pose proof (step_extends e s s' E) as Hx. go_cases E; simpl in *.
  all: try match goal with Hpc : _ !! _ = Some _ |- _ => specialize (Ht _ _ Hpc); simpl in Ht end.
  all: repeat case_match; simplify_eq/=; try done.
  all: try (by eapply history_facts_extends).
  - by eapply history_facts_frame.
  - by eapply history_facts_frame.
  - apply history_facts_delivery; [done|]. by eapply Forall_lookup_1.
  - apply history_facts_answered; [done|..|done].
    match goal with Hp : go_pending f !! _ = Some _ |- _ =>
      destruct (fo_issued _ _ Hf _ _ Hp) as (c' & _ & Hi) end. by exists c'.
Qed.

(** The id of the request a goroutine has yet to write in full. *)
Definition writing (t : nat) (pc : Go_pc) : list Z :=
  match pc with
  | GWriteHeader _ _ hdr _ | GWritePayload _ _ hdr _ => [go_CallID hdr]
  | _ => []
  end.

Definition written_ids (h : Go_history) : list Z := (fun x => go_CallID x.2.1) <$> go_frames h.

(** An id is used for one frame. *)
Definition writes_once s : Prop := forall id,
  occ id (collect writing 0 (go_threads s)) + occ id (written_ids (go_history s))
  <= occ id (go_issued (go_history s)).*1.

Lemma writing_ensured t t' k st : writing t (ensured t' k st) = [].
Proof. unfold ensured. by destruct (Go_IsOK st), k. Qed.
Lemma writing_after t next : writing t (after_callbacks next) = [].
Proof. by destruct next as [[]|]. Qed.

Lemma writes_once_step e s s' :
  writes_once s -> Go_channel_step config e s = Some s' -> writes_once s'.
Proof.
  unfold writes_once, written_ids. intros H E id. specialize (H id). go_cases E.
  all: try match goal with Hpc : ?ts !! ?t = Some ?pc |- _ =>
         pose proof (fun pc' => collect_insert writing id 0 ts t pc pc' Hpc) as Hi;
         cbn [writing Nat.add] in Hi end.
  all: repeat case_match; simplify_eq/=.
  all: try match goal with |- context [<[_:=?pc]> _] => specialize (Hi pc) end.
  all: rw ?collect_app ?fmap_app ?occ_app /=.
  all: try (rw ?writing_ensured ?writing_after /= ?occ_nil in Hi).
  all: rw ?occ_nil; try lia.
Qed.
End Facts.

(** ** All of it *)

Record Go_inv {A : Asio} (s : Go_channel) : Prop := {
  gi_scheduled : scheduled s;
  gi_fields : fields_ok (go_fields s) (go_history s);
  gi_dialing : dialing_ok s;
  gi_accounts : accounts s;
  gi_threads : threads_all (thread_facts (go_history s)) (go_threads s);
  gi_history : history_facts (go_history s);
  gi_writes : writes_once s
}.

Lemma Go_inv_step {A : Asio} config e (s s' : Go_channel) :
  Go_inv s -> Go_channel_step config e s = Some s' -> Go_inv s'.
Proof.
  intros [] E. constructor;
    eauto using scheduled_step, fields_ok_step, dialing_step, accounts_step, thread_facts_step,
      history_facts_step, writes_once_step.
Qed.

Lemma Go_channel_inv {A : Asio} config es (s : Go_channel) :
  run_events (Go_channel_step config) es Go_CreateChannel = Some s -> Go_inv s.
Proof.
  apply (run_events_invariant (Go_channel_step config) Go_inv);
    [intros e s1 s2; apply Go_inv_step|].
  constructor; try done; constructor; simpl; try done. constructor.
Qed.
