(* ===== verification/GoChannelProperties.v ===== *)
(** * GoChannelProperties: what the Go client guarantees

    Every caller is called back once, a response reaches the call it answers,
    frames are not interleaved on a connection, a goroutine of an old
    connection does not tear down a new one, and no goroutine waits forever
    for a mutex, so that a closed channel calls back every caller. *)

From S2P Require Import Prelude.
From S2P Require Import Status.
From S2P Require Import Frame.
From S2P Require Import Transport.
From S2P Require Import Goroutines.
From S2P Require Import GoFrame.
From S2P Require Import GoChannel.
From S2P Require Import GoChannelInvariants.

Open Scope protocomm_scope.
Open Scope nat_scope.

(** ** The bytes on a connection *)

(** The frames written in full on connection [c]. *)
Definition frames_on (c : nat) (h : Go_history) : list (Go_FrameHeader * bytes) :=
  (filter (fun x => x.1 = c) (go_frames h)).*2.

(** The header whose payload the holder of [writeMu] is about to write. *)
Definition in_progress (wm : option nat) (ts : list Go_pc) (c : nat) : bytes :=
  match wm ≫= (fun t => ts !! t) with
  | Some (GWritePayload c' _ hdr _) => if bool_decide (c' = c) then Go_Serialize hdr else []
  | _ => []
  end.

Lemma in_progress_insert wm ts t pc pc' c :
  ts !! t = Some pc -> (holds_writeMu pc = true <-> wm = Some t) -> holds_writeMu pc = false ->
  in_progress wm (<[t := pc']> ts) c = in_progress wm ts c.
Proof.
  intros Hpc Hw Hf. unfold in_progress. destruct wm as [m|]; [|done]. simpl.
  rw list_lookup_insert_ne //. intros ->. rw Hf in Hw. by pose proof (proj2 Hw eq_refl).
Qed.

Lemma in_progress_snoc wm ts pc c :
  (forall t, wm = Some t -> t < length ts) -> in_progress wm (ts ++ [pc]) c = in_progress wm ts c.
Proof.
  intros Hr. unfold in_progress. destruct wm as [m|]; [|done]. simpl.
  rw lookup_app_l //. by apply Hr.
Qed.

Lemma frames_on_log c c' f h :
  frames_on c' (log_frame (c, f) h)
  = frames_on c' h ++ (if bool_decide (c = c') then [f] else []).
Proof.
  unfold frames_on. simpl. rw filter_app fmap_app. f_equal.
  case_bool_decide as Hc; [by rw filter_cons_True|by rw filter_cons_False].
Qed.

Section Wire.
Context {A : Asio} `{!AsioStream A}.
Variable config : Go_ChannelConfig.
Implicit Types (s : Go_channel).

(** A connection [net.Dial] returns has transmitted nothing. *)
Definition fresh_dial (e : Go_event) : Prop :=
  match e with EDial _ (inl conn) => outgoing conn = [] | _ => True end.

Record wire_ok s : Prop := {
  wi_frames : Forall (fun x => x.1 < length (go_conns s)) (go_frames (go_history s));
  wi_bytes c conn : go_conns s !! c = Some conn -> c ∉ go_failed (go_history s) ->
    outgoing conn = go_HandshakeHeader config ++ concat (encode_go <$> frames_on c (go_history s))
                    ++ in_progress (go_writeMu s) (go_threads s) c
}.

Lemma Go_handshake_out (conn conn' : socket) :
  Go_handshake config conn = (conn', None) ->
  outgoing conn' = outgoing conn ++ go_HandshakeHeader config.
Proof.
  unfold Go_handshake. destruct (go_HandshakeHeader config) as [|x hs].
  - intros [= ->]. by rw app_nil_r.
  - destruct (asio_write conn _) as [c1 [e|]] eqn:Ew; [done|].
    destruct (asio_read c1 _) as [[c2 rd] [e|]] eqn:Er; [done|].
    case_bool_decide; [done|]. intros [= <-].
    rw (read_keeps_out _ _ _ _ _ Er) (write_all _ _ _ Ew) /= app_nil_r //.
Qed.

Lemma frames_on_new s : wire_ok s -> frames_on (length (go_conns s)) (go_history s) = [].
Proof.
  intros [H _]. unfold frames_on. induction H as [|x l Hx _ IH]; [done|].
  rw filter_cons_False //. lia.
Qed.

Lemma in_progress_new s : scheduled s ->
  in_progress (go_writeMu s) (go_threads s) (length (go_conns s)) = [].
Proof.
  intros H. unfold in_progress. destruct (go_writeMu s) as [m|]; [|done]. simpl.
  destruct (go_threads s !! m) as [pc|] eqn:E; [|done]. destruct pc; try done.
  pose proof (sc_knows _ H _ _ E c eq_refl). by rw bool_decide_false; [lia|].
Qed.

(** A step after which every good connection carries what it carried. *)
Lemma wire_quiet s s' :
  wire_ok s -> go_frames (go_history s') = go_frames (go_history s) ->
  (forall c, c ∈ go_failed (go_history s) -> c ∈ go_failed (go_history s')) ->
  length (go_conns s) <= length (go_conns s') ->
  (forall c conn', go_conns s' !! c = Some conn' -> c ∉ go_failed (go_history s') ->
     (exists conn, go_conns s !! c = Some conn /\ outgoing conn' = outgoing conn)
     /\ in_progress (go_writeMu s') (go_threads s') c = in_progress (go_writeMu s) (go_threads s) c) ->
  wire_ok s'.
Proof.
  intros [H1 H2] Ef Hf Hl Hc. constructor.
  - rw Ef. eapply Forall_impl; [done|]. simpl. lia.
  - intros c conn' E Hn. destruct (Hc c conn' E Hn) as [(conn & E' & ->) ->].
    unfold frames_on. rw Ef. apply H2; [done|]. naive_solver.
Qed.

(** Connection [c] transmitted [bs], which completes the frames [fs]. *)
Lemma wire_write s s' c (conn conn' : socket) fs bs :
  wire_ok s -> go_conns s !! c = Some conn -> go_conns s' = <[c := conn']> (go_conns s) ->
  outgoing conn' = outgoing conn ++ bs ->
  go_frames (go_history s') = go_frames (go_history s) ++ ((fun f => (c, f)) <$> fs) ->
  go_failed (go_history s') = go_failed (go_history s) ->
  (forall c', c' <> c -> in_progress (go_writeMu s') (go_threads s') c'
                       = in_progress (go_writeMu s) (go_threads s) c') ->
  in_progress (go_writeMu s) (go_threads s) c ++ bs
  = concat (encode_go <$> fs) ++ in_progress (go_writeMu s') (go_threads s') c ->
  wire_ok s'.
Proof.
  intros [H1 H2] E Ec Eo Ef Efail Hother Hc.
  assert (forall c', frames_on c' (go_history s') = frames_on c' (go_history s) ++
            (if bool_decide (c' = c) then fs else [])) as Hon.
  { intros c'. unfold frames_on. rw Ef filter_app fmap_app. f_equal. clear.
    induction fs as [|f fs IH]; simpl; [by case_bool_decide|].
    case_bool_decide; subst; [rw filter_cons_True //=; by f_equal|by rw filter_cons_False]. }
  constructor.
  - rw Ef Ec length_insert. apply Forall_app. split; [done|]. apply Forall_fmap, Forall_true.
    intros f. simpl. by eapply lookup_lt_Some.
  - intros c' conn2. rw Ec Efail Hon.
    intros [(-> & <- & _)|[Hne E2]]%list_lookup_insert_Some Hn.
    + rw bool_decide_true // fmap_app concat_app Eo (H2 _ _ E Hn) -!app_assoc Hc //.
    + rw bool_decide_false; [done|]. rw app_nil_r Hother; [done|]. by apply H2.
Qed.

Definition same_out (cs cs' : list socket) : Prop := forall c conn',
  cs' !! c = Some conn' -> exists conn, cs !! c = Some conn /\ outgoing conn' = outgoing conn.

Lemma same_out_refl cs : same_out cs cs.
Proof. intros c conn' E. by exists conn'. Qed.

Lemma same_out_close cs c : same_out cs (alter asio_close c cs).
Proof.
  intros c' conn' E. destruct (decide (c = c')) as [->|Hne].
  - rw list_lookup_alter_eq in E. apply fmap_Some in E as (conn & E & ->).
    exists conn. by rw close_keeps_out.
  - rw list_lookup_alter_ne // in E. by exists conn'.
Qed.

Lemma same_out_read cs c conn conn' res :
  cs !! c = Some conn -> Go_ReadFrame conn = (conn', res) -> same_out cs (<[c := conn']> cs).
Proof.
  intros E Er c' conn2 [(-> & <- & _)|[_ E2]]%list_lookup_insert_Some; [|by exists conn2].
  exists conn. split; [done|]. by rw -(Go_ReadFrame_out conn) Er.
Qed.

(** A failed write spoils its connection only. *)
Lemma wire_failed s s' c conn' :
  wire_ok s -> go_conns s' = <[c := conn']> (go_conns s) ->
  go_history s' = log_failed c (go_history s) ->
  (forall c', c' <> c -> in_progress (go_writeMu s') (go_threads s') c'
                       = in_progress (go_writeMu s) (go_threads s) c') -> wire_ok s'.
Proof.
  intros H Ec Eh Hp. eapply wire_quiet; [done|..]; rw ?Ec ?Eh ?length_insert /=; [done|set_solver|lia|].
  intros c' conn2. rw list_lookup_insert_Some elem_of_app list_elem_of_singleton.
  intros [(-> & _)|[_ E]] Hn; [naive_solver|]. split; [by exists conn2|]. apply Hp. naive_solver.
Qed.

Lemma wire_dialed s s' conn' :
  scheduled s -> wire_ok s -> go_conns s' = go_conns s ++ [conn'] ->
  go_history s' = go_history s -> outgoing conn' = go_HandshakeHeader config ->
  (forall c, in_progress (go_writeMu s') (go_threads s') c
           = in_progress (go_writeMu s) (go_threads s) c) -> wire_ok s'.
Proof.
  intros Hs H Ec Eh Eo Hp. constructor; rw Eh Ec ?length_app.
  - eapply Forall_impl; [apply H|]. simpl. lia.
  - intros c conn2 [E|[Hl E]]%lookup_app_Some Hn; rw Hp; [by apply H|].
    apply list_lookup_singleton_Some in E as [E <-].
    replace c with (length (go_conns s)) by lia.
    by rw frames_on_new // in_progress_new // Eo /= app_nil_r.
Qed.

Lemma wire_same s s' :
  wire_ok s -> go_frames (go_history s') = go_frames (go_history s) ->
  go_failed (go_history s') = go_failed (go_history s) ->
  length (go_conns s) = length (go_conns s') -> same_out (go_conns s) (go_conns s') ->
  (forall c, in_progress (go_writeMu s') (go_threads s') c
           = in_progress (go_writeMu s) (go_threads s) c) -> wire_ok s'.
Proof.
  intros H Ef Ex El Ho Hp. eapply wire_quiet; rw ?Ex; [done|done|done|lia|].
  intros c conn' E Hn. split; [by apply Ho|done].
Qed.

Lemma in_progress_payload ts t c g hdr req c' :
  ts !! t = Some (GWritePayload c g hdr req) ->
  in_progress (Some t) ts c' = if bool_decide (c = c') then Go_Serialize hdr else [].
Proof. intros E. unfold in_progress. by rw /= E. Qed.

Lemma wire_step e s s' :
  Go_inv s -> wire_ok s -> fresh_dial e -> Go_channel_step config e s = Some s' -> wire_ok s'.
Proof.
  intros Hi H He E. pose proof (gi_scheduled _ Hi) as Hs.
  pose proof (sc_write _ Hs) as Hw. pose proof (sc_write_range _ Hs) as Hwr.
  clear Hi. go_cases E; simpl in Hw, Hwr.
  all: try match goal with Hpc : ?ts !! ?t = Some _ |- _ =>
         pose proof (Hw _ _ Hpc) as Ht; simpl in Ht; pose proof (lookup_lt_Some _ _ _ Hpc) as Hlt;
         pose proof (fun pc' c => in_progress_insert _ _ _ _ pc' c Hpc Ht) as Hp end.
  all: repeat case_match; simplify_eq/=.
  all: try (eapply wire_same; [exact H|done|done|by rw /= ?length_insert ?length_alter
         |simpl; eauto using same_out_refl, same_out_close, same_out_read
         |intros c'; simpl; rw ?in_progress_snoc ?Hp; try done; rw length_insert //]).
  - eapply wire_quiet; [exact H|done|set_solver|rw /= length_app; lia|]. simpl.
    intros c conn2 [E|[Hl E]]%lookup_app_Some Hn; [split; [by exists conn2|by apply Hp]|].
    apply list_lookup_singleton_Some in E as [E _]. set_solver by lia.
  - eapply wire_dialed; [exact Hs|exact H|done|done|..|intros; by apply Hp].
    match goal with Hh : Go_handshake _ _ = _ |- _ => by rw (Go_handshake_out _ _ Hh) He end.
  - by eapply wire_failed.
  - match goal with Ec : cs !! c = Some _, Ew : asio_write _ _ = _ |- _ =>
      eapply (wire_write _ _ _ _ _ [] _ H Ec); [done|exact (write_all _ _ _ Ew)|..]; try done end.
    + by rw app_nil_r.
    + intros c' Hc. simpl. rw (in_progress_payload _ t c g hdr request); [by apply list_lookup_insert_eq|].
      by rw bool_decide_false.
    + simpl. rw (in_progress_payload _ t c g hdr request); [by apply list_lookup_insert_eq|].
      by rw bool_decide_true // app_nil_r.
  - match goal with Ec : cs !! c = Some _, Ew : asio_write _ _ = _ |- _ =>
      eapply (wire_write _ _ _ _ _ [(hdr, request)] _ H Ec); [done|exact (write_all _ _ _ Ew)|..]; try done end.
    destruct request; [|done].
    by rw concat_encode_go /= ?app_nil_r.
  - eapply wire_failed; [exact H|done|done|]. intros c' Hc. simpl.
    rw (proj1 Ht eq_refl) (in_progress_payload _ _ _ _ _ _ _ Hpc) bool_decide_false //.
  - match goal with Ec : cs !! c = Some _, Ew : asio_write _ _ = _ |- _ =>
      eapply (wire_write _ _ _ _ _ [(hdr, request)] _ H Ec); [done|exact (write_all _ _ _ Ew)|..]; try done end;
      rw ?concat_encode_go /= (proj1 Ht eq_refl).
    + intros c' Hc. by rw (in_progress_payload _ _ _ _ _ _ _ Hpc) bool_decide_false.
    + by rw (in_progress_payload _ _ _ _ _ _ _ Hpc) bool_decide_true // !app_nil_r.
Qed.

Lemma Go_channel_wire es s :
  run_events (Go_channel_step config) es Go_CreateChannel = Some s -> Forall fresh_dial es ->
  Go_inv s /\ wire_ok s.
Proof.
  intros Hr. revert s Hr. induction es as [|e es IH] using rev_ind; intros s Hr Hf.
  - split; [by eapply Go_channel_inv|]. simplify_eq/=. constructor; simpl; [done|].
    intros c conn. by rw lookup_nil.
  - split; [by eapply Go_channel_inv|]. apply Forall_app in Hf as [Hf He]. rw Forall_singleton in He.
    rw run_events_app in Hr. destruct (run_events _ es _) as [s1|] eqn:E1; [|done].
    simpl in Hr. destruct (Go_channel_step _ e s1) as [s2|] eqn:E2; simplify_eq.
    destruct (IH s1 eq_refl Hf) as [Hi Hw]. exact (wire_step e s1 s Hi Hw He E2).
Qed.
End Wire.

(** ** Generations *)

(** The connection a goroutine works on and the generation it belongs to. *)
Definition knows_gen (pc : Go_pc) : option (nat * Z) :=
  match pc with
  | GWriteHeader c g _ _ | GWritePayload c g _ _ | GTeardown c g _
  | GRead c g | GPush c g _ _ | GRespond c g _ _ => Some (c, g)
  | GInvoke _ next => next
  | _ => None
  end.

(** After [n] events: a goroutine of the current generation works on the
    current connection. *)
Record gens_ok {A : Asio} (n : nat) (s : Go_channel) : Prop := {
  ge_gen : (0 <= go_gen (go_fields s) <= Z.of_nat n)%Z;
  ge_threads : threads_all (fun _ pc => forall c g, knows_gen pc = Some (c, g) ->
    (g <= go_gen (go_fields s))%Z
    /\ (g = go_gen (go_fields s) -> go_conn (go_fields s) = Some c)) (go_threads s)
}.

Lemma knows_gen_ensured t k st : knows_gen (ensured t k st) = None.
Proof. unfold ensured. by destruct (Go_IsOK st), k. Qed.
Lemma knows_gen_after next : knows_gen (after_callbacks next) = next.
Proof. by destruct next as [[]|]. Qed.

Lemma gens_step {A : Asio} config n e (s s' : Go_channel) :
  (Z.of_nat n + 1 < 2 ^ 64)%Z -> gens_ok n s -> Go_channel_step config e s = Some s' ->
  gens_ok (S n) s'.
Proof.
  intros Hn [Hg H] E. 
  assert (u64 (go_gen (go_fields s) + 1) = go_gen (go_fields s) + 1)%Z as Hu.
  { apply u64_small. unfold is_u64. lia. }
  go_cases E; simpl in Hg, H, Hu.
  all: try match goal with Hpc : _ !! _ = Some _ |- _ => pose proof (H _ _ Hpc) as Ht; simpl in Ht end.
  all: repeat case_match; simplify_eq/=; constructor; rw ?Hu /= ?Hu; try lia.
  all: threads_cases H; rw ?knows_gen_ensured ?knows_gen_after; try done.
  all: try (intros t' pc' _ HH c' g' Hk; destruct (HH c' g' Hk) as [? HE];
            (split; [lia|]); intros ?; first [lia | congruence | rw -HE //; congruence]).
  all: intros c' g' [= <- <-]; (split; [lia|congruence]).
Qed.

Lemma Go_channel_gens {A : Asio} config es (s : Go_channel) :
  run_events (Go_channel_step config) es Go_CreateChannel = Some s ->
  (Z.of_nat (length es) < 2 ^ 64)%Z -> gens_ok (length es) s.
Proof.
  revert s. induction es as [|e es IH] using rev_ind; intros s Hr Hl.
  - simplify_eq/=. constructor; simpl; [lia|]. by intros t pc.
  - rw run_events_app in Hr. destruct (run_events _ es _) as [s1|] eqn:E1; [|done].
    simpl in Hr. destruct (Go_channel_step _ e s1) as [s2|] eqn:E2; simplify_eq.
    rw length_app /= Nat.add_1_r in Hl *. eapply gens_step; [lia| |done].
    apply IH; [done|lia].
Qed.

(** ** Progress *)

(** Goroutines at rest: ended, or waiting for the peer. *)
Definition at_rest (pc : Go_pc) : bool :=
  match pc with GDone | GRead _ _ => true | _ => false end.

(** How far a goroutine is from rest, at most; a registered call counts one
    more until it is called back. *)
Definition distance (pc : Go_pc) : nat :=
  match pc with
  | GEnsure _ => 11
  | GConnectMu _ => 10
  | GDial _ => 9
  | GInstall _ _ => 8
  | GRegister _ _ => 7
  | GWriteHeader _ _ _ _ => 5
  | GWritePayload _ _ _ _ => 4
  | GTeardown _ _ _ | GClose => 3
  | GCloseConn _ todo => 2 + length todo
  | GInvoke todo _ => 1 + length todo
  | GRespond _ _ _ _ => 2
  | GPush _ _ _ _ => 1
  | GRead _ _ | GDone => 0
  end.

Definition total (ts : list Go_pc) : nat := sum_list_with distance ts.

Definition distance_to_rest {A : Asio} (s : Go_channel) : nat :=
  total (go_threads s) + size (go_pending (go_fields s)).

(** An event of goroutine [t]. *)
Definition moves {A : Asio} (t : nat) (e : Go_event) : Prop :=
  match e with EDial t' _ | EStep t' _ => t' = t | _ => False end.

Lemma total_insert ts t pc pc' :
  ts !! t = Some pc -> total (<[t := pc']> ts) + distance pc = total ts + distance pc'.
Proof. apply sum_insert. Qed.

Lemma total_app ts us : total (ts ++ us) = total ts + total us.
Proof. unfold total. apply sum_list_with_app. Qed.

Lemma distance_ensured t k st : distance (ensured t k st) <= 7.
Proof. unfold ensured. destruct (Go_IsOK st), k; simpl; lia. Qed.

Lemma distance_after next : distance (after_callbacks next) = 0.
Proof. by destruct next as [[]|]. Qed.

Lemma length_fail_all f st : length (fail_all f st) = size (go_pending f).
Proof. unfold fail_all. by rw length_fmap length_map_to_list. Qed.

Lemma distance_step {A : Asio} config t pc e (s s' : Go_channel) :
  moves t e -> go_threads s !! t = Some pc -> at_rest pc = false ->
  Go_channel_step config e s = Some s' -> distance_to_rest s' < distance_to_rest s.
Proof.
  intros Hm Hpc Hr E. unfold distance_to_rest.
  pose proof (fun pc' => total_insert _ _ _ pc' Hpc) as Ht.
  destruct s as [f cm wm cs ts h], e; try done; simpl in Hm, Hpc, E; subst; rw Hpc in E.
  - destruct pc; try done. simplify_eq/=. unfold Go_dial. repeat case_match; simpl.
    all: match goal with |- context [<[_:=?pc]> _] => specialize (Ht pc) end; simpl in Ht.
    all: try match goal with H : context [distance (ensured ?t ?k ?st)] |- _ => pose proof (distance_ensured t k st) end.
    all: try lia.
  - destruct pc; try done; cbn beta iota delta [Go_step] in E; repeat case_match; simplify_eq/=.
    all: match goal with |- context [<[_:=?pc]> _] => specialize (Ht pc) end; simpl in Ht.
    all: try match goal with H : context [distance (ensured ?t ?k ?st)] |- _ => pose proof (distance_ensured t k st) end.
    all: rw ?distance_after ?length_fail_all in Ht; rw ?total_app ?map_size_empty /=.
    all: try lia.
    + rw map_size_insert. destruct (_ !! go_nextCallID f); simpl; lia.
    + rw length_delete in Ht; [by eexists|]. simpl in Ht. lia.
    + match goal with Hp : go_pending f !! _ = Some _ |- _ =>
        rw map_size_delete Hp; pose proof (map_size_ne_0_lookup_2 (go_pending f) _ (mk_is_Some _ _ Hp)) end. lia.
Qed.

(** What a goroutine waits for, besides the peer. *)
Definition waits_for {A : Asio} (s : Go_channel) (pc : Go_pc) : option nat :=
  match pc with
  | GConnectMu _ => go_connectMu s
  | GWriteHeader _ _ _ _ => go_writeMu s
  | _ => None
  end.

Section Progress.
Context {A : Asio}.
Variable config : Go_ChannelConfig.
Implicit Types (s : Go_channel).

(** A goroutine that waits for nobody can move. *)
Lemma can_move (res : socket + ErrorCode) s t pc :
  Go_inv s -> go_threads s !! t = Some pc -> at_rest pc = false -> waits_for s pc = None ->
  exists e s', moves t e /\ Go_channel_step config e s = Some s'.
Proof.
  intros Hi Hpc Hr Hw. pose proof (sc_knows _ (gi_scheduled _ Hi) _ _ Hpc) as Hk.
  destruct s as [f cm wm cs ts h]. cbn [go_threads go_conns waits_for go_connectMu go_writeMu] in *.
  assert (forall c, knows_conn pc = Some c -> exists conn, cs !! c = Some conn) as Hc.
  { intros c E. apply lookup_lt_is_Some, Hk, E. }
  assert (forall e, moves t e -> (exists s', Go_channel_step config e (Go_mkChannel f cm wm cs ts h) = Some s') ->
    exists e s', moves t e /\ Go_channel_step config e (Go_mkChannel f cm wm cs ts h) = Some s') as Hgo.
  { intros e He [s' Es]. by exists e, s'. }
  destruct pc as [| |k| | |c g hdr req|c g hdr req| | |[|d todo] next| | |c g hdr p| |]; try discriminate Hr;
    try (by apply (Hgo (EDial t res)); [done|]; simpl; rw Hpc; eexists);
    apply (Hgo (EStep t 0)); try done; simpl; rw Hpc; simpl; simpl in Hw; rw ?Hw;
    try (destruct (Hc _ eq_refl) as [conn ->]); repeat case_match; by eexists.
Qed.

(** A goroutine that waits for a mutex waits for one that can move. *)
Lemma holder_moves s t pc m :
  Go_inv s -> go_threads s !! t = Some pc -> waits_for s pc = Some m ->
  exists pc', go_threads s !! m = Some pc' /\ at_rest pc' = false /\ waits_for s pc' = None.
Proof.
  intros Hi Hpc Hw. destruct (gi_scheduled _ Hi) as [Hc Hcr Hm Hmr _ _].
  destruct pc; try done; simpl in Hw.
  - destruct (lookup_lt_is_Some_2 _ _ (Hcr _ Hw)) as [pc' E]. exists pc'.
    pose proof (proj2 (Hc _ _ E) Hw). by destruct pc'.
  - destruct (lookup_lt_is_Some_2 _ _ (Hmr _ Hw)) as [pc' E]. exists pc'.
    pose proof (proj2 (Hm _ _ E) Hw). by destruct pc'.
Qed.

Definition all_at_rest s : Prop := Forall (fun pc => at_rest pc = true) (go_threads s).

(** Events of the goroutines that run already. *)
Definition internal (e : Go_event) : Prop := exists t, moves t e.

Lemma reaches_rest (res : socket + ErrorCode) s :
  Go_inv s -> exists es s', Forall internal es /\ length es <= distance_to_rest s
    /\ run_events (Go_channel_step config) es s = Some s' /\ all_at_rest s'.
Proof.
  remember (distance_to_rest s) as n eqn:En. revert s En.
  induction n as [n IH] using lt_wf_ind. intros s -> Hi.
  destruct (decide (all_at_rest s)) as [Hr|Hr]; [by exists [], s; split_and!; try done; simpl; lia|].
  apply not_Forall_Exists in Hr; [|apply _]. apply Exists_exists in Hr as (pc & Hin & Hpc).
  apply list_elem_of_lookup in Hin as [t Ht]. apply not_true_is_false in Hpc.
  assert (exists t pc, go_threads s !! t = Some pc /\ at_rest pc = false /\ waits_for s pc = None)
    as (t' & pc' & Ht' & Hr' & Hw').
  { destruct (waits_for s pc) as [m|] eqn:Ew; [|eauto].
    destruct (holder_moves s t pc m Hi Ht Ew) as (pc' & ? & ? & ?). eauto. }
  destruct (can_move res s t' pc' Hi Ht' Hr' Hw') as (e & s1 & Hm & E).
  pose proof (distance_step config t' pc' e s s1 Hm Ht' Hr' E) as Hd.
  destruct (IH _ Hd s1 eq_refl) as (es & s2 & Hes & Hl & Hrun & Hrest); [by eapply Go_inv_step|].
  exists (e :: es), s2. split_and!; [|simpl; lia|by rw /= E|done].
  constructor; [by exists t'|done].
Qed.

(** A closed channel stays closed and issues no ids. *)
Lemma closed_step e s s' :
  Go_channel_step config e s = Some s' -> go_closed (go_fields s) = true ->
  go_closed (go_fields s') = true /\ go_issued (go_history s') = go_issued (go_history s).
Proof. intros E. go_cases E; simpl; repeat case_match; simplify_eq/=; done. Qed.

Lemma internal_callers e s s' :
  Go_channel_step config e s = Some s' -> internal e ->
  go_callers (go_history s') = go_callers (go_history s).
Proof.
  intros E [m Hm]. go_cases E; simpl in Hm; try done; repeat case_match; simplify_eq/=; done.
Qed.

Lemma closed_run es s s' :
  run_events (Go_channel_step config) es s = Some s' -> Forall internal es ->
  go_closed (go_fields s) = true ->
  go_closed (go_fields s') = true /\ go_issued (go_history s') = go_issued (go_history s)
  /\ go_callers (go_history s') = go_callers (go_history s).
Proof.
  revert s. induction es as [|e es IH]; intros s Hr Hf Hc; simplify_eq/=; [done|].
  destruct (Go_channel_step config e s) as [s1|] eqn:E; [|done]. inversion Hf; subst.
  destruct (closed_step e s s1 E Hc) as [Hc1 Hi1].
  destruct (IH s1 Hr) as (? & -> & ->); [done..|]. by rw Hi1 (internal_callers e s s1 E).
Qed.

(** Where a caller is that was not called back. *)
Lemma caller_accounted s t :
  Go_inv s -> (Z.of_nat (length (go_issued (go_history s))) <= 2 ^ 32)%Z ->
  t ∈ (go_callers (go_history s)).*1 ->
  t ∈ ((go_delivered (go_history s)).*1).*1 \/ t ∈ collect owed 0 (go_threads s)
  \/ exists id, go_pending (go_fields s) !! id = Some t.
Proof.
  intros Hi Hl Ht%occ_pos. rw (ac_count _ (gi_accounts _ Hi) t Hl) in Ht.
  destruct (decide (1 <= occ t (((go_delivered (go_history s)).*1).*1))) as [?%occ_pos|?]; [by left|].
  right. destruct (decide (1 <= occ t (collect owed 0 (go_threads s)))) as [?%occ_pos|?]; [by left|].
  right. assert (t ∈ (map_to_list (go_pending (go_fields s))).*2 ≫= (fun t => [t])) as Hin.
  { apply occ_pos. unfold map_occ in Ht. lia. }
  apply list_elem_of_bind in Hin as (t' & ->%list_elem_of_singleton & Hin).
  apply list_elem_of_fmap in Hin as ([id t2] & -> & Hin).
  exists id. by apply elem_of_map_to_list in Hin.
Qed.

Lemma delivered_NoDup s :
  Go_inv s -> (Z.of_nat (length (go_issued (go_history s))) <= 2 ^ 32)%Z ->
  NoDup ((go_delivered (go_history s)).*1).*1
  /\ forall t, t ∈ ((go_delivered (go_history s)).*1).*1 -> t ∈ (go_callers (go_history s)).*1.
Proof.
  intros Hi Hl. pose proof (ac_NoDup _ (gi_accounts _ Hi)) as Hn.
  split.
  - apply NoDup_occ. intros t. pose proof (proj1 (NoDup_occ _) Hn t).
    pose proof (ac_count _ (gi_accounts _ Hi) t Hl). lia.
  - intros t Ht%occ_pos. apply occ_pos. pose proof (ac_count _ (gi_accounts _ Hi) t Hl). lia.
Qed.

Lemma rest_owes_nothing s : all_at_rest s -> collect owed 0 (go_threads s) = [].
Proof.
  intros H. apply collect_nil. intros t pc E j. unfold all_at_rest in H. rw Forall_lookup in H.
  specialize (H _ _ E). by destruct pc.
Qed.
End Progress.

(** ** A session on a scripted connection

    The server accepts the handshake and answers the first call. *)

Definition go_demo_config : Go_ChannelConfig := Go_default_config None.

Definition go_demo_response : Go_FrameHeader := Go_mkHeader Go_FrameResponse 0 1 7 4.

Definition go_demo_conn : pipe :=
  mkPipe (b8 "pc1" ++ encode_go (go_demo_response, b8 "pong")) [] None true.

(** Goroutine 0 calls and 1 reads the answer. *)
Definition go_demo_call : list (@Go_event pipe_asio) :=
  [ EAsyncUnaryCall 7 (b8 "ping"); EStep 0 0; EStep 0 0; EDial 0 (inl go_demo_conn);
    EStep 0 0; EStep 0 0; EStep 0 0; EStep 0 0; EStep 1 0; EStep 1 0; EStep 1 0; EStep 1 0 ].

(** Goroutine 2 registers a call and the reader finds the connection gone. *)
Definition go_demo_lost : list (@Go_event pipe_asio) :=
  go_demo_call ++ [ EAsyncUnaryCall 8 (b8 "ping"); EStep 2 0; EStep 2 0; EStep 2 0; EStep 1 0 ].

(** Goroutine 3 closes the channel. *)
Definition go_demo_close : list (@Go_event pipe_asio) := go_demo_lost ++ [ EClose; EStep 3 0 ].

Definition go_demo (es : list (@Go_event pipe_asio)) : option (@Go_channel pipe_asio) :=
  run_events (Go_channel_step go_demo_config) es Go_CreateChannel.

(** ** Properties *)

(** C18: the Go channel calls every caller back at most once and loses none:
    in any interleaving of its goroutines, up to [2 ^ 32] calls, no caller of
    [AsyncUnaryCall] or [Connect] gets a second callback, only callers get
    one, and a caller that has not had it yet is registered under a call id
    on the connection in use, or is on the list of a goroutine. *)
Theorem go_callbacks_once {A : Asio} config es (s : Go_channel) :
  run_events (Go_channel_step config) es Go_CreateChannel = Some s ->
  (Z.of_nat (length (go_issued (go_history s))) <= 2 ^ 32)%Z ->
  NoDup ((go_delivered (go_history s)).*1).*1
  /\ (forall t, t ∈ ((go_delivered (go_history s)).*1).*1 -> t ∈ (go_callers (go_history s)).*1)
  /\ forall t, t ∈ (go_callers (go_history s)).*1 ->
       t ∈ ((go_delivered (go_history s)).*1).*1 \/ t ∈ collect owed 0 (go_threads s)
       \/ exists id c, go_pending (go_fields s) !! id = Some t /\ go_conn (go_fields s) = Some c
            /\ (id, (t, c)) ∈ go_issued (go_history s).
Proof.
  intros Hi%Go_channel_inv Hl. destruct (delivered_NoDup s Hi Hl) as [Hn Hc].
  split; [done|]. split; [done|]. intros t Ht.
  destruct (caller_accounted s t Hi Hl Ht) as [?|[?|[id Hp]]]; [by left|by right; left|].
  right; right. destruct (fo_issued _ _ (gi_fields _ Hi) _ _ Hp) as (c & ? & ?). by exists id, c.
Qed.

Lemma go_callbacks_once_witness :
  exists s, go_demo go_demo_call = Some s
    /\ NoDup ((go_delivered (go_history s)).*1).*1
    /\ go_delivered (go_history s) = [(0, Go_StatusOK, b8 "pong")].
Proof.
  destruct (go_demo go_demo_call) as [s|] eqn:E; [|by vm_compute in E].
  assert (go_delivered (go_history s) = [(0, Go_StatusOK, b8 "pong")]
    /\ length (go_issued (go_history s)) = 1) as [Hd Hl] by (vm_compute in E; by simplify_eq).
  exists s. split; [done|]. split; [|done].
  apply (go_callbacks_once go_demo_config go_demo_call s E). rw Hl. done.
Defined.



(** Frames of concurrent calls are not interleaved.  What a connection of
    the Go channel carries, unless its handshake or a write on it failed, is
    the handshake header, the frames written on it one after the other, and
    the header of the frame whose payload is being written; a frame is the
    request of a caller under the id issued to it on this connection, and no
    id is used for two frames. *)
Theorem go_channel_wire {A : Asio} `{!AsioStream A} config es (s : Go_channel) c conn :
  run_events (Go_channel_step config) es Go_CreateChannel = Some s -> Forall fresh_dial es ->
  (Z.of_nat (length (go_issued (go_history s))) <= 2 ^ 32)%Z ->
  go_conns s !! c = Some conn -> c ∉ go_failed (go_history s) ->
  outgoing conn = go_HandshakeHeader config ++ concat (encode_go <$> frames_on c (go_history s))
                  ++ in_progress (go_writeMu s) (go_threads s) c
  /\ Forall (fun f => exists t id methodID, f.1 = request_hdr id methodID f.2
       /\ (id, (t, c)) ∈ go_issued (go_history s)
       /\ (t, CallUnary methodID f.2) ∈ go_callers (go_history s)) (frames_on c (go_history s))
  /\ NoDup (written_ids (go_history s)).
Proof.
  intros Hr Hf Hl Hc Hn. destruct (Go_channel_wire config es s Hr Hf) as [Hi Hw].
  split; [by apply (wi_bytes _ _ Hw)|]. split.
  - pose proof (hf_frames _ (gi_history _ Hi)) as H. rw Forall_forall in H.
    apply Forall_forall. intros f ([c' f'] & -> & [? Hin]%list_elem_of_filter)%list_elem_of_fmap.
    destruct (H _ Hin) as (t & id & mid & ?). simpl in *. subst. by exists t, id, mid.
  - apply NoDup_occ. intros id. pose proof (gi_writes _ Hi id).
    assert (NoDup (go_issued (go_history s)).*1) as Hnd.
    { rw (fo_ids _ _ (gi_fields _ Hi)). by apply nth_call_ids_NoDup. }
    pose proof (proj1 (NoDup_occ _) Hnd id). lia.
Qed.

Lemma go_channel_wire_witness :
  exists s conn, go_demo go_demo_call = Some s /\ go_conns s !! 0 = Some conn
    /\ outgoing conn = b8 "pc1" ++ encode_go (request_hdr 1 7 (b8 "ping"), b8 "ping").
Proof.
  destruct (go_demo go_demo_call) as [s|] eqn:E; [|by vm_compute in E].
  assert (exists conn, go_conns s !! 0 = Some conn) as [conn Hc] by (vm_compute in E; simplify_eq; by eexists).
  assert (frames_on 0 (go_history s) = [(request_hdr 1 7 (b8 "ping"), b8 "ping")]
    /\ in_progress (go_writeMu s) (go_threads s) 0 = []
    /\ length (go_issued (go_history s)) = 1 /\ go_failed (go_history s) = [])
    as (Hf & Hp & Hl & Hx) by (vm_compute in E; by simplify_eq).
  exists s, conn. split; [done|]. split; [done|].
  destruct (go_channel_wire go_demo_config go_demo_call s 0 conn E) as [Ho _]; [|by rw Hl|done|by rw Hx; apply not_elem_of_nil|].
  { clear. repeat (apply Forall_cons_2; [done|]). apply Forall_nil_2. }
  by rw Ho Hf Hp.
Defined.

(** A goroutine never tears down a connection that is not its own.  When
    the reader or a writer of connection [c] runs [teardown], either its
    generation is over and the channel's fields do not change, or [c] is the
    connection in use, exactly the calls issued on [c] that are still pending
    are failed, and the channel is left without a connection. *)
Theorem go_teardown_own {A : Asio} config es (s s' : Go_channel) t c g st choice :
  run_events (Go_channel_step config) es Go_CreateChannel = Some s ->
  (Z.of_nat (length es) < 2 ^ 64)%Z ->
  go_threads s !! t = Some (GTeardown c g st) ->
  Go_channel_step config (EStep t choice) s = Some s' ->
  (go_fields s' = go_fields s /\ go_threads s' !! t = Some GDone)
  \/ (go_conn (go_fields s) = Some c
      /\ go_conn (go_fields s') = None /\ go_pending (go_fields s') = ∅
      /\ exists todo, go_threads s' !! t = Some (GCloseConn (Some c) todo)
         /\ forall d, d ∈ todo <->
              d.1.2 = st /\ d.2 = [] /\ exists id, go_pending (go_fields s) !! id = Some d.1.1
                /\ (id, (d.1.1, c)) ∈ go_issued (go_history s)).
Proof.
  intros Hr Hl Ht Hs. pose proof (Go_channel_inv config es s Hr) as Hi.
  destruct (Go_channel_gens config es s Hr Hl) as [_ Hg].
  destruct (Hg _ _ Ht c g eq_refl) as [_ Hc]. pose proof (lookup_lt_Some _ _ _ Ht) as Hlt.
  pose proof (gi_fields _ Hi) as Hf. destruct s as [f cm wm cs ts h]. simpl in *. rw Ht /= in Hs.
  destruct (Z.eqb_spec g (go_gen f)) as [->|Hne]; simplify_eq/=.
  - right. specialize (Hc eq_refl). split_and!; try done.
    exists (fail_all f st). rw list_lookup_insert_eq // Hc. split; [done|].
    intros [[t' st'] p]. unfold fail_all. rw list_elem_of_fmap. simpl. split.
    + intros ([id t2] & [= -> -> ->] & Hin%elem_of_map_to_list). split_and!; try done.
      exists id. split; [done|]. destruct (fo_issued _ _ Hf _ _ Hin) as (c' & ? & ?). by simplify_eq.
    + intros (-> & -> & id & Hp & _). exists (id, t'). by rw elem_of_map_to_list.
  - left. by rw list_lookup_insert_eq.
Qed.

Lemma go_teardown_own_witness :
  exists s s', go_demo go_demo_lost = Some s
    /\ Go_channel_step go_demo_config (EStep 1 0) s = Some s' /\ go_pending (go_fields s) !! 2%Z = Some 2
    /\ go_conn (go_fields s) = Some 0 /\ go_conn (go_fields s') = None.
Proof.
  destruct (go_demo go_demo_lost) as [s|] eqn:E; [|by vm_compute in E].
  destruct (Go_channel_step go_demo_config (EStep 1 0) s) as [s'|] eqn:E';
    [|by vm_compute in E; simplify_eq].
  assert (go_threads s !! 1 = Some (GTeardown 0 1 (Go_mkStatus Go_Unavailable "read: End of file"))
    /\ go_pending (go_fields s) !! 2%Z = Some 2 /\ go_conn (go_fields s) = Some 0) as (Ht & Hp & Hc)
    by (vm_compute in E; by simplify_eq).
  exists s, s'. split_and!; try done.
  destruct (go_teardown_own go_demo_config go_demo_lost s s' 1 0 1 _ 0 E ltac:(done) Ht E')
    as [[_ Hd]|(_ & Hn & _)]; [|done].
  vm_compute in E. simplify_eq. vm_compute in E'. by simplify_eq.
Defined.


