(* ===== verification/GoServer.v ===== *)
(** * GoServer: the Go server

    Models go/server.go, go/service.go and go/context.go as a machine of
    goroutines: the accept loop, one goroutine per connection, one per
    request, and those that call [Peer.Send], [Broadcast], [Peer.Close] and
    [Shutdown].  A step is one critical section, one operation on a
    connection, one call of a handler or callback, or one operation on a
    channel or a [WaitGroup].  The write mutex of a peer is held across steps
    and is part of its state.

    A handler acts on the application's state at one point of its execution.
    Of the user's callbacks the answer of [onHandshake] matters; their calls
    are logged.  What the listener accepts is part of the event. *)

From S2P Require Import Prelude.
From S2P Require Import Status.
From S2P Require Import Frame.
From S2P Require Import Transport.
From S2P Require Import Session.
From S2P Require Import GoFrame.

Open Scope nat_scope.

(** ** Data *)

(** The context has the fields of the C++ one: [PeerAddress], [MethodID],
    [CallID], [Trace], [MethodName], [RequestText], [ResponseText]. *)
Definition Go_MethodHandler (App : Type) : Type :=
  App -> ServerContext -> bytes -> App * ServerContext * (bytes * Go_Status).

(** [ServerBuilder], with the methods its services register in order. *)
Record Go_ServerBuilder (App : Type) := Go_mkBuilder {
  gb_address : string;
  gb_port : Z;
  gb_handshakeHeader : bytes;
  gb_services : list (list (Z * Go_MethodHandler App));
  gb_onConnect : bool;
  gb_onDisconnect : bool;
  gb_onHandshake : option (bytes -> bool);
  gb_interceptor : bool;
  gb_maxConcurrent : Z
}.
Arguments Go_mkBuilder {App}.
Arguments gb_address {App}.
Arguments gb_port {App}.
Arguments gb_handshakeHeader {App}.
Arguments gb_services {App}.
Arguments gb_onConnect {App}.
Arguments gb_onDisconnect {App}.
Arguments gb_onHandshake {App}.
Arguments gb_interceptor {App}.
Arguments gb_maxConcurrent {App}.

Definition Go_NewServerBuilder {App} : Go_ServerBuilder App :=
  Go_mkBuilder "0.0.0.0" 0 (bytes_of_string "pc1") [] false false None false 256.

(** The setters of the builder. *)
Definition Go_AddListeningPort {App} (address : string) (port : Z) (b : Go_ServerBuilder App) : Go_ServerBuilder App :=
  Go_mkBuilder address port (gb_handshakeHeader b) (gb_services b) (gb_onConnect b)
    (gb_onDisconnect b) (gb_onHandshake b) (gb_interceptor b) (gb_maxConcurrent b).
Definition Go_SetHandshakeHeader {App} (header : bytes) (b : Go_ServerBuilder App) : Go_ServerBuilder App :=
  Go_mkBuilder (gb_address b) (gb_port b) header (gb_services b) (gb_onConnect b)
    (gb_onDisconnect b) (gb_onHandshake b) (gb_interceptor b) (gb_maxConcurrent b).
Definition Go_RegisterService {App} (svc : list (Z * Go_MethodHandler App)) (b : Go_ServerBuilder App) : Go_ServerBuilder App :=
  Go_mkBuilder (gb_address b) (gb_port b) (gb_handshakeHeader b) (gb_services b ++ [svc]) (gb_onConnect b)
    (gb_onDisconnect b) (gb_onHandshake b) (gb_interceptor b) (gb_maxConcurrent b).
Definition Go_SetOnConnect {App} (cb : bool) (b : Go_ServerBuilder App) : Go_ServerBuilder App :=
  Go_mkBuilder (gb_address b) (gb_port b) (gb_handshakeHeader b) (gb_services b) cb
    (gb_onDisconnect b) (gb_onHandshake b) (gb_interceptor b) (gb_maxConcurrent b).
Definition Go_SetOnDisconnect {App} (cb : bool) (b : Go_ServerBuilder App) : Go_ServerBuilder App :=
  Go_mkBuilder (gb_address b) (gb_port b) (gb_handshakeHeader b) (gb_services b) (gb_onConnect b)
    cb (gb_onHandshake b) (gb_interceptor b) (gb_maxConcurrent b).
Definition Go_SetOnHandshake {App} (cb : option (bytes -> bool)) (b : Go_ServerBuilder App) : Go_ServerBuilder App :=
  Go_mkBuilder (gb_address b) (gb_port b) (gb_handshakeHeader b) (gb_services b) (gb_onConnect b)
    (gb_onDisconnect b) cb (gb_interceptor b) (gb_maxConcurrent b).
Definition Go_SetMaxConcurrentRequests {App} (n : Z) (b : Go_ServerBuilder App) : Go_ServerBuilder App :=
  Go_mkBuilder (gb_address b) (gb_port b) (gb_handshakeHeader b) (gb_services b) (gb_onConnect b)
    (gb_onDisconnect b) (gb_onHandshake b) (gb_interceptor b) n.
Definition Go_SetInterceptor {App} (fn : bool) (b : Go_ServerBuilder App) : Go_ServerBuilder App :=
  Go_mkBuilder (gb_address b) (gb_port b) (gb_handshakeHeader b) (gb_services b) (gb_onConnect b)
    (gb_onDisconnect b) (gb_onHandshake b) fn (gb_maxConcurrent b).

(** The fields of [Server] that do not change once it runs; [sem] is the
    capacity of the channel, [None] for a nil channel. *)
Record Go_config (App : Type) := Go_mkConfig {
  sc_handlers : gmap Z (Go_MethodHandler App);
  sc_handshakeHeader : bytes;
  sc_onConnect : bool;
  sc_onDisconnect : bool;
  sc_onHandshake : option (bytes -> bool);
  sc_interceptor : bool;
  sc_sem : option nat
}.
Arguments Go_mkConfig {App}.
Arguments sc_handlers {App}.
Arguments sc_handshakeHeader {App}.
Arguments sc_onConnect {App}.
Arguments sc_onDisconnect {App}.
Arguments sc_onHandshake {App}.
Arguments sc_interceptor {App}.
Arguments sc_sem {App}.

Definition Go_RegisterMethod {App} (methodID : Z) (handler : Go_MethodHandler App)
    (handlers : gmap Z (Go_MethodHandler App)) : gmap Z (Go_MethodHandler App) :=
  <[methodID := handler]> handlers.

(** [BuildAndStart], up to [net.Listen]: every service registers its methods. *)
Definition Go_build {App} (b : Go_ServerBuilder App) : Go_config App :=
  Go_mkConfig
    (foldl (fun hs svc => foldl (fun hs m => Go_RegisterMethod m.1 m.2 hs) hs svc) ∅ (gb_services b))
    (gb_handshakeHeader b) (gb_onConnect b) (gb_onDisconnect b) (gb_onHandshake b)
    (gb_interceptor b)
    (if (0 <? gb_maxConcurrent b)%Z then Some (Z.to_nat (gb_maxConcurrent b)) else None).

(** What the outside observes, with the peer. *)
Inductive Go_server_log :=
| SLConnect (p : nat)
| SLHandshake (p : nat) (accepted : bool)
| SLIntercept (ctx : ServerContext) (code : Z) (req resp : bytes)
| SLDisconnect (p : nat).

(** ** One request: [serveRequest] up to the write *)

Definition Go_response_header (hdr : Go_FrameHeader) (respCode : Z) (respPayload : bytes)
    : Go_FrameHeader :=
  Go_mkHeader Go_FrameResponse (u16 respCode) (go_CallID hdr) (go_MethodID hdr)
    (u32 (size_of respPayload)).

Definition Go_serveRequest {App} (cfg : Go_config App) (addr : string) (app : App)
    (hdr : Go_FrameHeader) (payload : bytes)
    : App * list Go_server_log * (Go_FrameHeader * bytes) :=
  let ctx := mkContext addr (go_MethodID hdr) (go_CallID hdr) (sc_interceptor cfg) "" "" "" in
  let finish app ctx respCode respPayload :=
    (app, if sc_interceptor cfg then [SLIntercept ctx respCode payload respPayload] else [],
     (Go_response_header hdr respCode respPayload, respPayload)) in
  match sc_handlers cfg !! go_MethodID hdr with
  | None => finish app ctx Go_Unimplemented []
  | Some handler =>
    let '(app', ctx', (respPayload, st)) := handler app ctx payload in
    if negb (Go_IsOK st) then finish app' ctx' (go_Code st) []
    else finish app' ctx' Go_OK respPayload
  end.

(** ** State *)

(** [Peer], with the counter [inflight] of its goroutine. *)
Record Go_peer {A : Asio} := Go_mkPeer {
  gp_id : Z;
  gp_addr : string;
  gp_conn : socket;
  gp_writeMu : option nat;
  gp_inflight : nat
}.
Arguments Go_mkPeer {A}.

(** What a goroutine does after a [WriteFrame]: the [n]-th request releases
    its slot, a [Send] returns, a [Broadcast] goes on with the next peers. *)
Inductive Go_after :=
| AfterRequest (n : nat)
| AfterSend
| AfterBroadcast (peers : list nat) (methodID : Z) (payload : bytes).

(** Where a goroutine is; [p] is the number of a peer, [n] of a request. *)
Inductive Go_server_pc :=
| SAccept                                      (* acceptLoop: in Accept *)
| SAccepted (p : nat)                          (* accepted peer p, not in the table yet *)
| HConnect (p : nat)                           (* handleConn: about to call onConnect *)
| HReadHandshake (p : nat)
| HWriteHandshake (p : nat)
| HRead (p : nat)                              (* in ReadFrame *)
| HSem (p n : nat) (hdr : Go_FrameHeader) (payload : bytes)  (* wants a slot for request n *)
| HWait (p : nat)                              (* deferred: inflight.Wait() *)
| HDisconnect (p : nat)                        (* deferred: onDisconnect *)
| HDelete (p : nat)                            (* deferred: leaves the table *)
| HClose (p : nat)                             (* deferred: closes the connection *)
| HEnd (p : nat)                               (* deferred: wg.Done() *)
| RServe (p n : nat) (hdr : Go_FrameHeader) (payload : bytes)   (* request n: serveRequest *)
| WHeader (p : nat) (f : Go_FrameHeader * bytes) (k : Go_after)  (* wants p's writeMu *)
| WPayload (p : nat) (f : Go_FrameHeader * bytes) (k : Go_after) (* holds it *)
| RFail (p n : nat)                            (* the response failed: closes the connection *)
| RRelease (p n : nat)                         (* deferred: gives the slot back *)
| REnd (p n : nat)                             (* deferred: inflight.Done() *)
| BSend (peers : list nat) (methodID : Z) (payload : bytes)  (* Broadcast: the peers left *)
| BStart (methodID : Z) (payload : bytes)
| PClose (p : nat)                             (* Peer.Close *)
| DSelect                                      (* Shutdown: looks at done *)
| DClose                                       (* close(s.done) *)
| DListener                                    (* closes the listener *)
| DConns                                       (* closes the connections in the table *)
| DWait                                        (* wg.Wait() *)
| SDone.                                       (* returned *)

(** What a connection carries: the handshake reply, and frames with what
    they were written for. *)
Inductive Go_chunk :=
| ChunkHandshake
| ChunkFrame (f : Go_FrameHeader * bytes) (k : Go_after).

(** What happened so far: the log, the requests read with their peers, the
    requests in the order their handlers ran, with the peer's address and the
    response, the requests whose response was written or failed, those that were dropped,
    the chunks written on each connection, the connections on which a write
    failed, and those on which the handshake reply was written between the
    header and the payload of a frame. *)
Record Go_server_history := Go_mkSHistory {
  sh_log : list Go_server_log;
  sh_requests : list (nat * (Go_FrameHeader * bytes));
  sh_served : list (nat * (string * (Go_FrameHeader * bytes)) * (Go_FrameHeader * bytes));
  sh_finished : list (nat * bool);
  sh_dropped : list nat;
  sh_chunks : list (nat * Go_chunk);
  sh_failed : list nat;
  sh_clobbered : list nat
}.

(** The table of sessions, the slots taken ([len(s.sem)]), the channel [done],
    the listener, the [WaitGroup], and whether the process died of a panic. *)
Record Go_control := Go_mkControl {
  ct_sessions : gmap Z nat;
  ct_nextConnID : Z;
  ct_slots : nat;
  ct_done : bool;
  ct_listening : bool;
  ct_wg : nat;
  ct_panicked : bool
}.

Definition set_sessions (ss : gmap Z nat) (c : Go_control) : Go_control :=
  Go_mkControl ss (ct_nextConnID c) (ct_slots c) (ct_done c) (ct_listening c) (ct_wg c) (ct_panicked c).
Definition set_nextConnID (i : Z) (c : Go_control) : Go_control :=
  Go_mkControl (ct_sessions c) i (ct_slots c) (ct_done c) (ct_listening c) (ct_wg c) (ct_panicked c).
Definition set_slots (n : nat) (c : Go_control) : Go_control :=
  Go_mkControl (ct_sessions c) (ct_nextConnID c) n (ct_done c) (ct_listening c) (ct_wg c) (ct_panicked c).
Definition close_done (c : Go_control) : Go_control :=
  Go_mkControl (ct_sessions c) (ct_nextConnID c) (ct_slots c) true (ct_listening c) (ct_wg c) (ct_panicked c).
Definition close_listener (c : Go_control) : Go_control :=
  Go_mkControl (ct_sessions c) (ct_nextConnID c) (ct_slots c) (ct_done c) false (ct_wg c) (ct_panicked c).
Definition set_wg (n : nat) (c : Go_control) : Go_control :=
  Go_mkControl (ct_sessions c) (ct_nextConnID c) (ct_slots c) (ct_done c) (ct_listening c) n (ct_panicked c).
Definition set_panicked (c : Go_control) : Go_control :=
  Go_mkControl (ct_sessions c) (ct_nextConnID c) (ct_slots c) (ct_done c) (ct_listening c) (ct_wg c) true.

Record Go_server {A : Asio} (App : Type) := Go_mkServer {
  sv_app : App;
  sv_control : Go_control;
  sv_peers : list Go_peer;
  sv_threads : list Go_server_pc;
  sv_history : Go_server_history
}.
Arguments Go_mkServer {A App}.
Arguments sv_app {A App}.
Arguments sv_control {A App}.
Arguments sv_peers {A App}.
Arguments sv_threads {A App}.
Arguments sv_history {A App}.

Inductive Go_server_event {A : Asio} :=
| SEAccept (t : nat) (res : (socket * string) + unit)   (* Accept returns *)
| SESend (p : nat) (methodID : Z) (payload : bytes)
| SEBroadcast (methodID : Z) (payload : bytes)
| SEPeerClose (p : nat)
| SEShutdown
| SEStep (t : nat) (choice : nat).

Definition push_hdr (methodID : Z) (payload : bytes) : Go_FrameHeader :=
  Go_mkHeader Go_FramePush 0 0 methodID (u32 (size_of payload)).

(** ** History *)

Definition slog (l : list Go_server_log) (h : Go_server_history) : Go_server_history :=
  Go_mkSHistory (sh_log h ++ l) (sh_requests h) (sh_served h) (sh_finished h) (sh_dropped h)
    (sh_chunks h) (sh_failed h) (sh_clobbered h).
Definition slog_request (p : nat) (f : Go_FrameHeader * bytes) (h : Go_server_history) : Go_server_history :=
  Go_mkSHistory (sh_log h) (sh_requests h ++ [(p, f)]) (sh_served h) (sh_finished h) (sh_dropped h)
    (sh_chunks h) (sh_failed h) (sh_clobbered h).
Definition slog_served (n : nat) (req : string * (Go_FrameHeader * bytes))
    (resp : Go_FrameHeader * bytes) (h : Go_server_history) : Go_server_history :=
  Go_mkSHistory (sh_log h) (sh_requests h) (sh_served h ++ [(n, req, resp)]) (sh_finished h) (sh_dropped h)
    (sh_chunks h) (sh_failed h) (sh_clobbered h).
Definition slog_dropped (n : nat) (h : Go_server_history) : Go_server_history :=
  Go_mkSHistory (sh_log h) (sh_requests h) (sh_served h) (sh_finished h) (sh_dropped h ++ [n])
    (sh_chunks h) (sh_failed h) (sh_clobbered h).
Definition slog_chunk (p : nat) (c : Go_chunk) (h : Go_server_history) : Go_server_history :=
  Go_mkSHistory (sh_log h) (sh_requests h) (sh_served h) (sh_finished h) (sh_dropped h)
    (sh_chunks h ++ [(p, c)]) (sh_failed h) (sh_clobbered h).
Definition slog_failed (p : nat) (h : Go_server_history) : Go_server_history :=
  Go_mkSHistory (sh_log h) (sh_requests h) (sh_served h) (sh_finished h) (sh_dropped h)
    (sh_chunks h) (sh_failed h ++ [p]) (sh_clobbered h).

Definition slog_clobbered (p : nat) (h : Go_server_history) : Go_server_history :=
  Go_mkSHistory (sh_log h) (sh_requests h) (sh_served h) (sh_finished h) (sh_dropped h)
    (sh_chunks h) (sh_failed h) (sh_clobbered h ++ [p]).

(** A write on behalf of [k] ended. *)
Definition slog_finished (k : Go_after) (ok : bool) (h : Go_server_history) : Go_server_history :=
  match k with
  | AfterRequest n =>
    Go_mkSHistory (sh_log h) (sh_requests h) (sh_served h) (sh_finished h ++ [(n, ok)]) (sh_dropped h)
      (sh_chunks h) (sh_failed h) (sh_clobbered h)
  | _ => h
  end.

(** ** Peers *)

Section Peers.
Context {A : Asio}.

Definition set_conn (conn : socket) (p : Go_peer) : Go_peer :=
  Go_mkPeer (gp_id p) (gp_addr p) conn (gp_writeMu p) (gp_inflight p).
Definition close_conn (p : Go_peer) : Go_peer := set_conn (asio_close (gp_conn p)) p.
Definition set_writeMu (m : option nat) (p : Go_peer) : Go_peer :=
  Go_mkPeer (gp_id p) (gp_addr p) (gp_conn p) m (gp_inflight p).
Definition set_inflight (n : nat) (p : Go_peer) : Go_peer :=
  Go_mkPeer (gp_id p) (gp_addr p) (gp_conn p) (gp_writeMu p) n.
End Peers.

(** Where a goroutine goes after a write. *)
Definition after_write (p : nat) (k : Go_after) (ok : bool) : Go_server_pc :=
  match k with
  | AfterRequest n => if ok then RRelease p n else RFail p n
  | AfterSend => SDone
  | AfterBroadcast peers methodID payload => BSend peers methodID payload
  end.

Section GoServer.
Context {A : Asio} {App : Type}.
Variable cfg : Go_config App.

(** [BuildAndStart]: the accept loop runs and is counted. *)
Definition Go_start (app : App) : Go_server App :=
  Go_mkServer app (Go_mkControl ∅ 1 0 false true 1 false) [] [SAccept] (Go_mkSHistory [] [] [] [] [] [] [] []).

(** [handleConn] once the handshake is over: the frame loop reads a frame. *)
Definition Go_handle_frame (t p : nat) (s : Go_server App) : option (Go_server App) :=
  let '(Go_mkServer app ct ps ts h) := s in
  match ps !! p with
  | None => None
  | Some peer =>
    let '(conn, res) := Go_ReadFrame (gp_conn peer) in
    let ps' := <[p := set_conn conn peer]> ps in
    match res with
    | inr _ => Some (Go_mkServer app ct ps' (<[t := HWait p]> ts) h)
    | inl (hdr, payload) =>
      if negb (go_Type hdr =? Go_FrameRequest)%Z
      then Some (Go_mkServer app ct ps' (<[t := HWait p]> ts) h)
      else Some (Go_mkServer app ct ps'
                   (<[t := HSem p (length (sh_requests h)) hdr payload]> ts)
                   (slog_request p (hdr, payload) h))
    end
  end.

(** The handshake of [handleConn]: reading and checking, with the answer of
    [onHandshake]; [true] to go on. *)
Definition Go_check_handshake (p : nat) (received : bytes) : bool * list Go_server_log :=
  if bool_decide (received <> sc_handshakeHeader cfg) then (false, [])
  else match sc_onHandshake cfg with
       | None => (true, [])
       | Some f => (f received, [SLHandshake p (f received)])
       end.

(** [WriteFrame] under [writeMu], one [Write] at a time. *)
Definition Go_write_header (t p : nat) (f : Go_FrameHeader * bytes) (k : Go_after) (s : Go_server App)
    : option (Go_server App) :=
  let '(Go_mkServer app ct ps ts h) := s in
  match ps !! p with
  | Some peer =>
    match gp_writeMu peer with
    | Some _ => None
    | None =>
      let '(conn, err) := asio_write (gp_conn peer) [Go_Serialize f.1] in
      let peer1 := set_conn conn peer in
      match err with
      | Some _ =>
        Some (Go_mkServer app ct (<[p := peer1]> ps)
                (<[t := after_write p k false]> ts) (slog_failed p (slog_finished k false h)))
      | None =>
        if 0 <? length f.2
        then Some (Go_mkServer app ct (<[p := set_writeMu (Some t) peer1]> ps)
                     (<[t := WPayload p f k]> ts) h)
        else Some (Go_mkServer app ct (<[p := peer1]> ps)
                     (<[t := after_write p k true]> ts)
                     (slog_chunk p (ChunkFrame f k) (slog_finished k true h)))
      end
    end
  | None => None
  end.

Definition Go_write_payload (t p : nat) (f : Go_FrameHeader * bytes) (k : Go_after) (s : Go_server App)
    : option (Go_server App) :=
  let '(Go_mkServer app ct ps ts h) := s in
  match ps !! p with
  | Some peer =>
    let '(conn, err) := asio_write (gp_conn peer) [f.2] in
    let ps' := <[p := set_writeMu None (set_conn conn peer)]> ps in
    match err with
    | Some _ =>
      Some (Go_mkServer app ct ps' (<[t := after_write p k false]> ts)
              (slog_failed p (slog_finished k false h)))
    | None =>
      Some (Go_mkServer app ct ps' (<[t := after_write p k true]> ts)
              (slog_chunk p (ChunkFrame f k) (slog_finished k true h)))
    end
  | None => None
  end.

(** A slot of [s.sem], if there is one to take or none is needed. *)
Definition take_slot (slots : nat) : option nat :=
  match sc_sem cfg with
  | None => Some slots
  | Some cap => if slots <? cap then Some (S slots) else None
  end.

Definition give_slot (slots : nat) : nat :=
  match sc_sem cfg with None => slots | Some _ => pred slots end.

(** One step of goroutine [t], which is at [pc].  [choice] resolves a
    [select] whose cases are both ready, and picks the next peer of a
    broadcast: Go iterates over a map in no particular order. *)
Definition Go_server_thread (t choice : nat) (pc : Go_server_pc) (s : Go_server App)
    : option (Go_server App) :=
  let '(Go_mkServer app ct ps ts h) := s in
  let goto pc' := Some (Go_mkServer app ct ps (<[t := pc']> ts) h) in
  match pc with
  | SAccept => None
  | SAccepted p =>
    match ps !! p with
    | None => None
    | Some peer =>
      Some (Go_mkServer app
              (set_wg (S (ct_wg ct)) (set_sessions (<[gp_id peer := p]> (ct_sessions ct)) ct)) ps
              (<[t := SAccept]> ts ++ [HConnect p]) h)
    end
  | HConnect p =>
    Some (Go_mkServer app ct ps
            (<[t := match sc_handshakeHeader cfg with [] => HRead p | _ => HReadHandshake p end]> ts)
            (slog (if sc_onConnect cfg then [SLConnect p] else []) h))
  | HReadHandshake p =>
    match ps !! p with
    | None => None
    | Some peer =>
      let '(conn, received, err) := asio_read (gp_conn peer) (zeros (length (sc_handshakeHeader cfg))) in
      let ps' := <[p := set_conn conn peer]> ps in
      match err with
      | Some _ => Some (Go_mkServer app ct ps' (<[t := HWait p]> ts) h)
      | None =>
        let '(accepted, l) := Go_check_handshake p received in
        Some (Go_mkServer app ct ps'
                (<[t := if accepted then HWriteHandshake p else HWait p]> ts) (slog l h))
      end
    end
  | HWriteHandshake p =>
    match ps !! p with
    | None => None
    | Some peer =>
      let '(conn, err) := asio_write (gp_conn peer) [sc_handshakeHeader cfg] in
      let ps' := <[p := set_conn conn peer]> ps in
      match err with
      | Some _ => Some (Go_mkServer app ct ps' (<[t := HWait p]> ts) (slog_failed p h))
      | None =>
        Some (Go_mkServer app ct ps' (<[t := HRead p]> ts)
                (slog_chunk p ChunkHandshake
                   (match gp_writeMu peer with Some _ => slog_clobbered p h | None => h end)))
      end
    end
  | HRead p => Go_handle_frame t p s
  | HSem p n hdr payload =>
    if (0 <? choice) && ct_done ct && bool_decide (sc_sem cfg <> None)
    then Some (Go_mkServer app ct ps (<[t := HWait p]> ts) (slog_dropped n h))
    else
      match take_slot (ct_slots ct), ps !! p with
      | Some slots, Some peer =>
        Some (Go_mkServer app (set_slots slots ct) (<[p := set_inflight (S (gp_inflight peer)) peer]> ps)
                (<[t := HRead p]> ts ++ [RServe p n hdr payload]) h)
      | _, _ => None
      end
  | HWait p =>
    match ps !! p with
    | Some peer => if gp_inflight peer =? 0 then goto (HDisconnect p) else None
    | None => None
    end
  | HDisconnect p =>
    Some (Go_mkServer app ct ps (<[t := HDelete p]> ts)
            (slog (if sc_onDisconnect cfg then [SLDisconnect p] else []) h))
  | HDelete p =>
    match ps !! p with
    | None => None
    | Some peer =>
      Some (Go_mkServer app (set_sessions (delete (gp_id peer) (ct_sessions ct)) ct) ps
              (<[t := HClose p]> ts) h)
    end
  | HClose p => Some (Go_mkServer app ct (alter close_conn p ps) (<[t := HEnd p]> ts) h)
  | HEnd p => Some (Go_mkServer app (set_wg (pred (ct_wg ct)) ct) ps (<[t := SDone]> ts) h)
  | RServe p n hdr payload =>
    match ps !! p with
    | None => None
    | Some peer =>
      let '(app', l, resp) := Go_serveRequest cfg (gp_addr peer) app hdr payload in
      Some (Go_mkServer app' ct ps (<[t := WHeader p resp (AfterRequest n)]> ts)
              (slog_served n (gp_addr peer, (hdr, payload)) resp (slog l h)))
    end
  | WHeader p f k => Go_write_header t p f k s
  | WPayload p f k => Go_write_payload t p f k s
  | RFail p n => Some (Go_mkServer app ct (alter close_conn p ps) (<[t := RRelease p n]> ts) h)
  | RRelease p n =>
    Some (Go_mkServer app (set_slots (give_slot (ct_slots ct)) ct) ps (<[t := REnd p n]> ts) h)
  | REnd p n =>
    match ps !! p with
    | None => None
    | Some peer =>
      Some (Go_mkServer app ct (<[p := set_inflight (pred (gp_inflight peer)) peer]> ps)
              (<[t := SDone]> ts) h)
    end
  | BStart methodID payload =>
    goto (BSend ((map_to_list (ct_sessions ct)).*2) methodID payload)
  | BSend [] _ _ => goto SDone
  | BSend peers methodID payload =>
    match peers !! choice with
    | None => None
    | Some p =>
      goto (WHeader p (push_hdr methodID payload, payload)
              (AfterBroadcast (delete choice peers) methodID payload))
    end
  | PClose p => Some (Go_mkServer app ct (alter close_conn p ps) (<[t := SDone]> ts) h)
  | DSelect => goto (if ct_done ct then SDone else DClose)
  | DClose =>
    if ct_done ct
    then Some (Go_mkServer app (set_panicked ct) ps (<[t := SDone]> ts) h)
    else Some (Go_mkServer app (close_done ct) ps (<[t := DListener]> ts) h)
  | DListener => Some (Go_mkServer app (close_listener ct) ps (<[t := DConns]> ts) h)
  | DConns =>
    let live := (map_to_list (ct_sessions ct)).*2 in
    Some (Go_mkServer app ct (foldl (fun ps p => alter close_conn p ps) ps live)
            (<[t := DWait]> ts) h)
  | DWait => if ct_wg ct =? 0 then goto SDone else None
  | SDone => None
  end.

(** [Accept] returns a connection as long as the listener is open, an error
    at any time; after an error the loop ends if [done] is closed. *)
Definition Go_accept (t : nat) (res : (socket * string) + unit) (s : Go_server App)
    : option (Go_server App) :=
  let '(Go_mkServer app ct ps ts h) := s in
  match res with
  | inl (conn, addr) =>
    if ct_listening ct then
      let peer := Go_mkPeer (ct_nextConnID ct) addr conn None 0 in
      Some (Go_mkServer app (set_nextConnID (u64 (ct_nextConnID ct + 1)) ct) (ps ++ [peer])
              (<[t := SAccepted (length ps)]> ts) h)
    else None
  | inr _ =>
    if ct_done ct
    then Some (Go_mkServer app (set_wg (pred (ct_wg ct)) ct) ps (<[t := SDone]> ts) h)
    else Some s
  end.

Definition Go_server_step (e : Go_server_event) (s : Go_server App) : option (Go_server App) :=
  let '(Go_mkServer app ct ps ts h) := s in
  if ct_panicked ct then None else
  let start pc := Some (Go_mkServer app ct ps (ts ++ [pc]) h) in
  match e with
  | SEAccept t res => match ts !! t with Some SAccept => Go_accept t res s | _ => None end
  | SESend p methodID payload =>
    if p <? length ps then start (WHeader p (push_hdr methodID payload, payload) AfterSend) else None
  | SEBroadcast methodID payload => start (BStart methodID payload)
  | SEPeerClose p => if p <? length ps then start (PClose p) else None
  | SEShutdown => start DSelect
  | SEStep t choice =>
    match ts !! t with Some pc => Go_server_thread t choice pc s | None => None end
  end.
End GoServer.
