(* ===== verification/GoServerInvariants.v ===== *)
(** * GoServerInvariants: the goroutines of the Go server

    Invariants of the machine of [GoServer]: the counters ([WaitGroup]s and
    the slots of the semaphore) count goroutines, a connection has one
    goroutine, the table holds the connections being served, a write mutex is
    held by the goroutine that writes, and every request is accounted for. *)

From S2P Require Import Prelude.
From S2P Require Import Status.
From S2P Require Import Frame.
From S2P Require Import Transport.
From S2P Require Import Session.
From S2P Require Import Goroutines.
From S2P Require Import GoFrame.
From S2P Require Import GoServer.

Open Scope nat_scope.

(** Case analysis over every step of every goroutine. *)
Ltac sv_cases H :=
  match type of H with
  | Go_server_step _ ?e ?s = Some _ =>
    destruct s as [app ct ps ts h];
    cbn beta iota delta [Go_server_step] in H;
    destruct (ct_panicked ct) eqn:Hpan; [discriminate H|];
    destruct e as [t res|p mid payload|mid payload|p| |t choice];
      try (destruct (ts !! t) as [pc|] eqn:Hpc; [|discriminate H]; destruct pc; try discriminate H);
      cbn beta iota zeta delta [Go_accept Go_server_thread Go_handle_frame Go_write_header
        Go_write_payload] in H
  end.

(** ** What the goroutines are counted for *)

(** The goroutines [wg] counts. *)
Definition in_wg (pc : Go_server_pc) : nat :=
  match pc with
  | SAccept | SAccepted _ | HConnect _ | HReadHandshake _ | HWriteHandshake _ | HRead _
  | HSem _ _ _ _ | HWait _ | HDisconnect _ | HDelete _ | HClose _ | HEnd _ => 1
  | _ => 0
  end.

(** The peer whose connection a goroutine handles or is about to. *)
Definition handling (pc : Go_server_pc) : option nat :=
  match pc with
  | SAccepted p | HConnect p | HReadHandshake p | HWriteHandshake p | HRead p
  | HSem p _ _ _ | HWait p | HDisconnect p | HDelete p | HClose p | HEnd p => Some p
  | _ => None
  end.

(** The peer and the request a goroutine serves, until [inflight.Done()]. *)
Definition serving (pc : Go_server_pc) : option (nat * nat) :=
  match pc with
  | RServe p n _ _ | RFail p n | RRelease p n | REnd p n
  | WHeader p _ (AfterRequest n) | WPayload p _ (AfterRequest n) => Some (p, n)
  | _ => None
  end.

Definition holds_slot (pc : Go_server_pc) : nat :=
  match pc with
  | REnd _ _ => 0
  | _ => match serving pc with Some _ => 1 | None => 0 end
  end.

Definition handles (p : nat) (pc : Go_server_pc) : nat :=
  if bool_decide (handling pc = Some p) then 1 else 0.

Definition in_flight (p : nat) (pc : Go_server_pc) : nat :=
  if bool_decide (fst <$> serving pc = Some p) then 1 else 0.

(** The peers a goroutine knows. *)
Definition mentions (pc : Go_server_pc) : list nat :=
  match pc with
  | WHeader p _ (AfterBroadcast ps _ _) | WPayload p _ (AfterBroadcast ps _ _) => p :: ps
  | WHeader p _ _ | WPayload p _ _ | PClose p => [p]
  | BSend ps _ _ => ps
  | _ => option_list (handling pc) ++ option_list (fst <$> serving pc)
  end.

Lemma serving_after p k ok f : serving (after_write p k ok) = serving (WHeader p f k).
Proof. by destruct k, ok. Qed.
Lemma in_wg_after p k ok : in_wg (after_write p k ok) = 0.
Proof. by destruct k, ok. Qed.
Definition slot_after (k : Go_after) : nat := match k with AfterRequest _ => 1 | _ => 0 end.
Lemma holds_slot_after p k ok : holds_slot (after_write p k ok) = slot_after k.
Proof. by destruct k, ok. Qed.
Lemma holds_slot_header p f k : holds_slot (WHeader p f k) = slot_after k.
Proof. by destruct k. Qed.
Lemma holds_slot_payload p f k : holds_slot (WPayload p f k) = slot_after k.
Proof. by destruct k. Qed.
Lemma handling_after p k ok : handling (after_write p k ok) = None.
Proof. by destruct k, ok. Qed.
Lemma in_flight_after q p k ok f : in_flight q (after_write p k ok) = in_flight q (WHeader p f k).
Proof. by destruct k, ok. Qed.

Ltac by_after := repeat match goal with k : Go_after |- _ => destruct k end; simpl in *; lia.

(** A goal about a sum over the goroutines after a step. *)
Ltac sv_count E g :=
  sv_cases E;
  try match goal with Hpc : ?ts !! ?t = Some ?pc |- _ =>
        pose proof (fun pc' => sum_insert g ts t pc pc' Hpc) as Hi end;
  repeat case_match; simplify_eq/=;
  try match goal with
      | Hi : forall _, sum_list_with _ _ + _ = _ |- context [<[_:=?pc]> _] => specialize (Hi pc)
      end;
  rw ?sum_list_with_app /=.

Lemma in_flight_self p n pc : serving pc = Some (p, n) -> in_flight p pc = 1.
Proof. intros E. unfold in_flight. by rw E bool_decide_true. Qed.
Lemma in_flight_other q p n pc : p <> q -> serving pc = Some (p, n) -> in_flight q pc = 0.
Proof. intros Hne E. unfold in_flight. rw E bool_decide_false //. naive_solver. Qed.

Section Counts.
Context {A : Asio} {App : Type}.
Variable cfg : Go_config App.
Implicit Types (s : Go_server App).

Lemma wg_step e s s' :
  Go_server_step cfg e s = Some s' ->
  ct_wg (sv_control s) = sum_list_with in_wg (sv_threads s) ->
  ct_wg (sv_control s') = sum_list_with in_wg (sv_threads s').
Proof.
  intros E H. sv_count E in_wg; try (rw ?in_wg_after /= in Hi); lia.
Qed.

Definition slots_ok s : Prop := forall cap, sc_sem cfg = Some cap ->
  ct_slots (sv_control s) = sum_list_with holds_slot (sv_threads s)
  /\ ct_slots (sv_control s) <= cap.

Lemma slots_step e s s' : Go_server_step cfg e s = Some s' -> slots_ok s -> slots_ok s'.
Proof.
  intros E H cap Hcap. specialize (H cap Hcap).
  assert (forall n n', take_slot cfg n = Some n' -> n' = S n /\ n' <= cap) as Htake.
  { unfold take_slot. rw Hcap. intros n n'. destruct (Nat.ltb_spec n cap); [|done].
    intros [= <-]. lia. }
  assert (forall n, give_slot cfg n = pred n) as Hgive by (intros n; by rw /give_slot Hcap).
  sv_count E holds_slot.
  all: try match goal with Ht : take_slot _ _ = Some _ |- _ => apply Htake in Ht as [-> Ht] end.
  all: rw ?Hgive; try lia; by_after.
Qed.

(** Every goroutine knows existing peers only, and so does the table. *)
Record bounds_ok s : Prop := {
  bo_threads : threads_all (fun _ pc => Forall (fun p => p < length (sv_peers s)) (mentions pc))
    (sv_threads s);
  bo_sessions id p : ct_sessions (sv_control s) !! id = Some p -> p < length (sv_peers s)
}.

Lemma length_close_all l (ps : list Go_peer) :
  length (foldl (fun ps p => alter close_conn p ps) ps l) = length ps.
Proof. revert ps. induction l as [|p l IH]; intros ps; simpl; [done|]. by rw IH length_alter. Qed.

Lemma bounds_step e s s' : Go_server_step cfg e s = Some s' -> bounds_ok s -> bounds_ok s'.
Proof.
  intros E [H Hs].
  assert (forall n l, Forall (fun p => p < length (sv_peers s)) l ->
    Forall (fun p => p < length (sv_peers s) + n) l) as Hmono.
  { intros n l Hpc. eapply Forall_impl; [exact Hpc|]. simpl. lia. }
  sv_cases E; simpl in H, Hs, Hmono.
  all: try match goal with Hpc : _ !! _ = Some _ |- _ => pose proof (H _ _ Hpc) as Ht; simpl in Ht end.
  all: repeat case_match; simplify_eq/=; (split; simpl; [threads_cases H|]).
  all: rw ?length_close_all ?length_app ?length_insert ?length_alter /=; try done; eauto.
  all: try (by inversion Ht); try (by apply Forall_singleton, Nat.ltb_lt).
  - apply Forall_singleton. lia.
  - intros id p ?%Hs. lia.
  - intros id p' [[_ <-]|[_ ?%Hs]]%lookup_insert_Some; [by inversion Ht|done].
  - intros id p' [_ ?%Hs]%lookup_delete_Some. done.
  - match goal with Hd : _ !! choice = Some _ |- _ =>
      constructor; [exact (Forall_lookup_1 _ _ _ _ Ht Hd)|exact (Forall_delete _ _ _ Ht)] end.
  - apply Forall_fmap, Forall_forall. intros [id p] ?%elem_of_map_to_list. by eapply Hs.
Qed.

(** At most one goroutine handles a connection. *)
Definition handlers_ok s : Prop := forall p, sum_list_with (handles p) (sv_threads s) <= 1.

Lemma sum_new (g : Go_server_pc -> nat) s p :
  bounds_ok s -> (forall pc, p ∉ mentions pc -> g pc = 0) -> length (sv_peers s) <= p ->
  sum_list_with g (sv_threads s) = 0.
Proof.
  intros [H _] Hg Hp. apply sum_all_zero. intros t pc Hpc. apply Hg. intros Hin.
  specialize (H t pc Hpc). simpl in H. rw Forall_forall in H. specialize (H p Hin). lia.
Qed.

Lemma not_mentioned_handles p pc : p ∉ mentions pc -> handles p pc = 0.
Proof.
  unfold handles. intros H. case_bool_decide as Hp; [|done]. destruct H.
  destruct pc; simplify_eq/=; left.
Qed.

Lemma not_mentioned_in_flight p pc : p ∉ mentions pc -> in_flight p pc = 0.
Proof.
  unfold in_flight. intros H. case_bool_decide as Hp; [|done]. destruct H.
  destruct pc; simplify_eq/=; try left; destruct k; simplify_eq/=; left.
Qed.

Lemma handlers_step e s s' :
  Go_server_step cfg e s = Some s' -> bounds_ok s -> handlers_ok s -> handlers_ok s'.
Proof.
  intros E Hb H q. specialize (H q).
  assert (q = length (sv_peers s) -> sum_list_with (handles q) (sv_threads s) = 0) as Hnew.
  { intros ->. by eapply sum_new; [done|apply not_mentioned_handles|]. }
  assert (forall p k ok, handles q (after_write p k ok) = 0) as Hafter.
  { intros p k ok. unfold handles. by rw handling_after. }
  assert (handles q SAccept = 0 /\ handles q SDone = 0) as [Ha Hd] by done.
  clear Hb. sv_count E (handles q); simpl in Hnew; try (rw ?Hafter in Hi).
  all: try (unfold handles in *; simpl in *; lia).
  unfold handles in Hi, Hnew. simpl in Hi. case_bool_decide; simplify_eq; unfold handles in *; lia.
Qed.

(** ** The fields of the peers *)

(** A change of a peer that keeps a field keeps the column of that field. *)
Lemma column_insert {B} (g : Go_peer -> B) (ps : list Go_peer) p peer peer' :
  ps !! p = Some peer -> g peer' = g peer -> g <$> <[p := peer']> ps = g <$> ps.
Proof.
  intros E Eg. rw list_fmap_insert Eg. apply list_insert_id. by rw list_lookup_fmap E.
Qed.

Lemma column_close {B} (g : Go_peer -> B) (ps : list Go_peer) p :
  (forall peer, g (close_conn peer) = g peer) -> g <$> alter close_conn p ps = g <$> ps.
Proof.
  intros Hg. apply list_eq. intros i. rw !list_lookup_fmap.
  destruct (decide (i = p)) as [->|Hne]; [|by rw list_lookup_alter_ne].
  rw list_lookup_alter_eq. destruct (ps !! p); simpl; [by rw Hg|done].
Qed.

Lemma column_close_all {B} (g : Go_peer -> B) l (ps : list Go_peer) :
  (forall peer, g (close_conn peer) = g peer) ->
  g <$> foldl (fun ps p => alter close_conn p ps) ps l = g <$> ps.
Proof.
  intros Hg. revert ps. induction l as [|p l IH]; intros ps; simpl; [done|].
  by rw IH column_close.
Qed.

(** The requests of a peer that are being served are counted by its
    [inflight]. *)
Definition inflight_ok s : Prop := forall p n,
  (gp_inflight <$> sv_peers s) !! p = Some n -> n = sum_list_with (in_flight p) (sv_threads s).

Lemma inflight_step e s s' :
  Go_server_step cfg e s = Some s' -> bounds_ok s -> inflight_ok s -> inflight_ok s'.
Proof.
  intros E Hb H q n. specialize (H q).
  assert (q = length (sv_peers s) -> sum_list_with (in_flight q) (sv_threads s) = 0) as Hnew.
  { intros ->. by eapply sum_new; [done|apply not_mentioned_in_flight|]. }
  clear Hb. sv_count E (in_flight q); simpl in Hnew, H.
  all: try match goal with Hp : _ !! _ = Some _ |- _ =>
         rw (column_insert gp_inflight _ _ _ _ Hp); [done|] end.
  all: rw ?(column_close gp_inflight) // ?(column_close_all gp_inflight) //.
  all: try (intros Hn%H; unfold in_flight in *; simpl in *; lia).
  all: try (intros Hn%H; unfold in_flight in *; by_after).
  all: rw ?fmap_app ?list_fmap_insert.
  - intros [Hn%H|[Hl Hn]]%lookup_app_Some; [unfold in_flight in *; simpl in *; lia|].
    apply list_lookup_singleton_Some in Hn as [Hq <-]. rw length_fmap in Hl, Hq.
    specialize (Hnew ltac:(lia)). unfold in_flight in *. simpl in *. lia.
  - intros [(-> & <- & _)|[Hne Hn%H]]%list_lookup_insert_Some.
    + rw (in_flight_self q n0 (RServe q n0 hdr payload)) //. simpl in Hi.
      match goal with Hp : ps !! _ = Some ?g |- _ => specialize (H (gp_inflight g));
        rw list_lookup_fmap Hp in H; specialize (H eq_refl) end.
      unfold in_flight in *. simpl in *. lia.
    + rw (in_flight_other q p n0 (RServe p n0 hdr payload)) //.
      unfold in_flight in *. simpl in *. lia.
  - intros [(-> & <- & _)|[Hne Hn%H]]%list_lookup_insert_Some.
    + rw (in_flight_self q n0 (REnd q n0)) // in Hi.
      match goal with Hp : ps !! _ = Some ?g |- _ => specialize (H (gp_inflight g));
        rw list_lookup_fmap Hp in H; specialize (H eq_refl) end.
      unfold in_flight in *. simpl in *. lia.
    + rw (in_flight_other q p n0 (REnd p n0)) // in Hi. unfold in_flight in *. simpl in *. lia.
Qed.

(** ** The table *)

(** The id of the [i]-th connection: a 64-bit counter from 1. *)
Definition nth_conn_id (i : nat) : Z := u64 (Z.of_nat i + 1).

Record ids_ok s : Prop := {
  id_peers : gp_id <$> sv_peers s = nth_conn_id <$> seq 0 (length (sv_peers s));
  id_next : ct_nextConnID (sv_control s) = nth_conn_id (length (sv_peers s));
  id_table id p : ct_sessions (sv_control s) !! id = Some p -> (gp_id <$> sv_peers s) !! p = Some id
}.

Lemma ids_NoDup s :
  ids_ok s -> (Z.of_nat (length (sv_peers s)) <= 2 ^ 64)%Z -> NoDup (gp_id <$> sv_peers s).
Proof.
  intros H Hl. rw (id_peers _ H). apply NoDup_fmap_2_strong; [|apply NoDup_seq].
  intros i j Hi%elem_of_seq Hj%elem_of_seq. unfold nth_conn_id, u64. apply counter_inj; lia.
Qed.

Lemma ids_step e s s' : Go_server_step cfg e s = Some s' -> ids_ok s -> ids_ok s'.
Proof.
  intros E [H1 H2 H3]. sv_cases E; simpl in H1, H2, H3; repeat case_match; simplify_eq/=.
  all: constructor; simpl; try done; rw ?length_close_all ?length_app ?length_insert ?length_alter /=.
  all: try match goal with Hp : _ !! _ = Some _ |- _ =>
         rw (column_insert gp_id _ _ _ _ Hp); [done|] end.
  all: rw ?(column_close gp_id) // ?(column_close_all gp_id) //.
  - by rw fmap_app seq_app fmap_app H1 /= H2.
  - rw H2 /nth_conn_id /u64 Zplus_mod_idemp_l. f_equal. lia.
  - intros id p Hp%H3. rw fmap_app. by apply lookup_app_l_Some.
  - intros id p' [[<- <-]|[_ Hp%H3]]%lookup_insert_Some; [|done].
    match goal with Hp : _ !! _ = Some _ |- _ => by rw list_lookup_fmap Hp end.
  - intros id p' [_ Hp%H3]%lookup_delete_Some. done.
Qed.

(** The goroutine that handles a connection, while it is in the table. *)
Definition listed (p : nat) (pc : Go_server_pc) : nat :=
  match pc with
  | SAccepted _ | HClose _ | HEnd _ => 0
  | _ => handles p pc
  end.

Lemma listed_handles p pc : listed p pc <= handles p pc.
Proof. destruct pc; simpl; lia. Qed.

Definition tabled (ss : gmap Z nat) (id : Z) (p : nat) : nat :=
  if bool_decide (ss !! id = Some p) then 1 else 0.

(** A connection is in the table exactly while it is handled. *)
Definition table_ok s : Prop := forall p id,
  (gp_id <$> sv_peers s) !! p = Some id ->
  sum_list_with (listed p) (sv_threads s) = tabled (ct_sessions (sv_control s)) id p.

(** What only the goroutine of a connection can contribute, it contributes
    alone. *)
Lemma sole_handler (g : Go_server_pc -> nat) s t p pc :
  (forall pc, g pc <= handles p pc) -> handlers_ok s ->
  sv_threads s !! t = Some pc -> handling pc = Some p -> g pc = 0 ->
  sum_list_with g (sv_threads s) = 0.
Proof.
  intros Hg H E Hp Hz. pose proof (sum_insert g _ _ _ SDone E) as H1.
  pose proof (sum_insert (handles p) _ _ _ SDone E) as H2.
  pose proof (sum_le _ _ (<[t := SDone]> (sv_threads s)) Hg). pose proof (Hg SDone) as Hd.
  specialize (H p). unfold handles in H2 at 2 4, Hd. rw Hp bool_decide_true // in H2. simpl in *. lia.
Qed.

Lemma table_step e s s' :
  Go_server_step cfg e s = Some s' -> bounds_ok s -> handlers_ok s -> ids_ok s ->
  NoDup (gp_id <$> sv_peers s') -> table_ok s -> table_ok s'.
Proof.
  intros E Hb Hh Hids Hn H q id. specialize (H q id).
  assert (length (sv_peers s) <= q -> sum_list_with (listed q) (sv_threads s) = 0) as Hnew.
  { intros Hq. eapply sum_new; [done| |done]. intros pc Hpc%not_mentioned_handles.
    pose proof (listed_handles q pc). lia. }
  pose proof (fun t p E => sole_handler (listed p) s t p (SAccepted p) (listed_handles p) Hh E eq_refl eq_refl)
    as Hacc.
  pose proof (bo_sessions _ Hb) as Hbs.
  assert (forall p k ok, listed q (after_write p k ok) = 0) as Hafter.
  { intros p k ok. by destruct k, ok. }
  sv_count E (listed q); simpl in Hnew, H, Hacc, Hbs; try (rw ?Hafter in Hi).
  all: try match goal with Hp : _ !! _ = Some _ |- _ =>
         rw (column_insert gp_id _ _ _ _ Hp); [done|] end.
  all: rw ?(column_close gp_id) // ?(column_close_all gp_id) //.
  all: try (intros Hid%H; cbn [listed] in Hi; unfold handles in Hi; simpl in Hi; unfold handles; simpl; lia).
  all: try (intros Hid%H; lia).
  - simpl in Hi. unfold handles in Hi. simpl in Hi. rw fmap_app.
    intros [Hid%H|[Hl Hid]]%lookup_app_Some; [lia|].
    rw length_fmap in Hl. unfold tabled. rw bool_decide_false; [intros ?%Hbs; lia|].
    specialize (Hnew Hl). lia.
  - match goal with Hp : ps !! _ = Some ?g |- _ =>
      assert ((gp_id <$> ps) !! p = Some (gp_id g)) as Hgp by (by rw list_lookup_fmap Hp) end.
    intros Hid. specialize (H Hid). simpl in Hi. unfold handles in Hi |- *. simpl in Hi |- *.
    specialize (Hacc _ _ Hpc). unfold tabled in *. destruct (decide (q = p)) as [->|Hne].
    + simplify_eq. rw !bool_decide_true // ?lookup_insert_eq //. lia.
    + rw (bool_decide_false (Some p = Some q)); [congruence|].
      rw lookup_insert_ne; [|lia]. intros Heq. apply Hne. rw Heq in Hgp. by eapply NoDup_lookup.
  - match goal with Hp : ps !! _ = Some ?g |- _ =>
      assert ((gp_id <$> ps) !! p = Some (gp_id g)) as Hgp by (by rw list_lookup_fmap Hp) end.
    intros Hid. specialize (H Hid). simpl in Hi. unfold handles in Hi. simpl in Hi.
    unfold tabled in *. destruct (decide (q = p)) as [->|Hne].
    + simplify_eq. rw (bool_decide_true (Some p = Some p)) // in Hi.
      rw bool_decide_false; [by rw lookup_delete_eq|]. case_bool_decide; lia.
    + rw (bool_decide_false (Some p = Some q)) in Hi; [congruence|].
      rw lookup_delete_ne; [|lia]. intros Heq. apply Hne. rw Heq in Hgp. by eapply NoDup_lookup.
Qed.

(** The goroutine of a connection until all its requests have ended. *)
Definition active (p : nat) (pc : Go_server_pc) : nat :=
  match pc with
  | SAccepted _ | HDisconnect _ | HDelete _ | HClose _ | HEnd _ => 0
  | _ => handles p pc
  end.

(** While a request of a connection is served, the connection's goroutine has
    not got past [inflight.Wait()]. *)
Definition alive_ok s : Prop := forall p,
  1 <= sum_list_with (in_flight p) (sv_threads s) -> 1 <= sum_list_with (active p) (sv_threads s).

Lemma active_spawns t p n hdr payload ts :
  ts !! t = Some (HSem p n hdr payload) -> 1 <= sum_list_with (active p) (<[t := HRead p]> ts).
Proof.
  intros E. pose proof (sum_insert (active p) _ _ _ (HRead p) E) as H. simpl in H.
  unfold handles in H. simpl in H. rw bool_decide_true // in H.
  pose proof (sum_insert (active p) _ _ _ SDone E) as H'. simpl in H'. unfold handles in H'. simpl in H'.
  rw bool_decide_true // in H'. lia.
Qed.

Lemma alive_step e s s' :
  Go_server_step cfg e s = Some s' -> inflight_ok s -> alive_ok s -> alive_ok s'.
Proof.
  intros E Hf H q. specialize (H q). specialize (Hf q).
  assert (forall p k ok, active q (after_write p k ok) = 0) as Hafter by (intros p [] []; done).
  sv_cases E; simpl in H, Hf.
  all: try match goal with Hpc : ?ts !! ?t = Some ?pc |- _ =>
        pose proof (fun pc' => sum_insert (in_flight q) ts t pc pc' Hpc) as Hi;
        pose proof (fun pc' => sum_insert (active q) ts t pc pc' Hpc) as Hj end.
  all: repeat case_match; simplify_eq/=.
  all: try match goal with |- context [<[_:=?pc]> _] => specialize (Hi pc); specialize (Hj pc) end.
  all: rw ?sum_list_with_app /=; try rw Hafter in Hj.
  all: try (cbn [active] in Hj; unfold handles in Hj; simpl in Hj; unfold in_flight in *; simpl in *; lia).
  all: try (cbn [active] in Hj; unfold in_flight, handles in *; by_after).
  all: try lia.
  - destruct (decide (p = q)) as [->|Hne].
    + pose proof (active_spawns _ _ _ _ _ _ Hpc). lia.
    + rw (in_flight_other q p n (RServe p n hdr payload)) //.
      cbn [active] in Hj. unfold in_flight, handles in *. simpl in *. lia.
  - destruct (decide (p = q)) as [->|Hne].
    + match goal with Hp : ps !! _ = Some ?g |- _ => specialize (Hf (gp_inflight g));
        rw list_lookup_fmap Hp in Hf; specialize (Hf eq_refl) end.
      match goal with Hz : (gp_inflight _ =? 0) = true |- _ => apply Nat.eqb_eq in Hz end.
      unfold in_flight in *. simpl in *. lia.
    + cbn [active] in Hj. unfold handles in Hj. simpl in Hj.
      rw (bool_decide_false (Some p = Some q)) in Hj; [congruence|].
      unfold in_flight in *. simpl in *. lia.
Qed.

Lemma peers_grow e s s' :
  Go_server_step cfg e s = Some s' -> length (sv_peers s) <= length (sv_peers s').
Proof.
  intros E. sv_cases E; repeat case_match; simplify_eq/=;
    rw ?length_close_all ?length_app ?length_insert ?length_alter; lia.
Qed.

(** ** Write mutexes

    [col] is the column of the mutexes. *)

Definition payload_of (pc : Go_server_pc) : option nat :=
  match pc with WPayload p _ _ => Some p | _ => None end.

Record writers (col : list (option nat)) (ts : list Go_server_pc) : Prop := {
  wr_thread : threads_all (fun t pc => forall p, payload_of pc = Some p -> col !! p = Some (Some t)) ts;
  wr_mutex p t : col !! p = Some (Some t) -> exists pc, ts !! t = Some pc /\ payload_of pc = Some p
}.

Lemma payload_of_after p k ok : payload_of (after_write p k ok) = None.
Proof. by destruct k, ok. Qed.

Lemma writers_move col ts t pc pc' :
  writers col ts -> ts !! t = Some pc -> payload_of pc = None -> payload_of pc' = None ->
  writers col (<[t := pc']> ts).
Proof.
  intros [H Hm] Hpc Hn Hn'. split; [threads_cases H; [done|by rw Hn']|].
  intros p t' Hp. destruct (Hm p t' Hp) as (q & Hq & Hqp). exists q. split; [|done].
  rw list_lookup_insert_ne //. congruence.
Qed.

Lemma writers_spawn col ts pc : writers col ts -> payload_of pc = None -> writers col (ts ++ [pc]).
Proof.
  intros [H Hm] Hn. split; [threads_cases H; [done|by rw Hn]|].
  intros p t' Hp. destruct (Hm p t' Hp) as (q & Hq & Hqp). exists q. split; [|done].
  by apply lookup_app_l_Some.
Qed.

Lemma writers_accept col ts : writers col ts -> writers (col ++ [None]) ts.
Proof.
  intros [H Hm]. split.
  - intros t pc Hpc p Hp. apply lookup_app_l_Some. by apply (H t pc Hpc).
  - intros p t [Hp|[_ Hp]]%lookup_app_Some; [by apply Hm|].
    by apply list_lookup_singleton_Some in Hp as [_ ?].
Qed.

Lemma writers_acquire col ts t pc pc' p :
  writers col ts -> ts !! t = Some pc -> payload_of pc = None -> col !! p = Some None ->
  payload_of pc' = Some p -> writers (<[p := Some t]> col) (<[t := pc']> ts).
Proof.
  intros [H Hm] Hpc Hn Hp Hp'. pose proof (lookup_lt_Some _ _ _ Hp). pose proof (lookup_lt_Some _ _ _ Hpc).
  split; [threads_cases H|].
  - intros t' q Hne Hq p2 Hp2. specialize (Hq p2 Hp2). rw list_lookup_insert_ne //. congruence.
  - intros p2 Hp2. simplify_eq. by apply list_lookup_insert_eq.
  - intros p2 t2 [(-> & [= <-] & _)|[Hne Hp2]]%list_lookup_insert_Some.
    + exists pc'. by rw list_lookup_insert_eq.
    + destruct (Hm _ _ Hp2) as (q & Hq & Hqp). exists q. rw list_lookup_insert_ne //. congruence.
Qed.

Lemma writers_release col ts t pc pc' p :
  writers col ts -> ts !! t = Some pc -> payload_of pc = Some p -> payload_of pc' = None ->
  writers (<[p := None]> col) (<[t := pc']> ts).
Proof.
  intros [H Hm] Hpc Hp Hn. pose proof (H _ _ Hpc _ Hp) as Hc. split; [threads_cases H|].
  - intros t' q Hne Hq p2 Hp2. specialize (Hq p2 Hp2). rw list_lookup_insert_ne //. congruence.
  - by rw Hn.
  - intros p2 t2 [(_ & ? & _)|[Hne Hp2]]%list_lookup_insert_Some; [done|].
    destruct (Hm _ _ Hp2) as (q & Hq & Hqp). exists q. rw list_lookup_insert_ne //. congruence.
Qed.

Definition writers_ok s : Prop := writers (gp_writeMu <$> sv_peers s) (sv_threads s).

Lemma writers_step e s s' : Go_server_step cfg e s = Some s' -> writers_ok s -> writers_ok s'.
Proof.
  intros E H. unfold writers_ok in *.
  sv_cases E; simpl in H; repeat case_match; simplify_eq/=.
  all: try match goal with Hp : _ !! _ = Some _ |- _ =>
         rw (column_insert gp_writeMu _ _ _ _ Hp); [done|] end.
  all: rw ?(column_close gp_writeMu) // ?(column_close_all gp_writeMu) //.
  all: repeat apply writers_spawn; try done.
  all: try (by eapply writers_move; [exact H|exact Hpc|done|rw ?payload_of_after]).
  all: rw ?fmap_app ?list_fmap_insert /=.
  - apply writers_accept. by eapply writers_move.
  - eapply writers_acquire; [exact H|exact Hpc|done|..|done]. 
    match goal with Hp : ps !! _ = Some _ |- _ => rw list_lookup_fmap Hp /=; congruence end.
  - eapply writers_release; [exact H|exact Hpc|done|apply payload_of_after].
  - eapply writers_release; [exact H|exact Hpc|done|apply payload_of_after].
Qed.
End Counts.
