(* ===== verification/GoServerRequests.v ===== *)
(** * GoServerRequests: the requests of the Go server and its connections

    The invariants of [GoServer] that concern requests and bytes: the
    handlers run as in a sequential server, and as the C++ session would run
    them; every request is accounted for; frames are not interleaved on a
    connection; and, as long as nobody pushes, the handshake reply comes
    first. *)

From S2P Require Import Prelude.
From S2P Require Import Status.
From S2P Require Import Frame.
From S2P Require Import Transport.
From S2P Require Import Session.
From S2P Require Import Goroutines.
From S2P Require Import GoFrame.
From S2P Require Import GoServer.
From S2P Require Import GoServerInvariants.

Open Scope protocomm_scope.
Open Scope nat_scope.

(** ** One request in both languages *)

Definition cpp_handler {App} (handler : Go_MethodHandler App) : MethodHandler App :=
  fun app ctx req =>
    let '(app', ctx', (resp, st)) := handler app ctx req in
    Returned app' ctx' (status_to_cpp st) resp.

(** The configuration of a C++ session with the handlers of the Go server. *)
Definition cpp_config {App} (cfg : Go_config App) (addr : string) : session_config App :=
  mkConfig (cpp_handler <$> sc_handlers cfg) (sc_handshakeHeader cfg) 0 addr
    (sc_onConnect cfg) (sc_onDisconnect cfg) (sc_onHandshake cfg) (sc_interceptor cfg).

Lemma status_to_cpp_ok st : ok (status_to_cpp st) = Go_IsOK st.
Proof. unfold ok, code_eqb, Go_IsOK. simpl. by rw code_to_of_int. Qed.

Lemma Go_serveRequest_cpp {App} (cfg : Go_config App) addr app hdr payload app' l resp :
  Go_serveRequest cfg addr app hdr payload = (app', l, resp) ->
  exists l', process_request (cpp_config cfg addr) app (to_cpp hdr) payload
             = (app', l', Some (to_cpp resp.1, resp.2)).
Proof.
  unfold Go_serveRequest, process_request, request_context. simpl. rw lookup_fmap.
  destruct (sc_handlers cfg !! go_MethodID hdr) as [handler|]; simpl; [|intros; simplify_eq; by eexists].
  unfold cpp_handler. destruct (handler app _ payload) as [[app1 ctx1] [rp st]].
  rw status_to_cpp_ok. destruct (negb (Go_IsOK st)); intros; simplify_eq; eexists; [|done].
  unfold response_header, Go_response_header, to_cpp, error_code. simpl. by rw code_to_of_int.
Qed.

(** The requests of a list, one after the other, by the C++ session's code. *)
Fixpoint cpp_serve_all {App} (cfg : Go_config App) (app : App)
    (reqs : list (string * (Go_FrameHeader * bytes))) : option (App * list (FrameHeader * bytes)) :=
  match reqs with
  | [] => Some (app, [])
  | (addr, (hdr, payload)) :: reqs =>
    match process_request (cpp_config cfg addr) app (to_cpp hdr) payload with
    | (app', _, Some resp) => (fun r => (r.1, resp :: r.2)) <$> cpp_serve_all cfg app' reqs
    | (_, _, None) => None
    end
  end.

Lemma cpp_serve_all_snoc {App} (cfg : Go_config App) app reqs app1 resps addr hdr payload app2 l resp :
  cpp_serve_all cfg app reqs = Some (app1, resps) ->
  Go_serveRequest cfg addr app1 hdr payload = (app2, l, resp) ->
  cpp_serve_all cfg app (reqs ++ [(addr, (hdr, payload))])
  = Some (app2, resps ++ [(to_cpp resp.1, resp.2)]).
Proof.
  intros H Hs. destruct (Go_serveRequest_cpp _ _ _ _ _ _ _ _ Hs) as [l' Hp].
  revert app resps H. induction reqs as [|[a [h p]] reqs IH]; intros app resps H; simplify_eq/=.
  - by rw Hp.
  - destruct (process_request _ app _ p) as [[app' ?] [r|]]; [|done].
    destruct (cpp_serve_all cfg app' reqs) as [[app'' rs]|] eqn:E; simplify_eq/=.
    by rw (IH _ _ E).
Qed.

(** ** Requests *)

#[local] Arguments occ : simpl never.

(** The request a goroutine still has to answer. *)
Definition unanswered (t : nat) (pc : Go_server_pc) : list nat :=
  match pc with
  | HSem _ n _ _ | RServe _ n _ _ | WHeader _ _ (AfterRequest n) | WPayload _ _ (AfterRequest n) => [n]
  | _ => []
  end.

Section Requests.
Context {A : Asio} {App : Type}.
Variable cfg : Go_config App.
Implicit Types (s : Go_server App).

Definition requests_ok s : Prop := forall n,
  occ n (seq 0 (length (sh_requests (sv_history s))))
  = occ n (collect unanswered 0 (sv_threads s))
    + occ n (sh_finished (sv_history s)).*1 + occ n (sh_dropped (sv_history s)).

Lemma unanswered_after t p k ok : unanswered t (after_write p k ok) = [].
Proof. by destruct k, ok. Qed.

Lemma requests_step e s s' : Go_server_step cfg e s = Some s' -> requests_ok s -> requests_ok s'.
Proof.
  intros E H n. specialize (H n). sv_cases E.
  all: try match goal with Hpc : ?ts !! ?t = Some ?pc |- _ =>
         pose proof (fun pc' => collect_insert unanswered n 0 ts t pc pc' Hpc) as Hi;
         cbn [Nat.add] in Hi end.
  all: repeat case_match; simplify_eq; cbn [sv_threads sv_history] in *.
  all: try match goal with |- context [<[_:=?pc]> _] => specialize (Hi pc); cbn [unanswered] in Hi end.
  all: rw ?collect_app ?occ_app; cbn [collect unanswered].
  all: try (rw ?unanswered_after ?occ_nil in Hi).
  all: rw ?occ_nil; try (simpl; lia).
  - simpl. rw length_app seq_app occ_app /=. lia.
  - destruct k; simpl in *; rw ?fmap_app ?occ_app /= ?occ_nil; rw ?occ_nil in Hi; lia.
  - destruct k; simpl in *; rw ?fmap_app ?occ_app /= ?occ_nil; rw ?occ_nil in Hi; lia.
  - destruct k; simpl in *; rw ?fmap_app ?occ_app /= ?occ_nil; rw ?occ_nil in Hi; lia.
  - destruct k; simpl in *; rw ?fmap_app ?occ_app /= ?occ_nil; rw ?occ_nil in Hi; lia.
Qed.

(** The request whose response a goroutine has to write. *)
Definition responding (t : nat) (pc : Go_server_pc) : list nat :=
  match pc with
  | WHeader _ _ (AfterRequest n) | WPayload _ _ (AfterRequest n) => [n]
  | _ => []
  end.

Definition served_ids (h : Go_server_history) : list nat := ((sh_served h).*1).*1.

Definition served_ok s : Prop := forall n,
  occ n (served_ids (sv_history s))
  = occ n (collect responding 0 (sv_threads s)) + occ n (sh_finished (sv_history s)).*1.

Lemma responding_after t p k ok : responding t (after_write p k ok) = [].
Proof. by destruct k, ok. Qed.

Lemma served_step e s s' : Go_server_step cfg e s = Some s' -> served_ok s -> served_ok s'.
Proof.
  unfold served_ok, served_ids. intros E H n. specialize (H n). sv_cases E.
  all: try match goal with Hpc : ?ts !! ?t = Some ?pc |- _ =>
         pose proof (fun pc' => collect_insert responding n 0 ts t pc pc' Hpc) as Hi;
         cbn [Nat.add] in Hi end.
  all: repeat case_match; simplify_eq; cbn [sv_threads sv_history] in *.
  all: try match goal with |- context [<[_:=?pc]> _] => specialize (Hi pc); cbn [responding] in Hi end.
  all: rw ?collect_app ?occ_app; cbn [collect responding].
  all: try (rw ?responding_after ?occ_nil in Hi).
  all: rw ?occ_nil; try (simpl; lia).
  - simpl. rw !fmap_app occ_app /=. lia.
  - destruct k; simpl in *; rw ?fmap_app ?occ_app /= ?occ_nil; rw ?occ_nil in Hi; lia.
  - destruct k; simpl in *; rw ?fmap_app ?occ_app /= ?occ_nil; rw ?occ_nil in Hi; lia.
  - destruct k; simpl in *; rw ?fmap_app ?occ_app /= ?occ_nil; rw ?occ_nil in Hi; lia.
  - destruct k; simpl in *; rw ?fmap_app ?occ_app /= ?occ_nil; rw ?occ_nil in Hi; lia.
Qed.

(** ** What is written *)

(** A frame written on the connection of peer [p] for [k]: the response to a
    request of that connection, or a push. *)
Definition frame_ok (h : Go_server_history) (p : nat) (f : Go_FrameHeader * bytes) (k : Go_after) : Prop :=
  match k with
  | AfterRequest n => exists addr req, (n, (addr, req), f) ∈ sh_served h
                        /\ sh_requests h !! n = Some (p, req)
  | _ => exists methodID, f.1 = push_hdr methodID f.2
  end.

Definition sthread_facts (h : Go_server_history) (pc : Go_server_pc) : Prop :=
  match pc with
  | HSem p n hdr payload | RServe p n hdr payload =>
      sh_requests h !! n = Some (p, (hdr, payload)) /\ go_Type hdr = Go_FrameRequest
  | WHeader p f k | WPayload p f k => frame_ok h p f k
  | _ => True
  end.

Definition chunk_ok (h : Go_server_history) (x : nat * Go_chunk) : Prop :=
  match x.2 with ChunkHandshake => True | ChunkFrame f k => frame_ok h x.1 f k end.

(** The request a chunk answers. *)
Definition chunk_request (c : Go_chunk) : option nat :=
  match c with ChunkFrame _ (AfterRequest n) => Some n | _ => None end.

(** A request whose handler ran was read from a connection, the context had
    the address of its peer, and the response carries its ids. *)
Definition served_fact s (x : nat * (string * (Go_FrameHeader * bytes)) * (Go_FrameHeader * bytes)) : Prop :=
  (exists p, sh_requests (sv_history s) !! x.1.1 = Some (p, x.1.2.2)
     /\ (gp_addr <$> sv_peers s) !! p = Some x.1.2.1)
  /\ exists respCode, x.2.1 = Go_response_header x.1.2.2.1 respCode x.2.2.

Record sfacts app0 s : Prop := {
  sf_threads : threads_all (fun _ => sthread_facts (sv_history s)) (sv_threads s);
  sf_chunks : Forall (chunk_ok (sv_history s)) (sh_chunks (sv_history s));
  sf_answers : omap chunk_request (sh_chunks (sv_history s)).*2
               = (filter (fun x => x.2 = true) (sh_finished (sv_history s))).*1;
  sf_served : Forall (served_fact s) (sh_served (sv_history s));
  sf_sequential : cpp_serve_all cfg app0 ((sh_served (sv_history s)).*1).*2
                  = Some (sv_app s, (fun f => (to_cpp f.1, f.2)) <$> (sh_served (sv_history s)).*2)
}.

(** Nothing is forgotten. *)
Record sextends (h h' : Go_server_history) : Prop := {
  sx_requests n x : sh_requests h !! n = Some x -> sh_requests h' !! n = Some x;
  sx_served x : x ∈ sh_served h -> x ∈ sh_served h'
}.

Lemma frame_ok_extends h h' p f k : sextends h h' -> frame_ok h p f k -> frame_ok h' p f k.
Proof. intros [Hr Hs]. destruct k; simpl; try done. intros (addr & req & ? & ?). exists addr, req. auto. Qed.

Lemma sthread_facts_extends h h' pc : sextends h h' -> sthread_facts h pc -> sthread_facts h' pc.
Proof.
  intros Hx. destruct pc; simpl; try done; try (by apply frame_ok_extends);
    intros [? ?]; split; try done; by apply Hx.
Qed.

Lemma server_extends e s s' : Go_server_step cfg e s = Some s' -> sextends (sv_history s) (sv_history s').
Proof.
  intros E. sv_cases E; repeat case_match; simplify_eq/=; constructor; simpl; try done.
  all: try (by destruct k).
  - intros n x. apply lookup_app_l_Some.
  - set_solver.
Qed.

Lemma addr_column e s s' p addr :
  Go_server_step cfg e s = Some s' -> (gp_addr <$> sv_peers s) !! p = Some addr ->
  (gp_addr <$> sv_peers s') !! p = Some addr.
Proof.
  intros E. revert p. sv_cases E; repeat case_match; simplify_eq/=; intros q.
  all: try match goal with Hp : _ !! _ = Some _ |- _ =>
         rw (column_insert gp_addr _ _ _ _ Hp); [done|] end.
  all: rw ?(column_close gp_addr) // ?(column_close_all gp_addr) //.
  rw fmap_app. apply lookup_app_l_Some.
Qed.

Lemma sthreads_step e s s' :
  Go_server_step cfg e s = Some s' ->
  threads_all (fun _ => sthread_facts (sv_history s)) (sv_threads s) ->
  threads_all (fun _ => sthread_facts (sv_history s')) (sv_threads s').
Proof.
  intros E H. pose proof (server_extends e s s' E) as Hx. sv_cases E; simpl in H, Hx.
  all: try match goal with Hpc : _ !! _ = Some _ |- _ => pose proof (H _ _ Hpc) as Ht; simpl in Ht end.
  all: repeat case_match; simplify_eq/=.
  all: threads_cases H; try (by intros; eapply sthread_facts_extends); try done.
  all: try (by destruct k); try (by simpl; eexists).
  - simpl. rw lookup_app_r // Nat.sub_diag. by breflect.
  - simpl. exists (gp_addr g), (hdr, payload). split; [set_solver|]. by destruct Ht.
Qed.

Lemma chunks_finished k b h : sh_chunks (slog_finished k b h) = sh_chunks h.
Proof. by destruct k. Qed.

Lemma chunks_step e s s' :
  Go_server_step cfg e s = Some s' ->
  threads_all (fun _ => sthread_facts (sv_history s)) (sv_threads s) ->
  Forall (chunk_ok (sv_history s)) (sh_chunks (sv_history s)) ->
  Forall (chunk_ok (sv_history s')) (sh_chunks (sv_history s')).
Proof.
  intros E Hth H. pose proof (server_extends e s s' E) as Hx.
  assert (Forall (chunk_ok (sv_history s')) (sh_chunks (sv_history s))) as H'.
  { eapply Forall_impl; [exact H|]. intros [p []]; [done|]. by apply frame_ok_extends. }
  clear H. sv_cases E; simpl in *.
  all: try match goal with Hpc : _ !! _ = Some _ |- _ => pose proof (Hth _ _ Hpc) as Ht; simpl in Ht end.
  all: repeat case_match; simplify_eq/=; try done; rw ?chunks_finished //.
  all: apply Forall_app; (split; [done|]); apply Forall_singleton; try done.
  all: by eapply frame_ok_extends.
Qed.

Lemma answers_step e s s' :
  Go_server_step cfg e s = Some s' ->
  omap chunk_request (sh_chunks (sv_history s)).*2
  = (filter (fun x => x.2 = true) (sh_finished (sv_history s))).*1 ->
  omap chunk_request (sh_chunks (sv_history s')).*2
  = (filter (fun x => x.2 = true) (sh_finished (sv_history s'))).*1.
Proof.
  intros E H. sv_cases E; simpl in H; repeat case_match; simplify_eq/=; try done; rw ?chunks_finished.
  all: rw ?fmap_app ?omap_app /= ?app_nil_r //; destruct k; simpl;
    rw ?filter_app ?fmap_app ?app_nil_r ?H //; rw ?filter_cons_True ?filter_cons_False //.
  all: by rw ?app_nil_r.
Qed.

Lemma Go_serveRequest_header addr app hdr payload app' l resp :
  Go_serveRequest cfg addr app hdr payload = (app', l, resp) ->
  exists respCode, resp.1 = Go_response_header hdr respCode resp.2.
Proof.
  unfold Go_serveRequest. repeat case_match; intros; simplify_eq; by eexists.
Qed.

Lemma served_facts_step e s s' :
  Go_server_step cfg e s = Some s' ->
  threads_all (fun _ => sthread_facts (sv_history s)) (sv_threads s) ->
  Forall (served_fact s) (sh_served (sv_history s)) -> Forall (served_fact s') (sh_served (sv_history s')).
Proof.
  intros E Hth H. pose proof (server_extends e s s' E) as Hx.
  assert (Forall (served_fact s') (sh_served (sv_history s))) as H'.
  { eapply Forall_impl; [exact H|]. intros x [(p & Hr & Ha) Hc]. split; [|done]. exists p.
    split; [by apply Hx|by eapply addr_column]. }
  clear H. sv_cases E; simpl in H', Hth.
  all: try match goal with Hpc : _ !! _ = Some _ |- _ => pose proof (Hth _ _ Hpc) as Ht; simpl in Ht end.
  all: repeat case_match; simplify_eq/=; try done; try (by destruct k).
  apply Forall_app. split; [done|]. apply Forall_singleton.
  split; [|by eapply Go_serveRequest_header]. exists p. destruct Ht. split; [done|].
  match goal with Hp : ps !! _ = Some _ |- _ => by rw list_lookup_fmap Hp end.
Qed.

Lemma sequential_server_step app0 e s s' :
  Go_server_step cfg e s = Some s' ->
  cpp_serve_all cfg app0 ((sh_served (sv_history s)).*1).*2
  = Some (sv_app s, (fun f => (to_cpp f.1, f.2)) <$> (sh_served (sv_history s)).*2) ->
  cpp_serve_all cfg app0 ((sh_served (sv_history s')).*1).*2
  = Some (sv_app s', (fun f => (to_cpp f.1, f.2)) <$> (sh_served (sv_history s')).*2).
Proof.
  intros E H. sv_cases E; simpl in H; repeat case_match; simplify_eq/=; try done; try (by destruct k).
  rw !fmap_app /=. by eapply cpp_serve_all_snoc.
Qed.

Lemma sfacts_step app0 e s s' : Go_server_step cfg e s = Some s' -> sfacts app0 s -> sfacts app0 s'.
Proof.
  intros E []. constructor;
    eauto using sthreads_step, chunks_step, answers_step, served_facts_step, sequential_server_step.
Qed.
End Requests.

(** ** The bytes on a connection *)

Definition chunk_bytes (hs : bytes) (c : Go_chunk) : bytes :=
  match c with ChunkHandshake => hs | ChunkFrame f _ => encode_go f end.

Lemma concat_chunk hs f k : concat (chunk_bytes hs <$> [ChunkFrame f k]) = Go_Serialize f.1 ++ f.2.
Proof. destruct f as [hdr p]. rw -encode_go_split. apply app_nil_r. Qed.

Definition chunks_on (p : nat) (h : Go_server_history) : list Go_chunk :=
  (filter (fun x => x.1 = p) (sh_chunks h)).*2.

(** The header whose payload the holder of [p]'s mutex is about to write. *)
Definition header_out (col : list (option nat)) (ts : list Go_server_pc) (p : nat) : bytes :=
  match col !! p with
  | Some (Some t) => match ts !! t with Some (WPayload _ f _) => Go_Serialize f.1 | _ => [] end
  | _ => []
  end.

Lemma header_out_move col ts t pc pc' p :
  writers col ts -> ts !! t = Some pc -> payload_of pc = None ->
  header_out col (<[t := pc']> ts) p = header_out col ts p.
Proof.
  intros Hw Hpc Hn. unfold header_out. destruct (col !! p) as [[m|]|] eqn:E; try done.
  destruct (wr_mutex _ _ Hw p m E) as (q & Hq & Hqp). rw list_lookup_insert_ne //. congruence.
Qed.

Lemma header_out_spawn col ts pc p :
  writers col ts -> header_out col (ts ++ [pc]) p = header_out col ts p.
Proof.
  intros Hw. unfold header_out. destruct (col !! p) as [[m|]|] eqn:E; try done.
  destruct (wr_mutex _ _ Hw p m E) as (q & Hq & Hqp). by rw (lookup_app_l_Some _ _ _ _ Hq) Hq.
Qed.

(** Goroutine [t] moves and takes or gives back the mutex of [p]. *)
Lemma header_out_other col ts t pc pc' p m q :
  writers col ts -> ts !! t = Some pc -> (payload_of pc = None \/ payload_of pc = Some p) -> q <> p ->
  header_out (<[p := m]> col) (<[t := pc']> ts) q = header_out col ts q.
Proof.
  intros Hw Hpc Hn Hq. unfold header_out. rw list_lookup_insert_ne //.
  destruct (col !! q) as [[u|]|] eqn:E; try done.
  destruct (wr_mutex _ _ Hw q u E) as (x & Hx & Hxp). rw list_lookup_insert_ne //.
  intros ->. simplify_eq. destruct Hn; congruence.
Qed.

Lemma header_out_None col ts p : col !! p = Some None -> header_out col ts p = [].
Proof. intros E. unfold header_out. by rw E. Qed.

Lemma header_out_Some col ts p t q f k :
  col !! p = Some (Some t) -> ts !! t = Some (WPayload q f k) -> header_out col ts p = Go_Serialize f.1.
Proof. intros E Ht. unfold header_out. by rw E Ht. Qed.

Lemma chunks_on_snoc p q c h :
  chunks_on q (slog_chunk p c h) = chunks_on q h ++ (if bool_decide (p = q) then [c] else []).
Proof.
  unfold chunks_on. simpl. rw filter_app fmap_app. f_equal.
  case_bool_decide as Hc; [by rw filter_cons_True|by rw filter_cons_False].
Qed.

Section ServerWire.
Context {A : Asio} `{!AsioStream A} {App : Type}.
Variable cfg : Go_config App.
Implicit Types (s : Go_server App).

(** A connection the listener returns has transmitted nothing. *)
Definition fresh_accept (e : Go_server_event) : Prop :=
  match e with SEAccept _ (inl (conn, _)) => outgoing conn = [] | _ => True end.

Definition outs (ps : list Go_peer) : list bytes := (fun peer => outgoing (gp_conn peer)) <$> ps.

Record swire (o : list bytes) (col : list (option nat)) (ts : list Go_server_pc)
    (h : Go_server_history) : Prop := {
  sw_range : Forall (fun x => x.1 < length o) (sh_chunks h);
  sw_bytes p b : o !! p = Some b -> p ∉ sh_failed h -> p ∉ sh_clobbered h ->
    b = concat (chunk_bytes (sc_handshakeHeader cfg) <$> chunks_on p h) ++ header_out col ts p
}.

Definition swire_ok s : Prop :=
  swire (outs (sv_peers s)) (gp_writeMu <$> sv_peers s) (sv_threads s) (sv_history s).

(** The history changes in what the bytes do not depend on. *)
Lemma swire_history o col ts h h' :
  swire o col ts h -> sh_chunks h' = sh_chunks h ->
  (forall p, p ∈ sh_failed h -> p ∈ sh_failed h') -> (forall p, p ∈ sh_clobbered h -> p ∈ sh_clobbered h') ->
  swire o col ts h'.
Proof.
  intros [H1 H2] Ec Hf Hc. constructor; [by rw Ec|].
  intros p b E Hnf Hnc. unfold chunks_on. rw Ec. apply H2; naive_solver.
Qed.

Lemma swire_move o col ts t pc pc' h :
  swire o col ts h -> writers col ts -> ts !! t = Some pc -> payload_of pc = None ->
  swire o col (<[t := pc']> ts) h.
Proof.
  intros [H1 H2] Hw Hpc Hn. constructor; [done|]. intros p b.
  rw (header_out_move _ _ _ _ _ _ Hw Hpc Hn). apply H2.
Qed.

Lemma swire_spawn o col ts pc h : swire o col ts h -> writers col ts -> swire o col (ts ++ [pc]) h.
Proof. intros [H1 H2] Hw. constructor; [done|]. intros p b. rw header_out_spawn //. apply H2. Qed.

Lemma swire_accept o col ts h :
  swire o col ts h -> length o = length col -> swire (o ++ [[]]) (col ++ [None]) ts h.
Proof.
  intros [H1 H2] Hl. constructor.
  - eapply Forall_impl; [exact H1|]. rw length_app. simpl. lia.
  - intros p b [E|[Hp E]]%lookup_app_Some Hf Hc.
    + rw (H2 p b E Hf Hc) /header_out lookup_app_l //. rw -Hl. by eapply lookup_lt_Some.
    + apply list_lookup_singleton_Some in E as [E <-]. replace p with (length o) by lia.
      assert (chunks_on (length o) h = []) as ->.
      { unfold chunks_on. induction H1 as [|x l Hx _ IH]; [done|]. rw filter_cons_False //. lia. }
      rw header_out_None //. rw Hl lookup_app_r // Nat.sub_diag //.
Qed.

(** Connection [p] transmitted [bs], which completes the chunks [cs]. *)
Lemma swire_write o col ts h col' ts' h' p b bs cs :
  swire o col ts h -> o !! p = Some b ->
  sh_chunks h' = sh_chunks h ++ ((fun c => (p, c)) <$> cs) ->
  sh_failed h' = sh_failed h -> sh_clobbered h' = sh_clobbered h ->
  (forall q, q <> p -> header_out col' ts' q = header_out col ts q) ->
  header_out col ts p ++ bs
  = concat (chunk_bytes (sc_handshakeHeader cfg) <$> cs) ++ header_out col' ts' p ->
  swire (<[p := b ++ bs]> o) col' ts' h'.
Proof.
  intros [H1 H2] Ep Ec Ef Ecl Hq Hb.
  assert (forall q, chunks_on q h' = chunks_on q h ++ (if bool_decide (q = p) then cs else [])) as Hon.
  { intros q. unfold chunks_on. rw Ec filter_app fmap_app. f_equal. clear.
    induction cs as [|c cs IH]; simpl; [by case_bool_decide|].
    case_bool_decide; subst; [rw filter_cons_True //=; by f_equal|by rw filter_cons_False]. }
  constructor.
  - rw Ec length_insert. apply Forall_app. split; [done|]. apply Forall_fmap, Forall_true.
    intros c. simpl. by eapply lookup_lt_Some.
  - intros q b'. rw Ef Ecl Hon. intros [(-> & <- & _)|[Hne E]]%list_lookup_insert_Some Hnf Hnc.
    + rw bool_decide_true // fmap_app concat_app (H2 _ _ Ep Hnf Hnc) -!app_assoc Hb //.
    + rw bool_decide_false; [done|]. rw app_nil_r Hq; [done|]. by apply H2.
Qed.

(** Connection [p] is given up for spoiled. *)
Lemma swire_spoil o col ts h col' ts' h' p b' :
  swire o col ts h -> p ∈ sh_failed h' \/ p ∈ sh_clobbered h' -> p < length o ->
  (exists cs, sh_chunks h' = sh_chunks h ++ ((fun c => (p, c)) <$> cs)) ->
  (forall q, q ∈ sh_failed h -> q ∈ sh_failed h') ->
  (forall q, q ∈ sh_clobbered h -> q ∈ sh_clobbered h') ->
  (forall q, q <> p -> header_out col' ts' q = header_out col ts q) ->
  swire (<[p := b']> o) col' ts' h'.
Proof.
  intros [H1 H2] Hp Hlt [cs Ec] Hf Hc Hq. constructor.
  - rw Ec length_insert. apply Forall_app. split; [done|]. by apply Forall_fmap, Forall_true.
  - intros q b [(-> & _)|[Hne E]]%list_lookup_insert_Some Hnf Hnc; [naive_solver|].
    assert (chunks_on q h' = chunks_on q h) as ->.
    { unfold chunks_on. rw Ec filter_app fmap_app -[X in _ = X]app_nil_r. f_equal. clear -Hne.
      induction cs as [|c cs IH]; simpl; [done|]. by rw filter_cons_False. }
    rw Hq; [done|]. apply H2; naive_solver.
Qed.

Lemma outs_set ps p peer conn :
  outs (<[p := set_conn conn peer]> ps) = <[p := outgoing conn]> (outs ps).
Proof. unfold outs. by rw list_fmap_insert. Qed.

Lemma outs_close ps p : outs (alter close_conn p ps) = outs ps.
Proof. apply column_close. intros peer. apply close_keeps_out. Qed.

Lemma outs_same ps p peer peer' :
  ps !! p = Some peer -> outgoing (gp_conn peer') = outgoing (gp_conn peer) ->
  outs (<[p := peer']> ps) = outs ps.
Proof. intros Hp Ho. by eapply (column_insert (fun peer => outgoing (gp_conn peer))). Qed.

Lemma outs_close_all ps l : outs (foldl (fun ps p => alter close_conn p ps) ps l) = outs ps.
Proof. apply column_close_all. intros peer. apply close_keeps_out. Qed.

(** The columns of the peers that a step leaves as they were. *)
Ltac swire_untouched :=
  try match goal with Hp : _ !! _ = Some _ |- _ => rw (column_insert gp_writeMu _ _ _ _ Hp); [done|] end;
  try match goal with Hr : asio_read _ _ = _ |- _ => apply read_keeps_out in Hr end;
  try match goal with Hr : Go_ReadFrame ?c = (?c', _) |- _ =>
    assert (outgoing c' = outgoing c) by (rw -(Go_ReadFrame_out c) Hr //) end;
  try match goal with Hp : _ !! _ = Some _ |- _ => rw (outs_same _ _ _ _ Hp); [done|] end.

(** A failed write of a frame of kind [k] spoils its connection only. *)
Ltac swire_failed H k :=
  eapply swire_spoil;
  [exact H|left; simpl; set_solver|done|by exists []; rw app_nil_r /= chunks_finished
  |intros q; destruct k; set_solver|intros q; by destruct k|].

Lemma swire_step e s s' :
  Go_server_step cfg e s = Some s' -> fresh_accept e -> writers_ok s -> swire_ok s -> swire_ok s'.
Proof.
  unfold writers_ok, swire_ok. intros E Hfresh Hw H.
  sv_cases E; simpl in Hw, H; repeat case_match; simplify_eq/=.
  all: swire_untouched.
  all: rw ?(column_close gp_writeMu) // ?(column_close_all gp_writeMu) // ?outs_close ?outs_close_all.
  all: try (apply swire_spawn; [|by eapply writers_move]).
  all: try (by apply swire_spawn).
  all: try (eapply swire_history; [by eapply swire_move; [exact H|exact Hw|exact Hpc|]|done..]).
  all: try done.
  { unfold outs. rw !fmap_app /= Hfresh. apply swire_accept; [by eapply swire_move|by rw !length_fmap]. }
  all: match goal with Hp : ?ps !! ?p = Some ?g |- _ =>
         assert (outs ps !! p = Some (outgoing (gp_conn g))) as Ho by (by rw /outs list_lookup_fmap Hp);
         assert ((gp_writeMu <$> ps) !! p = Some (gp_writeMu g)) as Hcol by (by rw list_lookup_fmap Hp) end;
       pose proof (lookup_lt_Some _ _ _ Ho) as Hlt; pose proof (lookup_lt_Some _ _ _ Hpc) as Hltt;
       rw /outs !list_fmap_insert /= -/(outs ps).
  all: try match goal with Ew : asio_write _ _ = (_, None) |- _ => rw (write_all _ _ _ Ew) end.
  all: try match goal with Em : gp_writeMu _ = None |- _ => rw Em in Hcol end.
  - eapply swire_spoil; [exact H|left; set_solver|done|by exists []; rw app_nil_r|set_solver|done|].
    intros q _. by eapply header_out_move.
  - eapply swire_spoil; [exact H|right; set_solver|done|by exists [ChunkHandshake]|done|set_solver|].
    intros q _. by eapply header_out_move.
  - eapply (swire_write _ _ _ h _ _ _ _ _ _ [ChunkHandshake]); [exact H|done|done|done|done|..].
    + intros q _. by eapply header_out_move.
    + by rw (header_out_move _ _ _ _ _ _ Hw Hpc) // header_out_None //= !app_nil_r.
  - swire_failed H k. intros q _. by eapply header_out_move.
  - eapply (swire_write _ _ _ h _ _ _ _ _ _ []); [exact H|done|by rw app_nil_r|done|done|..].
    + intros q Hq. eapply header_out_other; eauto.
    + rw header_out_None // (header_out_Some _ _ p t p f k) ?list_lookup_insert_eq //= ?app_nil_r //.
      by rw length_fmap; eapply lookup_lt_Some.
  - eapply (swire_write _ _ _ h _ _ _ _ _ _ [ChunkFrame f k]); [exact H|done|by rw /= chunks_finished|by destruct k|by destruct k|..].
    + intros q _. by eapply header_out_move.
    + rw concat_chunk (header_out_move _ _ _ _ _ _ Hw Hpc) // header_out_None //.
      destruct f as [fh [|]]; [|done]. by rw /= ?app_nil_r.
  - swire_failed H k. intros q Hq. eapply header_out_other; eauto.
  - pose proof (wr_thread _ _ Hw _ _ Hpc p eq_refl) as Hm.
    eapply (swire_write _ _ _ h _ _ _ _ _ _ [ChunkFrame f k]); [exact H|done|by rw /= chunks_finished|by destruct k|by destruct k|..].
    + intros q Hq. eapply header_out_other; eauto.
    + rw concat_chunk (header_out_Some _ _ p t p f k) //.
      rw header_out_None; [by apply list_lookup_insert_eq; eapply lookup_lt_Some|]. by rw /= ?app_nil_r.
Qed.
End ServerWire.

(** ** The handshake comes first

    As long as nobody pushes, nothing but the connection's own goroutine
    writes before the handshake is over. *)

Definition pushes (pc : Go_server_pc) : bool :=
  match pc with
  | WHeader _ _ k | WPayload _ _ k => match k with AfterRequest _ => false | _ => true end
  | BStart _ _ | BSend _ _ _ => true
  | _ => false
  end.

Definition early (p : nat) (pc : Go_server_pc) : nat :=
  match pc with
  | SAccepted _ | HConnect _ | HReadHandshake _ | HWriteHandshake _ => handles p pc
  | _ => 0
  end.

Section Handshake.
Context {A : Asio} {App : Type}.
Variable cfg : Go_config App.
Implicit Types (s : Go_server App).

Definition no_push (e : Go_server_event) : Prop :=
  match e with SESend _ _ _ | SEBroadcast _ _ => False | _ => True end.

(** The connection of [p] is past its handshake. *)
Definition shaken (h : Go_server_history) (p : nat) : Prop :=
  sc_handshakeHeader cfg = [] \/ exists cs, chunks_on p h = ChunkHandshake :: cs.

Definition reading (p : nat) (pc : Go_server_pc) : nat :=
  match pc with HRead _ | HSem _ _ _ _ => handles p pc | _ => in_flight p pc end.

Record unpushed s : Prop := {
  up_range : Forall (fun x => x.1 < length (sv_peers s)) (sh_chunks (sv_history s));
  up_threads : threads_all (fun _ pc => pushes pc = false) (sv_threads s);
  up_early p : 1 <= sum_list_with (early p) (sv_threads s) ->
    sum_list_with (in_flight p) (sv_threads s) = 0 /\ chunks_on p (sv_history s) = [];
  up_reading p : 1 <= sum_list_with (reading p) (sv_threads s) -> shaken (sv_history s) p;
  up_clobbered : sh_clobbered (sv_history s) = []
}.

Lemma pushes_after p k ok : (forall n, k <> AfterRequest n) \/ pushes (after_write p k ok) = false.
Proof. destruct k; [right; by destruct ok|left; done|left; done]. Qed.

Lemma unpushed_threads e s s' :
  Go_server_step cfg e s = Some s' -> no_push e ->
  threads_all (fun _ pc => pushes pc = false) (sv_threads s) ->
  threads_all (fun _ pc => pushes pc = false) (sv_threads s').
Proof.
  intros E Hn H. sv_cases E; simpl in Hn, H; try done.
  all: try match goal with Hpc : _ !! _ = Some _ |- _ => pose proof (H _ _ Hpc) as Ht; simpl in Ht end.
  all: repeat case_match; simplify_eq/=; threads_cases H; try done; by destruct k.
Qed.

Lemma early_handles p pc : early p pc <= handles p pc.
Proof. destruct pc; simpl; lia. Qed.

Lemma chunks_on_new s p :
  Forall (fun x => x.1 < length (sv_peers s)) (sh_chunks (sv_history s)) -> length (sv_peers s) <= p ->
  chunks_on p (sv_history s) = [].
Proof.
  intros H Hp. unfold chunks_on. induction H as [|x l Hx _ IH]; [done|]. rw filter_cons_False //. lia.
Qed.

Lemma in_flight_sum p n s t pc :
  sv_threads s !! t = Some pc -> serving pc = Some (p, n) -> 1 <= sum_list_with (in_flight p) (sv_threads s).
Proof.
  intros E Hs. rw -(in_flight_self p n pc) //. by eapply sum_ge.
Qed.

Lemma unpushed_early e s s' q :
  Go_server_step cfg e s = Some s' -> no_push e -> bounds_ok s -> handlers_ok s -> unpushed s ->
  1 <= sum_list_with (early q) (sv_threads s') ->
  sum_list_with (in_flight q) (sv_threads s') = 0 /\ chunks_on q (sv_history s') = [].
Proof.
  intros E Hn Hb Hh [Hr Hth He _ _]. specialize (He q).
  assert (length (sv_peers s) <= q -> sum_list_with (in_flight q) (sv_threads s) = 0) as Hnew.
  { intros Hq. by eapply sum_new; [done|apply not_mentioned_in_flight|]. }
  pose proof (chunks_on_new s q Hr) as Hcn.
  pose proof (fun t pc E => sole_handler (early q) s t q pc (early_handles q) Hh E) as Hsole.
  pose proof (fun n t pc => in_flight_sum q n s t pc) as Hfl.
  assert (sum_list_with (early q) (sv_threads s) <= 1) as Hle.
  { pose proof (sum_le _ _ (sv_threads s) (early_handles q)). specialize (Hh q). lia. }
  sv_cases E; simpl in *; try done.
  all: try match goal with Hpc : ?ts !! ?t = Some ?pc |- _ =>
        specialize (Hsole t pc Hpc); pose proof (Hth _ _ Hpc) as Ht; simpl in Ht;
        pose proof (fun pc' => sum_insert (in_flight q) ts t pc pc' Hpc) as Hi;
        pose proof (fun pc' => sum_insert (early q) ts t pc pc' Hpc) as Hj end.
  all: repeat case_match; simplify_eq/=.
  all: try match goal with |- context [<[_:=?pc]> _] => specialize (Hi pc); specialize (Hj pc) end.
  all: rw ?sum_list_with_app /=.
  all: try (intros Hq; rw ?chunks_on_snoc; destruct He as [He1 He2]; [unfold early, handles in *; simpl in *; lia|];
        split; [unfold in_flight in *; simpl in *; lia|done]).
  - intros Hq. simpl in Hj. unfold in_flight in *. simpl in *. destruct (decide (q = length ps)) as [->|Hne].
    + specialize (Hnew ltac:(lia)). specialize (Hcn ltac:(lia)). split; [lia|done].
    + unfold handles in Hj. simpl in Hj. rw bool_decide_false in Hj; [congruence|].
      destruct He; [lia|]. split; [lia|done].
  - intros Hq. rw chunks_on_snoc. simpl in Hj. unfold in_flight, handles in *. simpl in *.
    destruct (decide (p = q)) as [->|Hne]; [rw bool_decide_true // in Hj; lia|].
    rw bool_decide_false in Hj; [congruence|]. rw bool_decide_false // app_nil_r.
    destruct He; [lia|]. split; [lia|done].
  - intros Hq. rw chunks_on_snoc. simpl in Hj. unfold in_flight, handles in *. simpl in *.
    destruct (decide (p = q)) as [->|Hne]; [rw bool_decide_true // in Hj; lia|].
    rw bool_decide_false in Hj; [congruence|]. rw bool_decide_false // app_nil_r.
    destruct He; [lia|]. split; [lia|done].
  - intros Hq. destruct (decide (p = q)) as [->|Hne]; [specialize (Hsole eq_refl eq_refl); simpl in Hj; lia|].
    rw (in_flight_other q p n (RServe p n hdr payload)) //. unfold in_flight in *. simpl in *.
    destruct He; [lia|]. split; [lia|done].
  - intros Hq. rw chunks_on_snoc. case_bool_decide; subst.
    + specialize (Hfl n _ _ Hpc eq_refl). destruct He; simpl in Hj; lia.
    + destruct He; [simpl in Hj; lia|]. unfold in_flight in *. simpl in *. rw app_nil_r. split; [lia|done].
  - intros Hq. rw chunks_on_snoc. case_bool_decide; subst.
    + specialize (Hfl n _ _ Hpc eq_refl). destruct He; simpl in Hj; lia.
    + destruct He; [simpl in Hj; lia|]. unfold in_flight in *. simpl in *. rw app_nil_r. split; [lia|done].
Qed.

Lemma shaken_snoc h p q c : shaken h q -> shaken (slog_chunk p c h) q.
Proof.
  intros [?|[cs E]]; [by left|]. right. rw chunks_on_snoc E. by eexists.
Qed.

Lemma unpushed_reading e s s' q :
  Go_server_step cfg e s = Some s' -> no_push e -> unpushed s ->
  1 <= sum_list_with (reading q) (sv_threads s') -> shaken (sv_history s') q.
Proof.
  intros E Hn [_ Hth He Hr _]. specialize (Hr q). specialize (He q).
  pose proof (sum_ge (early q) (sv_threads s)) as Hes.
  pose proof (sum_ge (reading q) (sv_threads s)) as Hrs.
  sv_cases E; simpl in *; try done.
  all: try match goal with Hpc : ?ts !! ?t = Some ?pc |- _ =>
        pose proof (Hth _ _ Hpc) as Ht; simpl in Ht; specialize (Hes _ _ Hpc); specialize (Hrs _ _ Hpc); simpl in Hes, Hrs;
        pose proof (fun pc' => sum_insert (reading q) ts t pc pc' Hpc) as Hj end.
  all: repeat case_match; simplify_eq/=.
  all: try match goal with |- context [<[_:=?pc]> _] => specialize (Hj pc); simpl in Hj end.
  all: rw ?sum_list_with_app /=.
  all: try (intros Hq; try apply shaken_snoc; apply Hr; unfold handles, in_flight in *; simpl in *; lia).
  - by left.
  - by left.
  - intros Hq. destruct (decide (p = q)) as [->|Hne].
    + right. exists []. rw chunks_on_snoc bool_decide_true //.
      destruct He as [_ He]; [by rw /handles bool_decide_true // in Hes|]. by rw /chunks_on /= -/(chunks_on q h) He.
    + apply shaken_snoc, Hr. unfold handles, in_flight in *. simpl in *.
      rw bool_decide_false in Hj; [congruence|]. lia.
  - intros Hq. destruct (decide (p = q)) as [->|Hne].
    + right. exists []. rw chunks_on_snoc bool_decide_true //.
      destruct He as [_ ->]; [by rw /handles bool_decide_true // in Hes|done].
    + apply shaken_snoc, Hr. unfold handles, in_flight in *. simpl in *.
      rw bool_decide_false in Hj; [congruence|]. lia.
Qed.

Lemma chunks_range_step e s s' :
  Go_server_step cfg e s = Some s' ->
  Forall (fun x => x.1 < length (sv_peers s)) (sh_chunks (sv_history s)) ->
  Forall (fun x => x.1 < length (sv_peers s')) (sh_chunks (sv_history s')).
Proof.
  intros E H.
  assert (forall n, Forall (fun x => x.1 < length (sv_peers s) + n) (sh_chunks (sv_history s))) as Hm.
  { intros n. eapply Forall_impl; [exact H|]. simpl. lia. }
  sv_cases E; simpl in H, Hm; repeat case_match; simplify_eq/=; rw ?chunks_finished.
  all: rw ?length_close_all ?length_app ?length_insert ?length_alter //=.
  all: apply Forall_app; (split; [done|]); apply Forall_singleton; by eapply lookup_lt_Some.
Qed.

(** Nobody else writes while the handshake reply is due. *)
Lemma handshake_alone s t p m :
  writers_ok s -> unpushed s -> sv_threads s !! t = Some (HWriteHandshake p) ->
  (gp_writeMu <$> sv_peers s) !! p = Some m -> m = None.
Proof.
  intros Hw Hu Ht Hm. destruct m as [u|]; [|done]. exfalso.
  destruct (wr_mutex _ _ Hw p u Hm) as (pc & Hpc & Hp). pose proof (up_threads _ Hu _ _ Hpc) as Hn.
  pose proof (sum_ge (early p) _ _ _ Ht) as He. simpl in He. rw /handles bool_decide_true // in He.
  destruct (up_early _ Hu p He) as [Hz _]. destruct pc as [| | | | | | | | | | | | | |? ? []| | | | | | | | | | | |]; simplify_eq/=.
  pose proof (in_flight_sum p n s u _ Hpc eq_refl). lia.
Qed.

Lemma unpushed_step e s s' :
  Go_server_step cfg e s = Some s' -> no_push e -> bounds_ok s -> handlers_ok s -> writers_ok s ->
  unpushed s -> unpushed s'.
Proof.
  intros E Hn Hb Hh Hw Hu. constructor.
  - by eapply chunks_range_step, up_range.
  - eapply unpushed_threads; eauto using up_threads.
  - intros p. by eapply unpushed_early.
  - intros p. by eapply unpushed_reading.
  - pose proof (up_clobbered _ Hu) as Hc. pose proof (fun t p => handshake_alone s t p) as Ha.
    sv_cases E; simpl in Hc, Ha; repeat case_match; simplify_eq/=; try done; try (by destruct k).
    exfalso. match goal with Hp : ps !! _ = Some _, Hm : gp_writeMu _ = Some ?n |- _ =>
      specialize (Ha _ _ (Some n) Hw Hu Hpc); rw list_lookup_fmap Hp /= Hm in Ha end. by specialize (Ha eq_refl).
Qed.
End Handshake.
