(* ===== verification/GoServerProperties.v ===== *)
(** * GoServerProperties: what the Go server guarantees

    Requests are served as by a sequential server, and as the C++ session
    would serve them; each is answered once on its own connection; frames are
    not interleaved; the number of requests served at a time is bounded; a
    connection is given up after its requests have ended; and what [Shutdown]
    does and does not wait for. *)

From S2P Require Import Prelude.
From S2P Require Import Status.
From S2P Require Import Frame.
From S2P Require Import Transport.
From S2P Require Import Session.
From S2P Require Import Goroutines.
From S2P Require Import GoFrame.
From S2P Require Import GoServer.
From S2P Require Import GoServerInvariants.
From S2P Require Import GoServerRequests.

Open Scope protocomm_scope.
Open Scope nat_scope.

#[local] Arguments occ : simpl never.

(** ** All of it *)

Section Server.
Context {A : Asio} {App : Type}.
Variable cfg : Go_config App.
Implicit Types (s : Go_server App).

Record go_server_inv (app0 : App) s : Prop := {
  si_wg : ct_wg (sv_control s) = sum_list_with in_wg (sv_threads s);
  si_slots : slots_ok cfg s;
  si_bounds : bounds_ok s;
  si_handlers : handlers_ok s;
  si_inflight : inflight_ok s;
  si_ids : ids_ok s;
  si_table : (Z.of_nat (length (sv_peers s)) <= 2 ^ 64)%Z -> table_ok s;
  si_alive : alive_ok s;
  si_writers : writers_ok s;
  si_requests : requests_ok s;
  si_served : served_ok s;
  si_facts : sfacts cfg app0 s
}.

Lemma go_server_inv_step app0 e s s' :
  go_server_inv app0 s -> Go_server_step cfg e s = Some s' -> go_server_inv app0 s'.
Proof.
  intros [] E. pose proof (peers_grow cfg e s s' E).
  assert (ids_ok s') as Hids by eauto using ids_step.
  constructor;
    eauto using wg_step, slots_step, bounds_step, handlers_step, inflight_step, alive_step,
      writers_step, requests_step, served_step, sfacts_step.
  intros Hl. eapply table_step; eauto using ids_NoDup. apply si_table0. lia.
Qed.

Lemma Go_server_inv app0 es s :
  run_events (Go_server_step cfg) es (Go_start app0) = Some s -> go_server_inv app0 s.
Proof.
  apply (run_events_invariant (Go_server_step cfg) (go_server_inv app0));
    [intros e s1 s2; apply go_server_inv_step|].
  constructor; try done.
  - intros cap _. simpl. lia.
  - constructor; simpl; [|done]. intros [|t] pc E; simplify_eq/=. constructor.
  - intros p. simpl. lia.
  - intros p. by rw /= /in_flight /=.
  - constructor; simpl; try done. intros [|t] pc E; by simplify_eq/=.
  - constructor; try done; simpl; try constructor. intros [|t] pc E; by simplify_eq/=.
Qed.

(** ** Consequences *)

Lemma finished_NoDup app0 s : go_server_inv app0 s -> NoDup (sh_finished (sv_history s)).*1.
Proof.
  intros Hi. apply NoDup_occ. intros n. pose proof (si_requests _ _ Hi n).
  pose proof (proj1 (NoDup_occ _) (NoDup_seq 0 (length (sh_requests (sv_history s)))) n). lia.
Qed.

Lemma served_NoDup app0 s : go_server_inv app0 s -> NoDup (served_ids (sv_history s)).
Proof.
  intros Hi. apply NoDup_occ. intros n. pose proof (si_requests _ _ Hi n). pose proof (si_served _ _ Hi n).
  assert (forall i ts, occ n (collect responding i ts) <= occ n (collect unanswered i ts)) as Hle.
  { intros i ts. revert i. induction ts as [|pc ts IH]; intros i; simpl; [lia|]. rw !occ_app.
    specialize (IH (S i)). destruct pc; simpl; rw ?occ_nil; try lia; destruct k; rw ?occ_nil; lia. }
  specialize (Hle 0 (sv_threads s)).
  pose proof (proj1 (NoDup_occ _) (NoDup_seq 0 (length (sh_requests (sv_history s)))) n). lia.
Qed.

(** Nothing that [wg] counts runs: then no connection is in the table and no
    request is served. *)
Lemma nothing_runs app0 s :
  go_server_inv app0 s -> (Z.of_nat (length (sv_peers s)) <= 2 ^ 64)%Z -> ct_wg (sv_control s) = 0 ->
  ct_sessions (sv_control s) = ∅
  /\ threads_all (fun _ pc => in_wg pc = 0 /\ serving pc = None) (sv_threads s).
Proof.
  intros Hi Hl Hz. rw (si_wg _ _ Hi) in Hz. pose proof (sum_zero _ _ Hz) as Hall.
  assert (forall p pc, in_wg pc = 0 -> handles p pc = 0) as Hh.
  { intros p pc. unfold handles. by destruct pc. }
  split.
  - apply map_empty. intros id. apply eq_None_not_Some. intros [p Hp].
    pose proof (id_table _ (si_ids _ _ Hi) _ _ Hp) as Hid.
    pose proof (si_table _ _ Hi Hl p id Hid) as Ht. rw /tabled bool_decide_true // in Ht.
    rw sum_all_zero // in Ht. intros t pc E. specialize (Hh p pc (Hall t pc E)).
    pose proof (listed_handles p pc). lia.
  - intros t pc E. split; [by apply (Hall t)|]. destruct (serving pc) as [[p n]|] eqn:Es; [|done].
    pose proof (sum_ge (in_flight p) _ _ _ E) as Hf. rw (in_flight_self p n pc) // in Hf.
    apply (si_alive _ _ Hi) in Hf. rw sum_all_zero in Hf; [|lia].
    intros t' pc' E'. specialize (Hh p pc' (Hall t' pc' E')). destruct pc'; simpl in *; lia.
Qed.
End Server.

(** The connections of a run with fresh sockets carry their chunks. *)
Lemma Go_server_wire {A : Asio} `{!AsioStream A} {App} (cfg : Go_config App) app0 es (s : Go_server App) :
  run_events (Go_server_step cfg) es (Go_start app0) = Some s -> Forall fresh_accept es ->
  swire_ok cfg s.
Proof.
  revert s. induction es as [|e es IH] using rev_ind; intros s Hr Hf.
  - simplify_eq/=. constructor; simpl; [done|]. intros p b. by rw lookup_nil.
  - apply Forall_app in Hf as [Hf He]. rw Forall_singleton in He.
    rw run_events_app in Hr. destruct (run_events _ es _) as [s1|] eqn:E1; [|done].
    simpl in Hr. destruct (Go_server_step cfg e s1) as [s2|] eqn:E2; simplify_eq.
    pose proof (Go_server_inv cfg app0 es s1 E1) as Hi.
    exact (swire_step cfg e s1 s E2 He (si_writers _ _ _ Hi) (IH s1 eq_refl Hf)).
Qed.

Lemma Go_server_unpushed {A : Asio} {App} (cfg : Go_config App) app0 es (s : Go_server App) :
  run_events (Go_server_step cfg) es (Go_start app0) = Some s -> Forall no_push es -> unpushed cfg s.
Proof.
  revert s. induction es as [|e es IH] using rev_ind; intros s Hr Hf.
  - simplify_eq/=. constructor; simpl; try done.
    + intros [|t] pc E; by simplify_eq/=.
    + intros p. unfold in_flight. simpl. lia.
  - apply Forall_app in Hf as [Hf He]. rw Forall_singleton in He.
    rw run_events_app in Hr. destruct (run_events _ es _) as [s1|] eqn:E1; [|done].
    simpl in Hr. destruct (Go_server_step cfg e s1) as [s2|] eqn:E2; simplify_eq.
    pose proof (Go_server_inv cfg app0 es s1 E1) as Hi. destruct Hi.
    eapply unpushed_step; eauto.
Qed.

(** ** A scripted run

    One connection with two requests, served by two goroutines; the second
    method is unknown.  Handler 7 counts its calls. *)

Definition go_demo_server : Go_config nat :=
  Go_build (Go_SetMaxConcurrentRequests 2 (Go_SetOnConnect true (Go_SetOnDisconnect true
    (Go_RegisterService [(7%Z, fun app ctx req => (S app, ctx, (b8 "pong", Go_StatusOK)))]
      Go_NewServerBuilder)))).

Definition go_demo_req (id method : Z) (p : bytes) : Go_FrameHeader * bytes :=
  (Go_mkHeader Go_FrameRequest 0 id method (size_of p), p).

Definition go_demo_peer : pipe :=
  mkPipe (b8 "pc1" ++ encode_go (go_demo_req 5 7 (b8 "ping")) ++ encode_go (go_demo_req 6 9 [])) [] None true.

(** The connection is accepted, shakes hands and has both requests read. *)
Definition go_demo_open : list (@Go_server_event pipe_asio) :=
  [ SEAccept 0 (inl (go_demo_peer, "peer:1")); SEStep 0 0; SEStep 1 0; SEStep 1 0; SEStep 1 0;
    SEStep 1 0; SEStep 1 0; SEStep 1 0; SEStep 1 0 ].

(** The second request's handler runs first, the first response is written
    first. *)
Definition go_demo_serve : list (@Go_server_event pipe_asio) :=
  go_demo_open ++ [ SEStep 3 0; SEStep 2 0; SEStep 2 0; SEStep 2 0; SEStep 3 0;
    SEStep 2 0; SEStep 2 0; SEStep 3 0; SEStep 3 0 ].

(** The peer hangs up, the server shuts down. *)
Definition go_demo_end : list (@Go_server_event pipe_asio) :=
  go_demo_serve ++ [ SEStep 1 0; SEStep 1 0 ].

Definition go_demo_shutdown : list (@Go_server_event pipe_asio) :=
  go_demo_end ++ [ SEStep 1 0; SEStep 1 0; SEStep 1 0; SEStep 1 0; SEShutdown; SEStep 4 0; SEStep 4 0;
    SEStep 4 0; SEStep 4 0; SEAccept 0 (inr tt) ].

Definition go_demo_sv (es : list (@Go_server_event pipe_asio)) : option (@Go_server pipe_asio nat) :=
  run_events (Go_server_step go_demo_server) es (Go_start 0).

(** ** Properties *)

(** C16: the concurrent Go server refines a sequential one, and the C++
    session.  The requests whose handlers ran, taken in that order, are a run
    of the C++ session's [process_request] with the same handlers: it yields
    the same responses and leaves the application in the same state.  No
    request runs twice, each was read from a connection, its handler saw the
    address of that peer, and its response carries its call id and method. *)
Theorem go_server_refines_sequential {A : Asio} {App} (cfg : Go_config App) app0 es (s : Go_server App) :
  run_events (Go_server_step cfg) es (Go_start app0) = Some s ->
  cpp_serve_all cfg app0 ((sh_served (sv_history s)).*1).*2
  = Some (sv_app s, (fun f => (to_cpp f.1, f.2)) <$> (sh_served (sv_history s)).*2)
  /\ NoDup (served_ids (sv_history s))
  /\ Forall (served_fact s) (sh_served (sv_history s)).
Proof.
  intros Hi%Go_server_inv. split; [apply (sf_sequential _ _ _ (si_facts _ _ _ Hi))|].
  split; [by eapply served_NoDup|apply (sf_served _ _ _ (si_facts _ _ _ Hi))].
Qed.

Lemma go_server_refines_sequential_witness :
  exists s, go_demo_sv go_demo_serve = Some s /\ sv_app s = 1
    /\ cpp_serve_all go_demo_server 0 [("peer:1", go_demo_req 6 9 []); ("peer:1", go_demo_req 5 7 (b8 "ping"))]
       = Some (1, [(mkHeader kResponse 12 6 9 0, []); (mkHeader kResponse 0 5 7 4, b8 "pong")]).
Proof.
  destruct (go_demo_sv go_demo_serve) as [s|] eqn:E; [|by vm_compute in E].
  destruct (go_server_refines_sequential go_demo_server 0 go_demo_serve s E) as [Hs _].
  assert (((sh_served (sv_history s)).*1).*2
      = [("peer:1", go_demo_req 6 9 []); ("peer:1", go_demo_req 5 7 (b8 "ping"))]
    /\ (fun f => (to_cpp f.1, f.2)) <$> (sh_served (sv_history s)).*2
      = [(mkHeader kResponse 12 6 9 0, []); (mkHeader kResponse 0 5 7 4, b8 "pong")]
    /\ sv_app s = 1) as (H1 & H2 & H3) by (vm_compute in E; by simplify_eq).
  rw H1 H2 H3 in Hs. exists s. split; [reflexivity|]. split; [exact H3|exact Hs].
Defined.

(** C17: every request the Go server reads is accounted for: a goroutine still
    has it, or its response was written or failed, or it was dropped because
    the server shuts down, and only one of these.  At most one response to it
    goes out, on the connection it came from, with its call id and method. *)
Theorem go_requests_answered_once {A : Asio} {App} (cfg : Go_config App) app0 es (s : Go_server App) :
  run_events (Go_server_step cfg) es (Go_start app0) = Some s ->
  (collect unanswered 0 (sv_threads s) ++ (sh_finished (sv_history s)).*1 ++ sh_dropped (sv_history s)
   ≡ₚ seq 0 (length (sh_requests (sv_history s))))
  /\ NoDup (omap chunk_request (sh_chunks (sv_history s)).*2)
  /\ forall p f n, (p, ChunkFrame f (AfterRequest n)) ∈ sh_chunks (sv_history s) ->
       exists req respCode, sh_requests (sv_history s) !! n = Some (p, req)
         /\ f.1 = Go_response_header req.1 respCode f.2.
Proof.
  intros Hi%Go_server_inv. pose proof (si_facts _ _ _ Hi) as Hf. split; [|split].
  - apply occ_all_Permutation. intros n. rw !occ_app (si_requests _ _ _ Hi n). lia.
  - rw (sf_answers _ _ _ Hf). eapply sublist_NoDup; [by eapply finished_NoDup|].
    apply fmap_sublist, sublist_filter.
  - intros p f n Hin. pose proof (sf_chunks _ _ _ Hf) as Hc. rw Forall_forall in Hc.
    destruct (Hc _ Hin) as (addr & req & Hs & Hr). simpl in *.
    pose proof (sf_served _ _ _ Hf) as Hsv. rw Forall_forall in Hsv.
    destruct (Hsv _ Hs) as [_ [code Hcode]]. simpl in Hcode. by exists req, code.
Qed.

Lemma go_requests_answered_once_witness :
  exists s, go_demo_sv go_demo_serve = Some s /\ (sh_finished (sv_history s)).*1 ≡ₚ [0; 1].
Proof.
  destruct (go_demo_sv go_demo_serve) as [s|] eqn:E; [|by vm_compute in E].
  destruct (go_requests_answered_once go_demo_server 0 go_demo_serve s E) as [Hp _].
  assert (collect unanswered 0 (sv_threads s) = [] /\ sh_dropped (sv_history s) = []
    /\ length (sh_requests (sv_history s)) = 2) as (H1 & H2 & H3) by (vm_compute in E; by simplify_eq).
  rw H1 H2 H3 app_nil_r in Hp. exists s. split; [reflexivity|exact Hp].
Defined.

(** What a connection of the Go server carries.  Unless a write on it
    failed, or the handshake reply was written while another goroutine was
    between the header and the payload of a push, it carries whole chunks one
    after the other (the handshake reply, responses and pushes) and the
    header of the frame whose payload is being written.  If nobody pushes,
    the handshake reply is never written so, and comes before any response. *)
Theorem go_server_wire {A : Asio} `{!AsioStream A} {App} (cfg : Go_config App) app0 es (s : Go_server App) p peer :
  run_events (Go_server_step cfg) es (Go_start app0) = Some s -> Forall fresh_accept es ->
  sv_peers s !! p = Some peer ->
  (p ∉ sh_failed (sv_history s) -> p ∉ sh_clobbered (sv_history s) ->
   outgoing (gp_conn peer)
   = concat (chunk_bytes (sc_handshakeHeader cfg) <$> chunks_on p (sv_history s))
     ++ header_out (gp_writeMu <$> sv_peers s) (sv_threads s) p)
  /\ (Forall no_push es ->
      sh_clobbered (sv_history s) = []
      /\ (sc_handshakeHeader cfg <> [] -> 1 <= sum_list_with (in_flight p) (sv_threads s) ->
          exists cs, chunks_on p (sv_history s) = ChunkHandshake :: cs)).
Proof.
  intros Hr Hf Hp. pose proof (Go_server_wire cfg app0 es s Hr Hf) as Hw. split.
  - intros Hnf Hnc. apply (sw_bytes _ _ _ _ _ Hw p); [|done|done]. by rw /outs list_lookup_fmap Hp.
  - intros Hn. pose proof (Go_server_unpushed cfg app0 es s Hr Hn) as Hu.
    split; [apply (up_clobbered _ _ Hu)|]. intros Hh Hin.
    destruct (up_reading _ _ Hu p) as [|]; [|done|done].
    etrans; [exact Hin|]. apply sum_le. intros pc. unfold reading, in_flight. by destruct pc; simpl; try lia.
Qed.

Lemma go_server_wire_witness :
  exists s peer, go_demo_sv go_demo_serve = Some s /\ sv_peers s !! 0 = Some peer
    /\ outgoing (gp_conn peer) = b8 "pc1"
         ++ encode_go (Go_mkHeader Go_FrameResponse 0 5 7 4, b8 "pong")
         ++ encode_go (Go_mkHeader Go_FrameResponse 12 6 9 0, []).
Proof.
  destruct (go_demo_sv go_demo_serve) as [s|] eqn:E; [|by vm_compute in E].
  assert (exists peer, sv_peers s !! 0 = Some peer) as [peer Hp] by (vm_compute in E; simplify_eq; by eexists).
  assert (concat (chunk_bytes (b8 "pc1") <$> chunks_on 0 (sv_history s)) = b8 "pc1"
         ++ encode_go (Go_mkHeader Go_FrameResponse 0 5 7 4, b8 "pong")
         ++ encode_go (Go_mkHeader Go_FrameResponse 12 6 9 0, [])
    /\ header_out (gp_writeMu <$> sv_peers s) (sv_threads s) 0 = []
    /\ sh_failed (sv_history s) = [] /\ sh_clobbered (sv_history s) = [])
    as (H1 & H2 & H3 & H4) by (vm_compute in E; by simplify_eq).
  destruct (go_server_wire go_demo_server 0 go_demo_serve s 0 peer E) as [Ho _]; [|exact Hp|].
  { clear. repeat (apply Forall_cons_2; [done|]). apply Forall_nil_2. }
  exists s, peer. split; [reflexivity|]. split; [exact Hp|].
  rw Ho ?H3 ?H4; [apply not_elem_of_nil|apply not_elem_of_nil|]. rw H2 app_nil_r. exact H1.
Defined.

(** The Go server serves at most [maxConcurrent] requests at a time: the
    slots taken of the semaphore are the goroutines between taking and giving
    back a slot, and never more than its capacity, so that [len(sem)] returns
    to zero when no request is served. *)
Theorem go_concurrency_bounded {A : Asio} {App} (b : Go_ServerBuilder App) app0 es (s : Go_server App) :
  run_events (Go_server_step (Go_build b)) es (Go_start app0) = Some s ->
  (0 < gb_maxConcurrent b)%Z ->
  (Z.of_nat (sum_list_with holds_slot (sv_threads s)) <= gb_maxConcurrent b)%Z
  /\ ct_slots (sv_control s) = sum_list_with holds_slot (sv_threads s).
Proof.
  intros Hi%Go_server_inv Hc. destruct (si_slots _ _ _ Hi (Z.to_nat (gb_maxConcurrent b))) as [Hs Hl].
  - unfold Go_build. simpl. by rw (proj2 (Z.ltb_lt _ _) Hc).
  - split; [lia|done].
Qed.

Lemma go_concurrency_bounded_witness :
  exists s, go_demo_sv go_demo_open = Some s /\ ct_slots (sv_control s) = 2
    /\ ct_slots (sv_control s) = sum_list_with holds_slot (sv_threads s).
Proof.
  destruct (go_demo_sv go_demo_open) as [s|] eqn:E; [|by vm_compute in E].
  destruct (go_concurrency_bounded _ 0 go_demo_open s E) as [_ Hs]; [done|].
  assert (ct_slots (sv_control s) = 2) as H2 by (vm_compute in E; by simplify_eq).
  exists s. split; [reflexivity|]. split; [exact H2|exact Hs].
Defined.

(** The life of a connection of the Go server.  It is in the table exactly
    while its goroutine is between the accept loop and the deferred removal;
    [onDisconnect] is called while it is still there and after all its
    requests have ended; and when [wg.Wait()] returns to [Shutdown], the
    table is empty, the accept loop and every connection's goroutine have
    ended, and no request is being served. *)
Theorem go_server_lifecycle {A : Asio} {App} (cfg : Go_config App) app0 es (s : Go_server App) :
  run_events (Go_server_step cfg) es (Go_start app0) = Some s ->
  (Z.of_nat (length (sv_peers s)) <= 2 ^ 64)%Z ->
  (forall p peer, sv_peers s !! p = Some peer ->
     sum_list_with (listed p) (sv_threads s) = tabled (ct_sessions (sv_control s)) (gp_id peer) p)
  /\ (forall t p, sv_threads s !! t = Some (HDisconnect p) ->
       sum_list_with (in_flight p) (sv_threads s) = 0
       /\ exists id, ct_sessions (sv_control s) !! id = Some p)
  /\ (forall t choice s', sv_threads s !! t = Some DWait ->
       Go_server_step cfg (SEStep t choice) s = Some s' ->
       ct_sessions (sv_control s') = ∅
       /\ threads_all (fun _ pc => in_wg pc = 0 /\ serving pc = None) (sv_threads s')).
Proof.
  intros Hr Hl. pose proof (Go_server_inv cfg app0 es s Hr) as Hi.
  pose proof (si_table _ _ _ Hi Hl) as Ht. split_and!.
  - intros p peer Hp. apply Ht. by rw list_lookup_fmap Hp.
  - intros t p Hpc. split.
    + destruct (sum_list_with (in_flight p) (sv_threads s)) eqn:Ef; [done|].
      pose proof (si_alive _ _ _ Hi p ltac:(lia)) as Ha.
      rw (sole_handler (active p) s t p _ _ (si_handlers _ _ _ Hi) Hpc) // in Ha; [|lia].
      intros pc. destruct pc; simpl; lia.
    + pose proof (bo_threads _ (si_bounds _ _ _ Hi) _ _ Hpc) as Hb. simpl in Hb. rw Forall_singleton in Hb.
      destruct (lookup_lt_is_Some_2 _ _ Hb) as [peer Hp]. exists (gp_id peer).
      pose proof (sum_ge (listed p) _ _ _ Hpc) as Hs. simpl in Hs. rw /handles bool_decide_true // in Hs.
      rw (Ht p (gp_id peer)) in Hs; [by rw list_lookup_fmap Hp|].
      unfold tabled in Hs. case_bool_decide; [done|lia].
  - intros t choice s' Hpc E.
    assert (go_server_inv cfg app0 s') as Hi' by (by eapply go_server_inv_step).
    revert E Hi'. destruct s as [app ct ps ts h]. simpl in *. destruct (ct_panicked ct); [done|].
    rw Hpc /=. destruct (Nat.eqb_spec (ct_wg ct) 0) as [Hz|]; [|done]. intros E Hi'. simplify_eq.
    by apply (nothing_runs _ _ _ Hi').
Qed.

Lemma go_server_lifecycle_witness :
  (exists s, go_demo_sv go_demo_end = Some s /\ sv_threads s !! 1 = Some (HDisconnect 0)
     /\ sum_list_with (in_flight 0) (sv_threads s) = 0)
  /\ exists s s', go_demo_sv go_demo_shutdown = Some s
     /\ Go_server_step go_demo_server (SEStep 4 0) s = Some s' /\ ct_sessions (sv_control s') = ∅.
Proof.
  split.
  - destruct (go_demo_sv go_demo_end) as [s|] eqn:E; [|by vm_compute in E].
    assert (sv_threads s !! 1 = Some (HDisconnect 0) /\ length (sv_peers s) = 1) as [Ht Hl]
      by (vm_compute in E; by simplify_eq).
    destruct (go_server_lifecycle go_demo_server 0 go_demo_end s E) as (_ & Hd & _); [by rw Hl|].
    exists s. split; [reflexivity|]. split; [exact Ht|]. exact (proj1 (Hd 1 0 Ht)).
  - destruct (go_demo_sv go_demo_shutdown) as [s|] eqn:E; [|by vm_compute in E].
    destruct (Go_server_step go_demo_server (SEStep 4 0) s) as [s'|] eqn:E';
      [|by vm_compute in E; simplify_eq].
    assert (sv_threads s !! 4 = Some DWait /\ length (sv_peers s) = 1) as [Ht Hl]
      by (vm_compute in E; by simplify_eq).
    destruct (go_server_lifecycle go_demo_server 0 go_demo_shutdown s E) as (_ & _ & Hd); [by rw Hl|].
    exists s, s'. split; [reflexivity|]. split; [exact E'|]. exact (proj1 (Hd 4 0 s' Ht E')).
Defined.

(** ** Races *)

(** Two goroutines call [Shutdown]. *)
Definition go_race_twice : list (@Go_server_event pipe_asio) :=
  [ SEShutdown; SEShutdown; SEStep 1 0; SEStep 2 0; SEStep 1 0; SEStep 2 0 ].

(** [Shutdown] runs between [Accept] and the table. *)
Definition go_race_accept : list (@Go_server_event pipe_asio) :=
  [ SEAccept 0 (inl (go_demo_peer, "peer:1")); SEShutdown; SEStep 1 0; SEStep 1 0; SEStep 1 0; SEStep 1 0;
    SEStep 0 0; SEAccept 0 (inr tt); SEStep 2 0; SEStep 2 0; SEStep 2 0 ].

(** A push is sent while the handshake reply is due. *)
Definition go_race_push : list (@Go_server_event pipe_asio) :=
  [ SEAccept 0 (inl (go_demo_peer, "peer:1")); SEStep 0 0; SEStep 1 0; SEStep 1 0;
    SESend 0 4 (b8 "news"); SEStep 2 0; SEStep 1 0; SEStep 2 0 ].

