(* ===== verification/GoServices.v ===== *)
(** * GoServices: three services on the Go server

    The services of [go/integration_test.go]: a greeter, a calculator and a
    chat whose history is state that all connections share, with the message
    codec of [GoMessages].  Each is a set of handlers of the Go server of
    [GoServer]; the server's refinement of a sequential service then says what
    the clients of the three get, whatever the interleaving.

    [float64] is a word of 64 bits, its arithmetic that of IEEE 754 as the
    Standard Library specifies it; the bits of a NaN are one value. *)

From Stdlib Require Import SpecFloat.
From stdpp Require Import pretty.
From S2P Require Import Prelude.
From S2P Require Import Status.
From S2P Require Import Frame.
From S2P Require Import Transport.
From S2P Require Import Session.
From S2P Require Import GoFrame.
From S2P Require Import GoWire.
From S2P Require Import GoMessages.
From S2P Require Import GoServer.
From S2P Require Import GoServerInvariants.
From S2P Require Import GoServerRequests.
From S2P Require Import GoServerProperties.

Open Scope Z_scope.

(** ** [float64] *)

Definition float64_decode (b : Z) : spec_float :=
  let s := Z.testbit b 63 in
  let e := Z.land (Z.shiftr b 52) 0x7FF in
  let m := Z.land b (2 ^ 52 - 1) in
  if e =? 0 then match m with Zpos p => S754_finite s p (-1074) | _ => S754_zero s end
  else if e =? 0x7FF then (if m =? 0 then S754_infinity s else S754_nan)
  else match m + 2 ^ 52 with Zpos p => S754_finite s p (e - 1075) | _ => S754_nan end.

Definition float64_encode (x : spec_float) : Z :=
  let sign (s : bool) := if s then 2 ^ 63 else 0 in
  match x with
  | S754_zero s => sign s
  | S754_infinity s => sign s + Z.shiftl 0x7FF 52
  | S754_nan => Z.shiftl 0x7FF 52 + 2 ^ 51 + 1
  | S754_finite s m e => sign s + (if Zpos m <? 2 ^ 52 then Zpos m else Z.shiftl (e + 1075) 52 + (Zpos m - 2 ^ 52))
  end.

Definition float64_op (op : spec_float -> spec_float -> spec_float) (a b : Z) : Z :=
  float64_encode (op (float64_decode a) (float64_decode b)).

Definition float64_add : Z -> Z -> Z := float64_op (SFadd 53 1024).
Definition float64_sub : Z -> Z -> Z := float64_op (SFsub 53 1024).
Definition float64_mul : Z -> Z -> Z := float64_op (SFmul 53 1024).
Definition float64_div : Z -> Z -> Z := float64_op (SFdiv 53 1024).

(** ** The handlers

    A handler gets the state of the application, here the history of the
    chat, and [now], the clock.  It returns [None] when the decoder panics or
    has not reached the end of the request after one round per byte. *)

Definition source_handler : Type :=
  Z -> list ChatMessage -> ServerContext -> bytes -> option (list ChatMessage * ServerContext * (bytes * Go_Status)).

Definition rounds (req : bytes) : nat := S (length req).

(** [if err := r.Unmarshal(req); err != nil { return nil, Status{Internal, err} }]. *)
Definition unmarshaled {M} (r : res M) (app : list ChatMessage) (ctx : ServerContext)
    (k : M -> list ChatMessage * (bytes * Go_Status)) : option (list ChatMessage * ServerContext * (bytes * Go_Status)) :=
  match r with
  | Ok m => let '(app', out) := k m in Some (app', ctx, out)
  | Err msg => Some (app, ctx, ([], Go_mkStatus Go_Internal msg))
  | Panic | Running => None
  end.

Definition sayHello : source_handler := fun _ app ctx req =>
  unmarshaled (HelloRequest_Unmarshal (rounds req) HelloRequest_zero req) app ctx (fun r =>
    (app, (HelloReply_Marshal (mkHelloReply (bytes_of_string "Hello " ++ HelloRequest_Name r)), Go_StatusOK))).

Definition sayHello1 : source_handler := fun _ app ctx _ =>
  Some (app, ctx, ([], Go_mkStatus Go_InvalidArgument "bad request")).

Definition calcHandler (fn : Z -> Z -> Z * Go_Status) : source_handler := fun _ app ctx req =>
  unmarshaled (CalcRequest_Unmarshal (rounds req) CalcRequest_zero req) app ctx (fun r =>
    let '(result, st) := fn (CalcRequest_A r) (CalcRequest_B r) in
    (app, if negb (Go_IsOK st) then ([], st)
          else (CalcResponse_Marshal (mkCalcResponse result []), Go_StatusOK))).

Definition calc_add (a b : Z) : Z * Go_Status := (float64_add a b, Go_StatusOK).
Definition calc_subtract (a b : Z) : Z * Go_Status := (float64_sub a b, Go_StatusOK).
Definition calc_multiply (a b : Z) : Z * Go_Status := (float64_mul a b, Go_StatusOK).
Definition calc_divide (a b : Z) : Z * Go_Status :=
  if float_zero b then (0, Go_mkStatus Go_InvalidArgument "division by zero")
  else (float64_div a b, Go_StatusOK).

Definition message_id (n : nat) : bytes := bytes_of_string ("msg_" +:+ pretty n).

Definition sendMessage : source_handler := fun _ history ctx req =>
  unmarshaled (ChatMessage_Unmarshal (rounds req) ChatMessage_zero req) history ctx (fun msg =>
    let history := (history ++ [msg])%list in
    (history, (SendResult_Marshal (mkSendResult true (message_id (length history))), Go_StatusOK))).

Definition history_limit (limit : Z) (history : list ChatMessage) : nat :=
  if (limit <=? 0) || (Z.of_nat (length history) <? limit) then length history else Z.to_nat limit.

Definition getHistory : source_handler := fun _ history ctx req =>
  unmarshaled (HistoryRequest_Unmarshal (rounds req) HistoryRequest_zero req) history ctx (fun hr =>
    let msgs := take (history_limit (HistoryRequest_Limit hr) history) history in
    (history, (HistoryResponse_Marshal (mkHistoryResponse msgs (u32 (Z.of_nat (length history)))), Go_StatusOK))).

Definition ping : source_handler := fun now history ctx req =>
  unmarshaled (PingRequest_Unmarshal (rounds req) PingRequest_zero req) history ctx (fun pr =>
    (history, (PongResponse_Marshal (mkPongResponse (PingRequest_SentAt pr) now), Go_StatusOK))).

(** [RegisterWith] of the three services. *)
Definition test_services : list (list (Z * source_handler)) :=
  [ [(Go_MethodID "" "Greeter" "SayHello", sayHello); (Go_MethodID "" "Greeter" "SayHello1", sayHello1)];
    [(Go_MethodID "math" "Calculator" "Add", calcHandler calc_add);
     (Go_MethodID "math" "Calculator" "Subtract", calcHandler calc_subtract);
     (Go_MethodID "math" "Calculator" "Multiply", calcHandler calc_multiply);
     (Go_MethodID "math" "Calculator" "Divide", calcHandler calc_divide)];
    [(Go_MethodID "messaging" "Chat" "SendMessage", sendMessage);
     (Go_MethodID "messaging" "Chat" "GetHistory", getHistory);
     (Go_MethodID "messaging" "Chat" "Ping", ping)] ].

(** A handler of the server does what the function does, when that returns. *)
Definition implements (h : Go_MethodHandler (list ChatMessage)) (f : source_handler) : Prop :=
  forall app ctx req, exists now, is_u64 now
  /\ forall r, f now app ctx req = Some r -> h app ctx req = r.

(** [TestMain]: the builder with the services registered, whose handlers are
    [hs]. *)
Definition test_server (hs : list (list (Z * Go_MethodHandler (list ChatMessage)))) : Go_ServerBuilder (list ChatMessage) :=
  foldl (fun b svc => Go_RegisterService svc b)
    (Go_SetHandshakeHeader (bytes_of_string "pc1") (Go_AddListeningPort "127.0.0.1" 0 Go_NewServerBuilder)) hs.

(** ** What the services promise *)

Inductive calc_op := OpAdd | OpSubtract | OpMultiply | OpDivide.

Inductive service_call :=
| CallHello (name : bytes)
| CallHello1 (request : bytes)
| CallCalc (op : calc_op) (a b : Z)
| CallSend (msg : ChatMessage)
| CallHistory (limit : Z)
| CallPing (sentAt : Z).

Inductive service_answer :=
| AnsHello (message : bytes)
| AnsResult (x : Z)
| AnsSent (id : bytes)
| AnsHistory (msgs : list ChatMessage) (total : Z)
| AnsPong (sentAt : Z)
| AnsError (code : Z).

Definition calc_fn (op : calc_op) : Z -> Z -> Z * Go_Status :=
  match op with
  | OpAdd => calc_add | OpSubtract => calc_subtract | OpMultiply => calc_multiply | OpDivide => calc_divide
  end.

(** A call on a history: the history after it, and the answer. *)
Definition service_apply (history : list ChatMessage) (c : service_call) : list ChatMessage * service_answer :=
  match c with
  | CallHello name => (history, AnsHello (bytes_of_string "Hello " ++ name)%list)
  | CallHello1 _ => (history, AnsError Go_InvalidArgument)
  | CallCalc op a b =>
    let '(x, st) := calc_fn op a b in (history, if Go_IsOK st then AnsResult x else AnsError (go_Code st))
  | CallSend msg => let history := (history ++ [msg])%list in (history, AnsSent (message_id (length history)))
  | CallHistory limit =>
    (history, AnsHistory (take (history_limit limit history) history) (u32 (Z.of_nat (length history))))
  | CallPing sentAt => (history, AnsPong sentAt)
  end.

Fixpoint service_run (history : list ChatMessage) (cs : list service_call) : list ChatMessage * list service_answer :=
  match cs with
  | [] => (history, [])
  | c :: cs =>
    let '(history1, a) := service_apply history c in
    let '(history2, answers) := service_run history1 cs in (history2, a :: answers)
  end.

(** The request of a call, and whether a response carries an answer. *)
Definition call_request (c : service_call) : Z * bytes :=
  match c with
  | CallHello name => (Go_MethodID "" "Greeter" "SayHello", HelloRequest_Marshal (mkHelloRequest name))
  | CallHello1 request => (Go_MethodID "" "Greeter" "SayHello1", request)
  | CallCalc op a b =>
    (Go_MethodID "math" "Calculator"
       (match op with OpAdd => "Add" | OpSubtract => "Subtract" | OpMultiply => "Multiply" | OpDivide => "Divide" end),
     CalcRequest_Marshal (mkCalcRequest a b))
  | CallSend msg => (Go_MethodID "messaging" "Chat" "SendMessage", ChatMessage_Marshal msg)
  | CallHistory limit => (Go_MethodID "messaging" "Chat" "GetHistory", HistoryRequest_Marshal (mkHistoryRequest limit))
  | CallPing sentAt => (Go_MethodID "messaging" "Chat" "Ping", PingRequest_Marshal (mkPingRequest sentAt))
  end.

(** [Unmarshal] into a zero message, however many rounds it is given beyond
    the length of the buffer. *)
Definition reads_as {M} (Unmarshal : nat -> M -> bytes -> res M) (zero m : M) (b : bytes) : Prop :=
  forall fuel, (length b < fuel)%nat -> Unmarshal fuel zero b = Ok m.

Definition answers_with (a : service_answer) (code : Z) (b : bytes) : Prop :=
  match a with
  | AnsError c => code = c /\ b = []
  | _ => code = Go_OK /\
    match a with
    | AnsHello message => reads_as HelloReply_Unmarshal HelloReply_zero (mkHelloReply message) b
    | AnsResult x => reads_as CalcResponse_Unmarshal CalcResponse_zero (mkCalcResponse x []) b
    | AnsSent id => reads_as SendResult_Unmarshal SendResult_zero (mkSendResult true id) b
    | AnsHistory msgs total => reads_as HistoryResponse_Unmarshal HistoryResponse_zero (mkHistoryResponse msgs total) b
    | AnsPong sentAt => exists now, reads_as PongResponse_Unmarshal PongResponse_zero (mkPongResponse sentAt now) b
    | AnsError _ => False
    end
  end.

(** The arguments of a call are of their types; a message is none that the
    codec loses, a number not the negative zero. *)
Definition call_ok (c : service_call) : Prop :=
  fits (call_request c).2 /\
  match c with
  | CallHello name => fits name
  | CallHello1 _ => True
  | CallCalc op a b => double_ok a /\ double_ok b /\ double_ok (calc_fn op a b).1
  | CallSend msg => kept msg
  | CallHistory limit => is_u32 limit
  | CallPing sentAt => is_u64 sentAt
  end.

(** ** The handlers keep the promise *)

Definition call_handler (c : service_call) : source_handler :=
  match c with
  | CallHello _ => sayHello
  | CallHello1 _ => sayHello1
  | CallCalc op _ _ => calcHandler (calc_fn op)
  | CallSend _ => sendMessage
  | CallHistory _ => getHistory
  | CallPing _ => ping
  end.

(** A decoded request is the one encoded. *)
Lemma unmarshaled_ok {M} (Marshal : M -> bytes) (Unmarshal : nat -> M -> bytes -> res M) zero m app ctx k :
  roundtrips Marshal Unmarshal zero m -> fits (Marshal m) ->
  unmarshaled (Unmarshal (rounds (Marshal m)) zero (Marshal m)) app ctx k
  = Some ((k m).1, ctx, (k m).2).
Proof. intros Hr Hf. unfold unmarshaled, rounds. rw Hr //; [lia|]. by destruct (k m). Qed.

Lemma roundtrips_reads {M} (Marshal : M -> bytes) (Unmarshal : nat -> M -> bytes -> res M) zero m :
  roundtrips Marshal Unmarshal zero m -> fits (Marshal m) -> reads_as Unmarshal zero m (Marshal m).
Proof. intros Hr Hf fuel Hl. by apply Hr. Qed.

Lemma EncodeString_fits num s e : fits (EncodeString num s e) -> fits s.
Proof.
  unfold EncodeString, fits. destruct s as [|x s]; [done|]. rw size_of_app. pose proof (size_of_nonneg
    (appendVarint (u64 (size_of (x :: s))) (appendTag num WireBytes e))). lia.
Qed.

(** What a handler returns for a call: an error without a payload, or the
    answer. *)
Definition kept_promise (a : service_answer) (out : bytes) (st : Go_Status) : Prop :=
  is_u16 (go_Code st) /\
  if Go_IsOK st then fits out -> answers_with a Go_OK out else out = [] /\ a = AnsError (go_Code st).

Lemma calc_answered op a b app ctx now :
  call_ok (CallCalc op a b) ->
  exists out st, calcHandler (calc_fn op) now app ctx (call_request (CallCalc op a b)).2 = Some (app, ctx, (out, st))
  /\ kept_promise (service_apply app (CallCalc op a b)).2 out st.
Proof.
  intros (Hf & Ha & Hb & Hx). simpl in Hf.
  unfold calcHandler. simpl.
  rw (unmarshaled_ok CalcRequest_Marshal CalcRequest_Unmarshal) //; [by apply CalcRequest_roundtrip|]. simpl.
  destruct (calc_fn op a b) as [x st] eqn:E. simpl in Hx.
  assert (st = Go_StatusOK \/ st = Go_mkStatus Go_InvalidArgument "division by zero") as Hst.
  { destruct op; unfold calc_fn, calc_add, calc_subtract, calc_multiply, calc_divide in E; try case_match; simplify_eq; auto. }
  destruct Hst as [-> | ->]; simpl; eexists _, _; (split; [done|]); split; try done.
  intros Hfo. split; [done|]. by apply roundtrips_reads; [apply CalcResponse_roundtrip|].
Qed.

Lemma call_answered c app ctx now :
  call_ok c -> Forall kept app -> is_u64 now ->
  exists out st, call_handler c now app ctx (call_request c).2 = Some ((service_apply app c).1, ctx, (out, st))
  /\ kept_promise (service_apply app c).2 out st.
Proof.
  intros Hok Hk Hnow. destruct c as [name|req|op a b|msg|limit|sent].
  3: { destruct (calc_answered op a b app ctx now Hok) as (out & st & E & H). exists out, st.
       split; [|done]. simpl in *. rw E. by destruct (calc_fn op a b). }
  all: destruct Hok as [Hf Hok]; simpl in Hf |- *.
  2: { eexists _, _. split; [done|]. by split. }
  - unfold sayHello.
    rw (unmarshaled_ok HelloRequest_Marshal HelloRequest_Unmarshal) //; [by apply HelloRequest_roundtrip|].
    eexists _, _. split; [done|]. split; [done|]. intros Hfo. split; [done|].
    apply roundtrips_reads; [|done]. apply HelloReply_roundtrip. by eapply EncodeString_fits.
  - unfold sendMessage. destruct Hok as (Hm & _).
    rw (unmarshaled_ok ChatMessage_Marshal ChatMessage_Unmarshal) //; [by apply ChatMessage_roundtrip|].
    eexists _, _. split; [done|]. split; [done|]. intros Hfo. split; [done|].
    apply roundtrips_reads; [|done]. apply SendResult_roundtrip. by eapply EncodeString_fits.
  - unfold getHistory.
    rw (unmarshaled_ok HistoryRequest_Marshal HistoryRequest_Unmarshal) //; [by apply HistoryRequest_roundtrip|].
    eexists _, _. split; [done|]. split; [done|]. intros Hfo. split; [done|].
    apply roundtrips_reads; [|done]. apply HistoryResponse_roundtrip; [by apply Forall_take|apply u32_range].
  - unfold ping.
    rw (unmarshaled_ok PingRequest_Marshal PingRequest_Unmarshal) //; [by apply PingRequest_roundtrip|].
    eexists _, _. split; [done|]. split; [done|]. intros Hfo. split; [done|]. exists now.
    by apply roundtrips_reads; [apply PongResponse_roundtrip|].
Qed.

Lemma apply_kept app c : call_ok c -> Forall kept app -> Forall kept (service_apply app c).1.
Proof.
  intros [_ Hok] Hk. destruct c as [|?|op a b|msg|?|?]; simpl; try done; [by destruct (calc_fn op a b)|].
  apply Forall_app. by split; [|constructor].
Qed.

(** One request at the server. *)
Lemma serve_call cfg h addr app hdr c :
  sc_handlers cfg !! (call_request c).1 = Some h -> implements h (call_handler c) ->
  call_ok c -> Forall kept app -> go_MethodID hdr = (call_request c).1 ->
  exists l resp, Go_serveRequest cfg addr app hdr (call_request c).2 = ((service_apply app c).1, l, resp)
  /\ (fits resp.2 -> answers_with (service_apply app c).2 (go_StatusCode resp.1) resp.2).
Proof.
  intros Hh Himp Hok Hk Hid. unfold Go_serveRequest. rw Hid Hh.
  set (ctx := mkContext _ _ _ _ _ _ _). destruct (Himp app ctx (call_request c).2) as (now & Hnow & Hret).
  destruct (call_answered c app ctx now Hok Hk Hnow) as (out & st & E & Hu & Ha).
  rw (Hret _ E). unfold Go_response_header. destruct (Go_IsOK st) eqn:Est; simpl; eexists _, _; (split; [done|]); simpl.
  - intros Hfo. by apply Ha.
  - intros _. destruct Ha as [_ ->]. simpl. by rw u16_small.
Qed.

(** ** The registered handlers *)

Lemma foldl_register {App} (ms : list (Z * Go_MethodHandler App)) m0 k h :
  NoDup ms.*1 -> (k, h) ∈ ms -> foldl (fun hs m => Go_RegisterMethod m.1 m.2 hs) m0 ms !! k = Some h.
Proof.
  revert m0. induction ms as [|[k1 h1] ms IH]; intros m0 Hn Hin; [by apply elem_of_nil in Hin|].
  rw fmap_cons in Hn. apply NoDup_cons in Hn as [Hk Hn]. apply elem_of_cons in Hin as [[= <- <-]|Hin]; simpl; [|by apply IH].
  clear IH. revert m0. unfold Go_RegisterMethod. induction ms as [|[k2 h2] ms IH] using rev_ind; intros m0; [apply lookup_insert_eq|].
  rw foldl_app /= lookup_insert_ne.
  - intros ->. apply Hk. rw fmap_app. apply elem_of_app. right. by left.
  - rw fmap_app in Hk. rw fmap_app in Hn. apply IH; [|by apply NoDup_app in Hn as [? _]].
    intros Hin. apply Hk, elem_of_app. by left.
Qed.

Lemma foldl_services {App} (svcs : list (list (Z * Go_MethodHandler App))) m0 :
  foldl (fun hs svc => foldl (fun hs m => Go_RegisterMethod m.1 m.2 hs) hs svc) m0 svcs
  = foldl (fun hs m => Go_RegisterMethod m.1 m.2 hs) m0 (concat svcs).
Proof. revert m0. induction svcs as [|svc svcs IH]; intros m0; [done|]. simpl. by rw foldl_app IH. Qed.

Lemma test_server_services hs : gb_services (test_server hs) = hs.
Proof.
  unfold test_server. set (b := Go_SetHandshakeHeader _ _). assert (gb_services b = []) as Hb by done. clearbody b.
  enough (gb_services (foldl (fun b svc => Go_RegisterService svc b) b hs) = (gb_services b ++ hs)%list) as -> by (by rw Hb).
  clear Hb. revert b. induction hs as [|svc hs IH]; intros b; simpl; [by rw app_nil_r|]. by rw IH /= -app_assoc.
Qed.

(** The handlers given to the server are those of the three services. *)
Definition test_handlers (hs : list (list (Z * Go_MethodHandler (list ChatMessage)))) : Prop :=
  Forall2 (Forall2 (fun m f => m.1 = f.1 /\ implements m.2 f.2)) hs test_services.

Lemma Forall2_concat {X Y} (R : X -> Y -> Prop) xss yss : Forall2 (Forall2 R) xss yss -> Forall2 R (concat xss) (concat yss).
Proof. induction 1; simpl; [constructor|]. by apply Forall2_app. Qed.

Lemma Forall2_keys {X Y} (R : X -> Y -> Prop) (ms : list (Z * X)) (fs : list (Z * Y)) :
  Forall2 (fun m f => m.1 = f.1 /\ R m.2 f.2) ms fs -> ms.*1 = fs.*1.
Proof. induction 1 as [|m f ms fs [E _] _ IH]; [done|]. by rw !fmap_cons E IH. Qed.

Lemma test_handler_of hs c :
  test_handlers hs ->
  exists h, sc_handlers (Go_build (test_server hs)) !! (call_request c).1 = Some h /\ implements h (call_handler c).
Proof.
  intros Hh%Forall2_concat.
  assert (exists i, concat test_services !! i = Some ((call_request c).1, call_handler c)) as [i Hi].
  { destruct c as [| |[]| | |];
      [exists 0%nat|exists 1%nat|exists 2%nat|exists 3%nat|exists 4%nat|exists 5%nat|exists 6%nat|exists 7%nat|exists 8%nat];
      reflexivity. }
  pose proof (Forall2_keys _ _ _ Hh) as Hkeys.
  destruct (Forall2_lookup_r _ _ _ _ _ Hh Hi) as ([k h] & Hk & Ek & Himp). cbn [fst snd] in Ek, Himp. subst k.
  exists h. split; [|done]. simpl. rw test_server_services foldl_services. apply foldl_register.
  - rw Hkeys. apply (bool_decide_unpack _). by vm_compute.
  - by eapply list_elem_of_lookup_2.
Qed.

(** ** The server *)

(** The request that the server executed was the call's. *)
Definition requests_call (r : string * (Go_FrameHeader * bytes)) (c : service_call) : Prop :=
  go_MethodID r.2.1 = (call_request c).1 /\ r.2.2 = (call_request c).2 /\ call_ok c.

Lemma sequential_calls hs app reqs calls app' frames :
  test_handlers hs -> Forall kept app -> Forall2 requests_call reqs calls ->
  cpp_serve_all (Go_build (test_server hs)) app reqs = Some (app', frames) -> Forall (fun f => fits f.2) frames ->
  app' = (service_run app calls).1
  /\ Forall2 (fun a f => answers_with a (status_code f.1) f.2) (service_run app calls).2 frames.
Proof.
  intros Hh Hk Hreq. revert app frames Hk.
  induction Hreq as [|[addr [hdr payload]] c reqs calls (Hid & Hp & Hok) _ IH]; intros app frames Hk Hs Hf; simpl in *.
  { simplify_eq. by split; [|constructor]. }
  destruct (test_handler_of hs c Hh) as (h & Hl & Himp). subst payload.
  destruct (serve_call _ h addr app hdr c Hl Himp Hok Hk Hid) as (l & resp & Hserve & Hans).
  destruct (Go_serveRequest_cpp _ _ _ _ _ _ _ _ Hserve) as [l' Hpr]. rw Hpr in Hs.
  destruct (cpp_serve_all _ (service_apply app c).1 reqs) as [[app2 rs]|] eqn:E; simplify_eq/=.
  apply Forall_cons_1 in Hf as [Hf Hfs]. pose proof (apply_kept app c Hok Hk) as Hk1.
  destruct (service_apply app c) as [app1 a]. simpl in *. destruct (IH app1 rs Hk1 E Hfs) as [-> Hrs].
  destruct (service_run app1 calls) as [app2 answers]. simpl in *. split; [done|]. constructor; [by apply Hans|done].
Qed.

(** C10: the services on the Go server are linearizable.  The Go server runs
    the greeter, the calculator and the chat; connections, requests and
    goroutines interleave in any way.  If the requests whose handlers ran were
    those of calls [calls], in that order, then the history of the chat is
    that of the calls done one after the other, and the response written for
    each decodes to the answer of its call there: the greeting, the sum, the
    identifier numbered by the messages before, the first [limit] messages,
    the echoed time, or the error code. *)
Theorem services_linearizable {A : Asio} hs es (s : Go_server (list ChatMessage)) calls :
  test_handlers hs ->
  run_events (Go_server_step (Go_build (test_server hs))) es (Go_start []) = Some s ->
  Forall2 requests_call ((sh_served (sv_history s)).*1).*2 calls ->
  Forall (fun x => fits x.2.2) (sh_served (sv_history s)) ->
  sv_app s = (service_run [] calls).1
  /\ Forall2 (fun a f => answers_with a (go_StatusCode f.1) f.2) (service_run [] calls).2 (sh_served (sv_history s)).*2.
Proof.
  intros Hh Hi%Go_server_inv Hreq Hfit. pose proof (sf_sequential _ _ _ (si_facts _ _ _ Hi)) as Hseq.
  destruct (sequential_calls hs [] _ calls _ _ Hh (Forall_nil_2 _) Hreq Hseq) as [Happ Hans].
  - rw !Forall_fmap. exact Hfit.
  - split; [done|]. rw Forall2_fmap_r in Hans. exact Hans.
Qed.

(** ** The test server, run *)

Definition returning (f : source_handler) : Go_MethodHandler (list ChatMessage) := fun app ctx req =>
  default (app, ctx, ([], Go_mkStatus Go_Internal EmptyString)) (f 0 app ctx req).

Lemma returning_implements f : implements (returning f) f.
Proof. intros app ctx req. exists 0. split; [by unfold is_u64|]. intros r E. unfold returning. by rw E. Qed.

Definition test_main : list (list (Z * Go_MethodHandler (list ChatMessage))) :=
  map (map (fun m => (m.1, returning m.2))) test_services.

Lemma test_main_handlers : test_handlers test_main.
Proof.
  apply (Forall2_fmap_l (map (fun m => (m.1, returning m.2)))), Forall_Forall2_diag, Forall_forall. intros svc _.
  apply (Forall2_fmap_l (fun m => (m.1, returning m.2))), Forall_Forall2_diag, Forall_forall. intros m _.
  split; [done|apply returning_implements].
Qed.

(** A client asks for the history and posts a message; the second request's
    handler runs first. *)
Definition first_message : ChatMessage := mkChatMessage (bytes_of_string "alice") (bytes_of_string "hi") 1.

Definition chat_request (id : Z) (c : service_call) : Go_FrameHeader * bytes :=
  go_demo_req id (call_request c).1 (call_request c).2.

Definition chat_peer : pipe :=
  mkPipe (b8 "pc1" ++ encode_go (chat_request 5 (CallHistory 0)) ++ encode_go (chat_request 6 (CallSend first_message)))%list
    [] None true.

Definition chat_events : list (@Go_server_event pipe_asio) :=
  [ SEAccept 0 (inl (chat_peer, "peer:1")); SEStep 0 0; SEStep 1 0; SEStep 1 0; SEStep 1 0; SEStep 1 0; SEStep 1 0;
    SEStep 1 0; SEStep 1 0; SEStep 3 0; SEStep 2 0; SEStep 2 0; SEStep 2 0; SEStep 3 0; SEStep 2 0; SEStep 2 0;
    SEStep 3 0; SEStep 3 0 ].

Lemma services_linearizable_witness :
  match run_events (Go_server_step (Go_build (test_server test_main))) chat_events (Go_start []) with
  | Some s => sv_app s = [first_message]
    /\ Forall2 (fun a f => answers_with a (go_StatusCode f.1) f.2)
         [AnsSent (bytes_of_string "msg_1"); AnsHistory [first_message] 1] (sh_served (sv_history s)).*2
  | None => False
  end.
Proof.
  destruct (run_events _ chat_events _) as [s|] eqn:E; [|by vm_compute in E].
  assert (((sh_served (sv_history s)).*1).*2
    = [("peer:1", chat_request 6 (CallSend first_message)); ("peer:1", chat_request 5 (CallHistory 0))]
    /\ forallb (fun x => size_of x.2.2 <? 2 ^ 62) (sh_served (sv_history s)) = true) as [Hreq Hfit].
  { vm_compute in E. simplify_eq. by vm_compute. }
  pose proof (services_linearizable test_main chat_events s [CallSend first_message; CallHistory 0] test_main_handlers E) as H.
  apply H.
  - rw Hreq. repeat constructor; by vm_compute.
  - apply Forall_forall. intros x Hx. apply Z.ltb_lt.
    rw forallb_forall in Hfit. apply Hfit. by apply list_elem_of_In.
Defined.

(** The numbers of the tests of the calculator: [3.14 + 2.86], [10 - 3.5],
    [7 * 6], [22 / 7], [1 / 0] and [1 / -0]. *)
Lemma calculator_vectors :
  float64_add 0x40091EB851EB851F 0x4006E147AE147AE1 = 0x4018000000000000
  /\ float64_sub 0x4024000000000000 0x400C000000000000 = 0x401A000000000000
  /\ float64_mul 0x401C000000000000 0x4018000000000000 = 0x4045000000000000
  /\ float64_div 0x4036000000000000 0x401C000000000000 = 0x4009249249249249
  /\ (calc_divide 0x3FF0000000000000 0).2 = Go_mkStatus Go_InvalidArgument "division by zero"
  /\ (calc_divide 0x3FF0000000000000 (2 ^ 63)).2 = Go_mkStatus Go_InvalidArgument "division by zero".
Proof. by vm_compute. Qed.
