(* ===== verification/GoShutdown.v ===== *)
(** * GoShutdown: shutting the Go server down completes

    Once [Shutdown] has closed [done], every step of the goroutines brings
    the server closer to rest: connections read what their peers have sent
    and end, requests are answered or dropped, and the goroutines that wait
    (for a slot, a mutex, the requests of a connection or the [WaitGroup])
    wait for one that can move. *)

From S2P Require Import Prelude.
From S2P Require Import Status.
From S2P Require Import Frame.
From S2P Require Import Transport.
From S2P Require Import Session.
From S2P Require Import Goroutines.
From S2P Require Import GoFrame.
From S2P Require Import GoServer.
From S2P Require Import GoServerInvariants.
From S2P Require Import GoServerRequests.
From S2P Require Import GoServerProperties.

Open Scope protocomm_scope.
Open Scope nat_scope.

(** ** How far a goroutine is from its end *)

Definition after_cost (k : Go_after) : nat :=
  match k with
  | AfterRequest _ => 3
  | AfterSend => 0
  | AfterBroadcast peers _ _ => 1 + 3 * length peers
  end.

(** At most, in steps of its own and of the goroutines it starts; [n] bounds
    the number of connections in the table. *)
Definition cost (n : nat) (pc : Go_server_pc) : nat :=
  match pc with
  | SAccept => 1
  | SAccepted _ => 11
  | HConnect _ => 9
  | HReadHandshake _ => 8
  | HWriteHandshake _ => 7
  | HRead _ => 6
  | HSem _ _ _ _ => 13
  | HWait _ => 5
  | HDisconnect _ => 4
  | HDelete _ => 3
  | HClose _ => 2
  | HEnd _ => 1
  | RServe _ _ _ _ => 6
  | WHeader _ _ k => 2 + after_cost k
  | WPayload _ _ k => 1 + after_cost k
  | RFail _ _ => 3
  | RRelease _ _ => 2
  | REnd _ _ => 1
  | BSend peers _ _ => 1 + 3 * length peers
  | BStart _ _ => 2 + 3 * n
  | PClose _ => 1
  | DSelect => 5
  | DClose => 4
  | DListener => 3
  | DConns => 2
  | DWait => 1
  | SDone => 0
  end.

Lemma cost_after n p k ok : cost n (after_write p k ok) <= after_cost k.
Proof. destruct k, ok; simpl; lia. Qed.

(** Events of the goroutines that run already; [Accept] returns an error. *)
Definition runs_on {A : Asio} (e : Go_server_event) : Prop :=
  match e with SEStep _ _ | SEAccept _ (inr _) => True | _ => False end.

Section Shutdown.
Context {A : Asio} `{!AsioStream A} {App : Type}.
Variable cfg : Go_config App.
Implicit Types (s : Go_server App).

(** What the peers have sent and was not read. *)
Definition lens (ps : list Go_peer) : list nat := (fun peer => length (incoming (gp_conn peer))) <$> ps.
Definition unread s : nat := sum_list (lens (sv_peers s)).

Definition remaining s : nat :=
  sum_list_with (cost (length (sv_peers s))) (sv_threads s) + unread s.

(** [done] is closed, and nobody is about to close it again. *)
Record closing s : Prop := {
  cl_done : ct_done (sv_control s) = true;
  cl_panicked : ct_panicked (sv_control s) = false;
  cl_once : threads_all (fun _ pc => pc <> DClose) (sv_threads s)
}.

Lemma closing_step e s s' : runs_on e -> closing s -> Go_server_step cfg e s = Some s' -> closing s'.
Proof.
  intros He [Hd Hp Ho] E. sv_cases E; simpl in Hd, Hp, Ho, He; try done.
  all: try match goal with Hpc : _ !! _ = Some _ |- _ => pose proof (Ho _ _ Hpc) as Ht; simpl in Ht end.
  all: repeat case_match; simplify_eq/=; constructor; simpl; try done.
  all: threads_cases Ho; try done; by destruct k.
Qed.

Lemma Go_ReadFrame_shrinks (r r' : socket) res :
  Go_ReadFrame r = (r', res) ->
  length (incoming r') + (if res is inl _ then kSize else 0) <= length (incoming r).
Proof.
  unfold Go_ReadFrame. change Go_FrameHeaderSize with kSize.
  destruct (asio_read r _) as [[r1 buf] [e|]] eqn:E1.
  - intros [= <- <-]. apply read_error_suffix in E1 as [_ [k ->]]. rw length_drop. lia.
  - apply read_fills in E1 as [Hl ->]. rw length_zeros in Hl. rw length_app Hl.
    destruct (0 <? _)%Z; [|intros [= <- <-]; lia].
    destruct (asio_read r1 _) as [[r2 p] [e|]] eqn:E2; intros [= <- <-].
    + apply read_error_suffix in E2 as [_ [k ->]]. rw length_drop. lia.
    + apply read_fills in E2 as [_ ->]. rw length_app. lia.
Qed.

Lemma lens_close ps p : lens (alter close_conn p ps) = lens ps.
Proof. apply column_close. intros peer. by rw /= close_keeps_in. Qed.
Lemma lens_close_all ps l : lens (foldl (fun ps p => alter close_conn p ps) ps l) = lens ps.
Proof. apply column_close_all. intros peer. by rw /= close_keeps_in. Qed.
Lemma lens_same ps p peer peer' :
  ps !! p = Some peer -> incoming (gp_conn peer') = incoming (gp_conn peer) ->
  lens (<[p := peer']> ps) = lens ps.
Proof. intros Hp Ho. eapply (column_insert (fun peer => length (incoming (gp_conn peer)))); [done|]. by rw Ho. Qed.

Lemma lens_read ps p peer (conn : socket) n :
  ps !! p = Some peer -> length (incoming conn) + n <= length (incoming (gp_conn peer)) ->
  sum_list (lens (<[p := set_conn conn peer]> ps)) + n <= sum_list (lens ps).
Proof.
  intros Hp Hn. unfold lens. rw list_fmap_insert.
  pose proof (sum_insert id (lens ps) p (length (incoming (gp_conn peer))) (length (incoming conn))) as Hi.
  unfold lens in Hi. rw list_lookup_fmap Hp in Hi. specialize (Hi eq_refl). simpl in *. lia.
Qed.

Lemma asio_read_shrinks (r r' : socket) buf buf' err :
  asio_read r buf = (r', buf', err) -> length (incoming r') + 0 <= length (incoming r).
Proof.
  destruct err; intros E.
  - apply read_error_suffix in E as [_ [k ->]]. rw length_drop. lia.
  - apply read_fills in E as [_ ->]. rw length_app. lia.
Qed.

(** The table is not larger than the list of connections. *)
Lemma table_size s : ids_ok s -> length (map_to_list (ct_sessions (sv_control s))).*2 <= length (sv_peers s).
Proof.
  intros H. rw -(length_seq (length (sv_peers s)) 0). apply submseteq_length, NoDup_submseteq.
  - apply NoDup_fmap_2_strong; [|apply NoDup_map_to_list].
    intros [i p] [j q] Hi%elem_of_map_to_list Hj%elem_of_map_to_list. simpl. intros ->.
    apply (id_table _ H) in Hi, Hj. by simplify_eq.
  - intros p ([id q] & -> & Hq%elem_of_map_to_list)%list_elem_of_fmap.
    apply (id_table _ H), lookup_lt_Some in Hq. rw length_fmap in Hq. apply elem_of_seq. simpl. lia.
Qed.

Lemma remaining_step e s s' :
  runs_on e -> closing s -> ids_ok s -> Go_server_step cfg e s = Some s' -> remaining s' < remaining s.
Proof.
  intros He [Hd _ Ho] Hids E. pose proof (table_size s Hids) as Hts. unfold remaining, unread.
  sv_cases E; simpl in Hd, Ho, He, Hts; try done.
  all: try match goal with Hpc : ?ts !! ?t = Some ?pc |- _ =>
        pose proof (fun n pc' => sum_insert (cost n) ts t pc pc' Hpc) as Hi;
        pose proof (Ho _ _ Hpc) as Ht; simpl in Ht end.
  all: repeat case_match; simplify_eq/=.
  all: rw ?length_close_all ?length_insert ?length_alter ?lens_close ?lens_close_all.
  all: rw ?sum_list_with_app /=.
  all: try match goal with |- context [sum_list_with (cost ?n) (<[_:=?pc]> _)] =>
         specialize (Hi n pc); simpl in Hi end.
  all: try match goal with Hw : asio_write _ _ = _ |- _ => apply write_keeps_in in Hw end.
  all: try match goal with Hp : _ !! _ = Some _ |- _ => rw (lens_same _ _ _ _ Hp); [done|] end.
  all: try match goal with
    | Hp : _ !! _ = Some ?g, Hr : asio_read (gp_conn ?g) _ = _ |- _ =>
        apply asio_read_shrinks in Hr; pose proof (lens_read _ _ _ _ _ Hp Hr)
    | Hp : _ !! _ = Some ?g, Hr : Go_ReadFrame (gp_conn ?g) = _ |- _ =>
        apply Go_ReadFrame_shrinks in Hr; pose proof (lens_read _ _ _ _ _ Hp Hr) end.
  all: try match goal with Hc : context [cost ?n (after_write ?p ?k ?b)] |- _ => pose proof (cost_after n p k b) end.
  all: try (unfold kSize in *; lia).
  match goal with Hc : _ !! choice = Some _ |- _ =>
    pose proof (length_delete _ _ (mk_is_Some _ _ Hc)) as Hdel end. simpl in Hdel. lia.
Qed.

(** ** Somebody can move *)

Definition can_run s : Prop := exists e s', runs_on e /\ Go_server_step cfg e s = Some s'.

(** The goroutine at [pc] waits for another. *)
Definition waiting s (pc : Go_server_pc) : bool :=
  match pc with
  | SDone => true
  | WHeader p _ _ => bool_decide ((gp_writeMu <$> sv_peers s) !! p <> Some None)
  | HWait p => bool_decide ((gp_inflight <$> sv_peers s) !! p <> Some 0)
  | DWait => negb (ct_wg (sv_control s) =? 0)
  | _ => false
  end.

Lemma thread_runs app0 s t pc :
  go_server_inv cfg app0 s -> closing s -> sv_threads s !! t = Some pc -> waiting s pc = false -> can_run s.
Proof.
  intros Hi [Hd Hp _] Hpc Hw. pose proof (bo_threads _ (si_bounds _ _ _ Hi) _ _ Hpc) as Hb.
  destruct s as [app ct ps ts h]. cbn [sv_control sv_threads sv_peers] in *.
  assert (forall p, p ∈ mentions pc -> exists peer, ps !! p = Some peer) as Hpeer.
  { intros p Hin. apply lookup_lt_is_Some, (proj1 (Forall_forall _ _) Hb _ Hin). }
  assert (forall e, runs_on e -> (exists s', Go_server_step cfg e (Go_mkServer app ct ps ts h) = Some s') ->
    can_run (Go_mkServer app ct ps ts h)) as Hgo by (intros e He [s' Es]; by exists e, s').
  destruct pc as [|p|p|p|p|p|p n hdr pl|p|p|p|p|p|p n hdr pl|p f k|p f k|p n|p n|p n|[|q qs] mid pl|mid pl|p| | | | | |];
    try discriminate Hw; simpl in Hpeer.
  all: try (destruct (Hpeer p) as [peer Hpe]; [repeat case_match; set_solver|]).
  1: { apply (Hgo (SEAccept t (inr tt))); [done|]. simpl. rw Hp Hpc /= Hd. by eexists. }
  6: { apply (Hgo (SEStep t 1)); [done|]. simpl. rw Hp Hpc /= Hd Hpe /take_slot.
       destruct (sc_sem cfg); [rw bool_decide_true //|rw bool_decide_false; [by intros []|]]; by eexists. }
  all: apply (Hgo (SEStep t 0)); [done|]; simpl; rw Hp Hpc /= ?Hpe.
  all: try (repeat case_match; by eexists).
  - apply bool_decide_eq_false, dec_stable in Hw. simpl in Hw. rw list_lookup_fmap Hpe in Hw.
    injection Hw as ->. by eexists.
  - apply bool_decide_eq_false, dec_stable in Hw. simpl in Hw. rw list_lookup_fmap Hpe in Hw.
    injection Hw as ->. repeat case_match; by eexists.
  - apply negb_false_iff in Hw. rw Hw. by eexists.
Qed.

(** A goroutine that wants a write mutex waits for one that writes. *)
Lemma writer_runs app0 s t p f k :
  go_server_inv cfg app0 s -> closing s -> sv_threads s !! t = Some (WHeader p f k) -> can_run s.
Proof.
  intros Hi Hc Hpc. destruct (waiting s (WHeader p f k)) eqn:Hw; [|by eapply thread_runs].
  simpl in Hw. apply bool_decide_eq_true in Hw.
  pose proof (bo_threads _ (si_bounds _ _ _ Hi) _ _ Hpc) as Hb.
  assert (p < length (sv_peers s)) as Hp by (destruct k; simpl in Hb; by apply Forall_cons in Hb as [? _]).
  destruct (lookup_lt_is_Some_2 _ _ Hp) as [peer Hpe]. rw list_lookup_fmap Hpe in Hw. simpl in Hw.
  destruct (gp_writeMu peer) as [u|] eqn:Em; [|done].
  destruct (wr_mutex _ _ (si_writers _ _ _ Hi) p u) as (pc & Hu & Hq); [by rw list_lookup_fmap Hpe /= Em|].
  eapply thread_runs; [done|done|exact Hu|]. by destruct pc.
Qed.

(** The requests of a connection that are being served. *)
Lemma request_runs app0 s p :
  go_server_inv cfg app0 s -> closing s -> 1 <= sum_list_with (in_flight p) (sv_threads s) -> can_run s.
Proof.
  intros Hi Hc Hs. destruct (sum_pos _ _ Hs) as (t & pc & Hpc & Hf). unfold in_flight in Hf.
  case_bool_decide as Hse; [|lia].
  destruct pc as [| | | | | | | | | | | | | ? ? k | | | | | | | | | | | | |]; try discriminate Hse;
    try (by eapply writer_runs); by eapply thread_runs.
Qed.

(** The goroutines [wg] counts. *)
Lemma counted_runs app0 s t pc :
  go_server_inv cfg app0 s -> closing s -> sv_threads s !! t = Some pc -> in_wg pc = 1 -> can_run s.
Proof.
  intros Hi Hc Hpc Hw. destruct (waiting s pc) eqn:Hwait; [|by eapply thread_runs].
  destruct pc; try discriminate. simpl in Hwait. apply bool_decide_eq_true in Hwait.
  pose proof (bo_threads _ (si_bounds _ _ _ Hi) _ _ Hpc) as Hb. simpl in Hb. rw Forall_singleton in Hb.
  destruct (lookup_lt_is_Some_2 _ _ Hb) as [peer Hpe]. rw list_lookup_fmap Hpe in Hwait. simpl in Hwait.
  eapply (request_runs _ _ p); [done|done|].
  rw -(si_inflight _ _ _ Hi p (gp_inflight peer)); [by rw list_lookup_fmap Hpe|].
  destruct (gp_inflight peer); [done|lia].
Qed.

Definition ended (pc : Go_server_pc) : bool := match pc with SDone => true | _ => false end.
Definition all_ended s : Prop := Forall (fun pc => ended pc = true) (sv_threads s).

Lemma progress app0 s : go_server_inv cfg app0 s -> closing s -> all_ended s \/ can_run s.
Proof.
  intros Hi Hc. destruct (decide (all_ended s)) as [He|He]; [by left|right].
  apply not_Forall_Exists in He; [|apply _]. apply Exists_exists in He as (pc & Hin & Hne).
  apply list_elem_of_lookup in Hin as [t Hpc].
  destruct (waiting s pc) eqn:Hw; [|by eapply thread_runs].
  destruct pc; try discriminate Hw; try done.
  - by eapply counted_runs.
  - by eapply writer_runs.
  - simpl in Hw. apply negb_true_iff, Nat.eqb_neq in Hw. rw (si_wg _ _ _ Hi) in Hw.
    destruct (sum_pos in_wg (sv_threads s)) as (t' & pc & Hpc' & Hg); [lia|].
    eapply counted_runs; [done|done|exact Hpc'|]. destruct pc; simpl in *; lia.
Qed.

(** Nothing is left to answer when all goroutines have ended. *)
Lemma ended_answered app0 s :
  go_server_inv cfg app0 s -> all_ended s -> (Z.of_nat (length (sv_peers s)) <= 2 ^ 64)%Z ->
  ct_wg (sv_control s) = 0 /\ ct_sessions (sv_control s) = ∅
  /\ (sh_finished (sv_history s)).*1 ++ sh_dropped (sv_history s)
     ≡ₚ seq 0 (length (sh_requests (sv_history s))).
Proof.
  intros Hi He Hl.
  assert (forall t pc, sv_threads s !! t = Some pc -> pc = SDone) as Hd.
  { intros t pc Hpc. pose proof (Forall_lookup_1 _ _ _ _ He Hpc). by destruct pc. }
  assert (ct_wg (sv_control s) = 0) as Hw.
  { rw (si_wg _ _ _ Hi). apply sum_all_zero. by intros t pc ->%Hd. }
  split; [done|]. split; [by eapply nothing_runs|]. apply occ_all_Permutation. intros n.
  rw occ_app (si_requests _ _ _ Hi n) collect_nil; [by intros t pc ->%Hd|]. rw occ_nil. lia.
Qed.

Lemma runs_bounded app0 es s s' :
  run_events (Go_server_step cfg) es s = Some s' -> Forall runs_on es ->
  go_server_inv cfg app0 s -> closing s ->
  go_server_inv cfg app0 s' /\ closing s' /\ length es + remaining s' <= remaining s
  /\ length (sv_peers s') = length (sv_peers s).
Proof.
  revert s. induction es as [|e es IH]; intros s Hr Hes Hi Hc; simplify_eq/=; [done|].
  destruct (Go_server_step cfg e s) as [s1|] eqn:E; [|done]. apply Forall_cons in Hes as [He Hes].
  pose proof (remaining_step e s s1 He Hc (si_ids _ _ _ Hi) E).
  destruct (IH s1 Hr Hes) as (? & ? & ? & Hl); [by eapply go_server_inv_step|by eapply closing_step|].
  split; [done|]. split; [done|]. split; [lia|]. rw Hl. clear -He E.
  sv_cases E; try done; repeat case_match; simplify_eq/=; rw ?length_close_all ?length_insert ?length_alter //.
Qed.
End Shutdown.

(** ** Properties *)

(** C24: shutting the Go server down completes.  From any state of a run in
    which [done] is closed and no goroutine is about to close it again,
    whatever the scheduler does: the goroutines that run already make at most
    as many steps as they are from their end and have frames to read; as long
    as one of them has not ended, one of them can move, provided that [Accept]
    and the reads on the connections return, so that nobody waits for a slot,
    a mutex, a connection's requests or the [WaitGroup] forever; and when all
    have ended, [Shutdown] and every connection's goroutine among them, the
    table is empty and every request read was either answered (or its write
    failed) or dropped. *)
Theorem go_shutdown_completes {A : Asio} `{!AsioStream A} {App} (cfg : Go_config App) app0 es (s : Go_server App) :
  run_events (Go_server_step cfg) es (Go_start app0) = Some s -> closing s ->
  (Z.of_nat (length (sv_peers s)) <= 2 ^ 64)%Z ->
  forall es' s', run_events (Go_server_step cfg) es' s = Some s' -> Forall runs_on es' ->
    length es' <= remaining s
    /\ (all_ended s' \/ can_run cfg s')
    /\ (all_ended s' -> ct_wg (sv_control s') = 0 /\ ct_sessions (sv_control s') = ∅
        /\ (sh_finished (sv_history s')).*1 ++ sh_dropped (sv_history s')
           ≡ₚ seq 0 (length (sh_requests (sv_history s')))).
Proof.
  intros Hr Hc Hl es' s' Hr' Hes. pose proof (Go_server_inv cfg app0 es s Hr) as Hi.
  destruct (runs_bounded cfg app0 es' s s' Hr' Hes Hi Hc) as (Hi' & Hc' & Hb & Hp).
  split; [lia|]. split; [by eapply progress|]. intros He. eapply ended_answered; [done|done|]. by rw Hp.
Qed.

(** [Shutdown] while the two requests of the demonstration are served. *)
Definition go_shutdown_busy : list (@Go_server_event pipe_asio) :=
  go_demo_open ++ [ SEShutdown; SEStep 4 0; SEStep 4 0 ].

(** The goroutines run until they have ended. *)
Definition go_shutdown_rest : list (@Go_server_event pipe_asio) :=
  [ SEStep 4 0; SEStep 4 0; SEAccept 0 (inr tt); SEStep 1 0; SEStep 2 0; SEStep 2 0; SEStep 2 0; SEStep 2 0;
    SEStep 2 0; SEStep 3 0; SEStep 3 0; SEStep 3 0; SEStep 3 0; SEStep 3 0; SEStep 1 0; SEStep 1 0;
    SEStep 1 0; SEStep 1 0; SEStep 1 0; SEStep 4 0 ].

Lemma go_shutdown_completes_witness :
  exists s s', go_demo_sv go_shutdown_busy = Some s
    /\ run_events (Go_server_step go_demo_server) go_shutdown_rest s = Some s'
    /\ ct_sessions (sv_control s') = ∅
    /\ (sh_finished (sv_history s')).*1 ++ sh_dropped (sv_history s') ≡ₚ [0; 1].
Proof.
  destruct (go_demo_sv go_shutdown_busy) as [s|] eqn:E; [|by vm_compute in E].
  assert (closing s /\ length (sv_peers s) = 1) as [Hc Hl].
  { vm_compute in E. simplify_eq. split; [|reflexivity]. constructor; try reflexivity.
    intros t pc Hpc. by repeat (destruct t as [|t]; simplify_eq/=). }
  destruct (run_events (Go_server_step go_demo_server) go_shutdown_rest s) as [s'|] eqn:E'; [|by vm_compute in E; simplify_eq].
  assert (all_ended s' /\ length (sh_requests (sv_history s')) = 2) as [He Hr].
  { vm_compute in E. simplify_eq. vm_compute in E'. simplify_eq.
    split; [by repeat constructor|reflexivity]. }
  destruct (go_shutdown_completes go_demo_server 0 go_shutdown_busy s E Hc) with (es' := go_shutdown_rest) (s' := s')
    as (_ & _ & Hend); [by rw Hl|exact E'|..].
  { clear. repeat (apply Forall_cons_2; [exact I|]). apply Forall_nil_2. }
  destruct (Hend He) as (_ & Ht & Hp). rw Hr in Hp. exists s, s'.
  split; [reflexivity|]. split; [exact E'|]. split; [exact Ht|exact Hp].
Defined.
