(* ===== verification/GoCompat.v ===== *)
(** * GoCompat: a client and a server in different languages

    The Go client and the C++ client write the same request frames and
    understand a response frame in the same way; the Go server and the C++
    session answer a request with the same frame and push the same frames. *)

From S2P Require Import Prelude.
From S2P Require Import Status.
From S2P Require Import Frame.
From S2P Require Import Transport.
From S2P Require Import Session.
From S2P Require Import Channel.
From S2P Require Import ChannelRequests.
From S2P Require Import Ends.
From S2P Require Import GoFrame.
From S2P Require Import GoChannel.
From S2P Require Import GoServer.
From S2P Require Import GoServerRequests.

(** A frame as C++ sees it. *)
Definition cpp_frame (f : Go_FrameHeader * bytes) : frame := (to_cpp f.1, f.2).

(** A frame [Go_ReadFrame] returns was there to be read. *)
Lemma Go_ReadFrame_raw {A : Asio} `{!AsioStream A} (r r' : socket) f :
  Go_ReadFrame r = (r', inl f) -> exists raw, raw_frame raw (cpp_frame f) /\ incoming r = raw ++ incoming r'.
Proof.
  intros E. destruct (Go_ReadFrame_cpp r FrameHeader_default) as (h & p & st & Er & Hres).
  rw E in Er, Hres. destruct f as [gh gp]. destruct Hres as (-> & -> & ->).
  destruct (ReadFrame_raw _ _ _ _ _ _ _ Er) as [_ Hraw]. by apply Hraw.
Qed.

(** A response frame means the same to both clients. *)
Lemma Go_response_of_cpp hdr payload :
  (status_to_cpp (Go_response_of hdr payload).1, (Go_response_of hdr payload).2)
  = response_of (to_cpp hdr, payload).
Proof.
  unfold Go_response_of, response_of, code_eqb. cbn [fst snd to_cpp status_code]. rw code_to_of_int.
  change (code_to_int OK) with Go_OK. by destruct (negb (go_StatusCode hdr =? Go_OK)%Z).
Qed.

(** A Go client can talk to a C++ server and a C++ client to a Go server.
    A request of the Go channel is the frame the C++ channel writes for the
    same call id, method and payload; a response frame means the same status
    and payload to both clients; the Go server answers a request with the
    frame the C++ session with the same handlers answers, and changes the
    application in the same way; a push of either server is the same frame;
    and both sides expect the same handshake by default. *)
Theorem go_calls_compatible {A : Asio} {App} (cfg : Go_config App) addr app hdr id methodID payload
    (ses : session) :
  to_cpp (request_hdr id methodID payload) = request_header id methodID payload
  /\ (status_to_cpp (Go_response_of hdr payload).1, (Go_response_of hdr payload).2)
     = response_of (to_cpp hdr, payload)
  /\ (let '(app', _, resp) := Go_serveRequest cfg addr app hdr payload in
      exists l, process_request (cpp_config cfg addr) app (to_cpp hdr) payload
                = (app', l, Some (to_cpp resp.1, resp.2)))
  /\ posted (Send methodID payload ses) = posted ses ++ [(to_cpp (push_hdr methodID payload), payload)]
  /\ go_HandshakeHeader (Go_default_config None) = handshake_header ChannelConfig_default.
Proof.
  split; [done|]. split; [|split; [|done]].
  - apply Go_response_of_cpp.
  - destruct (Go_serveRequest cfg addr app hdr payload) as [[app' l] resp] eqn:E.
    by eapply Go_serveRequest_cpp.
Qed.
