(* ===== verification/GoProto.v ===== *)
(** * GoProto: the code generated for Go

    What the code does that go/protoc-gen-protocomm-go/main.go emits for a
    method - the client method, the handler that is registered with a server
    and the method of the unimplemented server - and go/prototrace.  The Go
    protobuf library is the parameter [GoProtobuf]; [WireFormat] states that
    the two protobuf libraries implement the same wire format, in which a
    message may have several encodings. *)

From S2P Require Import Prelude.
From S2P Require Import Status.
From S2P Require Import Frame.
From S2P Require Import Transport.
From S2P Require Import Session.
From S2P Require Import Proto.
From S2P Require Import GoFrame.
From S2P Require Import GoServer.

Open Scope nat_scope.

(** ** The Go protobuf library

    A message is a pointer: [proto.Marshal] takes nil as well.
    [proto.Unmarshal] fills a new message; errors are their text.
    [prototext] may fail. *)
Class GoProtobuf (M : Type) := {
  Go_Marshal : option M -> bytes + string;
  Go_Unmarshal : bytes -> M + string;
  Go_MarshalText : M -> option bytes
}.

(** The wire format: the encodings of a message, smaller than 2 GiB.  Each
    library writes an encoding and reads all of them. *)
Class WireFormat (M : Type) `{!Protobuf M} `{!ProtobufLaws M} `{!GoProtobuf M} := {
  encodes : bytes -> M -> Prop;
  encodes_small b m : encodes b m -> (size_of b < 2 ^ 31)%Z;
  cpp_writes m : serializable m -> encodes (wire_bytes m) m;
  go_writes m : serializable m -> exists b, Go_Marshal (Some m) = inl b /\ encodes b m;
  cpp_reads b m m0 : encodes b m -> ParseFromArray m0 b (size_of b) = (true, m);
  go_reads b m : encodes b m -> Go_Unmarshal b = inl m
}.

(** ** prototrace *)

Definition Go_MaxBody : nat := 1024.

Definition Go_Render {M} `{!GoProtobuf M} (m : option M) : bytes :=
  match m with
  | None => []
  | Some m =>
    match Go_MarshalText m with
    | None => []
    | Some out => if Go_MaxBody <? length out then take Go_MaxBody out ++ truncation_marker else out
    end
  end.

(** ** The generated code *)

Section Generated.
Context {Req Resp : Type} `{!GoProtobuf Req} `{!GoProtobuf Resp}.

(** The arguments of [Channel.Trace]. *)
Record Go_trace := Go_mkTrace {
  gt_method : string; gt_requestText : bytes; gt_responseText : bytes; gt_status : Go_Status
}.

(** What a client uses of its [Channel]: the call, and the interceptor, which
    is set or not; the traces it was given are a log. *)
Record Go_ClientChannel := Go_mkClientChannel {
  gc_UnaryCall : Z -> bytes -> bytes * Go_Status;
  gc_interceptor : bool
}.

Definition Go_Channel_SetInterceptor (fn : bool) (ch : Go_ClientChannel) : Go_ClientChannel :=
  Go_mkClientChannel (gc_UnaryCall ch) fn.
Definition Go_Tracing (ch : Go_ClientChannel) : bool := gc_interceptor ch.
Definition Go_Trace (ch : Go_ClientChannel) (tr : Go_trace) (traces : list Go_trace) : list Go_trace :=
  if gc_interceptor ch then traces ++ [tr] else traces.

(** The method of the client: the response and the status, and the traces. *)
Definition Go_Client_method (ch : Go_ClientChannel) (mid : Z) (full : string) (req : option Req)
    : option Resp * Go_Status * list Go_trace :=
  match Go_Marshal req with
  | inr err => (None, Go_mkStatus Go_Internal ("marshal: " +:+ err), [])
  | inl data =>
    let '(respData, st) := gc_UnaryCall ch mid data in
    if negb (Go_IsOK st) then
      (None, st, if Go_Tracing ch then Go_Trace ch (Go_mkTrace full (Go_Render req) [] st) [] else [])
    else
      match Go_Unmarshal respData with
      | inr err => (None, Go_mkStatus Go_Internal ("unmarshal: " +:+ err), [])
      | inl resp =>
        (Some resp, Go_StatusOK,
         if Go_Tracing ch then Go_Trace ch (Go_mkTrace full (Go_Render req) (Go_Render (Some resp)) st) [] else [])
      end
  end.

(** A method of a service: it may change the application and the context. *)
Definition Go_method (App : Type) : Type :=
  App -> ServerContext -> Req -> App * ServerContext * (option Resp * Go_Status).

(** The handler that [Register<Service>Server] registers for a method. *)
Definition Go_Register_handler {App} (full : string) (impl : Go_method App) : Go_MethodHandler App :=
  fun app ctx data =>
    let ctx1 := set_method_name full ctx in
    match Go_Unmarshal data with
    | inr err => (app, ctx1, ([], Go_mkStatus Go_Internal ("unmarshal: " +:+ err)))
    | inl req =>
      let ctx2 := if tracing ctx1 then set_request_text (text_of (Go_Render (Some req))) ctx1 else ctx1 in
      let '(app', ctx3, (resp, st)) := impl app ctx2 req in
      if negb (Go_IsOK st) then (app', ctx3, ([], st))
      else
        let ctx4 := if tracing ctx3 then set_response_text (text_of (Go_Render resp)) ctx3 else ctx3 in
        match Go_Marshal resp with
        | inr err => (app', ctx4, ([], Go_mkStatus Go_Internal ("marshal: " +:+ err)))
        | inl out => (app', ctx4, (out, Go_StatusOK))
        end
    end.

(** The method of [Unimplemented<Service>Server]. *)
Definition Go_Unimplemented_method {App} (GoName : string) : Go_method App :=
  fun app ctx _ => (app, ctx, (None, Go_mkStatus Go_Unimplemented (GoName +:+ " not implemented"))).
End Generated.
Arguments Go_method : clear implicits.

(** ** Lemmas *)

Section Facts.
Context {M : Type} `{!Protobuf M} `{!ProtobufLaws M} `{!GoProtobuf M} `{!WireFormat M}.

Lemma encodes_parses b (m : M) : encodes b m -> parses b m.
Proof.
  intros He m0. pose proof (encodes_small b m He). unfold ParseProto.
  rw i32_small; [|by rw (cpp_reads b m)]. unfold size_of in *. lia.
Qed.

Lemma encodes_u32 b (m : M) : encodes b m -> is_u32 (size_of b).
Proof. intros He. pose proof (encodes_small b m He). unfold is_u32, size_of in *. lia. Qed.
End Facts.

(** The outcome of a call for the Go client: the response, or the code of the
    error (the message stays at the server). *)
Definition Go_result {Resp} (st : Go_Status) (resp : Resp) : option Resp * Go_Status :=
  if Go_IsOK st then (Some resp, Go_StatusOK) else (None, Go_mkStatus (go_Code st) "remote error").

(** The outcomes of a Go method that can be sent. *)
Definition Go_sendable {Resp} `{!Protobuf Resp} `{!ProtobufLaws Resp} (st : Go_Status)
    (resp : Resp) : Prop :=
  if Go_IsOK st then serializable resp else is_u16 (go_Code st).

Section Service.
Context {Req Resp : Type} `{!Protobuf Req} `{!ProtobufLaws Req} `{!GoProtobuf Req} `{!WireFormat Req}.
Context `{!Protobuf Resp} `{!ProtobufLaws Resp} `{!GoProtobuf Resp} `{!WireFormat Resp}.

(** The handler of a method whose outcome can be sent. *)
Lemma Go_Register_handler_returns {App} full (impl : Go_method Req Resp App) app ctx b req app' st resp :
  encodes b req -> Go_sendable st resp ->
  (forall ctx, exists ctx', impl app ctx req = (app', ctx', (Some resp, st))) ->
  exists ctx' b' st', Go_Register_handler full impl app ctx b = (app', ctx', (b', st'))
    /\ go_Code st' = go_Code st /\ (if Go_IsOK st then encodes b' resp else b' = []).
Proof.
  intros Hb Hs Hi. unfold Go_Register_handler. rw (go_reads b req) //.
  match goal with |- context [impl app ?c req] => destruct (Hi c) as [ctx' ->] end.
  unfold Go_sendable in Hs. destruct (Go_IsOK st) eqn:E; cbn -[Go_Render]; [|by eexists _, _, _].
  destruct (go_writes resp Hs) as (b' & -> & He). eexists _, b', _. split; [done|].
  split; [|done]. unfold Go_IsOK in E. by apply Z.eqb_eq in E.
Qed.

(** The client on the bytes of a response. *)
(** Setting the interceptor changes nothing of what the caller gets; it is
    given at most one trace of a call, and none when it is not set. *)
Lemma Go_Client_method_traced ch mid full (req : option Req) (b : bool) :
  (Go_Client_method (Go_Channel_SetInterceptor b ch) mid full req).1 = (Go_Client_method (Resp := Resp) ch mid full req).1
  /\ length (Go_Client_method (Resp := Resp) (Go_Channel_SetInterceptor b ch) mid full req).2 <= (if b then 1 else 0).
Proof.
  unfold Go_Client_method, Go_Trace, Go_Tracing, Go_Channel_SetInterceptor. simpl.
  destruct (Go_Marshal req) as [data|err]; [|simpl; split; [done|destruct b; lia]].
  destruct (gc_UnaryCall ch mid data) as [respData st]. destruct (Go_IsOK st); simpl.
  - destruct (Go_Unmarshal respData); simpl; (split; [done|destruct b; simpl; lia]).
  - split; [done|]. destruct b; simpl; lia.
Qed.

Lemma Go_Client_method_result trace mid full (req : Req) st b (resp : Resp) :
  serializable req -> (Go_IsOK st = true -> encodes b resp) ->
  (Go_Client_method (Go_mkClientChannel (fun _ _ =>
      if Go_IsOK st then (b, Go_StatusOK) else ([], Go_mkStatus (go_Code st) "remote error")) trace)
    mid full (Some req)).1 = Go_result st resp.
Proof.
  intros Hreq Hr. unfold Go_Client_method, Go_result.
  destruct (go_writes req Hreq) as (b' & -> & _). simpl.
  destruct (Go_IsOK st) eqn:E; simpl; [by rw (go_reads b resp); [apply Hr|]|].
  unfold Go_IsOK in *. simpl. by rw E.
Qed.
End Service.

(** The messages of the witnesses: a message is the list of its bytes. *)
#[export] Instance blob_go_protobuf : GoProtobuf bytes := {
  Go_Marshal m := inl (default [] m);
  Go_Unmarshal b := inl b;
  Go_MarshalText m := Some m
}.

#[export, refine] Instance blob_wire_format : WireFormat bytes := {
  encodes b m := b = m /\ serializable m
}.
Proof.
  - by intros b m [-> H].
  - done.
  - intros m H. by exists m.
  - intros b m m0 [-> H]. exact (parse_wire m m0 H).
  - by intros b m [-> _].
Defined.
