(* ===== verification/GoChannelEnd.v ===== *)
(** * GoChannelEnd: the Go channel as a client

    A Go channel dials a connection after another; each has one reader, and
    what the reader hands on are frames it found on that connection.  With
    what [GoChannelProperties] shows of the bytes written, the channel is a
    [client_end] whose connections are those it dialed. *)

From S2P Require Import Prelude.
From S2P Require Import Status.
From S2P Require Import Frame.
From S2P Require Import Transport.
From S2P Require Import Session.
From S2P Require Import SessionSpec.
From S2P Require Import Channel.
From S2P Require Import ChannelRequests.
From S2P Require Import ChannelTypes.
From S2P Require Import Ends.
From S2P Require Import Goroutines.
From S2P Require Import GoFrame.
From S2P Require Import GoChannel.
From S2P Require Import GoChannelInvariants.
From S2P Require Import GoChannelProperties.
From S2P Require Import GoServerRequests.
From S2P Require Import GoCompat.

Open Scope nat_scope.

(** ** One reader for each connection *)

(** The connection a goroutine reads, or is about to. *)
Definition reader_of (pc : Go_pc) : option nat :=
  match pc with
  | GInstall _ c | GRead c _ | GPush c _ _ _ | GRespond c _ _ _ => Some c
  | GInvoke _ (Some (c, _)) => Some c
  | _ => None
  end.

Definition reads_conn (c : nat) (pc : Go_pc) : nat :=
  if bool_decide (reader_of pc = Some c) then 1 else 0.

Lemma reader_of_ensured t k st : reader_of (ensured t k st) = None.
Proof. unfold ensured. by destruct (Go_IsOK st), k. Qed.
Lemma reader_of_after next : reader_of (after_callbacks next) = fst <$> next.
Proof. by destruct next as [[]|]. Qed.
Lemma reader_of_invoke todo next : reader_of (GInvoke todo next) = fst <$> next.
Proof. by destruct next as [[]|]. Qed.
Lemma reader_knows pc c : reader_of pc = Some c -> knows_conn pc = Some c.
Proof. destruct pc as [| | | | | | | | |? [[]|]| | | | |]; simpl; congruence. Qed.

Section Readers.
Context {A : Asio}.
Variable config : Go_ChannelConfig.
Implicit Types (s : Go_channel).

Definition readers_ok s : Prop := forall c, sum_list_with (reads_conn c) (go_threads s) <= 1.

Lemma readers_step e s s' :
  scheduled s -> readers_ok s -> Go_channel_step config e s = Some s' -> readers_ok s'.
Proof.
  intros Hs H E q. specialize (H q).
  assert (q = length (go_conns s) -> sum_list_with (reads_conn q) (go_threads s) = 0) as Hnew.
  { intros ->. apply sum_all_zero. intros t pc Hpc. unfold reads_conn. case_bool_decide as Hr; [|done].
    pose proof (sc_knows _ Hs _ _ Hpc _ (reader_knows _ _ Hr)). lia. }
  clear Hs. go_cases E; simpl in H, Hnew.
  all: try match goal with Hpc : ?ts !! ?t = Some ?pc |- _ =>
         pose proof (fun pc' => sum_insert (reads_conn q) ts t pc pc' Hpc) as Hi end.
  all: repeat case_match; simplify_eq/=.
  all: try match goal with |- context [<[_:=?pc]> _] => specialize (Hi pc) end.
  all: rw ?sum_list_with_app /=; unfold reads_conn in *;
    try (rw ?reader_of_ensured ?reader_of_after ?reader_of_invoke in Hi); simpl in *; try lia.
  case_bool_decide; simplify_eq; lia.
Qed.
End Readers.

(** ** What is read *)

(** The connections [net.Dial] returned, in order. *)
Definition dialed {A : Asio} (es : list Go_event) : list socket :=
  omap (fun e => match e with EDial _ (inl conn) => Some conn | _ => None end) es.

Lemma dialed_snoc {A : Asio} es e :
  dialed (es ++ [e]) = dialed es ++ match e with EDial _ (inl conn) => [conn] | _ => [] end.
Proof. unfold dialed. rw omap_app. destruct e as [| | |? []|]; try done; by rw app_nil_r. Qed.

Section Heard.
Context {A : Asio} `{!AsioStream A}.
Variable config : Go_ChannelConfig.
Implicit Types (s : Go_channel) (d cs : list socket).
Abbreviation header := (go_HandshakeHeader config).

(** The reader of a connection has read the handshake and whole frames. *)
Definition hears d cs (pc : Go_pc) : Prop := forall c, reader_of pc = Some c ->
  exists conn0 conn fs, d !! c = Some conn0 /\ cs !! c = Some conn
    /\ reads_to header (incoming conn0) fs (incoming conn).

(** A frame that was read. *)
Definition found d (f : Go_FrameHeader * bytes) : Prop := exists c conn0 fs,
  d !! c = Some conn0 /\ reads header (incoming conn0) fs /\ cpp_frame f ∈ fs.

Record heard d s : Prop := {
  he_length : length d = length (go_conns s);
  he_threads : threads_all (fun _ => hears d (go_conns s)) (go_threads s);
  he_found : threads_all (fun _ pc => match pc with
    GRespond _ _ hdr payload => found d (hdr, payload) | _ => True end) (go_threads s);
  he_answered : Forall (fun a => found d a.1) (go_answered (go_history s))
}.

(** Nothing is taken off the connections. *)
Definition same_in cs cs' : Prop := forall c conn,
  cs !! c = Some conn -> exists conn', cs' !! c = Some conn' /\ incoming conn' = incoming conn.

Lemma same_in_refl cs : same_in cs cs.
Proof. intros c conn E. by exists conn. Qed.

Lemma same_in_close cs c : same_in cs (alter asio_close c cs).
Proof.
  intros c' conn E. destruct (decide (c = c')) as [->|Hne].
  - exists (asio_close conn). by rw list_lookup_alter_eq E close_keeps_in.
  - exists conn. by rw list_lookup_alter_ne.
Qed.

Lemma same_in_write cs c conn bs conn' err :
  cs !! c = Some conn -> asio_write conn bs = (conn', err) -> same_in cs (<[c := conn']> cs).
Proof.
  intros E Ew c' conn2 E2. destruct (decide (c = c')) as [->|Hne].
  - simplify_eq. exists conn'. rw list_lookup_insert_eq; [by eapply lookup_lt_Some|].
    by rw (write_keeps_in _ _ _ _ Ew).
  - exists conn2. by rw list_lookup_insert_ne.
Qed.

Lemma same_in_app cs conn : same_in cs (cs ++ [conn]).
Proof. intros c conn' E. exists conn'. by rw (lookup_app_l_Some _ _ _ _ E). Qed.

Lemma hears_same d d' cs cs' pc pc' :
  hears d cs pc -> d `prefix_of` d' -> same_in cs cs' ->
  (reader_of pc' = None \/ reader_of pc' = reader_of pc) -> hears d' cs' pc'.
Proof.
  intros H Hd Hs Hr c Hc. destruct Hr as [Hr|Hr]; [congruence|]. rw Hr in Hc.
  destruct (H c Hc) as (conn0 & conn & fs & H0 & H1 & H2).
  destruct (Hs _ _ H1) as (conn' & H3 & H4). exists conn0, conn', fs. rw H4.
  split; [by eapply prefix_lookup_Some|done].
Qed.

Lemma found_mono d d' f : found d f -> d `prefix_of` d' -> found d' f.
Proof.
  intros (c & conn0 & fs & ? & ? & ?) Hd. exists c, conn0, fs. split; [by eapply prefix_lookup_Some|done].
Qed.

Lemma Go_handshake_in (conn conn' : socket) :
  Go_handshake config conn = (conn', None) -> incoming conn = header ++ incoming conn'.
Proof.
  unfold Go_handshake. destruct header as [|x hs] eqn:Eh; [by intros [= ->]|].
  destruct (asio_write conn _) as [c1 [e|]] eqn:Ew; [done|].
  destruct (asio_read c1 _) as [[c2 rd] [e|]] eqn:Er; [done|].
  case_bool_decide as Hd; [done|]. intros [= <-].
  apply read_fills in Er as [_ Er]. rw -(write_keeps_in _ _ _ _ Ew) Er. f_equal.
  destruct (decide (rd = x :: hs)); [done|]. by destruct Hd.
Qed.

(** A frame more is read on connection [c]. *)
Lemma hears_read d cs c conn conn' f :
  cs !! c = Some conn -> Go_ReadFrame conn = (conn', inl f) ->
  (exists conn0 conn fs, d !! c = Some conn0 /\ cs !! c = Some conn
    /\ reads_to header (incoming conn0) fs (incoming conn)) ->
  (exists conn0 conn2 fs, d !! c = Some conn0 /\ <[c := conn']> cs !! c = Some conn2
    /\ reads_to header (incoming conn0) fs (incoming conn2)) /\ found d f.
Proof.
  intros E Er (conn0 & conn1 & fs & H0 & H1 & H2). simplify_eq.
  destruct (Go_ReadFrame_raw _ _ _ Er) as (raw & Hraw & Hin).
  pose proof (reads_to_snoc _ _ _ _ _ _ _ H2 Hraw Hin) as H3. split.
  - exists conn0, conn', (fs ++ [cpp_frame f]). rw list_lookup_insert_eq; [by eapply lookup_lt_Some|done].
  - exists c, conn0, (fs ++ [cpp_frame f]). split; [done|]. split; [by eapply reads_to_reads|set_solver].
Qed.

(** The other goroutines do not read the connection that [t] reads. *)
Lemma hears_others d cs c conn' t pc t' pc' s :
  readers_ok s -> go_threads s !! t = Some pc -> reader_of pc = Some c ->
  go_threads s !! t' = Some pc' -> t' <> t -> hears d cs pc' -> hears d (<[c := conn']> cs) pc'.
Proof.
  intros Hr Hpc Hc Hpc' Hne H c' Hc'.
  pose proof (sum_sole (reads_conn c) _ t pc t' pc' (Hr c) Hpc) as Hs. unfold reads_conn in Hs.
  rw bool_decide_true // in Hs. specialize (Hs ltac:(lia) Hpc' Hne).
  case_bool_decide as Hd; [done|]. destruct (H c' Hc') as (conn0 & conn & fs & ?).
  exists conn0, conn, fs. rw list_lookup_insert_ne //. congruence.
Qed.

Lemma heard_threads_step d e s s' :
  scheduled s -> readers_ok s -> heard d s -> Go_channel_step config e s = Some s' ->
  let d' := d ++ match e with EDial _ (inl conn) => [conn] | _ => [] end in
  threads_all (fun _ => hears d' (go_conns s')) (go_threads s').
Proof.
  intros Hs Hr Hh E d'.
  assert (threads_all (fun t pc => go_threads s !! t = Some pc /\ hears d (go_conns s) pc) (go_threads s)) as H.
  { intros t pc Hpc. split; [done|]. by apply (he_threads _ _ Hh t). }
  pose proof (fun c conn' t pc t' pc' => hears_others d (go_conns s) c conn' t pc t' pc' s Hr) as Hoth.
  assert (d `prefix_of` d') as Hd by apply prefix_app_r, reflexivity.
  pose proof (he_length _ _ Hh) as Hl.
  go_cases E; simpl in H, Hoth, Hl, d'.
  all: try match goal with Hpc : _ !! _ = Some _ |- _ => destruct (H _ _ Hpc) as [_ Ht] end.
  all: repeat case_match; simplify_eq/=; subst d'; rw ?app_nil_r; rw ?app_nil_r in Hd.
  all: threads_cases H.
  all: try match goal with
    | |- forall t' pc', t' <> _ -> _ /\ hears _ _ pc' -> hears _ _ pc' =>
        intros t' pc' Hne [Hpc' Hx]
    | |- forall t' pc', _ /\ hears _ _ pc' -> hears _ _ pc' => intros t' pc' [Hpc' Hx]
    end.
  all: try (by eapply hears_same; [exact Hx|done|eauto using same_in_refl, same_in_close, same_in_write, same_in_app|by right]).
  all: try (by eapply hears_same; [exact Ht|done|eauto using same_in_refl, same_in_close, same_in_write, same_in_app
       |rw ?reader_of_ensured ?reader_of_after ?reader_of_invoke; auto]).
  all: try (by eapply Hoth; [exact Hpc| |exact Hpc'|exact Hne|exact Hx]).
  all: try (by intros c' Hc').
  { intros c' [= <-]. exists s, s0, []. rw -{1}Hl !list_lookup_middle //. split; [done|]. split; [done|].
    match goal with Hk : Go_handshake _ _ = _ |- _ => rw (Go_handshake_in _ _ Hk) end. apply reads_to_nil. }
  all: intros c' [= <-]; eapply hears_read; [done..|by apply Ht].
Qed.

Lemma heard_step d e s s' :
  scheduled s -> readers_ok s -> heard d s -> Go_channel_step config e s = Some s' ->
  heard (d ++ match e with EDial _ (inl conn) => [conn] | _ => [] end) s'.
Proof.
  intros Hs Hr Hh E. pose proof (heard_threads_step d e s s' Hs Hr Hh E) as Hth.
  pose proof Hh as [Hl Ht Hf Ha].
  set (d' := d ++ _) in *. assert (d `prefix_of` d') as Hd by (rw /d'; by eexists).
  assert (threads_all (fun _ pc => match pc with
    GRespond _ _ hdr payload => found d' (hdr, payload) | _ => True end) (go_threads s)) as Hf'.
  { intros t pc Hpc. specialize (Hf _ _ Hpc). destruct pc; try done. by eapply found_mono. }
  assert (Forall (fun a => found d' a.1) (go_answered (go_history s))) as Ha'.
  { eapply Forall_impl; [exact Ha|]. intros a Hx. exact (found_mono _ _ _ Hx Hd). }
  constructor; [|done|..].
  - subst d'. clear -Hl E. go_cases E; simpl in Hl; repeat case_match; simplify_eq/=;
      rw ?length_app ?length_insert ?length_alter /= ?Hl; lia.
  - clear Hth Ha Ha' Hf. go_cases E; simpl in Hf', Ht; fold d'.
    all: try match goal with Hpc : _ !! _ = Some _ |- _ => pose proof (Ht _ _ Hpc) as Hx end.
    all: repeat case_match; simplify_eq/=; threads_cases Hf'; try done; try (by destruct next as [[]|]).
    all: rw ?/ensured; repeat case_match; try done.
    eapply found_mono; [|exact Hd].
    match goal with Er : Go_ReadFrame _ = _, Ec : cs !! _ = Some _ |- _ =>
      exact (proj2 (hears_read _ _ _ _ _ _ Ec Er (Hx _ eq_refl))) end.
  - clear Hth Hf. go_cases E; simpl in Hf', Ha'; fold d'.
    all: try match goal with Hpc : _ !! _ = Some _ |- _ => pose proof (Hf' _ _ Hpc) as Hx end.
    all: repeat case_match; simplify_eq/=; try done.
    apply Forall_app. split; [done|]. by apply Forall_singleton.
Qed.

(** The frames put on connection [k], the last of which may be under way. *)
Definition writing_on s (k : nat) : list (Go_FrameHeader * bytes) :=
  match go_writeMu s ≫= (fun t => go_threads s !! t) with
  | Some (GWritePayload c _ hdr request) => if bool_decide (c = k) then [(hdr, request)] else []
  | _ => []
  end.

Definition go_requests s (k : nat) : list frame :=
  cpp_frame <$> frames_on k (go_history s) ++ writing_on s k.

Definition go_owner s (id : Z) (t : nat) : Prop := exists k, (id, (t, k)) ∈ go_issued (go_history s).

Definition go_outcome s (t : nat) (st : Status) (p : bytes) : Prop := exists methodID request gst,
  (t, CallUnary methodID request) ∈ go_callers (go_history s)
  /\ (t, gst, p) ∈ go_delivered (go_history s) /\ st = status_to_cpp gst.

Definition bytes_at (g : socket -> bytes) (cs : list socket) (k : nat) : bytes :=
  default [] (g <$> cs !! k).

Lemma in_progress_writing s k y : exists y',
  in_progress (go_writeMu s) (go_threads s) k ++ y' = concat (encode_go <$> writing_on s k) ++ y.
Proof.
  unfold in_progress, writing_on. destruct (_ ≫= _) as [pc|]; [|by exists y].
  destruct pc; try (by exists y). case_bool_decide; [|by exists y].
  exists (request ++ y). by rw concat_encode_go app_assoc.
Qed.

Lemma concat_cpp_frames fs : concat (encode_frame <$> (cpp_frame <$> fs)) = concat (encode_go <$> fs).
Proof. by rw -list_fmap_compose. Qed.

Lemma go_requests_wire s k :
  wire_ok config s -> k ∉ go_failed (go_history s) ->
  bytes_at outgoing (go_conns s) k `prefix_of` header ++ concat (encode_frame <$> go_requests s k).
Proof.
  intros Hw Hf. unfold bytes_at. destruct (go_conns s !! k) as [conn|] eqn:E; [|apply prefix_nil]. simpl.
  rw (wi_bytes _ _ Hw _ _ E Hf) /go_requests concat_cpp_frames fmap_app concat_app.
  destruct (in_progress_writing s k []) as [y' Ey]. rw app_nil_r in Ey. rw -Ey.
  exists y'. by rw -!app_assoc.
Qed.

(** Each frame put on connection [k] is the request of a caller. *)
Lemma go_requests_calls s k f :
  Go_inv s -> f ∈ go_requests s k -> exists t id methodID request,
    f = (request_header id methodID request, request) /\ (id, (t, k)) ∈ go_issued (go_history s)
    /\ (t, CallUnary methodID request) ∈ go_callers (go_history s).
Proof.
  intros Hi (g & -> & Hg)%list_elem_of_fmap.
  assert (exists t, request_frame (go_history s) t k g.1 g.2) as (t & id & mid & E & ? & ?).
  { apply elem_of_app in Hg as [Hg|Hg].
    - apply list_elem_of_fmap in Hg as ([c' f'] & -> & [? Hin]%list_elem_of_filter). simpl in *. subst.
      exact (proj1 (Forall_forall _ _) (hf_frames _ (gi_history _ Hi)) _ Hin).
    - unfold writing_on in Hg. destruct (go_writeMu s) as [m|]; [|by apply elem_of_nil in Hg]. simpl in Hg.
      destruct (go_threads s !! m) as [pc|] eqn:Hpc; [|by apply elem_of_nil in Hg].
      destruct pc; try (by apply elem_of_nil in Hg). case_bool_decide; [|by apply elem_of_nil in Hg].
      apply list_elem_of_singleton in Hg as ->. subst. exists m. exact (gi_threads _ Hi _ _ Hpc). }
  exists t, id, mid, g.2. split; [|done]. by rw /cpp_frame E.
Qed.
End Heard.

(** Calls with a [uint32] method and a payload smaller than 4 GiB. *)
Definition small_go_call {A : Asio} (e : Go_event) : Prop :=
  match e with EAsyncUnaryCall methodID request => is_u32 methodID /\ small request | _ => True end.

Section GoChannelEnd.
Context {A : Asio} `{!AsioStream A}.
Variables (config : Go_ChannelConfig) (es : list Go_event) (s : Go_channel).
Hypothesis Hr : run_events (Go_channel_step config) es Go_CreateChannel = Some s.

Lemma go_channel_heard :
  Go_inv s /\ readers_ok s /\ heard config (dialed es) s
  /\ forall t methodID request, (t, CallUnary methodID request) ∈ go_callers (go_history s) ->
       EAsyncUnaryCall methodID request ∈ es.
Proof.
  revert es s Hr. apply (run_events_trace_invariant (Go_channel_step config) Go_CreateChannel
    (fun es s => Go_inv s /\ readers_ok s /\ heard config (dialed es) s
     /\ forall t methodID request, (t, CallUnary methodID request) ∈ go_callers (go_history s) ->
       EAsyncUnaryCall methodID request ∈ es)).
  - split; [by apply (Go_channel_inv config [])|]. split; [intros c; simpl; lia|].
    split; [by constructor|]. by intros ??? ?%elem_of_nil.
  - intros es e s s' (Hi & Hro & Hh & Hc) E. pose proof (gi_scheduled _ Hi) as Hs.
    split; [by eapply Go_inv_step|]. split; [by eapply readers_step|].
    rw dialed_snoc. split; [by eapply heard_step|]. intros t0 m0 r0 Hin. apply elem_of_app.
    destruct (callers_step config e s s' E) as [Ek|(k & Ek & _)]; rw Ek in Hin; [left; by eapply Hc|].
    apply elem_of_app in Hin as [Hin|Hin%list_elem_of_singleton]; [left; by eapply Hc|right].
    simplify_eq. clear -E Ek. apply list_elem_of_singleton.
    go_cases E; repeat case_match; simplify_eq/=; try done.
    all: apply (f_equal length) in Ek; rw length_app /= in Ek; lia.
Qed.

Lemma go_channel_client_end :
  Forall fresh_dial es -> Forall small_go_call es -> go_failed (go_history s) = [] ->
  client_end (go_HandshakeHeader config) (bytes_at incoming (dialed es)) (bytes_at outgoing (go_conns s))
    (go_requests s) (go_owner s) (go_outcome s).
Proof.
  intros Hf Hsm Hx. destruct (Go_channel_wire config es s Hr Hf) as [Hi Hw].
  destruct go_channel_heard as (_ & _ & Hh & Hc). constructor.
  - intros k. apply go_requests_wire; [done|]. rw Hx. apply not_elem_of_nil.
  - intros k. apply Forall_forall. intros f Hin.
    destruct (go_requests_calls s k f Hi Hin) as (t & id & mid & req & -> & Hid & Hk).
    destruct (proj1 (Forall_forall _ _) Hsm _ (Hc _ _ _ Hk)) as [Hm Hp].
    apply request_header_wf; try done. apply (list_elem_of_fmap_2 fst) in Hid.
    rw (fo_ids _ _ (gi_fields _ Hi)) in Hid. apply list_elem_of_fmap in Hid as (n & E & _). simpl in E.
    rw E. apply u32_range.
  - intros t st p (mid & req & gst & Hk & Hd & ->).
    pose proof (proj1 (Forall_forall _ _) (hf_delivered _ (gi_history _ Hi)) _ Hd) as Hj.
    destruct Hj as [(hdr & payload & Ha & E)|[[Hok Hp]|(Hcn & _)]]; simpl in *.
    + right. pose proof (proj1 (Forall_forall _ _) (he_answered _ _ _ Hh) _ Ha) as (k & conn0 & fs & Hk0 & Hrd & Hin).
      destruct (proj1 (Forall_forall _ _) (hf_answered _ (gi_history _ Hi)) _ Ha) as [[c Hown] Hty]. simpl in *.
      exists k, fs, (cpp_frame (hdr, payload)). unfold bytes_at. rw Hk0. split; [done|]. split; [done|].
      split; [by rw /is_response /= Hty|]. split; [by exists c|].
      rw -Go_response_of_cpp -E //.
    + left. by rw status_to_cpp_ok.
    + pose proof (NoDup_fst_inj _ _ _ _ (ac_NoDup _ (gi_accounts _ Hi)) Hk Hcn). done.
Qed.

(** The request under an id that belongs to [t] is the call of [t]. *)
Lemma go_request_call k req t methodID request :
  (Z.of_nat (length (go_issued (go_history s))) <= 2 ^ 32)%Z ->
  req ∈ go_requests s k -> go_owner s (call_id req.1) t ->
  (t, CallUnary methodID request) ∈ go_callers (go_history s) ->
  req = (request_header (call_id req.1) methodID request, request)
  /\ (call_id req.1, (t, k)) ∈ go_issued (go_history s).
Proof.
  intros Hl Hin [k' Ho] Hk. destruct go_channel_heard as (Hi & _).
  destruct (go_requests_calls s k req Hi Hin) as (t' & id & mid & rq & -> & Hid & Hk'). simpl in *.
  assert (NoDup (go_issued (go_history s)).*1) as Hn.
  { rw (fo_ids _ _ (gi_fields _ Hi)). by apply nth_call_ids_NoDup. }
  pose proof (NoDup_fst_inj _ _ _ _ Hn Hid Ho) as [= -> ->].
  by pose proof (NoDup_fst_inj _ _ _ _ (ac_NoDup _ (gi_accounts _ Hi)) Hk Hk') as [= -> ->].
Qed.
End GoChannelEnd.
