(* ===== verification/GoServerEnd.v ===== *)
(** * GoServerEnd: a connection of the Go server as a server

    The goroutine of a connection reads the handshake and then frames, and
    the requests it hands to their goroutines are these frames in order.
    With what [GoServerRequests] shows of the responses, each connection of
    the Go server is a [server_end]. *)

From S2P Require Import Prelude.
From S2P Require Import Status.
From S2P Require Import Frame.
From S2P Require Import Transport.
From S2P Require Import Session.
From S2P Require Import SessionSpec.
From S2P Require Import Ends.
From S2P Require Import Goroutines.
From S2P Require Import GoFrame.
From S2P Require Import GoServer.
From S2P Require Import GoServerInvariants.
From S2P Require Import GoServerRequests.
From S2P Require Import GoServerProperties.
From S2P Require Import GoCompat.

Open Scope nat_scope.

(** ** What is read *)

Definition requests_on (p : nat) (h : Go_server_history) : list (Go_FrameHeader * bytes) :=
  (filter (fun x => x.1 = p) (sh_requests h)).*2.

Lemma requests_on_snoc p q f h :
  requests_on q (slog_request p f h) = requests_on q h ++ (if bool_decide (p = q) then [f] else []).
Proof.
  unfold requests_on. simpl. rw filter_app fmap_app. f_equal.
  case_bool_decide as Hc; [by rw filter_cons_True|by rw filter_cons_False].
Qed.

(** The connections accepted, in order. *)
Definition go_accepted {A : Asio} (es : list Go_server_event) : list socket :=
  omap (fun e => match e with SEAccept _ (inl (conn, _)) => Some conn | _ => None end) es.

Definition accepts {A : Asio} (e : Go_server_event) : list socket :=
  match e with SEAccept _ (inl (conn, _)) => [conn] | _ => [] end.

Lemma go_accepted_snoc {A : Asio} es e : go_accepted (es ++ [e]) = go_accepted es ++ accepts e.
Proof. unfold go_accepted. rw omap_app. destruct e as [? [[]|]| | | | |]; done. Qed.

(** The goroutine of a connection before and after it has read the
    handshake, until it stops reading. *)
Definition stage (pc : Go_server_pc) : option (bool * nat) :=
  match pc with
  | SAccepted p | HConnect p | HReadHandshake p => Some (false, p)
  | HWriteHandshake p | HRead p | HSem p _ _ _ => Some (true, p)
  | _ => None
  end.

Lemma stage_handling pc b p : stage pc = Some (b, p) -> handling pc = Some p.
Proof. destruct pc; simpl; congruence. Qed.
Lemma stage_after p k ok : stage (after_write p k ok) = None.
Proof. by destruct k, ok. Qed.

Section Listens.
Context {A : Asio} `{!AsioStream A} {App : Type}.
Variable cfg : Go_config App.
Implicit Types (s : Go_server App) (d : list socket) (col : list bytes) (h : Go_server_history).
Abbreviation header := (sc_handshakeHeader cfg).

Definition ins (ps : list Go_peer) : list bytes := (fun peer => incoming (gp_conn peer)) <$> ps.

Definition listens d col h (pc : Go_server_pc) : Prop := forall b p, stage pc = Some (b, p) ->
  exists conn0 inc, d !! p = Some conn0 /\ col !! p = Some inc
    /\ if b then reads_to header (incoming conn0) (cpp_frame <$> requests_on p h) inc
       else inc = incoming conn0 /\ requests_on p h = [].

Record listened d s : Prop := {
  li_length : length d = length (sv_peers s);
  li_range : Forall (fun x => x.1 < length (sv_peers s)) (sh_requests (sv_history s));
  li_types : Forall (fun x => go_Type x.2.1 = Go_FrameRequest) (sh_requests (sv_history s));
  li_threads : threads_all (fun _ => listens d (ins (sv_peers s)) (sv_history s)) (sv_threads s);
  li_requests p conn0 : d !! p = Some conn0 -> requests_on p (sv_history s) = []
    \/ reads header (incoming conn0) (cpp_frame <$> requests_on p (sv_history s))
}.

Lemma ins_close ps p : ins (alter close_conn p ps) = ins ps.
Proof. apply column_close. intros peer. apply close_keeps_in. Qed.
Lemma ins_close_all ps l : ins (foldl (fun ps p => alter close_conn p ps) ps l) = ins ps.
Proof. apply column_close_all. intros peer. apply close_keeps_in. Qed.
Lemma ins_same ps p peer peer' :
  ps !! p = Some peer -> incoming (gp_conn peer') = incoming (gp_conn peer) ->
  ins (<[p := peer']> ps) = ins ps.
Proof. intros Hp Ho. by eapply (column_insert (fun peer => incoming (gp_conn peer))). Qed.
Lemma ins_set ps p peer conn : ins (<[p := set_conn conn peer]> ps) = <[p := incoming conn]> (ins ps).
Proof. unfold ins. by rw list_fmap_insert. Qed.

(** The goroutine stays, or ends its reading; nothing is read. *)
Lemma listens_same d d' col col' h h' pc pc' :
  listens d col h pc -> d `prefix_of` d' -> col `prefix_of` col' -> sh_requests h' = sh_requests h ->
  (stage pc' = None \/ stage pc' = stage pc) -> listens d' col' h' pc'.
Proof.
  intros H Hd Hc Eh Hs b p Hp. destruct Hs as [Hs|Hs]; rw Hs in Hp; [done|].
  destruct (H b p Hp) as (conn0 & inc & H0 & H1 & H2). exists conn0, inc.
  split; [by eapply prefix_lookup_Some|]. split; [by eapply prefix_lookup_Some|].
  unfold requests_on in *. by rw Eh.
Qed.

(** Another goroutine reads from another connection. *)
Lemma listens_others d col h h' inc' p t pc t' pc' s :
  handlers_ok s -> sv_threads s !! t = Some pc -> handling pc = Some p ->
  sv_threads s !! t' = Some pc' -> t' <> t -> (forall q, q <> p -> requests_on q h' = requests_on q h) ->
  listens d col h pc' -> listens d (<[p := inc']> col) h' pc'.
Proof.
  intros Hh Hpc Hp Hpc' Hne Hq H b q Hs.
  pose proof (sum_sole (handles p) _ t pc t' pc' (Hh p) Hpc) as Hz. unfold handles in Hz.
  rw bool_decide_true // in Hz. specialize (Hz ltac:(lia) Hpc' Hne).
  case_bool_decide as Hd; [done|]. destruct (H b q Hs) as (conn0 & inc & ? & ? & ?).
  pose proof (stage_handling _ _ _ Hs) as Hq'. assert (q <> p) as Hqp by congruence.
  exists conn0, inc. rw list_lookup_insert_ne // Hq //.
Qed.

Lemma requests_finished k b h : sh_requests (slog_finished k b h) = sh_requests h.
Proof. by destruct k. Qed.

Lemma requests_on_new s p :
  Forall (fun x => x.1 < length (sv_peers s)) (sh_requests (sv_history s)) -> length (sv_peers s) <= p ->
  requests_on p (sv_history s) = [].
Proof.
  intros H Hp. unfold requests_on. induction H as [|x l Hx _ IH]; [done|]. rw filter_cons_False //. lia.
Qed.

(** No handshake is expected. *)
Lemma listens_open d col h l p :
  listens d col h (HConnect p) -> header = [] -> listens d col (slog l h) (HRead p).
Proof.
  intros H Hh b q [= <- <-]. destruct (H false p eq_refl) as (conn0 & inc & H0 & H1 & -> & H2).
  exists conn0, (incoming conn0). split; [done|]. split; [done|].
  rw /requests_on /= -/(requests_on p h) H2 Hh. apply (reads_to_nil []).
Qed.

(** The handshake is read and accepted. *)
Lemma listens_handshake d ps h l p peer (conn' : socket) received :
  listens d (ins ps) h (HReadHandshake p) -> ps !! p = Some peer ->
  asio_read (gp_conn peer) (zeros (length header)) = (conn', received, None) ->
  Go_check_handshake cfg p received = (true, l) ->
  listens d (<[p := incoming conn']> (ins ps)) (slog l h) (HWriteHandshake p).
Proof.
  intros H Hp Er Hc b q [= <- <-]. destruct (H false p eq_refl) as (conn0 & inc & H0 & H1 & -> & H2).
  exists conn0, (incoming conn'). rw list_lookup_insert_eq; [by eapply lookup_lt_Some|].
  split; [done|]. split; [done|]. rw /requests_on /= -/(requests_on p h) H2.
  rw /ins list_lookup_fmap Hp in H1. injection H1 as <-. apply read_fills in Er as [_ ->].
  unfold Go_check_handshake in Hc. case_bool_decide as Hd; [done|].
  destruct (decide (received = header)) as [->|]; [|by destruct Hd]. apply reads_to_nil.
Qed.

(** A request is read. *)
Lemma listens_request d ps h p peer (conn' : socket) f n :
  listens d (ins ps) h (HRead p) -> ps !! p = Some peer -> Go_ReadFrame (gp_conn peer) = (conn', inl f) ->
  listens d (<[p := incoming conn']> (ins ps)) (slog_request p f h) (HSem p n f.1 f.2).
Proof.
  intros H Hp Er b q [= <- <-]. destruct (H true p eq_refl) as (conn0 & inc & H0 & H1 & H2).
  exists conn0, (incoming conn'). rw list_lookup_insert_eq; [by eapply lookup_lt_Some|].
  split; [done|]. split; [done|]. rw requests_on_snoc bool_decide_true // fmap_app.
  rw /ins list_lookup_fmap Hp in H1. injection H1 as <-.
  destruct (Go_ReadFrame_raw _ _ _ Er) as (raw & Hraw & Hin). by eapply reads_to_snoc.
Qed.

Lemma listens_step d e s s' :
  handlers_ok s -> listened d s -> Go_server_step cfg e s = Some s' ->
  threads_all (fun _ => listens (d ++ accepts e) (ins (sv_peers s')) (sv_history s')) (sv_threads s').
Proof.
  intros Hh Hli E.
  assert (threads_all (fun t pc => sv_threads s !! t = Some pc
    /\ listens d (ins (sv_peers s)) (sv_history s) pc) (sv_threads s)) as H.
  { intros t pc Hpc. split; [done|]. by apply (li_threads _ _ Hli t). }
  pose proof (fun h' inc' p t pc t' pc' => listens_others d (ins (sv_peers s)) (sv_history s) h' inc' p t pc t' pc' s Hh)
    as Hoth.
  pose proof (requests_on_new s (length (sv_peers s)) (li_range _ _ Hli) ltac:(lia)) as Hnew.
  pose proof (li_length _ _ Hli) as Hl.
  sv_cases E; simpl in H, Hoth, Hl, Hnew |- *.
  all: try match goal with Hpc : _ !! _ = Some _ |- _ => destruct (H _ _ Hpc) as [_ Ht] end.
  all: repeat case_match; simplify_eq/=; rw ?app_nil_r.
  all: try match goal with Hw : asio_write _ _ = _ |- _ => apply write_keeps_in in Hw end.
  all: try match goal with Hp : _ !! _ = Some _ |- _ => rw (ins_same _ _ _ _ Hp); [done|] end.
  all: rw ?ins_close ?ins_close_all.
  all: threads_cases H.
  all: try match goal with
    | |- forall t' pc', t' <> _ -> _ /\ listens _ _ _ pc' -> listens _ _ _ pc' =>
        intros t' pc' Hne [Hpc' Hx]
    | |- forall t' pc', _ /\ listens _ _ _ pc' -> listens _ _ _ pc' => intros t' pc' [Hpc' Hx]
    end.
  all: try (by eapply listens_same; [exact Hx|done|done|rw /= ?requests_finished|by right]).
  all: try (by eapply listens_same; [exact Ht|done|done|rw /= ?requests_finished|rw ?stage_after; auto]).
  all: try (by intros b p' Hs).
  all: try (by intros ?? []).
  all: try (rw ins_set; eapply Hoth; [exact Hpc|done|exact Hpc'|exact Hne|simpl|exact Hx];
    intros q Hq; try done; by rw requests_on_snoc bool_decide_false // app_nil_r).
  - eapply listens_same; [exact Hx|by eexists|rw /ins fmap_app; by eexists|done|by right].
  - intros b p' [= <- <-]. exists s, (incoming s). rw -{1}Hl /ins fmap_app /= list_lookup_middle //.
    rw list_lookup_middle; [by rw length_fmap|]. done.
  - eapply listens_open; [exact Ht|done].
  - eapply listens_open; [exact Ht|done].
  - rw ins_set. eapply listens_handshake; [exact Ht|done|done|].
    match goal with Hc : Go_check_handshake _ _ _ = _ |- _ => by rw Hc end.
  - rw ins_set. by eapply (listens_request _ _ _ _ _ _ (_, _)).
Qed.

(** The requests read change only when a goroutine reads one. *)
Lemma requests_read e s s' :
  Go_server_step cfg e s = Some s' ->
  sh_requests (sv_history s') = sh_requests (sv_history s)
  \/ exists t p f n, sv_history s' = slog_request p f (sv_history s) /\ p < length (sv_peers s)
     /\ sv_threads s' !! t = Some (HSem p n f.1 f.2) /\ go_Type f.1 = Go_FrameRequest /\ accepts e = [].
Proof.
  intros E. sv_cases E; repeat case_match; simplify_eq/=; rw ?requests_finished; try (by left).
  right. eexists t, p, (_, _), _. rw list_lookup_insert_eq; [by eapply lookup_lt_Some|].
  split; [done|]. split; [by eapply lookup_lt_Some|]. split; [done|]. by breflect.
Qed.

Lemma peers_accepted e s s' :
  Go_server_step cfg e s = Some s' -> length (sv_peers s') = length (sv_peers s) + length (accepts e).
Proof.
  intros E. sv_cases E; repeat case_match; simplify_eq/=;
    rw ?length_close_all ?length_app ?length_insert ?length_alter /=; lia.
Qed.

Lemma listened_step d e s s' :
  handlers_ok s -> listened d s -> Go_server_step cfg e s = Some s' -> listened (d ++ accepts e) s'.
Proof.
  intros Hh Hli E. pose proof (listens_step d e s s' Hh Hli E) as Hth.
  pose proof (peers_accepted e s s' E) as Hlen. destruct Hli as [Hl Hr Hty _ Hq].
  assert (forall p conn0, (d ++ accepts e) !! p = Some conn0 ->
    d !! p = Some conn0 \/ requests_on p (sv_history s) = []) as Hd.
  { intros p conn0 [?|[Hp _]]%lookup_app_Some; [by left|right]. apply requests_on_new; [done|lia]. }
  constructor; [rw length_app; lia|..|exact Hth|].
  - destruct (requests_read e s s' E) as [->|(t & p & f & n & -> & Hp & _)]; simpl;
      [|apply Forall_app; split; [|apply Forall_singleton; simpl; lia]];
      (eapply Forall_impl; [exact Hr|]; simpl; lia).
  - destruct (requests_read e s s' E) as [->|(t & p & f & n & -> & _ & _ & Hf & _)]; [done|].
    simpl. apply Forall_app. split; [done|]. by apply Forall_singleton.
  - intros p conn0 Hp. destruct (requests_read e s s' E) as [Er|(t & q & f & n & Eh & _ & Ht & _ & Ea)].
    + unfold requests_on. rw Er. destruct (Hd p conn0 Hp) as [?|?]; [by apply Hq|by left].
    + destruct (decide (q = p)) as [->|Hne].
      * right. destruct (Hth _ _ Ht true p eq_refl) as (conn1 & inc & H0 & _ & H2). simplify_eq.
        by eapply reads_to_reads.
      * rw Eh requests_on_snoc bool_decide_false // app_nil_r. rw Ea app_nil_r in Hp. by apply Hq.
Qed.
End Listens.

Lemma go_server_listened {A : Asio} `{!AsioStream A} {App} (cfg : Go_config App) app0 es s :
  run_events (Go_server_step cfg) es (Go_start app0) = Some s ->
  go_server_inv cfg app0 s /\ listened cfg (go_accepted es) s.
Proof.
  revert es s. apply (run_events_trace_invariant (Go_server_step cfg) (Go_start app0)
    (fun es s => go_server_inv cfg app0 s /\ listened cfg (go_accepted es) s)).
  - split; [by apply (Go_server_inv cfg app0 [])|]. constructor; simpl; try done.
    intros [|t] pc E; by simplify_eq/=.
  - intros es e s s' [Hi Hli] E. split; [by eapply go_server_inv_step|]. rw go_accepted_snoc.
    eapply listened_step; [apply Hi|done..].
Qed.

(** ** What is written *)

Definition is_handshake (c : Go_chunk) : bool := match c with ChunkHandshake => true | _ => false end.

(** How many handshake replies connection [q] carries. *)
Definition reply (q : nat) (x : nat * Go_chunk) : nat :=
  if bool_decide (x.1 = q) && is_handshake x.2 then 1 else 0.
Definition replies (q : nat) (cs : list (nat * Go_chunk)) : nat := sum_list_with (reply q) cs.

(** A push has a [uint32] method; payloads are smaller than 4 GiB. *)
Definition push_small (methodID : Z) (payload : bytes) : Prop := is_u32 methodID /\ small payload.

Definition frame_small (f : Go_FrameHeader * bytes) (k : Go_after) : Prop :=
  small f.2 /\ match k with
               | AfterRequest _ => True
               | AfterSend => is_u32 (go_MethodID f.1)
               | AfterBroadcast _ methodID payload =>
                   is_u32 (go_MethodID f.1) /\ push_small methodID payload
               end.

Definition pc_small (pc : Go_server_pc) : Prop :=
  match pc with
  | WHeader _ f k | WPayload _ f k => frame_small f k
  | BStart methodID payload | BSend _ methodID payload => push_small methodID payload
  | _ => True
  end.

Definition chunk_small (c : Go_chunk) : Prop :=
  match c with ChunkHandshake => True | ChunkFrame f k => frame_small f k end.

Definition small_event {A : Asio} (e : Go_server_event) : Prop :=
  match e with SESend _ methodID payload | SEBroadcast methodID payload => push_small methodID payload
  | _ => True end.

Definition small_go_responses {App} (cfg : Go_config App) : Prop :=
  forall mid handler app ctx req app' ctx' resp st, sc_handlers cfg !! mid = Some handler ->
    handler app ctx req = (app', ctx', (resp, st)) -> small resp.

Section Sent.
Context {A : Asio} {App : Type}.
Variable cfg : Go_config App.
Implicit Types (s : Go_server App).

Record sent_ok s : Prop := {
  se_range : Forall (fun x => x.1 < length (sv_peers s)) (sh_chunks (sv_history s));
  se_replies p : replies p (sh_chunks (sv_history s)) + sum_list_with (early p) (sv_threads s) <= 1;
  se_threads : threads_all (fun _ => pc_small) (sv_threads s);
  se_chunks : Forall (fun x => chunk_small x.2) (sh_chunks (sv_history s))
}.

Lemma serveRequest_small addr app hdr payload app' l resp :
  small_go_responses cfg -> Go_serveRequest cfg addr app hdr payload = (app', l, resp) -> small resp.2.
Proof.
  intros Hs. assert (small []) as Hn by done. unfold Go_serveRequest. destruct (_ !! _) as [handler|] eqn:Eh;
    [|intros; by simplify_eq].
  destruct (handler _ _ _) as [[app1 ctx1] [rp st]] eqn:Er. case_match; intros; simplify_eq; [done|].
  by eapply Hs.
Qed.

Lemma replies_snoc q cs x : replies q (cs ++ [x]) = replies q cs + reply q x.
Proof. unfold replies. rw sum_list_with_app /=. lia. Qed.

Lemma replies_on q h :
  replies q (sh_chunks h) = sum_list_with (fun c => if is_handshake c then 1 else 0) (chunks_on q h).
Proof.
  unfold replies, chunks_on. induction (sh_chunks h) as [|x l IH]; [done|]. simpl. rw IH /reply.
  case_bool_decide; [by rw filter_cons_True|by rw filter_cons_False].
Qed.

Lemma replies_step e s s' q :
  Go_server_step cfg e s = Some s' -> bounds_ok s -> sent_ok s ->
  replies q (sh_chunks (sv_history s')) + sum_list_with (early q) (sv_threads s') <= 1.
Proof.
  intros E Hb [Hr Hq _ _]. specialize (Hq q).
  assert (length (sv_peers s) <= q -> replies q (sh_chunks (sv_history s)) = 0) as Hcn.
  { intros Hl. apply sum_all_zero. intros i x Hx. unfold reply.
    pose proof (Forall_lookup_1 _ _ _ _ Hr Hx). by rw bool_decide_false; [simpl in *; lia|]. }
  assert (length (sv_peers s) <= q -> sum_list_with (early q) (sv_threads s) = 0) as Hen.
  { intros Hl. eapply sum_new; [done| |done]. intros pc Hpc%not_mentioned_handles.
    pose proof (early_handles q pc). lia. }
  assert (forall p k ok, early q (after_write p k ok) = 0) as Hafter by (intros p [] []; done).
  clear Hb. sv_count E (early q); simpl in Hcn, Hq, Hen; try (rw ?Hafter in Hi);
    rw ?chunks_finished ?replies_snoc /reply /= ?andb_false_r.
  all: try (unfold early, handles in *; simpl in *; lia).
  all: simpl in Hi; unfold handles in Hi; simpl in Hi.
  2, 3: repeat case_bool_decide; simplify_eq/=; lia.
  case_bool_decide; simplify_eq; [|lia].
  rw Hcn; [done|]. rw Hen in Hi; [done|]. simpl. lia.
Qed.

Lemma small_threads_step e s s' :
  small_go_responses cfg -> small_event e -> Go_server_step cfg e s = Some s' ->
  threads_all (fun _ => pc_small) (sv_threads s) -> threads_all (fun _ => pc_small) (sv_threads s').
Proof.
  intros Hs He E H. sv_cases E; simpl in H.
  all: try match goal with Hpc : _ !! _ = Some _ |- _ => pose proof (H _ _ Hpc) as Ht; simpl in Ht end.
  all: repeat case_match; simplify_eq/=; threads_cases H; try done.
  all: try (by destruct k; destruct Ht as [? []]); try (by destruct k; destruct Ht).
  - by destruct He.
  - split; [|done]. by eapply serveRequest_small.
  - by destruct Ht.
Qed.

Lemma small_chunks_step e s s' :
  Go_server_step cfg e s = Some s' -> threads_all (fun _ => pc_small) (sv_threads s) ->
  Forall (fun x => chunk_small x.2) (sh_chunks (sv_history s)) ->
  Forall (fun x => chunk_small x.2) (sh_chunks (sv_history s')).
Proof.
  intros E Hth H. sv_cases E; simpl in H, Hth.
  all: try match goal with Hpc : _ !! _ = Some _ |- _ => pose proof (Hth _ _ Hpc) as Ht; simpl in Ht end.
  all: repeat case_match; simplify_eq/=; rw ?chunks_finished; try done.
  all: apply Forall_app; (split; [done|]); by apply Forall_singleton.
Qed.

Lemma sent_step e s s' :
  small_go_responses cfg -> small_event e -> bounds_ok s ->
  Go_server_step cfg e s = Some s' -> sent_ok s -> sent_ok s'.
Proof.
  intros Hs He Hb E H. pose proof H as []. constructor;
    [by eapply chunks_range_step|intros p; by eapply replies_step|by eapply small_threads_step|by eapply small_chunks_step].
Qed.
End Sent.

Lemma go_server_sent {A : Asio} {App} (cfg : Go_config App) app0 es (s : Go_server App) :
  run_events (Go_server_step cfg) es (Go_start app0) = Some s ->
  small_go_responses cfg -> Forall small_event es -> sent_ok s.
Proof.
  intros Hr Hs Hes. cut (go_server_inv cfg app0 s /\ sent_ok s); [tauto|]. revert es s Hr Hes.
  apply (run_events_trace_invariant (Go_server_step cfg) (Go_start app0)
    (fun es s => Forall small_event es -> go_server_inv cfg app0 s /\ sent_ok s)).
  - intros _. split; [by apply (Go_server_inv cfg app0 [])|]. constructor; simpl; try done.
    + intros p. lia.
    + intros [|t] pc E; by simplify_eq/=.
  - intros es e s s' IH E [Hes [He _]%Forall_cons]%Forall_app. destruct (IH Hes) as [Hi Hso].
    split; [by eapply go_server_inv_step|]. eapply sent_step; [done|done|apply Hi|done..].
Qed.

(** ** The bytes *)

Definition chunk_frame (c : Go_chunk) : option frame :=
  match c with ChunkHandshake => None | ChunkFrame f _ => Some (cpp_frame f) end.

(** Chunks with at most one handshake reply are frames with the reply among
    them. *)
Lemma chunks_wire hs (cs : list Go_chunk) :
  sum_list_with (fun c => if is_handshake c then 1 else 0) cs <= 1 ->
  exists k hs', hs' `prefix_of` hs /\ k <= length (omap chunk_frame cs)
    /\ concat (chunk_bytes hs <$> cs) = wire k hs' (omap chunk_frame cs).
Proof.
  assert (forall cs, sum_list_with (fun c => if is_handshake c then 1 else 0) cs = 0 ->
    concat (chunk_bytes hs <$> cs) = concat (encode_frame <$> omap chunk_frame cs)) as H0.
  { clear. induction cs as [|[|f k] cs IH]; intros Hz; simpl in *; [done|done|]. by rw IH. }
  induction cs as [|c cs IH]; intros Hl.
  { exists 0, []. split; [apply prefix_nil|]. by split; [simpl; lia|]. }
  destruct c as [|f k]; simpl in Hl.
  - exists 0, hs. split; [done|]. split; [simpl; lia|]. simpl. rw H0; [lia|]. by rw /wire.
  - destruct (IH Hl) as (j & hs' & Hp & Hj & E). exists (S j), hs'. split; [done|].
    change (omap chunk_frame (ChunkFrame f k :: cs)) with (cpp_frame f :: omap chunk_frame cs).
    cbn [length]. split; [lia|]. rw fmap_cons concat_cons E /wire firstn_cons skipn_cons fmap_cons concat_cons -app_assoc //.
Qed.

Lemma wire_app k hs w x :
  k <= length w -> wire k hs (w ++ x) = wire k hs w ++ concat (encode_frame <$> x).
Proof.
  intros Hk. unfold wire. rw take_app_le // drop_app_le // fmap_app concat_app -!app_assoc //.
Qed.

(** ** The interface *)

(** The requests of connection [p] whose handlers ran, with their responses. *)
Definition served_entry (h : Go_server_history) (p : nat)
    (x : nat * (string * (Go_FrameHeader * bytes)) * (Go_FrameHeader * bytes)) : option (frame * frame) :=
  match sh_requests h !! x.1.1 with
  | Some (q, _) => if decide (q = p) then Some (cpp_frame x.1.2.2, cpp_frame x.2) else None
  | None => None
  end.

Definition served_on (p : nat) (h : Go_server_history) : list (frame * frame) :=
  omap (served_entry h p) (sh_served h).

(** Entries of a list, each taken at most once. *)
Lemma picked_submseteq {X} (l : list X) (xs : list (nat * X)) :
  NoDup xs.*1 -> Forall (fun x => l !! x.1 = Some x.2) xs -> xs.*2 ⊆+ l.
Proof.
  intros Hn Hf. replace l with ((imap pair l).*2).
  2: { apply list_eq. intros i. rw list_lookup_fmap list_lookup_imap. by destruct (l !! i). }
  apply fmap_submseteq, NoDup_submseteq; [by eapply NoDup_fmap_1|].
  intros [i x] Hx. apply (proj1 (Forall_forall _ _) Hf) in Hx. simpl in Hx.
  apply (list_elem_of_lookup_2 _ i). by rw list_lookup_imap Hx.
Qed.

Lemma filter_submseteq {X} (P : X -> Prop) `{!forall x, Decision (P x)} (l k : list X) :
  l ⊆+ k -> filter P l ⊆+ filter P k.
Proof.
  intros (m & ->)%submseteq_Permutation. rw filter_app. by apply submseteq_inserts_r.
Qed.

Section GoServerEnd.
Context {A : Asio} `{!AsioStream A} {App : Type}.
Variables (cfg : Go_config App) (app0 : App) (es : list Go_server_event) (s : Go_server App).
Hypothesis Hr : run_events (Go_server_step cfg) es (Go_start app0) = Some s.
Hypothesis Hfresh : Forall fresh_accept es.
Hypothesis Hsmall : small_go_responses cfg.
Hypothesis Hpush : Forall small_event es.
Abbreviation h := (sv_history s).

(** The frames put on connection [p], the last of which may be under way. *)
Definition writing_to (p : nat) : list (Go_FrameHeader * bytes) :=
  match (gp_writeMu <$> sv_peers s) !! p with
  | Some (Some t) => match sv_threads s !! t with Some (WPayload _ f _) => [f] | _ => [] end
  | _ => []
  end.

Definition sent_on (p : nat) : list frame :=
  omap chunk_frame (chunks_on p h) ++ (cpp_frame <$> writing_to p).

Lemma sent_frames p f :
  f ∈ sent_on p -> exists g k, f = cpp_frame g /\ frame_ok h p g k /\ frame_small g k.
Proof.
  pose proof (Go_server_inv cfg app0 es s Hr) as Hi. pose proof (go_server_sent cfg app0 es s Hr Hsmall Hpush) as Hs.
  intros [Hin|Hin]%elem_of_app.
  - apply list_elem_of_omap in Hin as (c & Hc & E). destruct c as [|g k]; [done|]. simplify_eq/=.
    apply list_elem_of_fmap in Hc as ([q c] & Ec & [? Hc]%list_elem_of_filter). simpl in *. subst q c.
    exists g, k. split; [done|]. split.
    + exact (proj1 (Forall_forall _ _) (sf_chunks _ _ _ (si_facts _ _ _ Hi)) _ Hc).
    + exact (proj1 (Forall_forall _ _) (se_chunks _ Hs) _ Hc).
  - apply list_elem_of_fmap in Hin as (g & -> & Hg). unfold writing_to in Hg.
    destruct (_ !! p) as [[t|]|] eqn:Em; try (by apply elem_of_nil in Hg).
    destruct (wr_mutex _ _ (si_writers _ _ _ Hi) p t Em) as (pc & Hpc & Hp). rw Hpc in Hg.
    pose proof (sf_threads _ _ _ (si_facts _ _ _ Hi) _ _ Hpc) as Hf. pose proof (se_threads _ Hs _ _ Hpc) as Hk.
    destruct pc; simplify_eq/=. apply list_elem_of_singleton in Hg. subst. by eexists _, _.
Qed.

(** A request of connection [p] has a header that was read. *)
Lemma request_read n p req :
  sh_requests h !! n = Some (p, req) -> header_wf (to_cpp req.1) /\ go_Type req.1 = Go_FrameRequest.
Proof.
  intros Hn. destruct (go_server_listened cfg app0 es s Hr) as [_ Hli].
  split; [|exact (Forall_lookup_1 _ _ _ _ (li_types _ _ _ Hli) Hn)].
  assert (req ∈ requests_on p h) as Hin.
  { apply list_elem_of_fmap. exists (p, req). split; [done|]. apply list_elem_of_filter.
    split; [done|]. by eapply list_elem_of_lookup_2. }
  pose proof (Forall_lookup_1 _ _ _ _ (li_range _ _ _ Hli) Hn) as Hp. simpl in Hp.
  rw -(li_length _ _ _ Hli) in Hp. destruct (lookup_lt_is_Some_2 _ _ Hp) as [conn0 Hc].
  destruct (li_requests _ _ _ Hli p conn0 Hc) as [E|(raws & rest & _ & Hf)]; [rw E in Hin; by apply elem_of_nil in Hin|].
  apply list_elem_of_lookup in Hin as [i Hi].
  destruct (Forall2_lookup_r _ _ _ i (cpp_frame req) Hf) as (raw & _ & buf & _ & Eh & _);
    [by rw list_lookup_fmap Hi|]. simpl in Eh. rw Eh. apply Deserialize_wf.
Qed.

Lemma sent_frame_facts p f :
  f ∈ sent_on p -> frame_wf f /\ server_frame f /\ (is_response f -> f ∈ (served_on p h).*2).
Proof.
  intros (g & k & -> & Hok & Hsm & Hk)%sent_frames.
  pose proof (Go_server_inv cfg app0 es s Hr) as Hi.
  assert ((exists mid, g.1 = push_hdr mid g.2) -> is_u32 (go_MethodID g.1) ->
    frame_wf (cpp_frame g) /\ server_frame (cpp_frame g)
    /\ (is_response (cpp_frame g) -> cpp_frame g ∈ (served_on p h).*2)) as Hpu.
  { intros [mid E] Hm. destruct g as [gh gp]. simpl in *. subst gh. split; [|split; [by right|done]].
    split; simpl; [|by rw u32_small]. by constructor; simpl; auto with protocomm. }
  destruct k as [n| |]; [|by apply Hpu|by apply Hpu; [|apply Hk]]. clear Hpu Hk.
  destruct Hok as (addr & req & Hin & Hreq).
  destruct (proj1 (Forall_forall _ _) (sf_served _ _ _ (si_facts _ _ _ Hi)) _ Hin) as [_ [code Hc]].
  destruct (request_read _ _ _ Hreq) as [Hw Hty]. destruct g as [gh gp]. simpl in *. subst gh.
  split; [|split; [by left|]].
  - split; simpl; [|by rw u32_small]. destruct Hw. by constructor; simpl; auto with protocomm.
  - intros _. apply list_elem_of_fmap. eexists (cpp_frame req, _). split; [done|].
    apply list_elem_of_omap. eexists. split; [exact Hin|]. unfold served_entry. simpl.
    rw Hreq decide_True //.
Qed.

(** The requests served on a connection are requests read from it, each at
    most once. *)
Lemma served_on_requests p : (served_on p h).*1 ⊆+ cpp_frame <$> requests_on p h.
Proof.
  pose proof (Go_server_inv cfg app0 es s Hr) as Hi. pose proof (served_NoDup _ _ _ Hi) as Hn.
  pose proof (sf_served _ _ _ (si_facts _ _ _ Hi)) as Hf.
  set (zs := omap (fun x => pair x.1.1 <$> sh_requests h !! x.1.1) (sh_served h)).
  assert (zs.*1 = served_ids h /\ (served_on p h).*1 = cpp_frame <$> (filter (fun x => x.1 = p) zs.*2).*2)
    as [E1 E2].
  { unfold zs, served_on, served_ids, served_entry. clear zs Hn.
    induction Hf as [|x l [(q & Hq & _) _] _ [IH1 IH2]]; [done|]. simpl. rw Hq /=.
    split; [by f_equal|]. case_decide; [|by rw filter_cons_False].
    rw filter_cons_True //=. by f_equal. }
  rw E2. apply fmap_submseteq, fmap_submseteq, filter_submseteq, picked_submseteq; [by rw E1|].
  apply Forall_forall. intros [n y] Hin. apply list_elem_of_omap in Hin as (x & _ & Hx).
  destruct (_ !! x.1.1) eqn:E; simplify_eq/=. done.
Qed.

Lemma served_on_answers p : Forall answers (served_on p h).
Proof.
  pose proof (Go_server_inv cfg app0 es s Hr) as Hi.
  apply Forall_forall. intros y (x & Hx & Ey)%list_elem_of_omap. unfold served_entry in Ey.
  destruct (_ !! x.1.1) as [[q r]|] eqn:E; [|done]. case_decide; simplify_eq.
  destruct (proj1 (Forall_forall _ _) (sf_served _ _ _ (si_facts _ _ _ Hi)) _ Hx) as [(q' & Hq & _) [code Hc]].
  rw E in Hq. simplify_eq. destruct (request_read _ _ _ E) as [_ Hty].
  unfold answers. simpl. rw Hc Hty. done.
Qed.

Lemma header_out_writing p : exists y,
  concat (encode_frame <$> (cpp_frame <$> writing_to p))
  = header_out (gp_writeMu <$> sv_peers s) (sv_threads s) p ++ y.
Proof.
  unfold header_out, writing_to. destruct (_ !! p) as [[t|]|]; [|by exists []..].
  destruct (sv_threads s !! t) as [pc|]; [|by exists []]. destruct pc; try (by exists []).
  exists f.2. by rw fmap_cons fmap_nil -concat_encode_go /cpp_frame /encode_go; destruct f.
Qed.

Lemma sent_wire p peer :
  sv_peers s !! p = Some peer -> p ∉ sh_failed h -> p ∉ sh_clobbered h ->
  exists k hs, hs `prefix_of` sc_handshakeHeader cfg /\ outgoing (gp_conn peer) `prefix_of` wire k hs (sent_on p).
Proof.
  intros Hp Hnf Hnc. pose proof (Go_server_wire cfg app0 es s Hr Hfresh) as Hw.
  rw (sw_bytes _ _ _ _ _ Hw p (outgoing (gp_conn peer))) //; [by rw /outs list_lookup_fmap Hp|].
  pose proof (se_replies _ (go_server_sent cfg app0 es s Hr Hsmall Hpush) p) as Hrep.
  destruct (chunks_wire (sc_handshakeHeader cfg) (chunks_on p h)) as (k & hs & Hpre & Hk & E).
  { rw -replies_on. lia. }
  exists k, hs. split; [done|]. rw E /sent_on wire_app //.
  destruct (header_out_writing p) as [y ->]. rw app_assoc. by eexists.
Qed.

Theorem go_server_end p conn0 peer :
  go_accepted es !! p = Some conn0 -> sv_peers s !! p = Some peer ->
  p ∉ sh_failed h -> p ∉ sh_clobbered h -> Forall no_frame_byte (sc_handshakeHeader cfg) ->
  server_end (sc_handshakeHeader cfg) (incoming conn0) (outgoing (gp_conn peer)) (served_on p h).
Proof.
  intros Hc Hp Hnf Hnc Hb. destruct (go_server_listened cfg app0 es s Hr) as [Hi Hli]. constructor.
  - destruct (li_requests _ _ _ Hli p conn0 Hc) as [E|Hreads].
    + left. pose proof (served_on_requests p) as Hs. rw E in Hs.
      by apply submseteq_nil_r, fmap_nil_inv in Hs.
    + right. eexists. split; [exact Hreads|]. apply served_on_requests.
  - apply served_on_answers.
  - exists (sent_on p).
    split; [apply Forall_forall; intros f Hf; exact (proj1 (sent_frame_facts p f Hf))|].
    split; [|intros f Hf; exact (proj2 (proj2 (sent_frame_facts p f Hf)))]. intros x Hx.
    destruct (sent_wire p peer Hp Hnf Hnc) as (k & hs & Hpre & Hout).
    eapply (wire_after_handshake k hs); [exact Hpre|exact Hb|..].
    + apply Forall_forall. intros f Hf. exact (proj1 (proj2 (sent_frame_facts p f Hf))).
    + etrans; [exact Hx|exact Hout].
Qed.
End GoServerEnd.
