(* ===== verification/GoSafety.v ===== *)
(** * GoSafety: safety of remote calls across the languages

    The safety of remote calls under every interleaving of both ends, for a
    Go channel with a C++ server, a C++ channel with a Go server and a Go
    channel with a Go server.  Each is the composition of the two ends
    ([Ends.ends_safe]) with what the server's file says of the order in which
    it executed the requests. *)

From S2P Require Import Prelude.
From S2P Require Import Status.
From S2P Require Import Frame.
From S2P Require Import Transport.
From S2P Require Import Mpsc.
From S2P Require Import Session.
From S2P Require Import SessionSpec.
From S2P Require Import Server.
From S2P Require Import Channel.
From S2P Require Import ChannelCallbacks.
From S2P Require Import ChannelRequests.
From S2P Require Import ChannelReceive.
From S2P Require Import ChannelTypes.
From S2P Require Import Ends.
From S2P Require Import SessionEnd.
From S2P Require Import ServerSpec.
From S2P Require Import ChannelEnd.
From S2P Require Import RpcSafety.
From S2P Require Import GoFrame.
From S2P Require Import GoChannel.
From S2P Require Import GoChannelInvariants.
From S2P Require Import GoChannelProperties.
From S2P Require Import GoServer.
From S2P Require Import GoServerInvariants.
From S2P Require Import GoServerRequests.
From S2P Require Import GoServerProperties.
From S2P Require Import GoCompat.
From S2P Require Import GoChannelEnd.
From S2P Require Import GoServerEnd.

Open Scope protocomm_scope.
Open Scope nat_scope.

(** ** A Go channel and its servers *)

Section GoClient.
Context {A : Asio} `{!AsioStream A}.
Variables (config : Go_ChannelConfig) (ces : list Go_event) (c : Go_channel).
Hypothesis Hc : run_events (Go_channel_step config) ces Go_CreateChannel = Some c.
Hypothesis Hfresh : Forall fresh_dial ces.
Hypothesis Hsmall : Forall small_go_call ces.
Hypothesis Hgood : go_failed (go_history c) = [].
Hypothesis Hlen : (Z.of_nat (length (go_issued (go_history c))) <= 2 ^ 32)%Z.

(** Each connection the channel dialed has a server at its other end. *)
Definition go_served (srv : nat -> list (frame * frame)) : Prop :=
  forall k conn0 conn, dialed ces !! k = Some conn0 -> go_conns c !! k = Some conn ->
    served_by (go_HandshakeHeader config) (incoming conn0) (outgoing conn) (srv k).

Lemma go_calls_safe srv :
  go_served srv ->
  (forall k, k < length (go_conns c) -> (srv k).*1 ⊆+ go_requests c k)
  /\ forall t st p methodID request,
       (t, st, p) ∈ go_delivered (go_history c) -> (t, CallUnary methodID request) ∈ go_callers (go_history c) ->
       (Go_IsOK st = false /\ p = [])
       \/ exists k id resp, (id, (t, k)) ∈ go_issued (go_history c) /\ k < length (go_conns c)
            /\ ((request_header id methodID request, request), resp) ∈ srv k
            /\ (status_to_cpp st, p) = response_of resp.
Proof.
  intros Hsrv. pose proof (go_channel_client_end config ces c Hc Hfresh Hsmall Hgood) as Hce.
  destruct (go_channel_heard config ces c Hc) as (_ & _ & Hh & _).
  pose proof (he_length _ _ _ Hh) as Hl.
  set (srv' k := if decide (k < length (go_conns c)) then srv k else []).
  assert (forall k, served_by (go_HandshakeHeader config) (bytes_at incoming (dialed ces) k)
    (bytes_at outgoing (go_conns c) k) (srv' k)) as Hse.
  { intros k. unfold bytes_at, srv'. destruct (decide _) as [Hk|Hk].
    - destruct (lookup_lt_is_Some_2 _ _ Hk) as [conn Hcn]. rw -Hl in Hk.
      destruct (lookup_lt_is_Some_2 _ _ Hk) as [conn0 Hd]. rw Hcn Hd. by apply Hsrv.
    - rw !lookup_ge_None_2; [lia..|]. apply served_by_nil. }
  destruct (ends_safe _ _ _ _ _ _ _ Hce Hse) as [Hcalls Hout]. split.
  - intros k Hk. specialize (Hcalls k). unfold srv' in Hcalls. by rw decide_True in Hcalls.
  - intros t st p mid request Hd Hk.
    destruct (Hout t (status_to_cpp st) p) as [[? ?]|(k & req & resp & Hr & Hq & Hn & E)];
      [by exists mid, request, st|left; by rw -status_to_cpp_ok|right].
    unfold srv' in Hr. destruct (decide _) as [Hkl|]; [|by apply elem_of_nil in Hr].
    destruct (go_request_call config ces c Hc k req t mid request Hlen Hq Hn Hk) as [Hreq Hid].
    exists k, (call_id req.1), resp. rw -Hreq. done.
Qed.
End GoClient.

(** ** A C++ server at the end of the connections *)

(** Connection [k] of the Go channel is session [route k] of the server. *)
Definition routed {A : Asio} `{!AsioStream A} {App} (config : Go_ChannelConfig) (ces : list Go_event)
    (c : Go_channel) (ses : list (server_event (A := A) (App := App))) (s : server (A := A) (App := App)) (route : nat -> nat) : Prop :=
  Forall no_frame_byte (go_HandshakeHeader config)
  /\ forall k conn0 conn, dialed ces !! k = Some conn0 -> go_conns c !! k = Some conn ->
       exists o ssock, heap s !! route k = Some o /\ accepted ses !! route k = Some ssock
         /\ o_handshake_header o = go_HandshakeHeader config /\ outgoing ssock = []
         /\ incoming ssock `prefix_of` outgoing conn
         /\ incoming conn0 `prefix_of` outgoing (Session.socket_ (o_session o))
         /\ Session.write_failed (o_session o) = false.

(** C3: calls of a Go channel to a C++ server are safe and linearizable.  A Go
    channel whose connections lead to sessions of a C++ server, each end
    reading what the other has transmitted, in any interleaving of the
    goroutines of the channel, the sessions and the connections, while no
    handshake and no write has failed, payloads are smaller than 4 GiB and at
    most [2 ^ 32] calls were made.  There is one order of executing the
    requests of all sessions of the server that leads to the state of the
    application; the sessions of the channel's connections execute requests
    of the channel only, each at most once; and what [AsyncUnaryCall] hands
    to a callback is an error without a payload, or what the response computed
    for this very call in that order says. *)
Theorem go_client_safety {A : Asio} `{!AsioStream A} `{!UnorderedIter nat} {App}
    config ces (c : Go_channel) (b : builder_config (App := App)) ses app0 app (s : server (A := A)) route :
  run_events (Go_channel_step config) ces Go_CreateChannel = Some c ->
  run_events server_step ses (app0, BuildAndStart b) = Some (app, s) ->
  routed config ces c ses s route ->
  Forall fresh_dial ces -> Forall small_go_call ces -> go_failed (go_history c) = [] ->
  (Z.of_nat (length (go_issued (go_history c))) <= 2 ^ 32)%Z ->
  Forall no_register ses -> Forall small_pushes ses -> (forall o, small_responses (object_config s o)) ->
  exists log, serves (session_configs s) app0 log app
    /\ (forall k, k < length (go_conns c) -> (answered_by (route k) log).*1 ⊆+ go_requests c k)
    /\ forall t st p methodID request, (t, st, p) ∈ go_delivered (go_history c) ->
         (t, CallUnary methodID request) ∈ go_callers (go_history c) ->
         (Go_IsOK st = false /\ p = [])
         \/ exists k id resp, (id, (t, k)) ∈ go_issued (go_history c)
              /\ (route k, (request_header id methodID request, request), Some resp) ∈ log
              /\ (status_to_cpp st, p) = response_of resp.
Proof.
  intros Hc Hs [Hb Hroute] Hfd Hsm Hg Hlen Hn Hp Hsr.
  destruct (linear_run _ _ _ _ _ (BuildAndStart_heap b) Hs Hn) as [log Hl].
  destruct (sessions_ok_run _ _ _ _ _ (BuildAndStart_heap b) Hs Hn Hp Hsr) as [_ Hok].
  exists log. split; [apply Hl|].
  destruct (go_calls_safe config ces c Hc Hfd Hsm Hg Hlen (fun k => answered_by (route k) log)) as [Hcalls Hout].
  { intros k conn0 conn Hd Hcn.
    destruct (Hroute k conn0 conn Hd Hcn) as (o & ssock & Ho & Hss & Hh & Hout & Hup & Hdown & Hw).
    destruct (Hok _ _ Ho) as (sk & Hsk & Hso). simplify_eq. rw Hout in Hso.
    eexists _, _. split; [|split; [exact Hup|exact Hdown]]. rw -(ln_served _ _ _ _ Hl _ _ Ho) -Hh.
    apply (session_server_end (object_config s o)); [done|done|]. by rw /= Hh. }
  split; [exact Hcalls|]. intros t st p mid request Hd Hk.
  destruct (Hout t st p mid request Hd Hk) as [?|(k & id & resp & Hid & _ & Hr & E)]; [by left|right].
  exists k, id, resp. split; [done|]. split; [by apply answered_by_elem|done].
Qed.

(** The call of [GoChannelProperties.go_demo_call], received by a C++ server. *)
Definition go_ping : bytes :=
  b8 "pc1" ++ encode_go (request_hdr 1 7 (b8 "ping"), b8 "ping").

Definition go_ping_events : list (server_event (A := pipe_asio) (App := nat)) :=
  Accept (A := pipe_asio) (mkPipe go_ping [] None true) None
  :: (SessionStep 0 <$> open_events pong_config ++ serve_events).

Lemma go_demo_small : Forall fresh_dial go_demo_call /\ Forall small_go_call go_demo_call.
Proof. split; repeat (apply Forall_cons_2; [by vm_compute|]); apply Forall_nil_2. Qed.

Lemma go_demo_header : Forall no_frame_byte (go_HandshakeHeader go_demo_config).
Proof. repeat (apply Forall_cons_2; [by vm_compute|]). apply Forall_nil_2. Qed.

(** What the channel of the demonstration did. *)
Lemma go_demo_facts c :
  go_demo go_demo_call = Some c ->
  go_failed (go_history c) = [] /\ length (go_issued (go_history c)) = 1
  /\ (0, Go_StatusOK, b8 "pong") ∈ go_delivered (go_history c)
  /\ (0, CallUnary 7 (b8 "ping")) ∈ go_callers (go_history c)
  /\ exists conn, go_conns c = [conn] /\ outgoing conn = go_ping.
Proof.
  intros E. vm_compute in E. simplify_eq. split; [reflexivity|]. split; [reflexivity|].
  split; [left|]. split; [left|]. eexists. split; reflexivity.
Qed.

Lemma go_client_safety_witness :
  match go_demo go_demo_call,
        run_events server_step go_ping_events (O, BuildAndStart (A := pipe_asio) ping_builder) with
  | Some c, Some (n, s) => exists log req resp, serves (session_configs s) O log n
      /\ (0, req, Some resp) ∈ log /\ (Status_default, b8 "pong") = response_of resp
  | _, _ => False
  end.
Proof.
  destruct (go_demo go_demo_call) as [c|] eqn:Ec; [|by vm_compute in Ec].
  destruct (go_demo_facts c Ec) as (H1 & H2 & H3 & H4 & conn & H5 & H6).
  destruct (run_events server_step _ _) as [[n s]|] eqn:Es; [|clear Ec; by vm_compute in Es].
  assert (handlers s = handlers_ pong_config /\ exists o, heap s !! 0 = Some o
    /\ o_handshake_header o = bytes_of_string "pc1" /\ Session.write_failed (o_session o) = false
    /\ outgoing (Session.socket_ (o_session o)) = p_in go_demo_conn) as (Hh & o & Ho & H7 & H8 & H9)
    by (clear Ec H1 H2 H3 H4 H5 H6; vm_compute in Es; simplify_eq; split; [reflexivity|by eexists]).
  destruct go_demo_small as [Hfd Hsm].
  assert (Forall no_register go_ping_events) as Hn.
  { clear. repeat (apply Forall_cons_2; [exact I|]). apply Forall_nil_2. }
  assert (Forall small_pushes go_ping_events) as Hp.
  { clear. repeat (apply Forall_cons_2; [exact I|]). apply Forall_nil_2. }
  assert (routed go_demo_config go_demo_call c go_ping_events s (fun k => k)) as Hroute.
  { split; [exact go_demo_header|]. intros [|k] conn0 conn1 Hd Hcn; [|by rw H5 in Hcn].
    rw H5 in Hcn. injection Hd as <-. injection Hcn as <-. exists o, (mkPipe go_ping [] None true).
    rw H6 H9. by split_and!. }
  destruct (go_client_safety go_demo_config go_demo_call c ping_builder go_ping_events O n s (fun k => k)
    Ec Es Hroute Hfd Hsm H1) as (log & Hl & _ & Hout); [by rw H2|exact Hn|exact Hp|..].
  { intros o1. unfold small_responses, object_config. cbn [handlers_]. rw Hh. apply pong_small. }
  destruct (Hout _ _ _ _ _ H3 H4) as [[? _]|(k & id & resp & Hid & Hin & E)]; [discriminate|].
  assert (k = 0) as ->.
  { clear Es Hout Hroute Hl. vm_compute in Ec. simplify_eq. simpl in Hid.
    apply list_elem_of_singleton in Hid. by simplify_eq. }
  eexists log, _, resp. split; [exact Hl|]. split; [exact Hin|exact E].
Defined.

(** ** A Go server at the end of the connections *)

(** The Go server reached [s] by the events [ses]: its connection [p] is the
    one on which a client receives [inc] and has transmitted [out]. *)
Definition go_joined {A : Asio} `{!AsioStream A} {App} (cfg : Go_config App) (ses : list Go_server_event)
    (s : Go_server App) (p : nat) (inc out : bytes) : Prop :=
  exists sconn peer, go_accepted ses !! p = Some sconn /\ sv_peers s !! p = Some peer
    /\ (p ∉ sh_failed (sv_history s)) /\ (p ∉ sh_clobbered (sv_history s))
    /\ (incoming sconn `prefix_of` out) /\ (inc `prefix_of` outgoing (gp_conn peer)).

Section GoServed.
Context {A : Asio} `{!AsioStream A} {App : Type}.
Variables (cfg : Go_config App) (app0 : App) (ses : list Go_server_event) (s : Go_server App).
Hypothesis Hs : run_events (Go_server_step cfg) ses (Go_start app0) = Some s.
Hypothesis Hfresh : Forall fresh_accept ses.
Hypothesis Hsmall : small_go_responses cfg.
Hypothesis Hpush : Forall small_event ses.
Hypothesis Hbytes : Forall no_frame_byte (sc_handshakeHeader cfg).

Lemma go_joined_served p inc out :
  go_joined cfg ses s p inc out ->
  served_by (sc_handshakeHeader cfg) inc out (served_on p (sv_history s)).
Proof.
  intros (sconn & peer & Ha & Hp & Hf & Hcl & Hup & Hdown). eexists _, _.
  split; [|split; [exact Hup|exact Hdown]]. by eapply go_server_end.
Qed.

Lemma go_sequential :
  cpp_serve_all cfg app0 ((sh_served (sv_history s)).*1).*2
  = Some (sv_app s, cpp_frame <$> (sh_served (sv_history s)).*2).
Proof. apply (sf_sequential _ _ _ (si_facts _ _ _ (Go_server_inv cfg app0 ses s Hs))). Qed.

(** What was served on a connection was served. *)
Lemma served_on_elem p req resp :
  (req, resp) ∈ served_on p (sv_history s) -> exists n addr hdr payload r,
    (n, (addr, (hdr, payload)), r) ∈ sh_served (sv_history s)
    /\ sh_requests (sv_history s) !! n = Some (p, (hdr, payload))
    /\ req = (to_cpp hdr, payload) /\ resp = cpp_frame r.
Proof.
  intros ([[n [addr [hdr payload]]] r] & Hin & E)%list_elem_of_omap. unfold served_entry in E. simpl in E.
  pose proof (si_facts _ _ _ (Go_server_inv cfg app0 ses s Hs)) as Hf.
  destruct (proj1 (Forall_forall _ _) (sf_served _ _ _ Hf) _ Hin) as [(q & Hq & _) _]. simpl in Hq.
  rw Hq in E. case_decide; [|done]. simplify_eq. by exists n, addr, hdr, payload, r.
Qed.
End GoServed.

(** C4: calls of a C++ channel to a Go server are safe and linearizable.  A C++
    channel on a connection of a Go server, each end reading what the other
    has transmitted, in any interleaving, while no write on the connection
    has failed nor the handshake reply been written into a push, payloads are
    smaller than 4 GiB and at most [2 ^ 32] calls were made.  The requests
    the server executed, on all its connections and in the order of their
    execution, are a run of the sequential service that leads to the state of
    the application; those of this connection are calls of the channel, each
    at most once; and what a response callback is told is an error without a
    payload, or the outcome of the execution of its own call, with its method
    and its payload. *)
Theorem cpp_client_safety {A : Asio} `{!AsioClient A} `{!AsioStream A} `{!AsioClientStream A}
    {Q} `{!Fifo Q Completion} `{!UnorderedIter ResponseCallback} {App}
    config csock ces (c : channel A Q) (cfg : Go_config App) app0 ses (s : Go_server App) p :
  run_events (channel_step config) ces (channel_init csock) = Some c ->
  run_events (Go_server_step cfg) ses (Go_start app0) = Some s ->
  handshake_header config = sc_handshakeHeader cfg -> Forall no_frame_byte (handshake_header config) ->
  Forall (streams_from (fun inc => go_joined cfg ses s p inc (outgoing (Channel.socket_ c)))) ces ->
  connected c = true -> Channel.write_failed c = false -> Forall small_call ces ->
  (Z.of_nat (length (issued c)) <= 2 ^ 32)%Z ->
  Forall fresh_accept ses -> Forall small_event ses -> small_go_responses cfg ->
  cpp_serve_all cfg app0 ((sh_served (sv_history s)).*1).*2
    = Some (sv_app s, cpp_frame <$> (sh_served (sv_history s)).*2)
  /\ (served_on p (sv_history s)).*1 ⊆+ queued c
  /\ forall pl n st pay, LResponse pl n st pay ∈ Channel.log c ->
     (ok st = false /\ pay = [])
     \/ exists id mid req i addr hdr r, (id, Some n) ∈ issued c /\ started ces (OpCall mid req (Some n))
        /\ (i, (addr, (hdr, req)), r) ∈ sh_served (sv_history s)
        /\ sh_requests (sv_history s) !! i = Some (p, (hdr, req))
        /\ to_cpp hdr = request_header id mid req /\ (st, pay) = response_of (cpp_frame r).
Proof.
  intros Hc Hs Hh Hb Hj Hup Hw Hsc Hlen Hfa Hse Hsr. split; [by eapply go_sequential|].
  destruct (channel_calls_safe config csock ces c Hc Hup _ (served_on p (sv_history s)) Hw Hsc Hj Hlen)
    as [Hcalls Hout].
  { intros inc Hinc. rw Hh in Hb *. by eapply go_joined_served. }
  split; [done|]. intros pl n st pay Hlog.
  destruct (Hout pl n st pay Hlog) as [?|(id & mid & req & resp & Hi & Hst & Hr & E)]; [by left|right].
  destruct (served_on_elem cfg app0 ses s Hs _ _ _ Hr) as (i & addr & hdr & payload & r & Hin & Hq & Er & ->).
  simplify_eq. exists id, mid, payload, i, addr, hdr, r. done.
Qed.

(** A Go server that receives one request. *)
Definition go_one_request (inc : bytes) : list (@Go_server_event pipe_asio) :=
  [ SEAccept 0 (inl (mkPipe inc [] None true, "peer:1")); SEStep 0 0; SEStep 1 0; SEStep 1 0; SEStep 1 0;
    SEStep 1 0; SEStep 1 0; SEStep 2 0; SEStep 2 0; SEStep 2 0 ].

Lemma go_one_request_small inc :
  Forall fresh_accept (go_one_request inc) /\ Forall small_event (go_one_request inc).
Proof. split; repeat (apply Forall_cons_2; [done|]); apply Forall_nil_2. Qed.

Lemma go_demo_server_small : small_go_responses go_demo_server.
Proof.
  intros mid handler app ctx req app' ctx' resp st Hh Er.
  assert (sc_handlers go_demo_server = {[ 7%Z := fun app ctx req => (S app, ctx, (b8 "pong", Go_StatusOK)) ]})
    as Es by reflexivity.
  rw Es in Hh. apply lookup_singleton_Some in Hh as [_ <-].
  assert (b8 "pong" = resp) as <- by congruence. clear Er. by vm_compute.
Qed.

(** What the server did: it answered the request with [b8 "pong"]. *)
Definition go_answered_ping (inc : bytes) (s : @Go_server pipe_asio nat) : Prop :=
  sh_failed (sv_history s) = [] /\ sh_clobbered (sv_history s) = []
  /\ exists peer, sv_peers s !! 0 = Some peer /\ outgoing (gp_conn peer) = p_in go_demo_conn.

Lemma go_answered_joined inc s inc' out :
  go_answered_ping inc s -> inc `prefix_of` out -> inc' = p_in go_demo_conn ->
  go_joined go_demo_server (go_one_request inc) s 0 inc' out.
Proof.
  intros (H1 & H2 & peer & Hp & Ho) Hup ->. exists (mkPipe inc [] None true), peer.
  split; [reflexivity|]. split; [exact Hp|]. rw H1 H2 Ho. by split_and!; try apply not_elem_of_nil.
Qed.

Lemma cpp_client_safety_witness :
  match demo_run Inline ping_events, go_demo_sv (go_one_request (p_in ping_server)) with
  | Some c, Some s => exists id i addr hdr req r, (id, Some 20) ∈ issued c
      /\ (i, (addr, (hdr, req)), r) ∈ sh_served (sv_history s)
      /\ (Status_default, b8 "pong") = response_of (cpp_frame r)
  | _, _ => False
  end.
Proof.
  destruct (demo_run Inline _) as [c|] eqn:Ec; [|by vm_compute in Ec].
  assert (connected c = true /\ Channel.write_failed c = false /\ length (issued c) = 1
    /\ Channel.log c = [LResponse OnIo 20 Status_default (bytes_of_string "pong")]
    /\ outgoing (Channel.socket_ c) = p_in ping_server) as (H1 & H2 & H3 & H4 & H5)
    by (vm_compute in Ec; by simplify_eq).
  destruct (go_demo_sv _) as [s|] eqn:Es; [|clear Ec; by vm_compute in Es].
  assert (go_answered_ping (p_in ping_server) s) as Ha.
  { clear Ec. vm_compute in Es. simplify_eq. split; [reflexivity|]. split; [reflexivity|]. by eexists. }
  destruct (go_one_request_small (p_in ping_server)) as [Hfa Hse].
  destruct (cpp_client_safety (demo_config Inline) _ _ c go_demo_server 0 _ s 0 Ec Es) as (_ & _ & Hout);
    [reflexivity|exact go_demo_header| |exact H1|exact H2|exact ping_small|by rw H3|exact Hfa|exact Hse
    |exact go_demo_server_small|].
  { assert (go_joined go_demo_server (go_one_request (p_in ping_server)) s 0 (p_in ping_client)
      (outgoing (Channel.socket_ c))) as Hj by (apply go_answered_joined; [exact Ha|by rw H5|reflexivity]).
    clear -Hj. repeat (apply Forall_cons_2; [exact I|]). apply Forall_cons_2.
    - intros sk sk' [= <-]. exact Hj.
    - repeat (apply Forall_cons_2; [exact I|]). apply Forall_nil_2. }
  destruct (Hout OnIo 20 Status_default (bytes_of_string "pong"))
    as [[? _]|(id & mid & req & i & addr & hdr & r & Hi & _ & Hin & _ & _ & E)]; [rw H4; left|discriminate|].
  exists id, i, addr, hdr, req, r. split; [exact Hi|]. split; [exact Hin|exact E].
Defined.

(** C9: calls of a Go channel to a Go server are safe and linearizable.  A Go
    channel whose connections lead to connections of a Go server, each end
    reading what the other has transmitted, in any interleaving of all
    goroutines, under the conditions of the two theorems before.  The requests
    the server executed are a run of the sequential service; those of the
    channel's connections are requests of the channel, each at most once; and
    what [AsyncUnaryCall] hands to a callback is an error without a payload,
    or what the response says that the server computed for this very call. *)
Theorem go_go_safety {A : Asio} `{!AsioStream A} {App}
    config ces (c : Go_channel) (cfg : Go_config App) app0 ses (s : Go_server App) route :
  run_events (Go_channel_step config) ces Go_CreateChannel = Some c ->
  run_events (Go_server_step cfg) ses (Go_start app0) = Some s ->
  go_HandshakeHeader config = sc_handshakeHeader cfg -> Forall no_frame_byte (go_HandshakeHeader config) ->
  (forall k conn0 conn, dialed ces !! k = Some conn0 -> go_conns c !! k = Some conn ->
     go_joined cfg ses s (route k) (incoming conn0) (outgoing conn)) ->
  Forall fresh_dial ces -> Forall small_go_call ces -> go_failed (go_history c) = [] ->
  (Z.of_nat (length (go_issued (go_history c))) <= 2 ^ 32)%Z ->
  Forall fresh_accept ses -> Forall small_event ses -> small_go_responses cfg ->
  cpp_serve_all cfg app0 ((sh_served (sv_history s)).*1).*2
    = Some (sv_app s, cpp_frame <$> (sh_served (sv_history s)).*2)
  /\ (forall k, k < length (go_conns c) -> (served_on (route k) (sv_history s)).*1 ⊆+ go_requests c k)
  /\ forall t st pay methodID request, (t, st, pay) ∈ go_delivered (go_history c) ->
     (t, CallUnary methodID request) ∈ go_callers (go_history c) ->
     (Go_IsOK st = false /\ pay = [])
     \/ exists k id i addr hdr r, (id, (t, k)) ∈ go_issued (go_history c)
        /\ (i, (addr, (hdr, request)), r) ∈ sh_served (sv_history s)
        /\ sh_requests (sv_history s) !! i = Some (route k, (hdr, request))
        /\ to_cpp hdr = to_cpp (request_hdr id methodID request)
        /\ (status_to_cpp st, pay) = response_of (cpp_frame r).
Proof.
  intros Hc Hs Hh Hb Hj Hfd Hsm Hg Hlen Hfa Hse Hsr. split; [by eapply go_sequential|].
  destruct (go_calls_safe config ces c Hc Hfd Hsm Hg Hlen (fun k => served_on (route k) (sv_history s)))
    as [Hcalls Hout].
  { intros k conn0 conn Hd Hcn. rw Hh in Hb *. eapply go_joined_served; try done. by eapply Hj. }
  split; [done|]. intros t st pay mid request Hd Hk.
  destruct (Hout t st pay mid request Hd Hk) as [?|(k & id & resp & Hi & _ & Hr & E)]; [by left|right].
  destruct (served_on_elem cfg app0 ses s Hs _ _ _ Hr) as (i & addr & hdr & payload & r & Hin & Hq & Er & ->).
  simplify_eq. exists k, id, i, addr, hdr, r. done.
Qed.

Lemma go_go_safety_witness :
  match go_demo go_demo_call, go_demo_sv (go_one_request go_ping) with
  | Some c, Some s => exists k id i addr hdr r, (id, (0, k)) ∈ go_issued (go_history c)
      /\ (i, (addr, (hdr, b8 "ping")), r) ∈ sh_served (sv_history s)
      /\ (Status_default, b8 "pong") = response_of (cpp_frame r)
  | _, _ => False
  end.
Proof.
  destruct (go_demo go_demo_call) as [c|] eqn:Ec; [|by vm_compute in Ec].
  destruct (go_demo_facts c Ec) as (H1 & H2 & H3 & H4 & conn & H5 & H6).
  destruct (go_demo_sv _) as [s|] eqn:Es; [|clear Ec; by vm_compute in Es].
  assert (go_answered_ping go_ping s) as Ha.
  { clear Ec H1 H2 H3 H4 H5 H6. vm_compute in Es. simplify_eq. split; [reflexivity|]. split; [reflexivity|].
    by eexists. }
  destruct (go_one_request_small go_ping) as [Hfa Hse]. destruct go_demo_small as [Hfd Hsm].
  destruct (go_go_safety go_demo_config _ c go_demo_server 0 _ s (fun k => k) Ec Es) as (_ & _ & Hout);
    [reflexivity|exact go_demo_header| |exact Hfd|exact Hsm|exact H1|by rw H2|exact Hfa|exact Hse
    |exact go_demo_server_small|].
  { intros [|k] conn0 conn1 Hd Hcn; [|by rw H5 in Hcn]. rw H5 in Hcn. injection Hd as <-. injection Hcn as <-.
    apply go_answered_joined; [exact Ha|by rw H6|reflexivity]. }
  destruct (Hout _ _ _ _ _ H3 H4) as [[? _]|(k & id & i & addr & hdr & r & Hid & Hin & _ & _ & E)];
    [discriminate|].
  exists k, id, i, addr, hdr, r. split; [exact Hid|]. split; [exact Hin|exact E].
Defined.
