(* ===== verification/GoInterop.v ===== *)
(** * GoInterop: calls between the two languages, end to end

    A Go client calls a C++ service and a C++ client calls a Go service,
    through the generated code, the channel, the bytes of the connection, the
    server and the generated handler, and back. *)

From S2P Require Import Prelude.
From S2P Require Import Status.
From S2P Require Import Frame.
From S2P Require Import MethodHash.
From S2P Require Import Transport.
From S2P Require Import Mpsc.
From S2P Require Import Session.
From S2P Require Import Proto.
From S2P Require Import Generator.
From S2P Require Import Channel.
From S2P Require Import ChannelCallbacks.
From S2P Require Import ChannelRequests.
From S2P Require Import EndToEnd.
From S2P Require Import GoFrame.
From S2P Require Import GoChannel.
From S2P Require Import GoServer.
From S2P Require Import GoServerRequests.
From S2P Require Import GoCompat.
From S2P Require Import GoProto.

Open Scope nat_scope.

(** ** Frames on a healthy connection *)

Lemma concat_one {X} (x : list X) : concat [x] = x.
Proof. apply app_nil_r. Qed.

Section Streams.
Context {A : Asio} `{!AsioStream A} `{!AsioReliable A}.
Implicit Types conn : socket.

Lemma Go_ReadFrame_one conn f rest :
  healthy conn -> frame_wf f -> incoming conn = encode_frame f ++ rest ->
  exists conn' hdr, Go_ReadFrame conn = (conn', inl (hdr, f.2)) /\ to_cpp hdr = f.1
    /\ healthy conn' /\ incoming conn' = rest /\ outgoing conn' = outgoing conn.
Proof.
  intros Hh Hwf Hin.
  destruct (ReadFrame_one conn f rest FrameHeader_default [] Hh Hwf Hin) as (s' & E & Hs).
  destruct (Go_ReadFrame_cpp conn FrameHeader_default) as (h & p & st & E' & Hm).
  rw E in E'. injection E' as Es Eh Ep Est. subst h p st.
  destruct (Go_ReadFrame conn) as [conn' [[gh gp]|e]]; simpl in *; [|done].
  destruct Hm as (Eh & Ep & _). subst. by eexists _, _.
Qed.

Lemma Go_handshake_stream config conn rest :
  healthy conn -> incoming conn = go_HandshakeHeader config ++ rest ->
  exists conn', Go_handshake config conn = (conn', None) /\ healthy conn'
    /\ incoming conn' = rest /\ outgoing conn' = outgoing conn ++ go_HandshakeHeader config.
Proof.
  intros Hh Hin. unfold Go_handshake. destruct (go_HandshakeHeader config) as [|b hs] eqn:Eh.
  { exists conn. by rw app_nil_r. }
  destruct (write_concat conn [b :: hs] Hh) as (c1 & E1 & Hh1 & Ho1 & Hin1). rw E1.
  destruct (read_take c1 (zeros (length (b :: hs)))) as (c2 & E2 & Hh2 & Hin2 & Ho2); [done|..].
  { rw length_zeros Hin1 Hin length_app. lia. }
  rw E2 length_zeros Hin1 Hin take_app_length bool_decide_false; [by intros []|].
  exists c2. rw length_zeros Hin1 Hin drop_app_length in Hin2.
  by rw Ho2 Ho1 concat_one.
Qed.
End Streams.

(** What a response frame means to the Go client. *)
Lemma Go_response_raw hdr p st b :
  response_of (to_cpp hdr, p) = raw_result st b ->
  Go_response_of hdr p
  = if ok st then (Go_StatusOK, b)
    else (Go_mkStatus (code_to_int (error_code st)) "remote error", []).
Proof.
  rw -Go_response_of_cpp. unfold raw_result, Go_response_of.
  destruct (ok st) eqn:E, (negb (go_StatusCode hdr =? Go_OK)%Z) eqn:En; intros H; cbn in H; unfold status_to_cpp in H; simplify_eq/=; [done|].
  by rw -H code_to_of_int.
Qed.

Lemma to_cpp_response hdr f : to_cpp hdr = f -> type f = kResponse -> go_Type hdr = Go_FrameResponse.
Proof. intros <- Ht. rw -(type_to_of_u8 (go_Type hdr)). simpl in Ht. by rw Ht. Qed.

(** ** One call on a fresh Go channel *)

(** The caller is goroutine 0, the reader goroutine 1. *)
Definition go_call_schedule {A : Asio} (mid : Z) (b : bytes) (conn : socket) : list Go_event :=
  [EAsyncUnaryCall mid b; EStep 0 0; EStep 0 0; EDial 0 (inl conn); EStep 0 0; EStep 0 0; EStep 0 0]
  ++ (if 0 <? length b then [EStep 0 0] else [])
  ++ [EStep 1 0; EStep 1 0; EStep 1 0; EStep 1 0].

Section GoCall.
Context {A : Asio} `{!AsioStream A} `{!AsioReliable A}.
Variable config : Go_ChannelConfig.

#[local] Abbreviation step_to s := (run_events_step _ _ _ _ s) (only parsing).

(** From the call to the request on the wire. *)
Lemma go_request_run mid b conn rest es :
  healthy conn -> incoming conn = go_HandshakeHeader config ++ rest -> outgoing conn = [] ->
  exists conn', run_events (Go_channel_step config)
      ([EAsyncUnaryCall mid b; EStep 0 0; EStep 0 0; EDial 0 (inl conn); EStep 0 0; EStep 0 0; EStep 0 0]
       ++ (if 0 <? length b then [EStep 0 0] else []) ++ es) Go_CreateChannel
    = run_events (Go_channel_step config) es
        (Go_mkChannel (Go_mkFields false true (Some 0) 1 2 {[1%Z := 0]}) None None [conn']
           [GDone; GRead 0 1]
           (Go_mkHistory [] [] [(0, CallUnary mid b)] [(1%Z, (0, 0))] []
              [(0, (request_hdr 1 mid b, b))] []))
    /\ healthy conn' /\ incoming conn' = rest
    /\ outgoing conn' = go_HandshakeHeader config ++ encode_go (request_hdr 1 mid b, b).
Proof.
  intros Hh Hin Ho.
  destruct (Go_handshake_stream config conn rest Hh Hin) as (c1 & E1 & Hh1 & Hin1 & Ho1).
  destruct (write_concat c1 [Go_Serialize (request_hdr 1 mid b)] Hh1) as (c2 & E2 & Hh2 & Ho2 & Hin2).
  destruct (write_concat c2 [b] Hh2) as (c3 & E3 & Hh3 & Ho3 & Hin3).
  rw Ho1 Ho app_nil_l concat_one in Ho2. rw Ho2 concat_one in Ho3.
  exists (if 0 <? length b then c3 else c2). split.
  - rw -!app_comm_cons app_nil_l.
    do 3 (eapply run_events_step; [reflexivity|]).
    eapply run_events_step; [rw /= E1; reflexivity|].
    do 2 (eapply run_events_step; [reflexivity|]).
    destruct (0 <? length b) eqn:El;
      (eapply run_events_step; [rw /= E2 El; reflexivity|]); [|done].
    eapply run_events_step; [rw /= E3; reflexivity|done].
  - rw encode_go_split. destruct (0 <? length b) eqn:El.
    + by rw Hin3 Hin2 Hin1 Ho3 -app_assoc.
    + apply Nat.ltb_ge, Nat.le_0_r, nil_length_inv in El. rw El in Ho2. rw El Hin2 Hin1 Ho2.
      by rw (app_nil_r (Go_Serialize _)).
Qed.

(** The response, which the callback of the call receives. *)
Lemma go_call_run mid b conn f :
  healthy conn -> outgoing conn = [] -> frame_wf f -> type f.1 = kResponse -> call_id f.1 = 1%Z ->
  incoming conn = go_HandshakeHeader config ++ encode_frame f ->
  exists s conn' hdr, run_events (Go_channel_step config) (go_call_schedule mid b conn) Go_CreateChannel
      = Some s
    /\ go_conns s = [conn'] /\ go_pending (go_fields s) = ∅ /\ to_cpp hdr = f.1
    /\ go_delivered (go_history s) = [(0, (Go_response_of hdr f.2).1, (Go_response_of hdr f.2).2)]
    /\ outgoing conn' = go_HandshakeHeader config ++ encode_go (request_hdr 1 mid b, b).
Proof.
  intros Hh Ho Hwf Ht Hid Hin.
  destruct (go_request_run mid b conn _ [EStep 1 0; EStep 1 0; EStep 1 0; EStep 1 0] Hh Hin Ho)
    as (c1 & Hrun & Hh1 & Hin1 & Ho1).
  rw -(app_nil_r (encode_frame f)) in Hin1.
  destruct (Go_ReadFrame_one c1 f [] Hh1 Hwf Hin1) as (c2 & hdr & E & Hhdr & _ & _ & Ho2).
  pose proof (to_cpp_response _ _ Hhdr Ht) as Hty.
  assert (go_CallID hdr = 1%Z) as Hcid by (by rw -Hid -Hhdr).
  unfold go_call_schedule. rw Hrun. eexists _, c2, hdr. split.
  - eapply run_events_step; [rw /= E /= Hty; reflexivity|].
    eapply run_events_step.
    { rw /= Hcid lookup_singleton_eq. rw (surjective_pairing (Go_response_of hdr f.2)). reflexivity. }
    eapply run_events_step; [reflexivity|]. eapply run_events_step; reflexivity.
  - simpl. by rw Ho2 Ho1 delete_singleton_eq.
Qed.
End GoCall.

(** ** One request at a fresh Go server *)

(** The connection's goroutine is 1 and the request's goroutine 2. *)
Definition go_serve_schedule {A : Asio} (header resp : bytes) (conn : socket) (addr : string)
    : list Go_server_event :=
  [SEAccept 0 (inl (conn, addr)); SEStep 0 0; SEStep 1 0]
  ++ (if header is [] then [] else [SEStep 1 0; SEStep 1 0])
  ++ [SEStep 1 0; SEStep 1 0; SEStep 2 0; SEStep 2 0]
  ++ (if 0 <? length resp then [SEStep 2 0] else [])
  ++ [SEStep 2 0; SEStep 2 0].

Section GoServe.
Context {A : Asio} `{!AsioStream A} `{!AsioReliable A} {App : Type}.
Variable b : Go_ServerBuilder App.
#[local] Abbreviation cfg := (Go_build b).
Hypothesis welcome : forall cb, gb_onHandshake b = Some cb -> cb (gb_handshakeHeader b) = true.

(** The state after the handshake, and its history. *)
Definition go_opened (app : App) (conn : socket) (addr : string) (l : list Go_server_log)
    (chunks : list (nat * Go_chunk)) : Go_server App :=
  Go_mkServer app (Go_mkControl {[1%Z := 0]} 2 0 false true 2 false) [Go_mkPeer 1 addr conn None 0]
    [SAccept; HRead 0] (Go_mkSHistory l [] [] [] [] chunks [] []).

Lemma go_handshake_accepted p :
  Go_check_handshake cfg p (gb_handshakeHeader b)
  = (true, if gb_onHandshake b is Some _ then [SLHandshake p true] else []).
Proof.
  unfold Go_check_handshake. rw bool_decide_false; [by intros []|]. simpl.
  by destruct (gb_onHandshake b); [rw welcome|].
Qed.

Lemma go_open_run app conn addr rest :
  healthy conn -> outgoing conn = [] -> incoming conn = gb_handshakeHeader b ++ rest ->
  exists conn' l chunks, (forall es, run_events (Go_server_step cfg)
      ([SEAccept 0 (inl (conn, addr)); SEStep 0 0; SEStep 1 0]
       ++ (if gb_handshakeHeader b is [] then [] else [SEStep 1 0; SEStep 1 0]) ++ es) (Go_start app)
    = run_events (Go_server_step cfg) es (go_opened app conn' addr l chunks))
    /\ healthy conn' /\ incoming conn' = rest /\ outgoing conn' = gb_handshakeHeader b.
Proof.
  intros Hh Ho Hin. pose proof (go_handshake_accepted 0) as Hacc.
  destruct (gb_handshakeHeader b) as [|x hs] eqn:Eh.
  { exists conn, (if gb_onConnect b then [SLConnect 0] else []), []. split; [|done].
    intros es. cbn [Datatypes.app]. do 2 (eapply run_events_step; [reflexivity|]).
    eapply run_events_step; [rw /= Eh; reflexivity|done]. }
  destruct (read_take conn (zeros (length (x :: hs)))) as (c1 & E1 & Hh1 & Hin1 & Ho1); [done|..].
  { rw length_zeros Hin length_app. lia. }
  rw length_zeros Hin take_app_length in E1. rw length_zeros Hin drop_app_length in Hin1.
  destruct (write_concat c1 [x :: hs] Hh1) as (c2 & E2 & Hh2 & Ho2 & Hin2).
  rw Ho1 Ho concat_one app_nil_l in Ho2.
  exists c2, ((if gb_onConnect b then [SLConnect 0] else [])
              ++ (if gb_onHandshake b is Some _ then [SLHandshake 0 true] else [])), [(0, ChunkHandshake)].
  split; [|by rw Hin2]. intros es. cbn [Datatypes.app].
  do 2 (eapply run_events_step; [reflexivity|]).
  eapply run_events_step; [rw /= Eh; reflexivity|].
  eapply run_events_step.
  { rw /= Eh E1 Hacc. reflexivity. }
  eapply run_events_step; [rw /= Eh E2 /=; reflexivity|]. done.
Qed.

(** A built server has a slot for the first request. *)
Lemma go_first_slot : exists n, take_slot cfg 0 = Some n.
Proof.
  unfold take_slot. simpl. destruct (Z.ltb_spec 0 (gb_maxConcurrent b)); [|by eexists].
  assert ((0 <? Z.to_nat (gb_maxConcurrent b)) = true) as -> by (apply Nat.ltb_lt; lia). by eexists.
Qed.

Lemma go_serve_run app conn addr l chunks f :
  healthy conn -> frame_wf f -> type f.1 = kRequest -> incoming conn = encode_frame f ->
  exists hdr, to_cpp hdr = f.1 /\ forall app' l' rh rp,
    Go_serveRequest cfg addr app hdr f.2 = (app', l', (rh, rp)) ->
    exists s peer, run_events (Go_server_step cfg)
        ([SEStep 1 0; SEStep 1 0; SEStep 2 0; SEStep 2 0]
         ++ (if 0 <? length rp then [SEStep 2 0] else []) ++ [SEStep 2 0; SEStep 2 0])
        (go_opened app conn addr l chunks) = Some s
      /\ sv_app s = app' /\ sv_threads s = [SAccept; HRead 0; SDone] /\ sv_peers s = [peer]
      /\ outgoing (gp_conn peer) = outgoing conn ++ encode_frame (to_cpp rh, rp).
Proof.
  intros Hh Hwf Ht Hin. rw -(app_nil_r (encode_frame f)) in Hin.
  destruct (Go_ReadFrame_one conn f [] Hh Hwf Hin) as (c1 & hdr & E1 & Hhdr & Hh1 & _ & Ho1).
  exists hdr. split; [done|]. intros app' l' rh rp Es.
  destruct (write_concat c1 [Go_Serialize rh] Hh1) as (c2 & E2 & Hh2 & Ho2 & _).
  destruct (write_concat c2 [rp] Hh2) as (c3 & E3 & _ & Ho3 & _).
  rw concat_one in Ho2. rw concat_one in Ho3.
  destruct go_first_slot as [slots Hslot].
  assert (go_Type hdr = Go_FrameRequest) as Hty.
  { rw -(type_to_of_u8 (go_Type hdr)). rw -Hhdr in Ht. simpl in Ht. by rw Ht. }
  rw -Ho1. change (encode_frame (to_cpp rh, rp)) with (encode_go (rh, rp)). rw encode_go_split.
  destruct (0 <? length rp) eqn:El; cbn [Datatypes.app]; eexists _, _; split.
  1, 3: eapply run_events_step; [rw /= E1 /= Hty; reflexivity|];
    (eapply run_events_step; [rw /= Hslot; reflexivity|]);
    (eapply run_events_step; [rw /= Es; reflexivity|]);
    (eapply run_events_step; [rw /= E2 /= El; reflexivity|]).
  - eapply run_events_step; [rw /= E3; reflexivity|]. by do 2 (eapply run_events_step; [reflexivity|]).
  - by do 2 (eapply run_events_step; [reflexivity|]).
  - do 3 (split; [reflexivity|]). by rw /= Ho3 Ho2 -(app_assoc (outgoing c1)).
  - do 3 (split; [reflexivity|]). apply Nat.ltb_ge, Nat.le_0_r, nil_length_inv in El.
    by rw El (app_nil_r (Go_Serialize rh)) -Ho2.
Qed.
End GoServe.

(** ** The generated Go service behind a server *)

Section GoService.
Context {Req Resp : Type} `{!Protobuf Req} `{!ProtobufLaws Req} `{!GoProtobuf Req} `{!WireFormat Req}.
Context `{!Protobuf Resp} `{!ProtobufLaws Resp} `{!GoProtobuf Resp} `{!WireFormat Resp} {App : Type}.

Lemma go_service_answers (cfg : Go_config App) addr hdr full (impl : Go_method Req Resp App)
    app b req app' st (resp : Resp) :
  sc_handlers cfg !! go_MethodID hdr = Some (Go_Register_handler full impl) ->
  is_u32 (go_CallID hdr) -> is_u32 (go_MethodID hdr) -> encodes b req -> Go_sendable st resp ->
  (forall ctx, exists ctx', impl app ctx req = (app', ctx', (Some resp, st))) ->
  exists l rh rp, Go_serveRequest cfg addr app hdr b = (app', l, (rh, rp))
    /\ frame_wf (to_cpp rh, rp) /\ type (to_cpp rh) = kResponse /\ call_id (to_cpp rh) = go_CallID hdr
    /\ (ok (status_to_cpp st) = true -> parses rp resp)
    /\ response_of (to_cpp rh, rp) = raw_result (status_to_cpp st) rp.
Proof.
  intros Hreg Hid Hmid Hb Hs Hi. unfold Go_serveRequest. rw Hreg.
  match goal with |- context [Go_Register_handler full impl app ?ctx b] =>
    destruct (Go_Register_handler_returns full impl app ctx b req app' st resp Hb Hs Hi)
      as (ctx' & b' & st' & E & Hc & Hr) end.
  rw E. unfold raw_result, Go_sendable, response_of, code_eqb in *. rw status_to_cpp_ok.
  assert (Go_IsOK st' = Go_IsOK st) as -> by (by rw /Go_IsOK Hc).
  destruct (Go_IsOK st) eqn:Eok; simpl; eexists _, _, _; (split; [done|]).
  - pose proof (encodes_u32 _ _ Hr) as Hu. simpl.
    split; [split; simpl; [constructor; simpl; try done; by rw u32_small|by rw u32_small]|].
    split; [done|]. split; [done|]. split; [|done]. intros _. by apply encodes_parses.
  - subst b'. simpl. rw Hc.
    split; [split; [constructor|]; simpl; try done; by rw u16_small|]. split; [done|]. split; [done|]. split; [done|].
    rw code_to_of_int u16_small //. unfold Go_IsOK in Eok. by rw Eok.
Qed.
End GoService.

(** ** Properties *)

(** C7: a Go client calls a C++ service.  The service's method is registered
    with a session under its identifier, the two ends agree on the handshake
    and the connections are healthy.  When the session has received what the
    Go channel sends, it runs the method once and answers; when the Go channel
    has received what the session sent, it has sent exactly what the session
    received, nothing is pending, and the generated client method makes of
    what [UnaryCall] returns the outcome of the method: its response, or the
    code of its error. *)
Theorem go_client_cpp_service {A : Asio} `{!AsioStream A} `{!AsioReliable A}
    {Req Resp : Type} `{!Protobuf Req} `{!ProtobufLaws Req} `{!GoProtobuf Req} `{!WireFormat Req}
    `{!Protobuf Resp} `{!ProtobufLaws Resp} `{!GoProtobuf Resp} `{!WireFormat Resp} {App : Type}
    (config : Go_ChannelConfig) (cfg : session_config App) (pkg svc name full : string)
    (method : App -> ServerContext -> Req -> Resp -> method_result App)
    (app app' : App) (req : Req) (st : Status) (resp : Resp) (ssock : socket) :
  go_HandshakeHeader config = handshake_header_ cfg ->
  nul_free (bytes_of_string (method_full_name pkg svc name)) ->
  handlers_ cfg !! method_hash (method_full_name pkg svc name) = Some (service_handler full method) ->
  serializable req -> sendable st resp ->
  (forall ctx, exists ctx', method app ctx req default_message = MethodReturned app' ctx' st resp) ->
  let mid := Go_MethodID pkg svc name in
  exists b, Go_Marshal (Some req) = inl b /\
  (healthy ssock -> outgoing ssock = [] -> gate cfg (incoming ssock) ->
   incoming ssock = handshake_header_ cfg ++ encode_go (request_hdr 1 mid b, b) ->
   exists s, run_events (session_step cfg) (open_events cfg ++ serve_events) (app, session_init ssock)
       = Some (app', s) /\ idle s /\
   forall conn, healthy conn -> outgoing conn = [] -> incoming conn = outgoing (Session.socket_ s) ->
     exists c conn' p st', run_events (Go_channel_step config) (go_call_schedule mid b conn)
           Go_CreateChannel = Some c
       /\ go_conns c = [conn'] /\ outgoing conn' = incoming ssock /\ go_pending (go_fields c) = ∅
       /\ Go_UnaryCall_result 0 c = Some (p, st')
       /\ forall trace, (Go_Client_method (Go_mkClientChannel (fun _ _ => (p, st')) trace)
                          mid full (Some req)).1
          = Go_result (Go_mkStatus (code_to_int (error_code st)) "") resp).
Proof.
  intros Hhs Hnul Hreg Hreq Hres Hm mid.
  assert (mid = method_hash (method_full_name pkg svc name)) as Emid by by apply Go_MethodID_cpp.
  destruct (go_writes req Hreq) as (b & Eb & Hb). exists b. split; [done|].
  intros Hh Ho Hg Hin. rw -Emid in Hreg.
  assert (is_u32 mid) as Hmid by (rw Emid; by apply fnv_loop_range).
  destruct (service_answers cfg mid full method Hreg Hmid app 1 b req app' st resp)
    as (l & [rh rp] & Hp & Hwf & Ht & Hid & Hr); [done|by apply encodes_parses|done|done|].
  destruct (open_run cfg ssock app _ Hh Hg Hin) as (s0 & Hrun0 & Hidle0 & _ & Hh0 & Hin0 & Ho0).
  rw Ho app_nil_l in Ho0. rw -(app_nil_r (encode_go _)) in Hin0.
  pose proof (encodes_u32 b req Hb) as Hu.
  destruct (serve_run cfg app s0 (request_header 1 mid b) b [] app' l rh rp Hidle0 Hh0)
    as (s1 & Hrun1 & Hidle1 & _ & _ & _ & Ho1); [|done|done|done|].
  { split; [constructor|]; simpl; rw ?u32_small //. }
  exists s1. split; [by rw run_events_app Hrun0|]. split; [done|].
  intros conn Hc Hco Hcin. rw Ho1 Ho0 -Hhs in Hcin.
  destruct (go_call_run config mid b conn (rh, rp) Hc Hco Hwf Ht Hid Hcin)
    as (c & conn' & hdr & Hrun2 & Hcs & Hpend & Hhdr & Hdel & Ho2).
  simpl in Hhdr. rw -Hhdr in Hr. apply Go_response_raw in Hr.
  exists c, conn', (Go_response_of hdr rp).2, (Go_response_of hdr rp).1. split; [done|].
  split; [done|]. split; [by rw Ho2 Hin Hhs|]. split; [done|].
  split; [by rw /Go_UnaryCall_result Hdel|]. intros trace. rw Hr.
  pose proof (Go_Client_method_result trace mid full req (Go_mkStatus (code_to_int (error_code st)) "")
    (wire_bytes resp) resp Hreq) as Hcl.
  change (Go_IsOK (Go_mkStatus (code_to_int (error_code st)) "")) with (ok st) in Hcl.
  unfold sendable in Hres. destruct (ok st); apply Hcl; [|done]. intros _. by apply cpp_writes.
Qed.

Lemma go_client_cpp_service_witness :
  let hi := bytes_of_string "hi" in
  let mid := Go_MethodID "demo.v1" "Doubler" "Double" in
  exists (conn : pipe) c p st',
    run_events (Go_channel_step (Go_default_config None)) (go_call_schedule mid hi conn) Go_CreateChannel
    = Some c
    /\ Go_UnaryCall_result 0 c = Some (p, st')
    /\ (Go_Client_method (Go_mkClientChannel (fun _ _ => (p, st')) true) mid "Doubler.Double" (Some hi)).1
       = (Some (hi ++ hi), Go_StatusOK).
Proof.
  intros hi mid.
  set (ssock := mkPipe (bytes_of_string "pc1" ++ encode_go (request_hdr 1 mid hi, hi)) [] None true).
  destruct (go_client_cpp_service (A := pipe_asio) (Go_default_config None) doubler_config "demo.v1"
    "Doubler" "Double" "Doubler.Double" doubler 0 1 hi Status_default (hi ++ hi) ssock) as (b & Eb & H);
    [reflexivity|vm_compute; set_solver|by apply lookup_singleton_eq|by vm_compute|by vm_compute
    |intros ctx; by exists ctx|].
  assert (hi = b) as <- by exact (f_equal (fun r => match r with inl b => b | inr _ => [] end) Eb).
  destruct H as (s & _ & _ & H); [by split|reflexivity| |reflexivity|].
  { split; [by eexists|done]. }
  destruct (H (mkPipe (p_out (Session.socket_ s)) [] None true))
    as (c & conn' & p & st' & Hrun & _ & _ & _ & Hres & Hcl); [by split|reflexivity|reflexivity|].
  exists (mkPipe (p_out (Session.socket_ s)) [] None true), c, p, st'.
  exact (conj Hrun (conj Hres (Hcl true))).
Defined.

(** C8: a C++ client calls a Go service.  The service's method is registered
    with the Go server under its identifier, the two ends agree on the
    handshake, which the server's callback accepts, and the connections are
    healthy.  When the server has received what the C++ channel sends, it runs
    the method once, answers and waits for the next request; when the channel
    has received what the server sent, it has sent exactly what the server
    received, nothing is pending, and the generated stub - callback, future
    and synchronous call alike - makes of the result the outcome of the
    method. *)
Theorem cpp_client_go_service {A : Asio} `{!AsioClient A} `{!AsioStream A} `{!AsioClientStream A}
    `{!AsioReliable A} {Q : Type} `{!Fifo Q Completion} `{!UnorderedIter ResponseCallback}
    {Req Resp : Type} `{!Protobuf Req} `{!ProtobufLaws Req} `{!GoProtobuf Req} `{!WireFormat Req}
    `{!Protobuf Resp} `{!ProtobufLaws Resp} `{!GoProtobuf Resp} `{!WireFormat Resp} {App : Type}
    (config : ChannelConfig) (bld : Go_ServerBuilder App) (pkg svc name full : string)
    (impl : Go_method Req Resp App) (ch : ChannelInterface)
    (app app' : App) (req : Req) (st : Go_Status) (resp : Resp) (sconn : socket) (addr : string) :
  dispatch config = Inline ->
  handshake_header config = gb_handshakeHeader bld ->
  (forall cb, gb_onHandshake bld = Some cb -> cb (gb_handshakeHeader bld) = true) ->
  nul_free (bytes_of_string (method_full_name pkg svc name)) ->
  sc_handlers (Go_build bld) !! Go_MethodID pkg svc name = Some (Go_Register_handler full impl) ->
  serializable req -> Go_sendable st resp ->
  (forall ctx, exists ctx', impl app ctx req = (app', ctx', (Some resp, st))) ->
  let mid := method_hash (method_full_name pkg svc name) in
  exists b text, Stub_async (Resp := Resp) ch mid req = inr (mid, b, text) /\
  (healthy sconn -> outgoing sconn = [] ->
   incoming sconn = gb_handshakeHeader bld ++ encode_frame (request_header 1 mid b, b) ->
   exists rp s peer, run_events (Go_server_step (Go_build bld))
         (go_serve_schedule (gb_handshakeHeader bld) rp sconn addr) (Go_start app) = Some s
     /\ sv_app s = app' /\ sv_threads s = [SAccept; HRead 0; SDone] /\ sv_peers s = [peer] /\
   forall csock0 csock eps t n, asio_connect csock0 eps = (csock, None) -> healthy csock ->
     incoming csock = outgoing (gp_conn peer) ->
     exists c : channel A Q,
       run_events (channel_step config) (call_schedule config t (OpCall mid b (Some n)) eps)
         (channel_init csock0) = Some c
       /\ outgoing (Channel.socket_ c) = incoming sconn /\ pending c = ∅ /\ callers c = ∅
       /\ exists rst rb, Channel.log c = [LResponse OnIo n rst rb]
         /\ (Stub_async_callback true (ci_Tracing ch) full text rst rb).1
            = Some (rpc_result (status_to_cpp st) resp)
         /\ AsyncUnaryCall_get (rst, rb) = rpc_result (status_to_cpp st) resp
         /\ forall resp0, (Stub_call (mkChannelInterface (fun _ _ r => UnaryCall_result (rst, rb) r)
                            (ci_Tracing ch)) mid full req resp0).1
            = (if Go_IsOK st then (Status_default, resp)
               else (mkStatus (code_of_int (go_Code st)) "remote error", resp0))).
Proof.
  intros Hinl Hhs Hcb Hnul Hreg Hreq Hres Hi mid.
  rw (Go_MethodID_cpp _ _ _ Hnul) in Hreg. change (method_hash _) with mid in Hreg.
  assert (is_u32 mid) as Hmid by by apply fnv_loop_range.
  eexists (wire_bytes req), _. split; [by rw /Stub_async SerializeProto_wire|].
  intros Hh Ho Hin. pose proof (cpp_writes req Hreq) as Hb.
  destruct (go_open_run bld Hcb app sconn addr _ Hh Ho Hin)
    as (c0 & l & chunks & Hrun0 & Hh0 & Hin0 & Ho0).
  assert (frame_wf (request_header 1 mid (wire_bytes req), wire_bytes req)) as Hrq.
  { by apply request_frame_wf. }
  destruct (go_serve_run bld app c0 addr l chunks _ Hh0 Hrq eq_refl Hin0) as (hdr & Hhdr & Hserve).
  assert (go_CallID hdr = 1%Z /\ go_MethodID hdr = mid) as [Hcid Hm] by by injection Hhdr.
  destruct (go_service_answers (Go_build bld) addr hdr full impl app (wire_bytes req) req app' st resp)
    as (l' & rh & rp & Hsv & Hwf & Ht & Hid & Hpr & Hr); rw ?Hm ?Hcid //.
  destruct (Hserve _ _ _ _ Hsv) as (s & peer & Hrun1 & Happ & Hts & Hps & Ho1).
  exists rp, s, peer. split; [by rw /go_serve_schedule Hrun0|]. do 3 (split; [done|]).
  intros csock0 csock eps t n Hc Hch Hcin. rw Ho1 Ho0 -Hhs in Hcin.
  rw -(app_nil_r (encode_frame _)) in Hcin.
  destruct (connect_run (Q := Q) config Hinl csock0 csock eps t (OpCall mid (wire_bytes req) (Some n))
    _ [CallerStep t; Channel.StrandStep; Channel.PumpStep; Channel.PumpStep; ReadStep] Hc Hch Hcin)
    as (sock' & Hrun2 & Hh2 & Hin2 & Ho2).
  rw Hcid in Hid.
  destruct (call_run (Q := Q) config Hinl sock' t mid (wire_bytes req) n (to_cpp rh, rp) []
    Hh2 Hwf Ht Hid Hin2) as (c & Hrun3 & Hlog & Ho3 & Hin3 & Hpend & Hcal).
  exists c. split; [rw /call_schedule Hrun2; exact Hrun3|].
  split; [by rw Ho3 Ho2 Hin Hhs|]. split; [done|]. split; [done|].
  rw Hr in Hlog. eexists _, _. split; [exact Hlog|].
  rw -surjective_pairing -status_to_cpp_ok. split; [by apply Stub_async_callback_raw|].
  split; [by apply AsyncUnaryCall_get_raw|]. intros resp0. by apply Stub_call_raw.
Qed.

Definition go_doubler (calls : nat) (ctx : ServerContext) (req : bytes)
    : nat * ServerContext * (option bytes * Go_Status) :=
  (S calls, ctx, (Some (req ++ req), Go_StatusOK)).

Definition go_doubler_server : Go_ServerBuilder nat :=
  Go_RegisterService
    [(Go_MethodID "demo.v1" "Doubler" "Double", Go_Register_handler "Doubler.Double" go_doubler)]
    Go_NewServerBuilder.

Lemma cpp_client_go_service_witness :
  let hi := bytes_of_string "hi" in
  exists (eps : list pipe) (c : channel pipe_asio (mpsc_fifo Completion)) rst rb,
    run_events (channel_step doubler_client)
      (call_schedule doubler_client 1 (OpCall (method_hash doubler_key) hi (Some 5)) eps)
      (channel_init (mkPipe [] [] None false)) = Some c
    /\ Channel.log c = [LResponse OnIo 5 rst rb]
    /\ AsyncUnaryCall_get (M := bytes) (rst, rb) = (Status_default, hi ++ hi).
Proof.
  intros hi.
  set (sconn := mkPipe (bytes_of_string "pc1"
    ++ encode_frame (request_header 1 (method_hash doubler_key) hi, hi)) [] None true).
  destruct (cpp_client_go_service (A := pipe_asio) (Q := mpsc_fifo Completion) doubler_client
    go_doubler_server "demo.v1" "Doubler" "Double" "Doubler.Double" go_doubler
    (mkChannelInterface (fun _ _ r => (Status_default, r)) true) 0 1 hi
    Go_StatusOK (hi ++ hi) sconn "127.0.0.1:5000") as (b & text & Eb & H);
    [reflexivity|reflexivity|done|vm_compute; set_solver|by apply lookup_insert_eq|by vm_compute
    |by vm_compute|intros ctx; by exists ctx|].
  assert (hi = b) as <-.
  { exact (f_equal (fun r => match r with inr (_, b, _) => b | inl _ => [] end) Eb). }
  destruct H as (rp & s & peer & _ & _ & _ & _ & H); [by split|reflexivity|reflexivity|].
  destruct (H (mkPipe [] [] None false) (mkPipe (p_out (gp_conn peer)) [] None true)
    [mkPipe (p_out (gp_conn peer)) [] None true] 1 5)
    as (c & Hrun & _ & _ & _ & rst & rb & Hlog & _ & Hget & _); [reflexivity|by split|reflexivity|].
  exists [mkPipe (p_out (gp_conn peer)) [] None true], c, rst, rb.
  exact (conj Hrun (conj Hlog Hget)).
Defined.
